(* ===== verification/_CoqProject ===== *)
-Q . S2P
Prelude.v
GoText.v
Strconv.v
QuoteSpec.v
Regex.v
Sqlparser.v
Values.v
Samples.v
Bind.v
BindSpec.v
AliasSpec.v
SelectPlan.v
SelectPlanSpec.v
Milvus.v
SampleMilvus.v
Session.v
SessionSpec.v
Ddl.v
DdlSpec.v
Insert.v
InsertSpec.v
Select.v
SelectSpec.v
Commands.v
IndexSpec.v
CommandsSpec.v
Query.v
QuerySpec.v
PgCodec.v
PgCodecSpec.v
Params.v
ParamsSpec.v
Postgres.v
PostgresSpec.v
PortalSpec.v
Mysql.v
MysqlSpec.v
Config.v
Server.v
ServerSpec.v
Cmd.v
CmdSpec.v
