(* ===== verification/Prelude.v ===== *)
(** * A verification development for the Milvus SQL proxy

    The proxy ([src/pkg], started by [src/cmd]) lets MySQL and PostgreSQL clients use
    a Milvus vector database: it parses their statements, plans them as calls of the
    Milvus SDK, and encodes the answers in the client's protocol.  This library is a
    shallow embedding of all of that Go code in Rocq, with the theorems that make it
    correct.  Definitions keep the names of the source; each comment names the
    function it translates.

    ** Parts, and the files that model them

    Text layer, below every component:
    - [Prelude]: outcomes ([Ok], [Err], [Panic]), their inversion lemmas, tactics
      and hint databases.
    - [GoText], [Strconv], [QuoteSpec], [Regex]: what the source uses of Go's
      [strings], [unicode/utf8], [strconv] and [regexp], on byte strings.

    Statements:
    - [Sqlparser]: the syntax trees of the third-party parser, as far as the proxy
      looks at them; its functions are the class [Sqlparser].
    - [Bind], [BindSpec] ([bind.go]): placeholders of statements replaced by
      literals; [AliasSpec]: type aliases rewritten ([normalizeTypes]).
    - [SelectPlan], [SelectPlanSpec] ([select_plan.go]): a SELECT checked and split
      into a scalar filter and a vector predicate.
    - [Values] ([conn_resultvalue.go]): row values, result sets, text encoding.

    Sessions, which run statements against Milvus:
    - [Milvus] ([types.go]): the calls of the SDK; the server is an oracle that
      answers a call after the calls before it.
    - [Session], [SessionSpec] ([conn.go], [use.go], [indexes.go]): the record
      [ClientConn], and the state and error monad [M] of the handlers.
    - [Ddl], [DdlSpec] ([ddl.go], [dbddl.go], [show.go]); [Insert], [InsertSpec]
      ([insert.go]); [Select], [SelectSpec] ([select.go]); [Commands], [IndexSpec],
      [CommandsSpec] ([commands.go]): the handlers of each kind of statement.
      [IndexSpec] says which index the options of a CREATE INDEX describe,
      [CommandsSpec] how each command is spelled and which call it asks for.
    - [Query], [QuerySpec] ([conn_query.go], [conn.go]): recognising, filtering and
      dispatching a statement; [Execute] and [Describe].

    Protocols and the process:
    - [PgCodec], [PgCodecSpec] ([postgres.go], from line 334): values, formats, tags.
    - [Params], [ParamsSpec] ([parameters.go]): the types of statement parameters.
    - [Postgres], [PostgresSpec], [PortalSpec] ([postgres.go]): startup,
      authentication and the message loop, in a monad [W] over the connection.
    - [Mysql], [MysqlSpec] ([mysql.go]): the methods the MySQL library calls.
    - [Config], [Server], [ServerSpec] ([config.go], [server.go]): configuration,
      and the life cycle of the server as an interleaving of its goroutines.
    - [Cmd], [CmdSpec] ([cmd/milvus-sql.go]): flags, logger, start.
    - [Samples], [SampleMilvus]: concrete parameters, for the witnesses only.

    A client's message goes down this list backwards: [pgStep] or [mysqlCommandM]
    binds the parameters ([bindSQL]) and calls [Execute] or [Describe]; [handleQuery]
    recognises a Milvus command or parses the statement and calls its handler, which
    makes calls ([invoke]) and leaves a [Result] in the session; the protocol encodes
    it.

    ** What the theorems show

    - Parameters cannot change a statement: [bindSQL] is "lex, then render"; a bound
      string is one literal that reads back as the string, so the tokens around it
      stay, in both dialects; type aliases are rewritten in CREATE TABLE and nowhere
      else.
    - A Milvus command makes exactly the call it spells, with the names where the
      statement has them; every other statement is passed on; an index is sent
      exactly when its options describe one.
    - SELECT means what it says: splitting WHERE keeps its meaning, every predicate
      accepted is rendered and the others refused, the calls and rows are those of
      the plan, pages are bounded without overflow.
    - Data definition and manipulation: the schemas accepted are exactly the
      well-formed ones; the columns sent are the rows transposed and converted, in
      range; INSERT and DELETE make at most one change, DELETE never without filter;
      a table with a TEXT column is created, and takes no INSERT.
    - Sessions: every statement ends without panic; the session's database is the
      one Milvus uses; a describe only reads schemas.
    - PostgreSQL: no message crashes a connection, whose invariant bounds what it
      keeps; a batch gets at most one error and exactly one [ReadyForQuery]; paging
      sends every row once; the two query protocols agree; no session without the
      password; values survive a round trip; parameters are decoded exactly when
      their bytes encode a value of their type.
    - MySQL: the same of its commands; a prepared statement runs with the parameters
      it announced or not at all.
    - The server: it starts with the listeners of its mode or keeps none; after
      [Close] nothing is accepted or started and every connection is cancelled and
      closed.  In [Server] the steps of the server's own goroutines ([own_step]) are
      apart from those that need a client, Milvus or another goroutine
      ([outer_step]), and a connection waits for its client or for Milvus: a closed
      server winds down by its own steps, whatever the interleaving, because
      [Close] ends both waits; [Run] returns only when nothing is left.

    Reasoning on handlers is by walking through them: [obeys] carries a relation on
    sessions through [M] and [obeysW] through [W], [safe] excludes panics, and [goodW]
    is a triple for the PostgreSQL handlers.

    ** Bounds and fuel

    Integers are [Z] with the ranges of their Go types; [wrap] writes wrap-around out
    where the source adds.  Loops are structural, but for those over text that
    consume a token at a time ([bindLoop], [normLoop], [parseFlags]): their fuel is
    the length of the text or list, of which every iteration takes some.
    [handleQuery] calls itself only for UPSERT, which it rewrites to REPLACE: two
    levels are enough ([handleQuery_fuel]).

    ** Parameters, and what is not modelled

    The SQL parser, the SDK and its server, JSON, YAML, floating-point conversions,
    Unicode tables, regular-expression compilation, TLS, sockets and the row builder
    of the MySQL library are parameters, with the documented behaviour the theorems
    rely on as laws ([SqlparserLaws], [SqlparserTypes], [VendorLaws],
    [UpstreamLaws], [GoFloatLaws], with the range of a float32 parsed at 32 bits,
    [HackLaws] of the byte slices of the MySQL library, [UnicodeLaws],
    [SimpleResultsetLaws]); floats are bit patterns.  Contexts, timeouts, deadlines
    and flush errors are left out: a timeout is an error of the oracle, and a failed
    read or write is the end of a connection.  Logging text, the handshake of MySQL
    ([serveMySQL] is the library's loop), [main] and tests are not modelled. *)
From stdpp Require Export base decidable option list gmap strings.
From Stdlib Require Export ZArith Lia.
From Stdlib Require Strings.Ascii Strings.String.
Export Stdlib.Strings.Ascii (ascii(..), N_of_ascii, ascii_of_N, N_ascii_embedding, ascii_N_embedding,
  N_ascii_bounded).
Export (notations) Stdlib.Strings.Ascii.
Delimit Scope char_scope with char.

Declare Scope go_scope.
Delimit Scope go_scope with go.

(** ** Outcomes of Go code

    A Go function that returns [(T, error)] returns [Ok v], or [Err e] when the
    error is not nil (the value beside a non-nil error is dropped: every caller
    in the program ignores it).  [Panic] is a run-time panic: a failed type
    assertion or an index out of range. *)
Inductive outcome (E A : Type) :=
| Ok (a : A)
| Err (e : E)
| Panic (why : string).
Arguments Ok {_ _} _.
Arguments Err {_ _} _.
Arguments Panic {_ _} _.

(** Errors of the pure layer are their messages ([fmt.Errorf]). *)
Abbreviation res := (outcome string).

#[export] Instance outcome_ret {E} : MRet (outcome E) := fun A a => Ok a.
#[export] Instance outcome_bind {E} : MBind (outcome E) := fun A B f c =>
  match c with
  | Ok a => f a
  | Err e => Err e
  | Panic w => Panic w
  end.
#[export] Instance outcome_fmap {E} : FMap (outcome E) := fun A B f c =>
  match c with
  | Ok a => Ok (f a)
  | Err e => Err e
  | Panic w => Panic w
  end.

(** A third-party or standard function that returns an error never panics here:
    it answers a sum, which [of_sum] turns into an outcome. *)
Definition of_sum {E A} (c : E + A) : outcome E A :=
  match c with inl e => Err e | inr a => Ok a end.

(** Rewriting the error of a computation, as [fmt.Errorf("...: %w", err)] does. *)
Definition map_err {E F A} (f : E -> F) (c : outcome E A) : outcome F A :=
  match c with
  | Ok a => Ok a
  | Err e => Err (f e)
  | Panic w => Panic w
  end.

(** [if c { return nil, e }] *)
Definition guard_err {E} (c : bool) (e : E) : outcome E unit :=
  if c then Err e else Ok tt.

Definition is_ok {E A} (c : outcome E A) : bool :=
  match c with Ok _ => true | _ => false end.

Definition is_panic {E A} (c : outcome E A) : bool :=
  match c with Panic _ => true | _ => false end.

Definition isSome {A} (o : option A) : bool :=
  match o with Some _ => true | None => false end.
Definition isNone {A} (o : option A) : bool := negb (isSome o).
Definition nonempty {A} (l : list A) : bool :=
  match l with [] => false | _ => true end.

(** ** Inversion lemmas *)
Section outcome_lemmas.
Context {E : Type}.

Lemma bind_Ok {A B} (c : outcome E A) (f : A -> outcome E B) b :
  c ≫= f = Ok b <-> exists a, c = Ok a /\ f a = Ok b.
Proof. destruct c; cbn; naive_solver. Qed.

Lemma bind_Err {A B} (c : outcome E A) (f : A -> outcome E B) e :
  c ≫= f = Err e <-> c = Err e \/ exists a, c = Ok a /\ f a = Err e.
Proof. destruct c; cbn; naive_solver. Qed.

Lemma fmap_Ok {A B} (c : outcome E A) (f : A -> B) b :
  f <$> c = Ok b <-> exists a, c = Ok a /\ b = f a.
Proof. destruct c; cbn; naive_solver. Qed.

Lemma map_err_Ok {F A} (g : E -> F) (c : outcome E A) a :
  map_err g c = Ok a <-> c = Ok a.
Proof. destruct c; cbn; naive_solver. Qed.

Lemma guard_err_Ok (c : bool) (e : E) u :
  guard_err c e = Ok u <-> c = false.
Proof. destruct c, u; cbn; split; congruence. Qed.

Lemma bind_no_panic {A B} (c : outcome E A) (f : A -> outcome E B) :
  is_panic c = false -> (forall a, c = Ok a -> is_panic (f a) = false) ->
  is_panic (c ≫= f) = false.
Proof. destruct c; cbn; naive_solver. Qed.

Lemma fmap_no_panic {A B} (c : outcome E A) (f : A -> B) :
  is_panic (f <$> c) = is_panic c.
Proof. by destruct c. Qed.

Lemma of_sum_no_panic {A} (c : E + A) : is_panic (of_sum c) = false.
Proof. by destruct c. Qed.

Lemma of_sum_Ok {A} (c : E + A) a : of_sum c = Ok a <-> c = inr a.
Proof. destruct c; cbn; naive_solver. Qed.

Lemma map_err_no_panic {F A} (g : E -> F) (c : outcome E A) :
  is_panic (map_err g c) = is_panic c.
Proof. by destruct c. Qed.

Lemma guard_err_no_panic (c : bool) (e : E) : is_panic (guard_err c e) = false.
Proof. by destruct c. Qed.

Lemma mapM_Ok {A B} (f : A -> outcome E B) (l : list A) k :
  mapM f l = Ok k <-> Forall2 (fun x y => f x = Ok y) l k.
Proof.
  revert k; induction l as [|x l IH]; intros k; cbn.
  - split; [intros [= <-]; constructor | by inversion 1].
  - rewrite bind_Ok. setoid_rewrite bind_Ok. setoid_rewrite IH. split.
    + intros (y & Hy & ys & Hys & [= <-]). by constructor.
    + inversion 1; subst. eauto 6.
Qed.

Lemma mapM_no_panic {A B} (f : A -> outcome E B) (l : list A) :
  (forall x, x ∈ l -> is_panic (f x) = false) -> is_panic (mapM f l) = false.
Proof.
  induction l as [|x l IH]; intros Hf; cbn; [done|].
  apply bind_no_panic; [apply Hf; set_solver|]. intros y _.
  apply bind_no_panic; [apply IH; set_solver|]. done.
Qed.
End outcome_lemmas.

Create HintDb go discriminated.
Create Rewrite HintDb go.
#[export] Hint Resolve of_sum_no_panic guard_err_no_panic bind_no_panic mapM_no_panic : go.
#[export] Hint Rewrite @of_sum_Ok @bind_Ok @fmap_Ok @map_err_Ok @guard_err_Ok : go.

(** ** Automation *)

(** Open a hypothesis [computation = Ok v] into its successful steps. *)
Ltac inv_ok :=
  repeat match goal with
  | H : Ok _ = Ok _ |- _ => injection H; clear H; intros; try subst
  | H : Err _ = Ok _ |- _ => discriminate H
  | H : Panic _ = Ok _ |- _ => discriminate H
  | H : mret _ = Ok _ |- _ => injection H; clear H; intros; try subst
  | H : _ ≫= _ = Ok _ |- _ =>
      let x := fresh "x" in let Hx := fresh "Hx" in
      apply bind_Ok in H as (x & Hx & H)
  | H : _ <$> _ = Ok _ |- _ =>
      let x := fresh "x" in let Hx := fresh "Hx" in
      apply fmap_Ok in H as (x & Hx & H)
  | H : map_err _ _ = Ok _ |- _ => apply map_err_Ok in H
  | H : guard_err _ _ = Ok _ |- _ => apply guard_err_Ok in H
  | H : @eq (outcome _ unit) _ (Ok _) |- _ => progress cbn in H
  end.

(** Boolean hypotheses to propositions. *)
Ltac bool_to_prop :=
  repeat match goal with
  | H : _ && _ = true |- _ => apply andb_prop in H as [??]
  | H : _ || _ = false |- _ => apply orb_false_elim in H as [??]
  | H : negb _ = true |- _ => apply negb_true_iff in H
  | H : negb _ = false |- _ => apply negb_false_iff in H
  | H : (_ <? _)%Z = true |- _ => apply Z.ltb_lt in H
  | H : (_ <? _)%Z = false |- _ => apply Z.ltb_ge in H
  | H : (_ >? _)%Z = true |- _ => rewrite Z.gtb_ltb in H; apply Z.ltb_lt in H
  | H : (_ >? _)%Z = false |- _ => rewrite Z.gtb_ltb in H; apply Z.ltb_ge in H
  | H : (_ <=? _)%Z = true |- _ => apply Z.leb_le in H
  | H : (_ <=? _)%Z = false |- _ => apply Z.leb_gt in H
  | H : (_ >=? _)%Z = true |- _ => rewrite Z.geb_leb in H; apply Z.leb_le in H
  | H : (_ >=? _)%Z = false |- _ => rewrite Z.geb_leb in H; apply Z.leb_gt in H
  | H : (_ <=? _)%nat = true |- _ => apply Nat.leb_le in H
  | H : (_ <=? _)%nat = false |- _ => apply Nat.leb_gt in H
  | H : (_ =? _)%Z = true |- _ => apply Z.eqb_eq in H
  | H : (_ =? _)%Z = false |- _ => apply Z.eqb_neq in H
  | H : (_ =? _)%nat = true |- _ => apply Nat.eqb_eq in H
  | H : (_ =? _)%nat = false |- _ => apply Nat.eqb_neq in H
  | H : String.eqb _ _ = true |- _ => apply String.eqb_eq in H
  | H : String.eqb _ _ = false |- _ => apply String.eqb_neq in H
  | H : Ascii.eqb _ _ = true |- _ => apply Ascii.eqb_eq in H
  | H : Ascii.eqb _ _ = false |- _ => apply Ascii.eqb_neq in H
  | H : bool_decide _ = true |- _ => apply bool_decide_eq_true_1 in H
  | H : bool_decide _ = false |- _ => apply bool_decide_eq_false_1 in H
  end.

(** Split every [match]/[if] of a hypothesis, closing the impossible cases. *)
Ltac split_hyp H :=
  repeat (case_match; simplify_eq/=; try discriminate H).

(** ** Strings: generic lemmas *)

Notation "s =?s t" := (String.eqb s t) (at level 70, no associativity) : go_scope.
Notation "a =?c b" := (Ascii.eqb a b) (at level 70, no associativity) : go_scope.

Section string_lemmas.
Lemma string_app_cons c s t : String c s +:+ t = String c (s +:+ t).
Proof. done. Qed.

Lemma string_app_nil_r s : s +:+ "" = s.
Proof. induction s as [|c s IH]; [done|]. by rewrite string_app_cons, IH. Qed.

Lemma string_app_assoc s t u : s +:+ t +:+ u = (s +:+ t) +:+ u.
Proof. induction s as [|c s IH]; [done|]. by rewrite !string_app_cons, IH. Qed.

Lemma string_length_app s t :
  String.length (s +:+ t) = (String.length s + String.length t)%nat.
Proof. induction s as [|c s IH]; [done|]. rewrite string_app_cons. cbn. by rewrite IH. Qed.

Lemma string_app_inj s t u : s +:+ t = s +:+ u -> t = u.
Proof. induction s as [|c s IH]; [done|]. rewrite !string_app_cons. intros [= H]. auto. Qed.
End string_lemmas.

(** Concatenation of a list of strings. *)
Definition concat_all (l : list string) : string :=
  foldr String.append "" l.

Lemma concat_all_app l k : concat_all (l ++ k) = concat_all l +:+ concat_all k.
Proof.
  induction l as [|s l IH]; [done|]. cbn [concat_all foldr app].
  fold (concat_all (l ++ k)). fold (concat_all l).
  by rewrite IH, string_app_assoc.
Qed.

Lemma concat_all_cons s l : concat_all (s :: l) = s +:+ concat_all l.
Proof. done. Qed.

#[export] Hint Rewrite string_app_nil_r string_length_app concat_all_app
  concat_all_cons : go.
