(* ===== verification/GoText.v ===== *)
(** * The parts of Go's standard library that the proxy's text handling uses

    Go strings are byte strings: they are modelled by [string], one [ascii] per
    byte.  The file models [unicode/utf8] decoding and encoding, and the
    functions of [strings] and [strconv] the proxy calls.  The Unicode tables
    (upper and lower case and printability of code points above U+007F) are a
    parameter, [UnicodeTables]: the model never inspects them. *)
From S2P Require Import Prelude.
Open Scope Z_scope.

(** ** Bytes *)

(** The numeric value of a byte. *)
Definition zc (c : ascii) : Z := Z.of_N (N_of_ascii c).
(** [byte(n)], modulo 256. *)
Definition chr (n : Z) : ascii := ascii_of_N (Z.to_N (n mod 256)).

Definition between (lo hi n : Z) : bool := (lo <=? n) && (n <=? hi).

Definition is_digit (c : ascii) : bool := between 48 57 (zc c).
Definition is_lower (c : ascii) : bool := between 97 122 (zc c).
Definition is_upper (c : ascii) : bool := between 65 90 (zc c).

Lemma zc_range c : 0 <= zc c < 256.
Proof.
  unfold zc. pose proof (N_ascii_bounded c). lia.
Qed.

Lemma chr_zc c : chr (zc c) = c.
Proof.
  unfold chr. rewrite Z.mod_small by apply zc_range. unfold zc.
  rewrite N2Z.id. apply ascii_N_embedding.
Qed.

Lemma zc_chr n : 0 <= n < 256 -> zc (chr n) = n.
Proof.
  intros H. unfold zc, chr. rewrite Z.mod_small by done.
  rewrite N_ascii_embedding by lia. lia.
Qed.

Lemma zc_inj c d : zc c = zc d -> c = d.
Proof. intros H. by rewrite <- (chr_zc c), <- (chr_zc d), H. Qed.

(** ** [unicode/utf8] *)

(** A rune of a Go string with the bytes it was decoded from.  An invalid byte
    decodes to U+FFFD with width one. *)
Record rune := mk_rune { rn : Z; raw : string }.

Definition runeError : Z := 65533.

Definition str1 (a : ascii) : string := String a "".
Definition str2 (a b : ascii) : string := String a (str1 b).
Definition str3 (a b c : ascii) : string := String a (str2 b c).
Definition str4 (a b c d : ascii) : string := String a (str3 b c d).

Lemma str1_app a s : str1 a +:+ s = String a s.
Proof. done. Qed.
Lemma str2_app a b s : str2 a b +:+ s = String a (String b s).
Proof. done. Qed.

Definition is_cont (c : ascii) : bool := between 128 191 (zc c).

(** The second byte's range depends on the first ([utf8.acceptRanges]). *)
Definition accept3 (a b : ascii) : bool :=
  between (if zc a =? 224 then 160 else 128) (if zc a =? 237 then 159 else 191) (zc b).
Definition accept4 (a b : ascii) : bool :=
  between (if zc a =? 240 then 144 else 128) (if zc a =? 244 then 143 else 191) (zc b).

Definition rune2 (a b : ascii) : Z := (zc a - 192) * 64 + (zc b - 128).
Definition rune3 (a b c : ascii) : Z :=
  (zc a - 224) * 4096 + (zc b - 128) * 64 + (zc c - 128).
Definition rune4 (a b c d : ascii) : Z :=
  (zc a - 240) * 262144 + (zc b - 128) * 4096 + (zc c - 128) * 64 + (zc d - 128).

(** [for _, r := range s]: the runes of [s] in order. *)
Fixpoint runes (s : string) : list rune :=
  match s with
  | EmptyString => []
  | String a s1 =>
      if zc a <? 128 then mk_rune (zc a) (str1 a) :: runes s1
      else match s1 with
      | String b s2 =>
          if between 194 223 (zc a) && is_cont b
          then mk_rune (rune2 a b) (str2 a b) :: runes s2
          else match s2 with
          | String c s3 =>
              if between 224 239 (zc a) && accept3 a b && is_cont c
              then mk_rune (rune3 a b c) (str3 a b c) :: runes s3
              else match s3 with
              | String d s4 =>
                  if between 240 244 (zc a) && accept4 a b && is_cont c && is_cont d
                  then mk_rune (rune4 a b c d) (str4 a b c d) :: runes s4
                  else mk_rune runeError (str1 a) :: runes s1
              | EmptyString => mk_rune runeError (str1 a) :: runes s1
              end
          | EmptyString => mk_rune runeError (str1 a) :: runes s1
          end
      | EmptyString => mk_rune runeError (str1 a) :: runes s1
      end
  end.

(** The bytes of a list of runes. *)
Definition bytes_of (l : list rune) : string := concat_all (map raw l).

(** [utf8.AppendRune]; surrogates and values out of range become U+FFFD. *)
Definition encodeRune (r : Z) : string :=
  if (0 <=? r) && (r <? 128) then str1 (chr r)
  else if (0 <=? r) && (r <? 2048) then str2 (chr (192 + r / 64)) (chr (128 + r mod 64))
  else if (r <? 0) || (r >? 1114111) || between 55296 57343 r
  then str3 (chr 239) (chr 191) (chr 189)
  else if r <? 65536
  then str3 (chr (224 + r / 4096)) (chr (128 + r / 64 mod 64)) (chr (128 + r mod 64))
  else str4 (chr (240 + r / 262144)) (chr (128 + r / 4096 mod 64))
            (chr (128 + r / 64 mod 64)) (chr (128 + r mod 64)).

(** Strong induction on the length of a string, for functions that look ahead. *)
Lemma string_len_ind (P : string -> Prop) :
  (forall s, (forall t, (String.length t < String.length s)%nat -> P t) -> P s) ->
  forall s, P s.
Proof.
  intros IH s. remember (String.length s) as n eqn:Hn. revert s Hn.
  induction n as [n IHn] using lt_wf_ind. intros s ->. apply IH.
  intros t Ht. by eapply IHn.
Qed.

Lemma bytes_of_cons r l : bytes_of (r :: l) = raw r +:+ bytes_of l.
Proof. done. Qed.

Lemma bytes_of_app l k : bytes_of (l ++ k) = bytes_of l +:+ bytes_of k.
Proof. unfold bytes_of. by rewrite map_app, concat_all_app. Qed.

(** Decoding loses nothing. *)
Lemma bytes_of_runes s : bytes_of (runes s) = s.
Proof.
  induction s as [s IH] using string_len_ind.
  destruct s as [|a s1]; [done|]. cbn [runes].
  repeat case_match; subst; rewrite bytes_of_cons, IH by (cbn; lia); done.
Qed.

(** ASCII text decodes byte by byte. *)
Fixpoint is_ascii (s : string) : bool :=
  match s with
  | EmptyString => true
  | String c s' => (zc c <? 128) && is_ascii s'
  end.

Lemma runes_ascii_cons a s :
  zc a < 128 -> runes (String a s) = mk_rune (zc a) (str1 a) :: runes s.
Proof. intros H. cbn [runes]. by rewrite (proj2 (Z.ltb_lt _ _) H). Qed.

(** A run of ASCII bytes in front of any text decodes on its own. *)
Lemma runes_ascii_app s t : is_ascii s = true -> runes (s +:+ t) = runes s ++ runes t.
Proof.
  induction s as [|a s IH]; [done|]. rewrite string_app_cons. cbn [is_ascii].
  intros [Ha Hs]%andb_prop. apply Z.ltb_lt in Ha.
  rewrite !runes_ascii_cons by done. by rewrite IH.
Qed.

Ltac byte_arith :=
  unfold accept3, accept4, is_cont, between, rune2, rune3, rune4, runeError in *;
  repeat match goal with
  | H : _ && _ = true |- _ => apply andb_prop in H as [? ?]
  | H : (_ <=? _) = true |- _ => apply Z.leb_le in H
  | H : (_ <? _) = false |- _ => apply Z.ltb_ge in H
  | H : (_ <? _) = true |- _ => apply Z.ltb_lt in H
  end.

(** A rune below U+0080 is one byte. *)
Lemma runes_head_ascii s x l :
  runes s = x :: l -> rn x < 128 ->
  exists c s', s = String c s' /\ zc c = rn x /\ x = mk_rune (zc c) (str1 c) /\ l = runes s'.
Proof.
  destruct s as [|a s1]; [done|]. cbn [runes]. intros H Hx.
  destruct (zc a <? 128) eqn:Ha; [injection H as <- <-; eauto 6|].
  exfalso. repeat (case_match; simplify_eq/=); byte_arith; try lia.
  all: repeat match goal with H : context [if ?c then _ else _] |- _ => destruct c eqn:? end;
    rewrite ?Z.eqb_eq, ?Z.eqb_neq in *; lia.
Qed.

(** ** [unicode]: tables for the code points above U+007F *)
Class UnicodeTables := {
  uniUpper : Z -> Z;
  uniLower : Z -> Z;
  uniPrint : Z -> bool
}.

(** What the proofs rely on: the upper case of U+017F, which folds to [s], is [S]. *)
Class UnicodeLaws (U : UnicodeTables) := { upper_long_s : uniUpper 383 = 83 }.

(** [unicode.IsSpace] *)
Definition isSpace (r : Z) : bool :=
  between 9 13 r || (r =? 32) || (r =? 133) || (r =? 160) || (r =? 5760)
  || between 8192 8202 r || (r =? 8232) || (r =? 8233) || (r =? 8239)
  || (r =? 8287) || (r =? 12288).

(** ** [strings] *)

Definition hasPrefix (s p : string) : bool := String.prefix p s.

Fixpoint drop_str (n : nat) (s : string) : string :=
  match n, s with
  | O, _ => s
  | S n, String _ s => drop_str n s
  | S _, EmptyString => ""
  end.

Definition trimPrefix (s p : string) : string :=
  if String.prefix p s then drop_str (String.length p) s else s.

Fixpoint hasSuffix (s x : string) : bool :=
  (s =?s x)%go || match s with EmptyString => false | String _ s' => hasSuffix s' x end.

Fixpoint trimSuffix (s x : string) : string :=
  if (s =?s x)%go then ""
  else match s with EmptyString => "" | String c s' => String c (trimSuffix s' x) end.

(** [strings.TrimSpace] *)
Fixpoint trimLeftSpace (l : list rune) : list rune :=
  match l with
  | r :: l' => if isSpace (rn r) then trimLeftSpace l' else l
  | [] => []
  end.
Definition trimSpaceRunes (l : list rune) : list rune :=
  reverse (trimLeftSpace (reverse (trimLeftSpace l))).
Definition trimSpace (s : string) : string := bytes_of (trimSpaceRunes (runes s)).

(** [strings.Fields] *)
Fixpoint fieldsRunes (l : list rune) (cur : list rune) : list string :=
  match l with
  | [] => match cur with [] => [] | _ => [bytes_of (reverse cur)] end
  | r :: l' =>
      if isSpace (rn r)
      then match cur with
           | [] => fieldsRunes l' []
           | _ => bytes_of (reverse cur) :: fieldsRunes l' []
           end
      else fieldsRunes l' (r :: cur)
  end.
Definition fields (s : string) : list string := fieldsRunes (runes s) [].

(** [strings.ToUpper] and [strings.ToLower]: rune by rune, so an invalid byte
    becomes the encoding of U+FFFD once a non-ASCII byte is present. *)
Section case.
Context `{U : UnicodeTables}.

Definition upperRune (r : Z) : Z :=
  if r <? 128 then (if between 97 122 r then r - 32 else r) else uniUpper r.
Definition lowerRune (r : Z) : Z :=
  if r <? 128 then (if between 65 90 r then r + 32 else r) else uniLower r.

Definition toUpper (s : string) : string :=
  concat_all (map (fun r => encodeRune (upperRune (rn r))) (runes s)).
Definition toLower (s : string) : string :=
  concat_all (map (fun r => encodeRune (lowerRune (rn r))) (runes s)).
End case.

(** Simple case folding of a rune against an ASCII letter: besides the other
    case, U+017F folds to [s] and U+212A folds to [k]. *)
Definition asciiLower (c : Z) : Z := if between 65 90 c then c + 32 else c.
Definition foldEq (r c : Z) : bool :=
  if r <? 128 then asciiLower r =? asciiLower c
  else ((r =? 383) && (asciiLower c =? 115)) || ((r =? 8490) && (asciiLower c =? 107)).

(** [strings.EqualFold(s, t)] for an ASCII [t]. *)
Fixpoint equalFoldRunes (l : list rune) (t : string) : bool :=
  match l, t with
  | [], EmptyString => true
  | r :: l', String c t' => foldEq (rn r) (zc c) && equalFoldRunes l' t'
  | _, _ => false
  end.
Definition equalFold (s t : string) : bool := equalFoldRunes (runes s) t.

(** [strings.IndexByte]: the text up to and including the byte, and the rest. *)
Fixpoint cutAt (c : ascii) (s : string) : option (string * string) :=
  match s with
  | EmptyString => None
  | String a s' =>
      if (a =?c c)%go then Some (str1 a, s')
      else match cutAt c s' with
           | Some (x, y) => Some (String a x, y)
           | None => None
           end
  end.

(** [strings.Index] for a two-byte pattern: the text up to and including it, and
    the rest. *)
Fixpoint cutAt2 (c d : ascii) (s : string) : option (string * string) :=
  match s with
  | String a ((String b s'') as s') =>
      if (a =?c c)%go && (b =?c d)%go then Some (str2 a b, s'')
      else match cutAt2 c d s' with
           | Some (x, y) => Some (String a x, y)
           | None => None
           end
  | _ => None
  end.

(** [strings.ReplaceAll] of one byte by a string. *)
Fixpoint replaceByte (c : ascii) (new : string) (s : string) : string :=
  match s with
  | EmptyString => ""
  | String a s' =>
      if (a =?c c)%go then new +:+ replaceByte c new s' else String a (replaceByte c new s')
  end.

(** [strings.Split] on one byte. *)
Fixpoint splitOn (c : ascii) (s : string) : list string :=
  match s with
  | EmptyString => [""]
  | String a s' =>
      if (a =?c c)%go then "" :: splitOn c s'
      else match splitOn c s' with
           | x :: l => String a x :: l
           | [] => [str1 a]
           end
  end.

(** [strings.SplitN(s, c, 2)]: the text before the first [c], and after it. *)
Fixpoint splitOnce (c : ascii) (s : string) : option (string * string) :=
  match s with
  | EmptyString => None
  | String a s' =>
      if (a =?c c)%go then Some ("", s')
      else match splitOnce c s' with
           | Some (x, y) => Some (String a x, y)
           | None => None
           end
  end.

(** [strings.Trim] with an ASCII cutset. *)
Fixpoint memByte (c : ascii) (set : string) : bool :=
  match set with
  | EmptyString => false
  | String a set' => (a =?c c)%go || memByte c set'
  end.
Fixpoint trimLeftSet (set : string) (s : string) : string :=
  match s with
  | EmptyString => ""
  | String a s' => if memByte a set then trimLeftSet set s' else s
  end.
Fixpoint trimRightSet (set : string) (s : string) : string :=
  match s with
  | EmptyString => ""
  | String a s' =>
      match trimRightSet set s' with
      | EmptyString => if memByte a set then "" else str1 a
      | t => String a t
      end
  end.
Definition trimSet (s set : string) : string := trimRightSet set (trimLeftSet set s).

(** [strings.Join] *)
Fixpoint join (l : list string) (sep : string) : string :=
  match l with
  | [] => ""
  | [x] => x
  | x :: l' => x +:+ sep +:+ join l' sep
  end.
