(* ===== verification/Strconv.v ===== *)
(** * [strconv]: integers, booleans and quoting

    Decimal formatting and parsing with Go's range checks, [ParseBool], and
    [Quote], with the lemmas the components share: a formatted integer parses
    back to itself, and a parsed one is in the range of its width. *)
From stdpp Require Export pretty.
From S2P Require Export Prelude GoText.
Open Scope Z_scope.

(** ** Quoting *)
Definition dquote : ascii := "034"%char.
Definition squote : ascii := "039"%char.
Definition backslash : ascii := "092"%char.
Definition backtick : ascii := "096"%char.
Definition nul : ascii := "000"%char.
Definition newline : ascii := "010"%char.

Definition hexDigit (n : Z) : ascii := if n <? 10 then chr (48 + n) else chr (87 + n).

(** [n] in lower-case hexadecimal with [k] digits. *)
Fixpoint hexDigits (k : nat) (n : Z) : string :=
  match k with
  | O => ""
  | S k => hexDigits k (n / 16) +:+ str1 (hexDigit (n mod 16))
  end.

Section quote.
Context `{U : UnicodeTables}.

(** [strconv.IsPrint] *)
Definition isPrint (r : Z) : bool :=
  if r <? 128 then between 32 126 r else uniPrint r.

Definition escapeRune (r : rune) : string :=
  if (rn r =? runeError) && (String.length (raw r) =? 1)%nat
  then "\x" +:+ match raw r with String b _ => hexDigits 2 (zc b) | "" => "" end
  else if (rn r =? 34) || (rn r =? 92) then str2 backslash (chr (rn r))
  else if isPrint (rn r) then encodeRune (rn r)
  else if rn r =? 7 then "\a" else if rn r =? 8 then "\b" else if rn r =? 12 then "\f"
  else if rn r =? 10 then "\n" else if rn r =? 13 then "\r" else if rn r =? 9 then "\t"
  else if rn r =? 11 then "\v"
  else if (rn r <? 32) || (rn r =? 127) then "\x" +:+ hexDigits 2 (rn r)
  else if rn r <? 65536 then "\u" +:+ hexDigits 4 (rn r)
  else "\U" +:+ hexDigits 8 (rn r).

(** [strconv.Quote] *)
Definition quote (s : string) : string :=
  str1 dquote +:+ concat_all (map escapeRune (runes s)) +:+ str1 dquote.
End quote.

(** ** Booleans *)
Definition formatBool (b : bool) : string := if b then "true" else "false".

Definition isTrueText (s : string) : bool :=
  ((s =?s "1") || (s =?s "t") || (s =?s "T") || (s =?s "true") || (s =?s "TRUE")
   || (s =?s "True"))%go.
Definition isFalseText (s : string) : bool :=
  ((s =?s "0") || (s =?s "f") || (s =?s "F") || (s =?s "false") || (s =?s "FALSE")
   || (s =?s "False"))%go.

(** ** Integers *)

(** [strconv.FormatInt(z, 10)] *)
Definition formatInt (z : Z) : string := pretty z.

Inductive numError := ErrSyntax | ErrRange.

Definition numErrorText (e : numError) : string :=
  match e with
  | ErrSyntax => "invalid syntax"
  | ErrRange => "value out of range"
  end.

(** The digit loop of [ParseUint] in base 10. *)
Fixpoint digitsLoop (maxVal n : Z) (s : string) : numError + Z :=
  match s with
  | EmptyString => inr n
  | String c s' =>
      if is_digit c then
        let n1 := n * 10 + (zc c - 48) in
        if n1 >? maxVal then inl ErrRange else digitsLoop maxVal n1 s'
      else inl ErrSyntax
  end.

Definition parseUint (s : string) (bits : Z) : numError + Z :=
  match s with
  | EmptyString => inl ErrSyntax
  | _ => digitsLoop (2 ^ bits - 1) 0 s
  end.

(** The sign [ParseInt] strips. *)
Definition splitSign (s : string) : bool * string :=
  match s with
  | String c t =>
      if (c =?c "-"%char)%go then (true, t)
      else if (c =?c "+"%char)%go then (false, t) else (false, s)
  | EmptyString => (false, s)
  end.

Definition parseIntE (s : string) (bits : Z) : numError + Z :=
  match s with
  | EmptyString => inl ErrSyntax
  | _ =>
      let '(neg, t) := splitSign s in
      match parseUint t bits with
      | inl e => inl e
      | inr un =>
          let cutoff := 2 ^ (bits - 1) in
          if negb neg && (un >=? cutoff) then inl ErrRange
          else if neg && (un >? cutoff) then inl ErrRange
          else inr (if neg then - un else un)
      end
  end.

(** The integer that [strconv.Atoi] returns beside its error: zero for a syntax
    error, the nearest bound for an overflow. *)
Definition atoiValue (s : string) : Z :=
  match parseIntE s 64 with
  | inr n => n
  | inl ErrSyntax => 0
  | inl ErrRange => if (splitSign s).1 then - 2 ^ 63 else 2 ^ 63 - 1
  end.

Section parse.
Context `{U : UnicodeTables}.

(** The text of a [NumError]. *)
Definition numErrorString (fn s : string) (e : numError) : string :=
  "strconv." +:+ fn +:+ ": parsing " +:+ quote s +:+ ": " +:+ numErrorText e.

Definition lift_num {A} (fn s : string) (r : numError + A) : res A :=
  match r with
  | inl e => Err (numErrorString fn s e)
  | inr a => Ok a
  end.

(** [strconv.ParseInt(s, 10, bits)] *)
Definition parseInt (s : string) (bits : Z) : res Z :=
  lift_num "ParseInt" s (parseIntE s bits).

(** [strconv.Atoi], with a 64-bit [int]. *)
Definition atoi (s : string) : res Z := lift_num "Atoi" s (parseIntE s 64).

(** [strconv.ParseBool] *)
Definition parseBool (s : string) : res bool :=
  if isTrueText s then Ok true
  else if isFalseText s then Ok false
  else Err (numErrorString "ParseBool" s ErrSyntax).
End parse.

(** Two's complement integers of a width. *)
Definition wrap (bits z : Z) : Z :=
  (z + 2 ^ (bits - 1)) mod 2 ^ bits - 2 ^ (bits - 1).
Definition in_range (bits z : Z) : Prop := - 2 ^ (bits - 1) <= z < 2 ^ (bits - 1).

(** ** Lemmas *)
Lemma digitsLoop_bounds maxVal n s v :
  0 <= n <= maxVal -> digitsLoop maxVal n s = inr v -> 0 <= v <= maxVal.
Proof.
  revert n; induction s as [|c s IH]; intros n Hn; cbn [digitsLoop].
  - by intros [= <-].
  - destruct (is_digit c) eqn:Hd; [|done].
    unfold is_digit, between in Hd. bool_to_prop.
    destruct (_ >? _) eqn:Hm; [done|]. bool_to_prop. apply IH. lia.
Qed.

Lemma parseIntE_bounds s bits z :
  0 < bits -> parseIntE s bits = inr z -> in_range bits z.
Proof.
  intros Hb. unfold parseIntE, in_range. destruct s as [|c s]; [done|].
  destruct (splitSign _) as [neg t].
  destruct (parseUint t bits) as [e|un] eqn:Hu; [done|].
  assert (0 <= un) as Hun.
  { unfold parseUint in Hu. destruct t as [|c' t]; [done|].
    apply digitsLoop_bounds in Hu; [lia|].
    assert (0 < 2 ^ bits) by (apply Z.pow_pos_nonneg; lia). lia. }
  assert (0 < 2 ^ (bits - 1)) by (apply Z.pow_pos_nonneg; lia).
  destruct neg; cbn [negb andb]; case_match; try done; intros [= <-]; bool_to_prop; lia.
Qed.

Lemma parseInt_bounds `{U : UnicodeTables} s bits z :
  0 < bits -> parseInt s bits = Ok z -> in_range bits z.
Proof.
  unfold parseInt, lift_num. intros Hb. destruct (parseIntE s bits) eqn:He; [done|].
  intros [= <-]. by eapply parseIntE_bounds.
Qed.

Lemma atoi_bounds `{U : UnicodeTables} s z : atoi s = Ok z -> in_range 64 z.
Proof.
  unfold atoi, lift_num. destruct (parseIntE s 64) eqn:He; [done|].
  intros [= <-]. by eapply parseIntE_bounds; [lia|].
Qed.

Lemma lift_num_no_panic {A} `{U : UnicodeTables} fn s (r : numError + A) :
  is_panic (lift_num fn s r) = false.
Proof. by destruct r. Qed.
#[export] Hint Resolve lift_num_no_panic : go.

(** The digits of [pretty_N_go x s] are read back as [x] before [s] is read. *)
Lemma digitsLoop_pretty maxVal (x : N) s :
  Z.of_N x <= maxVal ->
  digitsLoop maxVal 0 (pretty_N_go x s) = digitsLoop maxVal (Z.of_N x) s.
Proof.
  revert s. induction (N.lt_wf_0 x) as [x _ IH]; intros s Hx.
  destruct (decide (x = 0%N)) as [->|Hne].
  { by rewrite pretty_N_go_0. }
  rewrite pretty_N_go_step by lia.
  rewrite IH; [|apply N.div_lt; lia|].
  2:{ pose proof (N.Div0.div_le_upper_bound x 10 x ltac:(lia)). lia. }
  pose proof (N.mod_lt x 10 ltac:(done)) as Hm.
  cbn [digitsLoop].
  assert (is_digit (pretty_N_char (x `mod` 10)) = true /\
          zc (pretty_N_char (x `mod` 10)) - 48 = Z.of_N (x `mod` 10)) as [-> ->].
  { assert (exists k, x `mod` 10 = k /\ (k < 10)%N)%N as (k & -> & Hk) by eauto.
    assert (k = 0 \/ k = 1 \/ k = 2 \/ k = 3 \/ k = 4 \/ k = 5 \/ k = 6 \/ k = 7
            \/ k = 8 \/ k = 9)%N as Hc by lia.
    repeat (destruct Hc as [->|Hc]; [by vm_compute|]). subst. by vm_compute. }
  replace (Z.of_N (x `div` 10) * 10 + Z.of_N (x `mod` 10)) with (Z.of_N x).
  2:{ pose proof (N.div_mod x 10 ltac:(done)). lia. }
  case_match; [bool_to_prop; lia|done].
Qed.

Lemma digitsLoop_0 m : 0 <= m -> digitsLoop m 0 "0" = inr 0.
Proof.
  intros Hm. change (digitsLoop m 0 "0") with (if 0 >? m then inl ErrRange else inr 0 : _ + Z).
  destruct (0 >? m) eqn:E; [bool_to_prop; lia|done].
Qed.

Lemma pretty_N_unfold (x : N) :
  exists c s, pretty x = String c s /\ is_digit c = true /\
    forall maxVal, Z.of_N x <= maxVal -> digitsLoop maxVal 0 (pretty x) = inr (Z.of_N x).
Proof.
  assert (forall maxVal, Z.of_N x <= maxVal ->
    digitsLoop maxVal 0 (pretty x) = inr (Z.of_N x)) as Hall.
  { intros m Hm. unfold pretty, pretty_N. case_decide; subst.
    - apply digitsLoop_0. lia.
    - by rewrite digitsLoop_pretty. }
  destruct (pretty x) as [|c s] eqn:Hp.
  - specialize (Hall (Z.of_N x) ltac:(lia)). cbn in Hall.
    assert (x = 0%N) as -> by (injection Hall; lia). done.
  - exists c, s. split_and!; [done| |done].
    specialize (Hall (Z.of_N x) ltac:(lia)). cbn in Hall. by destruct (is_digit c).
Qed.

Lemma digit_not_sign c : is_digit c = true -> (c =?c "-")%char%go = false /\ (c =?c "+")%char%go = false.
Proof.
  intros H. split; apply Ascii.eqb_neq; intros ->; discriminate.
Qed.

(** A formatted integer is parsed back at any width that holds it. *)
Lemma parseIntE_formatInt bits z :
  0 < bits -> in_range bits z -> parseIntE (formatInt z) bits = inr z.
Proof.
  intros Hb [Hlo Hhi]. unfold formatInt.
  assert (2 ^ bits = 2 * 2 ^ (bits - 1)) as Hp.
  { rewrite <- Z.pow_succ_r by lia. f_equal. lia. }
  assert (0 < 2 ^ (bits - 1)) by (apply Z.pow_pos_nonneg; lia).
  assert (forall x c s, pretty x = String c s ->
    Z.of_N x <= 2 ^ (bits - 1) -> parseUint (String c s) bits = inr (Z.of_N x)) as Hu.
  { intros x c s Hx Hle. unfold parseUint. rewrite <- Hx.
    destruct (pretty_N_unfold x) as (? & ? & _ & _ & Hall). apply Hall. lia. }
  destruct z as [|p|p].
  - change (pretty 0%Z) with "0". unfold parseIntE. cbn [splitSign Ascii.eqb Bool.eqb]. unfold parseUint. rewrite digitsLoop_0 by lia.
    cbn [negb andb]. destruct (0 >=? _) eqn:E; [bool_to_prop; lia|done].
  - change (pretty (Z.pos p)) with (pretty (N.pos p)).
    destruct (pretty_N_unfold (N.pos p)) as (c & s & Hc & Hd & _).
    rewrite Hc. unfold parseIntE, splitSign.
    destruct (digit_not_sign c Hd) as [-> ->].
    rewrite (Hu (N.pos p)) by (done || lia). cbn [negb andb].
    case_match; [bool_to_prop; lia|done].
  - change (pretty (Z.neg p)) with (String "-" (pretty (N.pos p))).
    destruct (pretty_N_unfold (N.pos p)) as (c & s & Hc & Hd & _).
    unfold parseIntE, splitSign. cbn [Ascii.eqb Bool.eqb].
    rewrite Hc, (Hu (N.pos p)) by (done || lia). cbn [negb andb].
    case_match; [bool_to_prop; lia|done].
Qed.

Lemma parseInt_formatInt `{U : UnicodeTables} bits z :
  0 < bits -> in_range bits z -> parseInt (formatInt z) bits = Ok z.
Proof. intros Hb Hz. unfold parseInt. by rewrite parseIntE_formatInt. Qed.

Lemma wrap_id bits z : 0 < bits -> in_range bits z -> wrap bits z = z.
Proof.
  intros Hb [Hlo Hhi]. unfold wrap.
  assert (2 ^ bits = 2 * 2 ^ (bits - 1)) as Hp.
  { rewrite <- Z.pow_succ_r by lia. f_equal. lia. }
  rewrite Z.mod_small by lia. lia.
Qed.
