(* ===== verification/QuoteSpec.v ===== *)
(** * Go's quoting is undone by Go's unquoting

    [readQuoted] reads a double-quoted Go literal after its opening quote
    ([strconv.Unquote]'s rules).  For every byte string, valid UTF-8 or not,
    reading back [strconv.Quote] yields the string and stops at its closing
    quote; [SelectPlanSpec] uses it for the string literals of Milvus filters. *)
From S2P Require Export Strconv.
Open Scope Z_scope.
Open Scope go_scope.

(** ** Reading a quoted literal *)
Definition hexValue (c : ascii) : option Z :=
  if is_digit c then Some (zc c - 48)
  else if between 97 102 (zc c) then Some (zc c - 87)
  else if between 65 70 (zc c) then Some (zc c - 55) else None.

(** [k] hexadecimal digits in front of a text. *)
Fixpoint readHex (k : nat) (acc : Z) (s : string) : option (Z * string) :=
  match k with
  | O => Some (acc, s)
  | S k =>
      match s with
      | String c s' =>
          match hexValue c with
          | Some d => readHex k (acc * 16 + d) s'
          | None => None
          end
      | EmptyString => None
      end
  end.

Definition simpleEscape (c : ascii) : option ascii :=
  if c =?c "a"%char then Some (chr 7) else if c =?c "b"%char then Some (chr 8)
  else if c =?c "f"%char then Some (chr 12) else if c =?c "n"%char then Some (chr 10)
  else if c =?c "r"%char then Some (chr 13) else if c =?c "t"%char then Some (chr 9)
  else if c =?c "v"%char then Some (chr 11) else if c =?c backslash then Some backslash
  else if c =?c dquote then Some dquote else None.

(** One character of a literal: its bytes and the rest of the text. *)
Definition readChar (c : ascii) (s : string) : option (string * string) :=
  if c =?c backslash then
    match s with
    | String e s' =>
        if e =?c "x"%char
        then '(n, t) ← readHex 2 0 s'; Some (str1 (chr n), t)
        else if e =?c "u"%char
        then '(n, t) ← readHex 4 0 s'; Some (encodeRune n, t)
        else if e =?c "U"%char
        then '(n, t) ← readHex 8 0 s'; Some (encodeRune n, t)
        else b ← simpleEscape e; Some (str1 b, s')
    | EmptyString => None
    end
  else Some (str1 c, s).

Fixpoint readLoop (fuel : nat) (s : string) : option (string * string) :=
  match fuel, s with
  | S fuel, String c s1 =>
      if c =?c dquote then Some ("", s1)
      else '(b, t) ← readChar c s1;
           '(v, rest) ← readLoop fuel t;
           Some (b +:+ v, rest)
  | _, _ => None
  end.

(** The value of a literal and the text after its closing quote. *)
Definition readQuoted (s : string) : option (string * string) :=
  readLoop (String.length s) s.

(** ** Runes and their encodings *)
Fixpoint high (s : string) : bool :=
  match s with String c s' => (128 <=? zc c) && high s' | EmptyString => true end.

Definition rune_ok (r : rune) : Prop :=
  (rn r = runeError /\ exists b, raw r = str1 b /\ 128 <= zc b)
  \/ (exists c, zc c < 128 /\ r = mk_rune (zc c) (str1 c))
  \/ (128 <= rn r <= 1114111 /\ encodeRune (rn r) = raw r /\ high (raw r) = true
      /\ (2 <= String.length (raw r))%nat).

Lemma chr_eq n c : n = zc c -> chr n = c.
Proof. intros ->. apply chr_zc. Qed.

Ltac decide_ifs :=
  repeat match goal with
  | |- context [if ?b then _ else _] => destruct b eqn:?
  end.

Ltac z_bools :=
  unfold between in *;
  repeat match goal with
  | H : _ && _ = true |- _ => apply andb_prop in H as [? ?]
  | H : _ || _ = true |- _ => apply orb_prop in H
  | H : _ || _ = false |- _ => apply orb_false_elim in H as [? ?]
  | H : _ && _ = false |- _ => apply andb_false_iff in H
  end;
  rewrite ?Z.gtb_ltb, ?Z.ltb_lt, ?Z.ltb_ge, ?Z.leb_le, ?Z.leb_gt, ?Z.eqb_eq, ?Z.eqb_neq in *.

Ltac byte_pos := repeat match goal with
  | c : ascii |- _ =>
      lazymatch goal with H : 0 <= zc c < 256 |- _ => fail | _ => pose proof (zc_range c) end
  end.

Lemma encode2 a b :
  between 194 223 (zc a) && is_cont b = true -> encodeRune (rune2 a b) = str2 a b.
Proof.
  intros H. byte_arith. unfold encodeRune. byte_pos.
  decide_ifs; z_bools; try lia.
  unfold str2, str1. f_equal; [|f_equal]; apply chr_eq; Z.to_euclidean_division_equations; lia.
Qed.

Lemma encode3 a b c :
  between 224 239 (zc a) && accept3 a b && is_cont c = true ->
  encodeRune (rune3 a b c) = str3 a b c /\ 2048 <= rune3 a b c <= 65535.
Proof.
  intros H. byte_arith. byte_pos.
  assert (2048 <= (zc a - 224) * 4096 + (zc b - 128) * 64 + (zc c - 128) < 65536 /\
    (zc a = 237 -> zc b <= 159) /\ 128 <= zc b <= 191) as (Hr & Hs & Hb).
  { destruct (zc a =? 224) eqn:?; destruct (zc a =? 237) eqn:?; z_bools; lia. }
  split; [|lia]. unfold encodeRune.
  decide_ifs; z_bools; try lia.
  unfold str3, str2, str1. repeat f_equal; apply chr_eq; Z.to_euclidean_division_equations; lia.
Qed.

Lemma encode4 a b c d :
  between 240 244 (zc a) && accept4 a b && is_cont c && is_cont d = true ->
  encodeRune (rune4 a b c d) = str4 a b c d /\ 65536 <= rune4 a b c d <= 1114111.
Proof.
  intros H. byte_arith. byte_pos.
  assert (65536 <= (zc a - 240) * 262144 + (zc b - 128) * 4096 + (zc c - 128) * 64
     + (zc d - 128) <= 1114111 /\ 128 <= zc b <= 191) as (Hr & Hb).
  { destruct (zc a =? 240) eqn:?; destruct (zc a =? 244) eqn:?; z_bools; lia. }
  split; [|lia]. unfold encodeRune.
  decide_ifs; z_bools; try lia.
  unfold str4, str3, str2, str1.
  repeat f_equal; apply chr_eq; Z.to_euclidean_division_equations; lia.
Qed.

Lemma high_bytes a b c d :
  128 <= zc a -> 128 <= zc b -> 128 <= zc c -> 128 <= zc d ->
  high (str2 a b) = true /\ high (str3 a b c) = true /\ high (str4 a b c d) = true.
Proof.
  intros Ha Hb Hc Hd. cbn.
  by rewrite !(proj2 (Z.leb_le _ _)).
Qed.

Lemma accept_high a b : accept3 a b = true \/ accept4 a b = true -> 128 <= zc b.
Proof.
  unfold accept3, accept4, between. intros [H|H]; apply andb_prop in H as [H _];
    apply Z.leb_le in H; case_match; lia.
Qed.

Lemma runes_ok s : Forall rune_ok (runes s).
Proof.
  induction s as [s IH] using string_len_ind. destruct s as [|a s1]; [constructor|].
  assert (forall t, (String.length t <= String.length s1)%nat -> Forall rune_ok (runes t)) as IH'.
  { intros t Ht. apply IH. cbn. lia. }
  cbn [runes]. destruct (zc a <? 128) eqn:Ha.
  { constructor; [|by apply IH']. right; left. apply Z.ltb_lt in Ha. eauto. }
  apply Z.ltb_ge in Ha.
  assert (rune_ok (mk_rune runeError (str1 a))) as Hbad by (left; cbn; eauto).
  destruct s1 as [|b s2]; [by constructor; [|apply IH']|].
  destruct (between 194 223 (zc a) && is_cont b) eqn:H2.
  { constructor; [|apply IH'; cbn; lia]. right; right. cbn. rewrite (encode2 _ _ H2).
    byte_arith. split_and!; [lia..|done| |cbn; lia].
    by apply (high_bytes a b a b); lia. }
  destruct s2 as [|c s3]; [by constructor; [|apply IH']|].
  destruct (between 224 239 (zc a) && accept3 a b && is_cont c) eqn:H3.
  { constructor; [|apply IH'; cbn; lia]. right; right. cbn.
    destruct (encode3 _ _ _ H3) as [-> ?]. apply andb_prop in H3 as [H3 Hc].
    apply andb_prop in H3 as [_ Hb]. pose proof (accept_high a b (or_introl Hb)).
    unfold is_cont, between in Hc. bool_to_prop.
    split_and!; [lia..|done| |cbn; lia]. by apply (high_bytes a b c c); lia. }
  destruct s3 as [|d s4]; [by constructor; [|apply IH']|].
  destruct (between 240 244 (zc a) && accept4 a b && is_cont c && is_cont d) eqn:H4.
  { constructor; [|apply IH'; cbn; lia]. right; right. cbn.
    destruct (encode4 _ _ _ _ H4) as [-> ?]. apply andb_prop in H4 as [H4 Hd].
    apply andb_prop in H4 as [H4 Hc]. apply andb_prop in H4 as [_ Hb].
    pose proof (accept_high a b (or_intror Hb)).
    unfold is_cont, between in Hc, Hd. bool_to_prop.
    split_and!; [lia..|done| |cbn; lia]. by apply (high_bytes a b c d); lia. }
  by constructor; [|apply IH'].
Qed.

(** ** Hexadecimal *)
Lemma hexValue_digit d : 0 <= d < 16 -> hexValue (hexDigit d) = Some d.
Proof.
  intros H.
  assert (d = 0 \/ d = 1 \/ d = 2 \/ d = 3 \/ d = 4 \/ d = 5 \/ d = 6 \/ d = 7 \/ d = 8
    \/ d = 9 \/ d = 10 \/ d = 11 \/ d = 12 \/ d = 13 \/ d = 14 \/ d = 15) as Hc by lia.
  repeat (destruct Hc as [->|Hc]; [reflexivity|]). by subst.
Qed.

Lemma readHex_app j k acc m s t :
  readHex j acc s = Some (m, t) -> readHex (j + k) acc s = readHex k m t.
Proof.
  revert acc s; induction j as [|j IH]; intros acc s; cbn [readHex Nat.add].
  - by intros [= <- <-].
  - destruct s as [|c s]; [done|]. destruct (hexValue c); [|done]. apply IH.
Qed.

Lemma readHex_hexDigits k acc n t :
  0 <= n -> readHex k acc (hexDigits k n +:+ t) = Some (acc * 16 ^ Z.of_nat k + n mod 16 ^ Z.of_nat k, t).
Proof.
  revert acc n t; induction k as [|k IH]; intros acc n t Hn.
  - cbn [readHex hexDigits]. rewrite Z.mod_1_r. do 2 f_equal. lia.
  - cbn [hexDigits]. rewrite <- string_app_assoc, str1_app.
    replace (S k) with (k + 1)%nat by lia.
    rewrite (readHex_app k 1 acc _ _ _ (IH acc (n / 16) _ ltac:(apply Z.div_pos; lia))).
    cbn [readHex]. rewrite hexValue_digit by (apply Z.mod_pos_bound; lia).
    do 2 f_equal. rewrite Nat2Z.inj_add, Z.pow_add_r by lia.
    rewrite (Z.mul_comm (16 ^ Z.of_nat k)). change (Z.of_nat 1) with 1. rewrite Z.pow_1_r.
    rewrite Z.rem_mul_r by (lia || apply Z.pow_pos_nonneg; lia). lia.
Qed.

(** ** Reading one escaped rune back *)
Section readback.
Context `{U : UnicodeTables}.

(** [s] reads as the bytes [b] whatever follows it. *)
Definition reads (s b : string) : Prop :=
  forall fuel t, (String.length s <= fuel)%nat ->
    exists fuel', (fuel - String.length s <= fuel')%nat /\
    readLoop fuel (s +:+ t) = '(v, rest) ← readLoop fuel' t; Some (b +:+ v, rest).

Lemma reads_nil : reads "" "".
Proof.
  intros fuel t _. exists fuel. split; [cbn; lia|]. change ("" +:+ t) with t.
  by destruct (readLoop fuel t) as [[v rest]|].
Qed.

Lemma reads_app s1 b1 s2 b2 : reads s1 b1 -> reads s2 b2 -> reads (s1 +:+ s2) (b1 +:+ b2).
Proof.
  intros H1 H2 fuel t Hf. rewrite string_length_app in *. rewrite <- string_app_assoc.
  destruct (H1 fuel (s2 +:+ t)) as (f1 & Hf1 & ->); [lia|].
  destruct (H2 f1 t) as (f2 & Hf2 & ->); [lia|].
  exists f2. split; [lia|]. destruct (readLoop f2 t) as [[v rest]|]; [|done].
  cbn. by rewrite string_app_assoc.
Qed.

(** A plain byte reads as itself. *)
Lemma reads_byte c : c <> dquote -> c <> backslash -> reads (str1 c) (str1 c).
Proof.
  intros Hd Hb [|fuel] t Hf; [cbn in Hf; lia|]. exists fuel. split; [cbn; lia|].
  rewrite str1_app. cbn [readLoop]. unfold readChar.
  rewrite (proj2 (Ascii.eqb_neq _ _) Hd), (proj2 (Ascii.eqb_neq _ _) Hb). done.
Qed.

Lemma reads_high s : high s = true -> reads s s.
Proof.
  induction s as [|c s IH]; [intros _; apply reads_nil|]. cbn [high].
  intros [Hc Hs]%andb_prop. apply Z.leb_le in Hc.
  change (String c s) with (str1 c +:+ s).
  apply reads_app; [|by apply IH]. apply reads_byte; intros ->; by vm_compute in Hc.
Qed.

(** An escape sequence reads as its bytes. *)
Lemma reads_escape e s b :
  (forall t, readChar backslash (String e (s +:+ t)) = Some (b, t)) ->
  reads (String backslash (String e s)) b.
Proof.
  intros H [|fuel] t Hf; [cbn in Hf; lia|]. exists fuel. split; [cbn in *; lia|].
  rewrite !string_app_cons. cbn [readLoop]. change (backslash =?c dquote) with false.
  by rewrite H.
Qed.

Lemma readHex_byte n t : 0 <= n < 256 -> readHex 2 0 (hexDigits 2 n +:+ t) = Some (n, t).
Proof.
  intros H. rewrite readHex_hexDigits by lia. change (16 ^ Z.of_nat 2) with 256.
  by rewrite Z.mod_small.
Qed.

Lemma reads_hex_byte n : 0 <= n < 256 -> reads ("\x" +:+ hexDigits 2 n) (str1 (chr n)).
Proof.
  intros H. apply (reads_escape "x" (hexDigits 2 n)). intros t. unfold readChar.
  change (backslash =?c backslash) with true. cbn match.
  change ("x"%char =?c "x"%char) with true. cbn match. by rewrite readHex_byte.
Qed.

Lemma reads_hex4 n :
  0 <= n < 65536 -> reads ("\u" +:+ hexDigits 4 n) (encodeRune n).
Proof.
  intros H. apply (reads_escape "u" (hexDigits 4 n)). intros t. unfold readChar.
  change (backslash =?c backslash) with true. cbn match.
  change ("u"%char =?c "x"%char) with false. change ("u"%char =?c "u"%char) with true.
  cbn match. rewrite readHex_hexDigits by lia. change (16 ^ Z.of_nat 4) with 65536.
  by rewrite Z.mod_small.
Qed.

Lemma reads_hex8 n :
  0 <= n <= 1114111 -> reads ("\U" +:+ hexDigits 8 n) (encodeRune n).
Proof.
  intros H. apply (reads_escape "U" (hexDigits 8 n)). intros t. unfold readChar.
  change (backslash =?c backslash) with true. cbn match.
  change ("U"%char =?c "x"%char) with false. change ("U"%char =?c "u"%char) with false.
  change ("U"%char =?c "U"%char) with true.
  cbn match. rewrite readHex_hexDigits by lia. change (16 ^ Z.of_nat 8) with (2 ^ 32).
  rewrite Z.mod_small by lia. done.
Qed.

Lemma reads_simple e b :
  simpleEscape e = Some b -> memByte e "xuU" = false -> reads (str2 backslash e) (str1 b).
Proof.
  intros He Hm. apply (reads_escape e ""). intros t. unfold readChar.
  change (backslash =?c backslash) with true. cbn match.
  cbn [memByte] in Hm.
  apply orb_false_elim in Hm as [Hx Hm]. apply orb_false_elim in Hm as [Hu Hm].
  apply orb_false_elim in Hm as [HU _].
  assert (forall a, (a =?c e) = false -> (e =?c a) = false) as Hsym.
  { intros a Ha. apply Ascii.eqb_neq in Ha. apply Ascii.eqb_neq. congruence. }
  rewrite !Hsym by done. by rewrite He.
Qed.

Lemma encodeRune_ascii c : zc c < 128 -> encodeRune (zc c) = str1 c.
Proof.
  intros H. unfold encodeRune. pose proof (zc_range c).
  rewrite (proj2 (Z.leb_le 0 _)), (proj2 (Z.ltb_lt _ 128)) by lia. cbn [andb].
  by rewrite chr_zc.
Qed.

Lemma reads_escapeRune r : rune_ok r -> reads (escapeRune r) (raw r).
Proof.
  intros [[Hrn (b & Hraw & Hb)]|[(c & Hc & ->)|(Hrn & Henc & Hhigh & Hlen)]];
    unfold escapeRune.
  - rewrite Hrn, Hraw. cbn [String.length str1 Nat.eqb andb].
    rewrite Z.eqb_refl. rewrite <- (chr_zc b) at 2. apply reads_hex_byte, zc_range.
  - cbn [rn raw]. destruct ((zc c =? runeError) && _) eqn:E1.
    { apply andb_prop in E1 as [E1 _]. apply Z.eqb_eq in E1. unfold runeError in E1. lia. }
    destruct ((zc c =? 34) || (zc c =? 92)) eqn:E2.
    { rewrite chr_zc. apply orb_prop in E2 as [E2|E2]; apply Z.eqb_eq in E2;
        [change 34 with (zc dquote) in E2|change 92 with (zc backslash) in E2];
        apply zc_inj in E2 as ->; by apply reads_simple. }
    apply orb_false_elim in E2 as [E2a E2b].
    destruct (isPrint (zc c)).
    { rewrite encodeRune_ascii by done.
      apply reads_byte; intros ->; [by vm_compute in E2a|by vm_compute in E2b]. }
    repeat match goal with
    | |- context [if zc c =? ?n then ?x else _] =>
        destruct (zc c =? n) eqn:?;
        [match goal with H : (zc c =? n) = true |- _ => apply Z.eqb_eq in H; rewrite <- (chr_zc c), H end;
         by (apply (reads_simple "a") || apply (reads_simple "b") || apply (reads_simple "f")
             || apply (reads_simple "n") || apply (reads_simple "r") || apply (reads_simple "t")
             || apply (reads_simple "v"))|]
    end.
    destruct ((zc c <? 32) || (zc c =? 127)).
    { rewrite <- (chr_zc c) at 2. apply reads_hex_byte, zc_range. }
    pose proof (zc_range c). rewrite (proj2 (Z.ltb_lt (zc c) 65536)) by lia.
    rewrite <- encodeRune_ascii by done. apply reads_hex4. lia.
  - destruct ((rn r =? runeError) && _) eqn:E1.
    { apply andb_prop in E1 as [_ E1]. apply Nat.eqb_eq in E1. lia. }
    rewrite !(proj2 (Z.eqb_neq (rn r) _)) by lia. cbn [orb].
    destruct (isPrint (rn r)); [rewrite Henc; by apply reads_high|].
    rewrite (proj2 (Z.ltb_ge (rn r) 32)) by lia. cbn [orb]. rewrite <- Henc.
    destruct (rn r <? 65536) eqn:E; bool_to_prop; [apply reads_hex4|apply reads_hex8]; lia.
Qed.

Lemma reads_runes l : Forall rune_ok l -> reads (concat_all (map escapeRune l)) (bytes_of l).
Proof.
  induction 1 as [|r l Hr Hl IH]; [apply reads_nil|].
  rewrite map_cons, concat_all_cons, bytes_of_cons.
  apply reads_app; [by apply reads_escapeRune|done].
Qed.

(** The quoted form of a string is read back as the string, up to its own
    closing quote, whatever text follows. *)
Lemma readQuoted_quote s rest :
  exists body, quote s = str1 dquote +:+ body +:+ str1 dquote
    /\ readQuoted (body +:+ String dquote rest) = Some (s, rest).
Proof.
  exists (concat_all (map escapeRune (runes s))). split; [done|].
  unfold readQuoted.
  destruct (reads_runes (runes s) (runes_ok s)
    (String.length (concat_all (map escapeRune (runes s)) +:+ String dquote rest))
    (String dquote rest)) as (fuel & Hf & ->).
  { rewrite string_length_app. lia. }
  rewrite string_length_app in Hf. cbn [String.length] in Hf.
  destruct fuel as [|fuel]; [lia|]. cbn [readLoop].
  rewrite Ascii.eqb_refl. cbn [mbind option_bind].
  by rewrite string_app_nil_r, bytes_of_runes.
Qed.
End readback.
