(* ===== verification/Regex.v ===== *)
(** * [regexp]: the expressions the proxy matches

    A backtracking matcher over runes for the fragment of Go's syntax the source
    uses: character classes, literals, greedy [p*] and [p+] over one class,
    groups, alternatives, [\b] and [$].  Go's matches are leftmost-first, which
    is the order in which the matcher backtracks.  Every expression of the
    program is anchored by [^], so matching starts at the first rune.  [den] is
    the declarative meaning, with the matcher's soundness and completeness. *)
From S2P Require Export QuoteSpec.
Open Scope Z_scope.

(** A position: the runes before it, nearest first, and the runes after it. *)
Abbreviation pos := (list rune * list rune)%type.
Abbreviation caps := (gmap nat string).

Inductive re :=
| RClass (f : Z -> bool)
| RMany (f : Z -> bool)
| REps
| RSeq (a b : re)
| RAlt (a b : re)
| RGroup (n : nat) (a : re)
| RWordB
| REnd.

Definition isWord (r : Z) : bool :=
  between 48 57 r || between 65 90 r || between 97 122 r || (r =? 95).

Definition atWordB (p : pos) : bool :=
  xorb (match p.1 with x :: _ => isWord (rn x) | [] => false end)
       (match p.2 with x :: _ => isWord (rn x) | [] => false end).

(** The text between two positions. *)
Definition between_pos (p q : pos) : string :=
  bytes_of (reverse (take (length q.1 - length p.1)%nat q.1)).

(** [f*] at a position, longest first. *)
Fixpoint many {R} (f : Z -> bool) (b a : list rune) (k : pos -> option R) : option R :=
  match a with
  | x :: a' =>
      if f (rn x) then
        match many f (x :: b) a' k with
        | Some r => Some r
        | None => k (b, a)
        end
      else k (b, a)
  | [] => k (b, a)
  end.

Fixpoint rmatch {R} (r : re) (p : pos) (cs : caps) (k : pos -> caps -> option R) : option R :=
  match r with
  | RClass f =>
      match p.2 with
      | x :: a => if f (rn x) then k (x :: p.1, a) cs else None
      | [] => None
      end
  | RMany f => many f p.1 p.2 (fun q => k q cs)
  | REps => k p cs
  | RSeq a b => rmatch a p cs (fun q cs' => rmatch b q cs' k)
  | RAlt a b =>
      match rmatch a p cs k with
      | Some x => Some x
      | None => rmatch b p cs k
      end
  | RGroup n a => rmatch a p cs (fun q cs' => k q (<[n := between_pos p q]> cs'))
  | RWordB => if atWordB p then k p cs else None
  | REnd => match p.2 with [] => k p cs | _ => None end
  end.

(** [re.FindStringSubmatch(s)]: the captured groups and the text after the match. *)
Definition re_find (r : re) (s : string) : option (caps * string) :=
  rmatch r ([], runes s) ∅ (fun q cs => Some (cs, bytes_of q.2)).

Definition matchString (r : re) (s : string) : bool :=
  match re_find r s with Some _ => true | None => false end.

(** [m[n]]: a group that took no part in the match is the empty string. *)
Definition re_group (cs : caps) (n : nat) : string := default "" (cs !! n).

(** [re.ReplaceAllString(s, new)] for an anchored expression and a replacement
    without [$]. *)
Definition replaceFirst (r : re) (s new : string) : string :=
  match re_find r s with Some (_, rest) => new +:+ rest | None => s end.

(** ** Building blocks *)

(** A literal under [(?i)]. *)
Fixpoint litF (s : string) : re :=
  match s with
  | EmptyString => REps
  | String c s' => RSeq (RClass (fun r => foldEq r (zc c))) (litF s')
  end.
Definition rchar (c : ascii) : re := RClass (fun r => r =? zc c).
Definition plus (f : Z -> bool) : re := RSeq (RClass f) (RMany f).
Definition opt (a : re) : re := RAlt a REps.
Fixpoint alts (l : list re) : re :=
  match l with
  | [] => RClass (fun _ => false)
  | [a] => a
  | a :: l' => RAlt a (alts l')
  end.
Fixpoint seqs (l : list re) : re :=
  match l with
  | [] => REps
  | [a] => a
  | a :: l' => RSeq a (seqs l')
  end.

(** [\s] *)
Definition isReSpace (r : Z) : bool :=
  (r =? 9) || (r =? 10) || (r =? 12) || (r =? 13) || (r =? 32).
(** [.] without and with the [s] flag. *)
Definition isDot (r : Z) : bool := negb (r =? 10).
Definition isAny (_ : Z) : bool := true.

(** [[A-Za-z_]] and [[A-Za-z0-9_]]; under [(?i)] they also hold the runes that
    fold to an ASCII letter. *)
Definition identStart (r : Z) : bool := between 65 90 r || between 97 122 r || (r =? 95).
Definition identStartF (r : Z) : bool := identStart r || (r =? 383) || (r =? 8490).
Definition identRestF (r : Z) : bool := identStartF r || between 48 57 r.

Definition identF : re := RSeq (RClass identStartF) (RMany identRestF).

(** ** The declarative meaning *)
Fixpoint den (r : re) (p q : pos) : Prop :=
  match r with
  | RClass f => exists x a, p.2 = x :: a /\ f (rn x) = true /\ q = (x :: p.1, a)
  | RMany f => exists xs, Forall (fun x => f (rn x) = true) xs
                 /\ p.2 = xs ++ q.2 /\ q.1 = reverse xs ++ p.1
  | REps => q = p
  | RSeq a b => exists m, den a p m /\ den b m q
  | RAlt a b => den a p q \/ den b p q
  | RGroup _ a => den a p q
  | RWordB => atWordB p = true /\ q = p
  | REnd => p.2 = [] /\ q = p
  end.

Lemma many_sound {R} f b a (k : pos -> option R) r :
  many f b a k = Some r ->
  exists xs a', Forall (fun x => f (rn x) = true) xs /\ a = xs ++ a'
    /\ k (reverse xs ++ b, a') = Some r.
Proof.
  revert b; induction a as [|x a IH]; intros b; cbn.
  - intros H. by exists [], [].
  - destruct (f (rn x)) eqn:Hf; [|intros H; by exists [], (x :: a)].
    destruct (many f (x :: b) a k) eqn:Hm.
    + intros [= ->]. apply IH in Hm as (xs & a' & Hall & -> & Hk).
      exists (x :: xs), a'. split_and!; [by constructor|done|].
      by rewrite reverse_cons, <- app_assoc.
    + intros H. by exists [], (x :: a).
Qed.

Lemma many_complete {R} f b xs a (k : pos -> option R) :
  Forall (fun x => f (rn x) = true) xs ->
  is_Some (k (reverse xs ++ b, a)) -> is_Some (many f b (xs ++ a) k).
Proof.
  revert b; induction xs as [|x xs IH]; intros b Hall Hk.
  - cbn in Hk. destruct a as [|x a]; cbn; [done|].
    destruct (f (rn x)); [|done]. by case_match.
  - inversion Hall as [|? ? Hx Hxs]; subst. cbn. rewrite Hx.
    destruct (IH (x :: b) Hxs) as [y Hy].
    { by rewrite reverse_cons, <- app_assoc in Hk. }
    by rewrite Hy.
Qed.

(** A match found by the matcher is a match of the expression. *)
Lemma rmatch_sound {R} r p cs (k : pos -> caps -> option R) y :
  rmatch r p cs k = Some y -> exists q cs', den r p q /\ k q cs' = Some y.
Proof.
  revert p cs k; induction r; intros p cs k; cbn [rmatch den].
  - destruct p.2 as [|x a] eqn:Hp; [done|]. destruct (f (rn x)) eqn:Hf; [|done].
    intros H. eauto 10.
  - intros (xs & a' & Hall & Ha & Hk)%many_sound.
    exists (reverse xs ++ p.1, a'), cs. eauto 10.
  - eauto.
  - intros (q & cs' & H1 & H2)%IHr1. apply IHr2 in H2 as (q' & cs'' & H2 & H3). eauto 10.
  - destruct (rmatch r1 p cs k) eqn:H1.
    + intros [= ->]. apply IHr1 in H1 as (q & cs' & ? & ?). eauto.
    + intros (q & cs' & ? & ?)%IHr2. eauto.
  - intros (q & cs' & H1 & H2)%IHr. eauto.
  - destruct (atWordB p) eqn:Hw; [|done]. eauto.
  - destruct p.2 eqn:Hp; [|done]. eauto.
Qed.

(** When the expression matches up to [q] and the continuation accepts [q], the
    matcher finds a match. *)
Lemma rmatch_complete {R} r p q cs (k : pos -> caps -> option R) :
  den r p q -> (forall cs', is_Some (k q cs')) -> is_Some (rmatch r p cs k).
Proof.
  revert p q cs k; induction r; intros p q cs k; cbn [rmatch den].
  - intros (x & a & -> & -> & ->) Hk. apply Hk.
  - destruct q as [qb qa]. cbn. intros (xs & Hall & -> & ->) Hk.
    apply many_complete; [done|]. apply Hk.
  - intros -> Hk. apply Hk.
  - intros (m & H1 & H2) Hk. eapply IHr1; [done|]. intros cs'. by eapply IHr2.
  - intros [H|H] Hk.
    + destruct (IHr1 p q cs k H Hk) as [y ->]. done.
    + destruct (rmatch r1 p cs k); [done|]. by eapply IHr2.
  - intros H Hk. eapply IHr; [done|]. intros cs'. apply Hk.
  - intros [-> ->] Hk. apply Hk.
  - intros [-> ->] Hk. apply Hk.
Qed.

Lemma re_find_sound r s cs rest :
  re_find r s = Some (cs, rest) -> exists q, den r ([], runes s) q /\ rest = bytes_of q.2.
Proof.
  unfold re_find. intros (q & cs' & H & [= -> <-])%rmatch_sound. eauto.
Qed.

Lemma re_find_complete r s q : den r ([], runes s) q -> is_Some (re_find r s).
Proof. intros H. unfold re_find. eapply rmatch_complete; [done|]. eauto. Qed.

(** An anchored literal fixes the first rune of the text. *)
Lemma re_find_head f r s x l :
  runes s = x :: l -> f (rn x) = false -> re_find (RSeq (RClass f) r) s = None.
Proof.
  intros Hs Hf. unfold re_find. cbn. by rewrite Hs, Hf.
Qed.
