(* ===== verification/Sqlparser.v ===== *)
(** * The syntax trees the proxy reads

    [github.com/xwb1989/sqlparser] is not part of the repository.  Its syntax
    trees are modelled by what the proxy observes of them: one constructor per
    node type the source names in a type switch or assertion, with the fields the
    source reads, and one constructor for any other node, which carries its Go
    type name (for [%T]) and an opaque identity.  A [ColIdent] or [TableIdent]
    is its [String()], and [IsEmpty()] of a qualifier or alias is kept as the
    boolean the source tests.  The package's functions are the methods of the
    class [Sqlparser]: nothing is assumed about them here. *)
From S2P Require Export Regex.

(** [ValType] of a literal: the three kinds the source distinguishes. *)
Inductive ValType := StrVal | IntVal | FloatVal | OtherVal.
#[export] Instance ValType_eq_dec : EqDecision ValType.
Proof. solve_decision. Defined.

Inductive Expr :=
| AndExpr (Left Right : Expr)
| OrExpr (Left Right : Expr)
| NotExpr (E : Expr)
| ParenExpr (E : Expr)
| ComparisonExpr (Operator : string) (Left Right : Expr) (Escape : option Expr)
| ColName (Name : string) (QualifierIsEmpty : bool)
| SQLVal (Type_ : ValType) (Val : string)
| BoolVal (b : bool)
| UnaryExpr (Operator : string) (E : Expr)
| FuncExpr (Name : string) (Exprs : list SelectExpr)
| ValTuple (items : list Expr)
| OtherExpr (typ id : string)
with SelectExpr :=
| StarExpr (TableNameIsEmpty : bool)
| AliasedExpr (E : Expr) (AsIsEmpty : bool)
| OtherSelectExpr (typ id : string).

(** The Go type of a node, as [%T] prints it. *)
Definition typeName (e : Expr) : string :=
  match e with
  | AndExpr _ _ => "*sqlparser.AndExpr"
  | OrExpr _ _ => "*sqlparser.OrExpr"
  | NotExpr _ => "*sqlparser.NotExpr"
  | ParenExpr _ => "*sqlparser.ParenExpr"
  | ComparisonExpr _ _ _ _ => "*sqlparser.ComparisonExpr"
  | ColName _ _ => "*sqlparser.ColName"
  | SQLVal _ _ => "*sqlparser.SQLVal"
  | BoolVal _ => "sqlparser.BoolVal"
  | UnaryExpr _ _ => "*sqlparser.UnaryExpr"
  | FuncExpr _ _ => "*sqlparser.FuncExpr"
  | ValTuple _ => "sqlparser.ValTuple"
  | OtherExpr t _ => t
  end.

Record TableName := mk_TableName { tn_Name : string; tn_QualifierIsEmpty : bool }.

Inductive SimpleTableExpr :=
| TableNameExpr (t : TableName)
| OtherSimpleTableExpr (id : string).

Inductive TableExpr :=
| AliasedTableExpr (E : SimpleTableExpr) (AsIsEmpty : bool) (HintsIsNil : bool)
| OtherTableExpr (id : string).

Record Limit := mk_Limit { lim_Offset : option Expr; lim_Rowcount : Expr }.

Record Select := mk_Select {
  sel_Distinct : string;
  sel_SelectExprs : list SelectExpr;
  sel_From : list TableExpr;
  sel_Where : option Expr;
  sel_GroupBy : list Expr;
  sel_Having : option Expr;
  sel_OrderBy : list Expr;
  sel_Limit : option Limit;
  sel_Lock : string
}.

Inductive InsertRows :=
| Values (rows : list (list Expr))
| OtherInsertRows (id : string).

Record Insert := mk_Insert {
  ins_Action : string;
  ins_Ignore : string;
  ins_Table : TableName;
  ins_Partitions : list string;
  ins_Columns : list string;
  ins_Rows : InsertRows;
  ins_OnDup : list Expr
}.

Record Delete := mk_Delete {
  del_Targets : list TableName;
  del_TableExprs : list TableExpr;
  del_Partitions : list string;
  del_Where : option Expr;
  del_OrderBy : list Expr;
  del_Limit : option Limit
}.

Record ColumnType := mk_ColumnType {
  ct_Type : string;
  ct_Autoincrement : bool;
  ct_Default : option Expr;
  ct_OnUpdate : option Expr;
  ct_Comment : option string;
  ct_Length : option string;
  ct_Unsigned : bool;
  ct_Zerofill : bool;
  ct_Scale : option string;
  ct_Charset : string;
  ct_Collate : string;
  ct_KeyOpt : Z
}.

Record ColumnDefinition := mk_ColumnDefinition { cd_Name : string; cd_Type : ColumnType }.

Record TableSpec := mk_TableSpec {
  ts_Columns : list ColumnDefinition;
  ts_Indexes : list string;
  ts_Options : string
}.

Record DDL := mk_DDL {
  ddl_Action : string;
  ddl_Table : TableName;
  ddl_NewName : TableName;
  ddl_IfExists : bool;
  ddl_TableSpec : option TableSpec
}.

Record DBDDL := mk_DBDDL { db_Action : string; db_DBName : string }.

Inductive Statement :=
| SelectStmt (s : Select)
| InsertStmt (s : Insert)
| DeleteStmt (s : Delete)
| DDLStmt (s : DDL)
| DBDDLStmt (s : DBDDL)
| ShowStmt (Type_ : string)
| UseStmt (DBName : string)
| OtherStatement (typ : string).

(** The column types of [querypb] that [MilvusDataTypeMap] lists. *)
Inductive QueryType :=
| Type_INT8 | Type_INT16 | Type_INT32 | Type_INT64 | Type_FLOAT32 | Type_FLOAT64
| Type_TEXT | Type_VARCHAR | Type_DATE | Type_DATETIME | Type_OTHER (name : string).
#[export] Instance QueryType_eq_dec : EqDecision QueryType.
Proof. solve_decision. Defined.

(** A node that [sqlparser.Walk] visits; a nil pointer is [None]. *)
Inductive SQLNode :=
| NComparison (x : option (Expr * Expr))
| NLimit (x : option Limit)
| NOther.

(** The functions of the package. *)
Class Sqlparser := {
  Parse : string -> string + Statement;
  ParseStrictDDL : string -> string + Statement;
  StringSelectExpr : SelectExpr -> string;
  StringExpr : Expr -> string;
  StringTableExpr : TableExpr -> string;
  (** The nodes [Walk] visits when the visitor always continues. *)
  WalkNodes : Statement -> list SQLNode;
  SQLType : ColumnType -> QueryType;
  QueryTypeText : QueryType -> string;
  (** [KeywordString(VECTOR)] *)
  vectorKeyword : string;
  CreateStr : string;
  DropStr : string;
  ReplaceStr : string
}.

(** Documented behaviour of the printer that the source relies on: an unqualified
    star prints as a star, and an expression without an alias as itself. *)
Class SqlparserLaws (P : Sqlparser) : Prop := {
  String_star : StringSelectExpr (StarExpr true) = "*";
  String_aliased e : StringSelectExpr (AliasedExpr e true) = StringExpr e
}.

(** Documented behaviour of the types of columns: the query types of [text] and
    [bigint], and the keyword of vectors. *)
Class SqlparserTypes (P : Sqlparser) : Prop := {
  SQLType_text t : ct_Type t = "text" -> SQLType t = Type_TEXT;
  SQLType_bigint t : ct_Type t = "bigint" -> SQLType t = Type_INT64;
  vectorKeyword_vector : vectorKeyword = "vector"
}.
