(* ===== verification/Values.v ===== *)
(** * Row values and result sets ([conn_resultvalue.go], [resultField] of [select.go])

    An [interface{}] that carries a row value or a statement parameter is a
    [value]: one constructor per dynamic type the source's type switches name.
    Integers carry their numeric value, floats their IEEE 754 bits; a [[]byte] may
    be nil, so it is an [option string].  Decimal
    conversion of floats and JSON encoding are the classes [GoFloat] and
    [GoJson]; a [Field], a [Resultset] and a [Result] have the fields of the
    kingshard types that the source reads or writes. *)
From S2P Require Export Strconv.
Open Scope Z_scope.

(** [math.IsNaN] and [math.IsInf(f, 0)] of a float64, on its bits. *)
Definition f64_exponent (b : Z) : Z := Z.land (Z.shiftr b 52) 2047.
Definition f64_mantissa (b : Z) : Z := Z.land b (2 ^ 52 - 1).
Definition isNaN (b : Z) : bool := (f64_exponent b =? 2047) && negb (f64_mantissa b =? 0).
Definition isInf (b : Z) : bool := (f64_exponent b =? 2047) && (f64_mantissa b =? 0).

(** ** Standard-library conversions the model is parametric in *)
Class GoFloat := {
  (** [strconv.ParseFloat(s, bitSize)]: the bits of the float64 *)
  parseFloat : string -> Z -> string + Z;
  (** [float32(f)] and [float64(f)] on bit patterns *)
  f32_of_f64 : Z -> Z;
  f64_of_f32 : Z -> Z;
  (** [strconv.AppendFloat(nil, f, 'f', -1, 64)] *)
  formatFloat : Z -> string;
  (** [fmt.Sprint] of a float64, of a float32, and of a value of another type *)
  sprintFloat64 : Z -> string;
  sprintFloat32 : Z -> string;
  sprintOther : string -> string
}.

(** Documented behaviour of the conversions: the shortest decimal form of a
    float64 that is a number parses back to it; and "if bitSize is 32, ParseFloat
    returns a float64 that is convertible to float32 without changing its value". *)
Class GoFloatLaws (F : GoFloat) : Prop := {
  parse_formatFloat b :
    0 <= b < 2 ^ 64 -> isNaN b = false ->
    parseFloat (formatFloat b) 64 = inr b;
  parse_sprintFloat64 b :
    0 <= b < 2 ^ 64 -> isNaN b = false ->
    parseFloat (sprintFloat64 b) 64 = inr b;
  parseFloat_32 s d : parseFloat s 32 = inr d -> f64_of_f32 (f32_of_f64 d) = d
}.

(** kingshard's [hack.Slice]: the bytes of a string without a copy, [None] when the
    slice is nil.  Whether the slice of an empty string is nil depends on the
    string's pointer, which the model does not have: it is fixed by the instance. *)
Class Hack := { hackSlice : string -> option string }.
Class HackLaws (K : Hack) : Prop := {
  hackSlice_nonempty s : s <> "" -> hackSlice s = Some s;
  hackSlice_empty : hackSlice "" = Some "" \/ hackSlice "" = None
}.

Class GoJson := {
  (** [json.Valid] *)
  jsonValid : string -> bool;
  (** [json.Unmarshal] into [[]json.RawMessage] and into [[]float32] *)
  jsonRawArray : string -> string + list string;
  jsonFloat32Array : string -> string + list Z;
  (** [json.Marshal] of [[]float32] and of a (possibly nil) [map[string]string] *)
  jsonMarshalFloats : list Z -> string + string;
  jsonMarshalMap : option (gmap string string) -> string
}.

(** ** Values *)
Inductive value :=
| VNil
| VBool (b : bool)
| VInt8 (z : Z) | VInt16 (z : Z) | VInt32 (z : Z) | VInt64 (z : Z) | VInt (z : Z)
| VUint8 (z : Z) | VUint16 (z : Z) | VUint32 (z : Z) | VUint64 (z : Z) | VUint (z : Z)
| VFloat32 (bits : Z)
| VFloat64 (bits : Z)
| VFloats (l : list Z)            (* []float32 *)
| VBytes (s : option string)      (* []byte *)
| VString (s : string)
| VOther (typ : string).

Definition valueTypeName (v : value) : string :=
  match v with
  | VNil => "<nil>" | VBool _ => "bool"
  | VInt8 _ => "int8" | VInt16 _ => "int16" | VInt32 _ => "int32" | VInt64 _ => "int64"
  | VInt _ => "int"
  | VUint8 _ => "uint8" | VUint16 _ => "uint16" | VUint32 _ => "uint32"
  | VUint64 _ => "uint64" | VUint _ => "uint"
  | VFloat32 _ => "float32" | VFloat64 _ => "float64"
  | VFloats _ => "[]float32" | VBytes _ => "[]uint8" | VString _ => "string"
  | VOther t => t
  end.

(** The integers a value of an integer type may carry. *)
Definition value_wf (v : value) : Prop :=
  match v with
  | VInt8 z => in_range 8 z | VInt16 z => in_range 16 z | VInt32 z => in_range 32 z
  | VInt64 z | VInt z => in_range 64 z
  | VUint8 z => 0 <= z < 2 ^ 8 | VUint16 z => 0 <= z < 2 ^ 16
  | VUint32 z => 0 <= z < 2 ^ 32
  | VUint64 z | VUint z => 0 <= z < 2 ^ 64
  | _ => True
  end.

(** ** [mysql.Field], [mysql.Resultset], [mysql.Result] *)
Inductive MysqlType :=
| MYSQL_TYPE_NULL | MYSQL_TYPE_TINY | MYSQL_TYPE_LONGLONG | MYSQL_TYPE_DOUBLE
| MYSQL_TYPE_VAR_STRING | MYSQL_TYPE_OTHER (code : Z).
#[export] Instance MysqlType_eq_dec : EqDecision MysqlType.
Proof. solve_decision. Defined.

Inductive FieldFlag := BINARY_FLAG | NOT_NULL_FLAG | UNSIGNED_FLAG.

Record Field := mk_Field {
  f_Name : string;
  f_Charset : Z;
  f_Type : MysqlType;
  f_Flag : list FieldFlag
}.

Record Resultset := mk_Resultset {
  rs_Fields : list Field;
  rs_FieldNames : gmap string nat;
  rs_Values : list (list value)
}.

(** [SERVER_STATUS_AUTOCOMMIT] is the only status the source uses. *)
Inductive ServerStatus := SERVER_STATUS_NONE | SERVER_STATUS_AUTOCOMMIT.

Record Result := mk_Result {
  r_Status : ServerStatus;
  r_InsertId : Z;
  r_AffectedRows : Z;
  r_Resultset : option Resultset
}.
Definition emptyResult : Result := mk_Result SERVER_STATUS_NONE 0 0 None.

Definition set_Fields (fs : list Field) (r : Resultset) : Resultset :=
  mk_Resultset fs (rs_FieldNames r) (rs_Values r).
Definition set_Values (vs : list (list value)) (r : Resultset) : Resultset :=
  mk_Resultset (rs_Fields r) (rs_FieldNames r) vs.

(** ** [formatValue] *)
Section format.
Context `{GoFloat, GoJson, Hack}.

(** [formatValue]: text encoding of a value, a [[]byte] that may be nil *)
Definition formatValue (v : value) : res (option string) :=
  match v with
  | VNil => Ok (hackSlice "NULL")
  | VBool b => Ok (Some (formatBool b))
  | VInt8 z | VInt16 z | VInt32 z | VInt64 z | VInt z => Ok (Some (formatInt z))
  | VUint8 z | VUint16 z | VUint32 z | VUint64 z | VUint z => Ok (Some (formatInt z))
  | VFloat32 b => Ok (Some (formatFloat (f64_of_f32 b)))
  | VFloat64 b => Ok (Some (formatFloat b))
  | VFloats l => Some <$> of_sum (jsonMarshalFloats l)
  | VBytes s => Ok s
  | VString s => Ok (hackSlice s)
  | VOther t => Err ("invalid type " +:+ t)
  end.
End format.

(** [formatField]: the type of a column from the value of its first row *)
Definition formatField (f : Field) (v : value) : res Field :=
  match v with
  | VNil => Ok (mk_Field (f_Name f) (f_Charset f) MYSQL_TYPE_NULL (f_Flag f))
  | VBool _ => Ok (mk_Field (f_Name f) 63 MYSQL_TYPE_TINY (f_Flag f))
  | VInt8 _ | VInt16 _ | VInt32 _ | VInt64 _ | VInt _ =>
      Ok (mk_Field (f_Name f) 63 MYSQL_TYPE_LONGLONG [BINARY_FLAG; NOT_NULL_FLAG])
  | VUint8 _ | VUint16 _ | VUint32 _ | VUint64 _ | VUint _ =>
      Ok (mk_Field (f_Name f) 63 MYSQL_TYPE_LONGLONG
            [BINARY_FLAG; NOT_NULL_FLAG; UNSIGNED_FLAG])
  | VFloat32 _ | VFloat64 _ =>
      Ok (mk_Field (f_Name f) 63 MYSQL_TYPE_DOUBLE [BINARY_FLAG; NOT_NULL_FLAG])
  | VString _ | VBytes _ | VFloats _ =>
      Ok (mk_Field (f_Name f) 33 MYSQL_TYPE_VAR_STRING (f_Flag f))
  | VOther t => Err ("unsupport type " +:+ t +:+ " for resultset")
  end.

Definition newField (name : string) : Field :=
  mk_Field name 33 MYSQL_TYPE_VAR_STRING [].

(** [FieldNames[fields[i]] = i], in index order: the last of equal names wins. *)
Definition fieldNames (names : list string) : gmap string nat :=
  foldl (fun m p => <[p.2 := p.1]> m) ∅ (imap pair names).

Definition newEmptyResultset (names : list string) : Resultset :=
  mk_Resultset (map newField names) (fieldNames names) [].

(** The loop [for j, v := range row { formatField(r.Fields[j], v) }]. *)
Fixpoint formatFields (fs : list Field) (row : list value) : res (list Field) :=
  match row, fs with
  | [], _ => Ok fs
  | v :: row', f :: fs' =>
      f' ← formatField f v;
      fs'' ← formatFields fs' row';
      Ok (f' :: fs'')
  | _ :: _, [] => Panic "index out of range"
  end.

(** One iteration of the loop over the rows of [buildResultset]. *)
Definition checkRow (hasFields : bool) (names : list string) (i : nat) (row : list value)
    (fs : list Field) : res (list Field) :=
  if negb (length row =? length names)%nat then
    Err ("row " +:+ formatInt (Z.of_nat i) +:+ " has " +:+ formatInt (Z.of_nat (length row))
         +:+ " columns, expected " +:+ formatInt (Z.of_nat (length names)))
  else if (i =? 0)%nat && negb hasFields then formatFields fs row
  else Ok fs.

Fixpoint checkRows (hasFields : bool) (names : list string) (i : nat)
    (rows : list (list value)) (fs : list Field) : res (list Field) :=
  match rows with
  | [] => Ok fs
  | row :: rows' =>
      fs' ← checkRow hasFields names i row fs;
      checkRows hasFields names (S i) rows' fs'
  end.

Definition errInvalidArgument : string := "argument is invalid".

(** [buildResultset]; [fields] is the nil slice or one field per name *)
Definition buildResultset (fields : list Field) (names : list string)
    (values : list (list value)) : res Resultset :=
  if negb (length fields =? 0)%nat && negb (length fields =? length names)%nat
  then Err errInvalidArgument
  else
    let r := newEmptyResultset names in
    let r := if (length fields =? 0)%nat then r else set_Fields fields r in
    fs ← checkRows (negb (length fields =? 0)%nat) names 0 values (rs_Fields r);
    Ok (set_Values values (set_Fields fs r)).

(** A result set whose rows and fields agree: what the protocol encoders index. *)
Definition resultset_wf (r : Resultset) : Prop :=
  Forall (fun row => length row = length (rs_Fields r)) (rs_Values r).

(** ** Lemmas *)
Lemma formatField_no_panic f v : is_panic (formatField f v) = false.
Proof. by destruct v. Qed.

Lemma formatFields_length fs row fs' :
  formatFields fs row = Ok fs' -> length fs' = length fs.
Proof.
  revert row fs'; induction fs as [|f fs IH]; intros [|v row] fs'; cbn [formatFields];
    intros H; inv_ok; [done..|].
  cbn. f_equal. by eapply IH.
Qed.

Lemma formatFields_no_panic fs row :
  (length row <= length fs)%nat -> is_panic (formatFields fs row) = false.
Proof.
  revert row; induction fs as [|f fs IH]; intros [|v row] Hl; cbn in Hl; [done|lia|done|].
  cbn [formatFields]. apply bind_no_panic; [apply formatField_no_panic|]. intros f' _.
  apply bind_no_panic; [apply IH; lia|done].
Qed.

Lemma checkRows_Ok hf names i rows fs fs' :
  length fs = length names -> checkRows hf names i rows fs = Ok fs' ->
  length fs' = length names /\ Forall (fun row => length row = length names) rows.
Proof.
  revert i fs; induction rows as [|row rows IH]; intros i fs Hl; cbn [checkRows]; intros H.
  - inv_ok. by split.
  - inv_ok. unfold checkRow in Hx.
    destruct (length row =? length names)%nat eqn:E; cbn [negb] in Hx; [|done].
    apply Nat.eqb_eq in E.
    assert (length x = length names) as Hlx.
    { destruct ((i =? 0)%nat && negb hf); [|by inv_ok].
      apply formatFields_length in Hx. congruence. }
    destruct (IH _ _ Hlx H) as [? ?]. by split; [|constructor].
Qed.

Lemma checkRows_no_panic hf names i rows fs :
  length fs = length names -> is_panic (checkRows hf names i rows fs) = false.
Proof.
  revert i fs; induction rows as [|row rows IH]; intros i fs Hl; cbn [checkRows]; [done|].
  assert (forall fs', checkRow hf names i row fs = Ok fs' -> length fs' = length names) as Hok.
  { intros fs' H. unfold checkRow in H. repeat case_match; try done; inv_ok; [|done].
    apply formatFields_length in H. congruence. }
  apply bind_no_panic; [|intros fs' Hf; by eapply IH, Hok].
  unfold checkRow. destruct (length row =? length names)%nat eqn:E; cbn [negb]; [|done].
  apply Nat.eqb_eq in E. destruct (_ && _); [|done].
  apply formatFields_no_panic. lia.
Qed.

Lemma buildResultset_fields_length fields names :
  negb (length fields =? 0)%nat && negb (length fields =? length names)%nat = false ->
  length (rs_Fields (if (length fields =? 0)%nat then newEmptyResultset names
                     else set_Fields fields (newEmptyResultset names))) = length names.
Proof.
  intros H. destruct (length fields =? 0)%nat eqn:E; cbn in *.
  - by rewrite length_map.
  - bool_to_prop. done.
Qed.

Lemma buildResultset_shape fields names values r :
  buildResultset fields names values = Ok r ->
  length (rs_Fields r) = length names /\ rs_Values r = values
  /\ Forall (fun row => length row = length names) values.
Proof.
  unfold buildResultset. destruct (_ && _) eqn:E; [done|]. intros H. inv_ok.
  apply checkRows_Ok in Hx as [??]; [done|]. by apply buildResultset_fields_length.
Qed.

Lemma buildResultset_wf fields names values r :
  buildResultset fields names values = Ok r -> resultset_wf r.
Proof.
  intros (Hf & Hv & Hrows)%buildResultset_shape. unfold resultset_wf. rewrite Hv, Hf. done.
Qed.

Lemma buildResultset_no_panic fields names values :
  is_panic (buildResultset fields names values) = false.
Proof.
  unfold buildResultset. destruct (_ && _) eqn:E; [done|].
  apply bind_no_panic; [|done]. apply checkRows_no_panic.
  by apply buildResultset_fields_length.
Qed.
