(* ===== verification/Samples.v ===== *)
(** * Sample instances of the model's parameters

    Concrete tables and functions with which the witnesses evaluate the
    theorems.  They stand in for nothing: no definition of the model and no
    theorem depends on them. *)
From S2P Require Export Values Sqlparser.
Open Scope Z_scope.

(** Case mapping that only knows U+017F and U+212A; every non-ASCII rune prints. *)
Definition sampleUnicode : UnicodeTables := {|
  uniUpper r := if r =? 383 then 83 else r;
  uniLower r := if r =? 8490 then 107 else r;
  uniPrint _ := true
|}.

#[export] Instance sampleUnicode_laws : UnicodeLaws sampleUnicode.
Proof. by split. Defined.

(** Floats written and read by their bit pattern in decimal. *)
Definition sampleFloat : GoFloat := {|
  parseFloat s _ :=
    match parseIntE s 80 with inr n => inr n | inl _ => inl "invalid syntax" end;
  f32_of_f64 b := b;
  f64_of_f32 b := b;
  formatFloat := formatInt;
  sprintFloat64 := formatInt;
  sprintFloat32 := formatInt;
  sprintOther t := t
|}.

(** A JSON array is a bracketed, comma-separated list of integers. *)
Definition sampleItems (s : string) : list string :=
  splitOn ","%char (trimSet s "[]").
Definition sampleFloats (s : string) : string + list Z :=
  match mapM (fun x => match parseIntE x 64 with inr n => Some n | inl _ => None end)
          (sampleItems s) with
  | Some l => inr l
  | None => inl "invalid JSON"
  end.
Definition sampleJson : GoJson := {|
  jsonValid s := hasPrefix s "{";
  jsonRawArray s := inr (sampleItems s);
  jsonFloat32Array := sampleFloats;
  jsonMarshalFloats l := inr ("[" +:+ join (map formatInt l) "," +:+ "]");
  jsonMarshalMap m :=
    match m with
    | None => "null"
    | Some m => "{" +:+ join (map (fun p => p.1 +:+ ":" +:+ p.2) (map_to_list m)) "," +:+ "}"
    end
|}.

(** A parser that knows one statement, and prints columns and [count( * )]. *)
Definition sampleStringExpr (e : Expr) : string :=
  match e with
  | ColName n _ => n
  | SQLVal _ v => v
  | FuncExpr n [StarExpr true] => n +:+ "(*)"
  | _ => "?"
  end.
Definition sampleSqlparser (st : Statement) : Sqlparser := {|
  Parse _ := inr st;
  ParseStrictDDL _ := inr st;
  StringSelectExpr e :=
    match e with
    | StarExpr true => "*"
    | AliasedExpr x true => sampleStringExpr x
    | _ => "?"
    end;
  StringExpr := sampleStringExpr;
  StringTableExpr t :=
    match t with
    | AliasedTableExpr (TableNameExpr n) true true => tn_Name n
    | _ => "?"
    end;
  WalkNodes st :=
    match st with
    | SelectStmt s =>
        match sel_Where s with
        | Some (ComparisonExpr _ l r _) => [NComparison (Some (l, r)); NLimit (sel_Limit s)]
        | _ => [NLimit (sel_Limit s)]
        end
    | _ => []
    end;
  SQLType ct :=
    if (ct_Type ct =?s "bigint")%go then Type_INT64
    else if (ct_Type ct =?s "varchar")%go then Type_VARCHAR
    else if (ct_Type ct =?s "text")%go then Type_TEXT else Type_OTHER (ct_Type ct);
  QueryTypeText t := match t with Type_OTHER n => n | _ => "?" end;
  vectorKeyword := "vector";
  CreateStr := "create";
  DropStr := "drop";
  ReplaceStr := "replace"
|}.

#[export] Instance sampleSqlparser_laws st : SqlparserLaws (sampleSqlparser st).
Proof. by split. Qed.
#[export] Instance sampleSqlparser_types st : SqlparserTypes (sampleSqlparser st).
Proof. by split; [intros t Ht; cbn; rewrite Ht..|]. Qed.

#[export] Instance sampleFloat_laws : GoFloatLaws sampleFloat.
Proof.
  split; [intros b Hb _..|done]; cbn [parseFloat formatFloat sprintFloat64 sampleFloat];
    rewrite parseIntE_formatInt; try done; unfold in_range;
    change (2 ^ (80 - 1)) with 604462909807314587353088;
    change (2 ^ 64) with 18446744073709551616 in Hb; lia.
Qed.

(** The slice of an empty string is nil. *)
Definition sampleHack : Hack :=
  {| hackSlice s := match s with EmptyString => None | _ => Some s end |}.
#[export] Instance sampleHack_laws : HackLaws sampleHack.
Proof. split; [by intros []|by right]. Qed.
