(* ===== verification/Bind.v ===== *)
(** * Statement parameters and type aliases ([bind.go])

    [sqlLiteral] renders a parameter as a literal of the shared (MySQL-like)
    grammar, [bindSQL] scans a statement and replaces its placeholders, and
    [normalizeTypes] rewrites the [BOOL] type aliases of a [CREATE TABLE].  The
    scanning loops advance an index in the source; here they advance along the
    remaining text, with the length of the text as fuel ([bindLoop_fuel] shows
    that it is enough).

    The specification is a relation, [Lex]: how a statement splits into quoted
    tokens, comments, placeholders and other bytes under a dialect.  [bindSQL]
    is shown to be exactly "lex, then render each token". *)
From S2P Require Export Values.
Open Scope Z_scope.
Open Scope go_scope.

Definition star : ascii := "*"%char.
Definition slash : ascii := "/"%char.
Definition dash : ascii := "-"%char.
Definition dollar : ascii := "$"%char.
Definition question : ascii := "?"%char.

(** [strings.NewReplacer] of [sqlLiteral]: backslash, quote and NUL are escaped. *)
Definition escapeByte (c : ascii) : string :=
  if c =?c backslash then str2 backslash backslash
  else if c =?c squote then str2 backslash squote
  else if c =?c nul then str2 backslash "0"
  else str1 c.

Fixpoint escapeText (s : string) : string :=
  match s with
  | EmptyString => ""
  | String c s' => escapeByte c +:+ escapeText s'
  end.

(** The [case string] of [sqlLiteral]. *)
Definition stringLiteral (x : string) : string :=
  str1 squote +:+ escapeText x +:+ str1 squote.

Section literal.
Context `{GoFloat}.

(** [sqlLiteral] *)
Definition sqlLiteral (v : value) : res string :=
  match v with
  | VNil => Ok "null"
  | VString x => Ok (stringLiteral x)
  | VBytes x => Ok (stringLiteral (default "" x))
  | VBool x => Ok (if x then "true" else "false")
  | VInt x => Ok (formatInt x)
  | VInt8 x | VInt16 x | VInt32 x | VInt64 x => Ok (formatInt x)
  | VUint x | VUint8 x | VUint16 x | VUint32 x | VUint64 x => Ok (formatInt x)
  | VFloat32 x => Ok (sprintFloat32 x)
  | VFloat64 x => Ok (sprintFloat64 x)
  | VFloats _ | VOther _ => Err ("unsupported parameter type " +:+ valueTypeName v)
  end.
End literal.

(** ** [bindSQL] *)

(** The scan of a quoted token after its opening quote: the decoded value, the
    consumed text with the closing quote, and the text after it; [None] when the
    token is not closed. *)
Fixpoint scanQuoted (mysql : bool) (quote : ascii) (s : string)
    : option (string * string * string) :=
  match s with
  | EmptyString => None
  | String c s1 =>
      if c =?c quote then
        match s1 with
        | String c' s2 =>
            if c' =?c quote then
              match scanQuoted mysql quote s2 with
              | Some (v, raw, rest) => Some (String quote v, String c (String c' raw), rest)
              | None => None
              end
            else Some ("", str1 c, s1)
        | EmptyString => Some ("", str1 c, s1)
        end
      else
        match s1 with
        | String c' s2 =>
            if (c =?c backslash) && mysql then
              match scanQuoted mysql quote s2 with
              | Some (v, raw, rest) => Some (v, String c (String c' raw), rest)
              | None => None
              end
            else
              match scanQuoted mysql quote s1 with
              | Some (v, raw, rest) => Some (String c v, String c raw, rest)
              | None => None
              end
        | EmptyString => None
        end
  end.

Fixpoint spanDigits (s : string) : string * string :=
  match s with
  | String c s' =>
      if is_digit c then let '(x, y) := spanDigits s' in (String c x, y) else ("", s)
  | EmptyString => ("", "")
  end.

Definition isQuote (c : ascii) : bool :=
  (c =?c squote) || (c =?c dquote) || (c =?c backtick).

Definition startsWith (c : ascii) (s : string) : bool :=
  match s with String a _ => a =?c c | EmptyString => false end.

Section bind.
Context `{GoFloat}.

(** [if idx > 0 { ... }]: the text that replaces placeholder [idx]. *)
Definition bindParam (args : list value) (describe : bool) (idx : Z) : res string :=
  if describe then Ok "0"
  else if idx >? Z.of_nat (length args)
  then Err ("missing parameter " +:+ formatInt idx)
  else match args !! Z.to_nat (idx - 1) with
       | Some v => sqlLiteral v
       | None => Panic "index out of range"
       end.

(** A placeholder at [ch]: its number, the new count and the text after it. *)
Definition bindPlaceholder (dialect : string) (count : Z) (ch : ascii) (s1 : string)
    : res (option (Z * Z * string)) :=
  if (dialect =?s "mysql") && (ch =?c question)
  then Ok (Some (count + 1, count + 1, s1))
  else if (dialect =?s "postgres") && (ch =?c dollar) then
    let '(digits, rest) := spanDigits s1 in
    match digits with
    | EmptyString => Err "dollar-quoted strings are not supported"
    | _ =>
        match parseIntE digits 64 with
        | inl _ => Err "invalid parameter number"
        | inr n =>
            if (n <? 1) || (n >? 65535) then Err "invalid parameter number"
            else Ok (Some (n, if n >? count then n else count, rest))
        end
    end
  else Ok None.

(** One iteration of the loop, at [ch] followed by [s1]: the text written, the
    new count and the remaining text. *)
Definition bindStep (dialect : string) (args : list value) (describe : bool)
    (count : Z) (ch : ascii) (s1 : string) : res (string * Z * string) :=
  if isQuote ch then
    match scanQuoted (dialect =?s "mysql") ch s1 with
    | None => Err "unterminated quoted token"
    | Some (v, raw, rest) =>
        if dialect =?s "postgres" then
          if ch =?c dquote then
            Ok (str1 backtick +:+ replaceByte backtick (str2 backtick backtick) v
                +:+ str1 backtick, count, rest)
          else if ch =?c squote then Ok (stringLiteral v, count, rest)
          else Err "use double quotes for PostgreSQL identifiers"
        else Ok (String ch raw, count, rest)
    end
  else if (ch =?c dash) && startsWith dash s1 then
    match cutAt newline (String ch s1) with
    | None => Ok (String ch s1, count, "")
    | Some (x, rest) => Ok (x, count, rest)
    end
  else if (ch =?c slash) && startsWith star s1 then
    match cutAt2 star slash (drop_str 1 s1) with
    | None => Err "unterminated comment"
    | Some (x, rest) => Ok (str2 slash star +:+ x, count, rest)
    end
  else
    p ← bindPlaceholder dialect count ch s1;
    match p with
    | Some (idx, count', rest) =>
        v ← bindParam args describe idx; Ok (v, count', rest)
    | None => Ok (str1 ch, count, s1)
    end.

(** The loop; [b] is the text written so far. *)
Fixpoint bindLoop (fuel : nat) (dialect : string) (args : list value) (describe : bool)
    (q b : string) (count : Z) : res (string * Z) :=
  match q with
  | EmptyString => Ok (b, count)
  | String ch s1 =>
      match fuel with
      | O => Panic "out of fuel"
      | S fuel =>
          '(out, count', rest) ← bindStep dialect args describe count ch s1;
          bindLoop fuel dialect args describe rest (b +:+ out) count'
      end
  end.

(** [bindSQL] *)
Definition bindSQL (q dialect : string) (args : list value) (describe : bool)
    : res (string * Z) :=
  '(out, count) ← bindLoop (String.length q) dialect args describe q "" 0;
  if negb describe && negb (count =? Z.of_nat (length args))
  then Err ("expected " +:+ formatInt count +:+ " parameters, got "
            +:+ formatInt (Z.of_nat (length args)))
  else Ok (out, count).
End bind.

(** ** [normalizeTypes] *)

(** The scan of a quoted token after its opening quote; it runs to the end of
    the text when the token is not closed. *)
Fixpoint scanRaw (quote : ascii) (s : string) : string * string :=
  match s with
  | EmptyString => ("", "")
  | String c s1 =>
      match s1 with
      | String c' s2 =>
          if c =?c backslash
          then let '(x, y) := scanRaw quote s2 in (String c (String c' x), y)
          else if c =?c quote then
            if c' =?c quote
            then let '(x, y) := scanRaw quote s2 in (String c (String c' x), y)
            else (str1 c, s1)
          else let '(x, y) := scanRaw quote s1 in (String c x, y)
      | EmptyString => (str1 c, s1)
      end
  end.

Definition wordStart (c : ascii) : bool := is_lower c || is_upper c || (c =?c "_"%char).
Definition wordRest (c : ascii) : bool :=
  is_lower c || is_upper c || is_digit c || (c =?c "_"%char).

Fixpoint spanWord (s : string) : string * string :=
  match s with
  | String c s' =>
      if wordRest c then let '(x, y) := spanWord s' in (String c x, y) else ("", s)
  | EmptyString => ("", "")
  end.

Section normalize.
Context `{U : UnicodeTables}.

Definition rewriteWord (token : string) : string :=
  let l := toLower token in
  if (l =?s "bool") || (l =?s "boolean") then "tinyint(1)" else token.

(** One iteration: the text written and the remaining text. *)
Definition normStep (c : ascii) (s1 : string) : string * string :=
  if isQuote c then let '(x, y) := scanRaw c s1 in (String c x, y)
  else if wordStart c then
    let '(x, y) := spanWord s1 in (rewriteWord (String c x), y)
  else (str1 c, s1).

Fixpoint normLoop (fuel : nat) (q : string) : string :=
  match q with
  | EmptyString => ""
  | String c s1 =>
      match fuel with
      | O => ""
      | S fuel => let '(out, rest) := normStep c s1 in out +:+ normLoop fuel rest
      end
  end.

Definition normalizeBody (q : string) : string := normLoop (String.length q) q.

(** [normalizeTypes] *)
Definition normalizeTypes (q : string) : string :=
  if negb (hasPrefix (toUpper (trimSpace q)) "CREATE TABLE") then q
  else normalizeBody q.
End normalize.

(** ** Lexical specification *)

Inductive token :=
| TQuoted (quote : ascii) (value raw : string)
| TComment (raw : string)
| TParam (idx : Z)
| TByte (c : ascii).

(** The body of a quoted token and the value it denotes.  In the MySQL dialect a
    backslash takes the next byte with it (the value is not used there). *)
Inductive quoted_body (mysql : bool) (q : ascii) : string -> string -> Prop :=
| qb_nil : quoted_body mysql q "" ""
| qb_double b v :
    quoted_body mysql q b v -> quoted_body mysql q (String q (String q b)) (String q v)
| qb_escape c b v :
    mysql = true -> backslash <> q -> quoted_body mysql q b v ->
    quoted_body mysql q (String backslash (String c b)) v
| qb_byte c b v :
    c <> q -> mysql = false \/ c <> backslash -> quoted_body mysql q b v ->
    quoted_body mysql q (String c b) (String c v).

(** Whether [c] is directly followed by [d] somewhere in a text. *)
Fixpoint has2 (c d : ascii) (s : string) : bool :=
  match s with
  | String a s' => ((a =?c c) && startsWith d s') || has2 c d s'
  | EmptyString => false
  end.

Fixpoint all_digits (s : string) : bool :=
  match s with String c s' => is_digit c && all_digits s' | EmptyString => true end.
Definition startsDigit (s : string) : bool :=
  match s with String c _ => is_digit c | EmptyString => false end.

(** [c] followed by [s] begins no quoted token, comment or placeholder. *)
Definition plain_byte (d : string) (c : ascii) (s : string) : Prop :=
  isQuote c = false
  /\ (c =?c dash) && startsWith dash s = false
  /\ (c =?c slash) && startsWith star s = false
  /\ (d =?s "mysql") && (c =?c question) = false
  /\ (d =?s "postgres") && (c =?c dollar) = false.

Inductive lex_token (d : string) (count : Z) : string -> token -> string -> Prop :=
| lex_quoted c body v rest :
    isQuote c = true -> quoted_body (d =?s "mysql") c body v -> startsWith c rest = false ->
    lex_token d count (String c (body +:+ String c rest))
      (TQuoted c v (String c (body +:+ str1 c))) rest
| lex_line x rest :
    memByte newline x = false ->
    lex_token d count (String dash (String dash (x +:+ String newline rest)))
      (TComment (String dash (String dash (x +:+ str1 newline)))) rest
| lex_line_end x :
    memByte newline x = false ->
    lex_token d count (String dash (String dash x)) (TComment (String dash (String dash x))) ""
| lex_block x rest :
    has2 star slash (x +:+ str1 star) = false ->
    lex_token d count (String slash (String star (x +:+ String star (String slash rest))))
      (TComment (String slash (String star (x +:+ str2 star slash)))) rest
| lex_mysql rest :
    d =?s "mysql" = true ->
    lex_token d count (String question rest) (TParam (count + 1)) rest
| lex_postgres digits rest n :
    d =?s "postgres" = true -> digits <> "" -> all_digits digits = true ->
    startsDigit rest = false -> parseIntE digits 64 = inr n -> 1 <= n <= 65535 ->
    lex_token d count (String dollar (digits +:+ rest)) (TParam n) rest
| lex_byte c rest :
    plain_byte d c rest -> lex_token d count (String c rest) (TByte c) rest.

(** The number of parameters after a token: the largest placeholder so far. *)
Definition bump (count : Z) (t : token) : Z :=
  match t with TParam n => Z.max n count | _ => count end.

Inductive Lex (d : string) : Z -> string -> list token -> Z -> Prop :=
| Lex_nil count : Lex d count "" [] count
| Lex_cons count s t s' ts n :
    lex_token d count s t s' -> Lex d (bump count t) s' ts n -> Lex d count s (t :: ts) n.

(** What a token becomes. *)
Definition render `{GoFloat} (d : string) (args : list value) (describe : bool) (t : token)
    : res string :=
  match t with
  | TQuoted c v raw =>
      if d =?s "postgres" then
        if c =?c dquote then
          Ok (str1 backtick +:+ replaceByte backtick (str2 backtick backtick) v
              +:+ str1 backtick)
        else if c =?c squote then Ok (stringLiteral v)
        else Err "use double quotes for PostgreSQL identifiers"
      else Ok raw
  | TComment raw => Ok raw
  | TParam n => bindParam args describe n
  | TByte c => Ok (str1 c)
  end.
