(* ===== verification/BindSpec.v ===== *)
(** * Correctness of statement binding

    [bindSQL] is "lex, then render" for the relation [Lex] of [Bind]; it never
    fails internally; a bound string is one closed literal that denotes the
    parameter, in statements whose structure it cannot change. *)
From S2P Require Export Bind Samples.
Open Scope Z_scope.
Open Scope go_scope.

(** ** The scanners against their specifications *)
Section scanners.
Variables (m : bool) (q : ascii).

Lemma scanQuoted_sound s v raw rest :
  scanQuoted m q s = Some (v, raw, rest) ->
  exists body, quoted_body m q body v /\ s = body +:+ String q rest
    /\ raw = body +:+ str1 q /\ startsWith q rest = false.
Proof.
  revert v raw rest.
  induction s as [s IH] using string_len_ind; intros v raw rest.
  destruct s as [|c s1]; [done|]. cbn [scanQuoted].
  destruct (c =?c q) eqn:Hc; [apply Ascii.eqb_eq in Hc as ->|apply Ascii.eqb_neq in Hc].
  - destruct s1 as [|c' s2].
    { intros [= <- <- <-]. exists "". split_and!; [constructor|done..]. }
    destruct (c' =?c q) eqn:Hc'; [apply Ascii.eqb_eq in Hc' as ->|].
    + destruct (scanQuoted m q s2) as [[[v' raw'] rest']|] eqn:Hs; [|done].
      intros [= <- <- <-]. apply IH in Hs as (b & Hb & -> & -> & Hr); [|cbn; lia].
      exists (String q (String q b)). split_and!; [by constructor|done..].
    + intros [= <- <- <-]. exists "". split_and!; [constructor|done..].
  - destruct s1 as [|c' s2]; [done|].
    destruct ((c =?c backslash) && m) eqn:Hb.
    + apply andb_prop in Hb as [Hb Hm]. apply Ascii.eqb_eq in Hb as ->.
      destruct (scanQuoted m q s2) as [[[v' raw'] rest']|] eqn:Hs; [|done].
      intros [= <- <- <-]. apply IH in Hs as (b & Hb & -> & -> & Hr); [|cbn; lia].
      exists (String backslash (String c' b)). split_and!; [by constructor|done..].
    + destruct (scanQuoted m q (String c' s2)) as [[[v' raw'] rest']|] eqn:Hs; [|done].
      intros [= <- <- <-]. apply IH in Hs as (b & Hq & -> & -> & Hr); [|cbn; lia].
      exists (String c b). split_and!; [|done..]. constructor; [done| |done].
      apply andb_false_iff in Hb as [Hb|Hb]; [right; by apply Ascii.eqb_neq|by left].
Qed.

Lemma scanQuoted_complete body v rest :
  quoted_body m q body v -> startsWith q rest = false ->
  scanQuoted m q (body +:+ String q rest) = Some (v, body +:+ str1 q, rest).
Proof.
  intros Hb Hr. induction Hb as [|b v Hb IH|c b v Hm Hq Hb IH|c b v Hc Hm Hb IH].
  - change (scanQuoted m q (String q rest) = Some ("", str1 q, rest)).
    cbn [scanQuoted]. rewrite Ascii.eqb_refl. destruct rest as [|a rest]; [done|].
    cbn [startsWith] in Hr. by rewrite Hr.
  - rewrite !string_app_cons. cbn [scanQuoted]. rewrite Ascii.eqb_refl.
    cbn in IH |- *. by rewrite IH.
  - rewrite !string_app_cons. cbn [scanQuoted].
    rewrite (proj2 (Ascii.eqb_neq _ _) Hq), Ascii.eqb_refl. cbn [andb].
    destruct m; [|done]. by rewrite IH.
  - rewrite !string_app_cons. cbn [scanQuoted].
    rewrite (proj2 (Ascii.eqb_neq _ _) Hc).
    assert ((c =?c backslash) && m = false) as ->.
    { destruct Hm as [->|Hm]; [apply andb_false_r|].
      by rewrite (proj2 (Ascii.eqb_neq _ _) Hm). }
    rewrite IH. destruct (b +:+ String q rest) eqn:E; [|done].
    destruct b; discriminate E.
Qed.
End scanners.

Lemma cutAt_Some c s x y :
  cutAt c s = Some (x, y) ->
  exists z, memByte c z = false /\ x = z +:+ str1 c /\ s = z +:+ String c y.
Proof.
  revert x. induction s as [|a s IH]; intros x; cbn [cutAt]; [done|].
  destruct (a =?c c) eqn:Ha.
  - apply Ascii.eqb_eq in Ha as ->. intros [= <- <-]. by exists "".
  - destruct (cutAt c s) as [[x' y']|]; [|done]. intros [= <- ->].
    destruct (IH x' eq_refl) as (z & Hz & -> & ->).
    exists (String a z). cbn. by rewrite Ha.
Qed.

Lemma cutAt_intro c z y :
  memByte c z = false -> cutAt c (z +:+ String c y) = Some (z +:+ str1 c, y).
Proof.
  induction z as [|a z IH]; cbn [memByte]; intros Hz.
  - change (cutAt c (String c y) = Some (str1 c, y)). cbn [cutAt]. by rewrite Ascii.eqb_refl.
  - apply orb_false_elim in Hz as [Ha Hz]. rewrite !string_app_cons. cbn [cutAt].
    by rewrite Ha, IH.
Qed.

Lemma cutAt_None c s : cutAt c s = None <-> memByte c s = false.
Proof.
  induction s as [|a s IH]; cbn [cutAt memByte]; [done|].
  destruct (a =?c c); cbn [orb]; [done|]. rewrite <- IH.
  by destruct (cutAt c s) as [[??]|].
Qed.

Lemma has2_cons c d a s :
  has2 c d (String a s) = ((a =?c c) && startsWith d s) || has2 c d s.
Proof. done. Qed.

Lemma startsWith_app c s a t :
  startsWith c (s +:+ String a t) = startsWith c (s +:+ str1 a).
Proof. by destruct s. Qed.

Lemma cutAt2_Some c d s x y :
  c <> d -> cutAt2 c d s = Some (x, y) ->
  exists z, has2 c d (z +:+ str1 c) = false /\ x = z +:+ str2 c d
    /\ s = z +:+ String c (String d y).
Proof.
  intros Hcd. revert x. induction s as [|a s IH]; intros x; [done|].
  cbn [cutAt2]. destruct s as [|b s]; [done|].
  destruct ((a =?c c) && (b =?c d)) eqn:Hab.
  - apply andb_prop in Hab as [Ha Hb].
    apply Ascii.eqb_eq in Ha as ->. apply Ascii.eqb_eq in Hb as ->.
    intros [= <- <-]. exists "". split_and!; [|done..].
    change (has2 c d (str1 c) = false). cbn. by rewrite andb_false_r.
  - destruct (cutAt2 c d (String b s)) as [[x' y']|]; [|done]. intros [= <- ->].
    destruct (IH x' eq_refl) as (z & Hz & -> & Hs). rewrite Hs.
    exists (String a z). split_and!; [|done..].
    rewrite string_app_cons, has2_cons, Hz, orb_false_r.
    destruct z as [|e z].
    + injection Hs as -> _. change (startsWith d ("" +:+ str1 c)) with (c =?c d).
      by rewrite (proj2 (Ascii.eqb_neq _ _) Hcd), andb_false_r.
    + rewrite string_app_cons in Hs. injection Hs as -> _. exact Hab.
Qed.

Lemma cutAt2_intro c d z y :
  c <> d -> has2 c d (z +:+ str1 c) = false ->
  cutAt2 c d (z +:+ String c (String d y)) = Some (z +:+ str2 c d, y).
Proof.
  intros Hcd. induction z as [|a z IH]; intros Hz.
  - change (cutAt2 c d (String c (String d y)) = Some (str2 c d, y)). cbn [cutAt2].
    by rewrite !Ascii.eqb_refl.
  - rewrite !string_app_cons in *. rewrite has2_cons in Hz.
    apply orb_false_elim in Hz as [Ha Hz]. cbn [cutAt2].
    destruct (z +:+ String c (String d y)) as [|b t] eqn:E; [by destruct z|].
    assert (startsWith d (z +:+ str1 c) = (b =?c d)) as Hb.
    { rewrite <- (startsWith_app d z c (String d y)), E. done. }
    rewrite Hb in Ha. by rewrite Ha, IH.
Qed.

Lemma spanDigits_sound s x y :
  spanDigits s = (x, y) -> s = x +:+ y /\ all_digits x = true /\ startsDigit y = false.
Proof.
  revert x y; induction s as [|c s IH]; intros x y; cbn [spanDigits].
  - by intros [= <- <-].
  - destruct (is_digit c) eqn:Hc; [|intros [= <- <-]; by rewrite <- Hc].
    destruct (spanDigits s) as [x' y']. intros [= <- <-].
    destruct (IH x' y' eq_refl) as (-> & Hx & Hy). cbn [all_digits]. by rewrite Hc, Hx.
Qed.

Lemma spanDigits_complete x y :
  all_digits x = true -> startsDigit y = false -> spanDigits (x +:+ y) = (x, y).
Proof.
  induction x as [|c x IH]; cbn [all_digits]; intros Hx Hy.
  - change ("" +:+ y) with y. destruct y as [|c y]; [done|]. cbn in *. by rewrite Hy.
  - apply andb_prop in Hx as [Hc Hx]. rewrite string_app_cons. cbn [spanDigits].
    by rewrite Hc, IH.
Qed.

(** Character classes of the scanner are disjoint. *)
Lemma isQuote_cases c :
  isQuote c = true ->
  c <> dash /\ c <> slash /\ c <> question /\ c <> dollar /\ c <> backslash.
Proof.
  unfold isQuote. intros H. repeat (apply orb_prop in H as [H|H]);
    apply Ascii.eqb_eq in H as ->; split_and!; discriminate.
Qed.

Ltac ascii_neq :=
  repeat match goal with
  | |- context [?a =?c ?a] => rewrite (Ascii.eqb_refl a)
  | H : ?a <> ?b |- context [?a =?c ?b] => rewrite (proj2 (Ascii.eqb_neq a b) H)
  end.

Section step.
Context `{GoFloat}.
Variables (d : string) (args : list value) (describe : bool).

(** One iteration lexes one token and writes its rendering. *)
Lemma bindStep_sound count ch s1 out count' rest :
  bindStep d args describe count ch s1 = Ok (out, count', rest) ->
  exists t, lex_token d count (String ch s1) t rest
    /\ render d args describe t = Ok out /\ count' = bump count t.
Proof.
  unfold bindStep. destruct (isQuote ch) eqn:Hq.
  { destruct (scanQuoted _ ch s1) as [[[v raw] rest']|] eqn:Hs; [|done]. intros Hr.
    apply scanQuoted_sound in Hs as (body & Hb & -> & -> & Hst).
    exists (TQuoted ch v (String ch (body +:+ str1 ch))).
    cbn [render bump]. repeat case_match; simplify_eq; split_and!; try done;
      by constructor. }
  destruct (_ && startsWith dash s1) eqn:Hd.
  { apply andb_prop in Hd as [Hc Hd]. apply Ascii.eqb_eq in Hc as ->.
    destruct s1 as [|b s1]; [done|]. cbn in Hd. apply Ascii.eqb_eq in Hd as ->.
    destruct (cutAt newline _) as [[x r]|] eqn:Hcut; intros [= <- <- <-].
    - apply cutAt_Some in Hcut as (z & Hz & -> & E).
      destruct z as [|a [|b z]]; [discriminate E..|].
      rewrite !string_app_cons in E. injection E as <- <- ->.
      eexists. split_and!; [by apply lex_line|done..].
    - apply cutAt_None in Hcut.
      eexists. split_and!; [by apply lex_line_end|done..]. }
  destruct (_ && startsWith star s1) eqn:Hb.
  { apply andb_prop in Hb as [Hc Hb]. apply Ascii.eqb_eq in Hc as ->.
    destruct s1 as [|b s1]; [done|]. cbn in Hb. apply Ascii.eqb_eq in Hb as ->.
    cbn [drop_str]. destruct (cutAt2 star slash s1) as [[x r]|] eqn:Hcut; [|done].
    intros [= <- <- <-]. apply cutAt2_Some in Hcut as (z & Hz & -> & ->); [|done].
    eexists. split_and!; [by apply lex_block|done..]. }
  intros Hok. inv_ok. destruct x as [[[idx c2] r]|].
  - inv_ok. unfold bindPlaceholder in Hx.
    destruct (_ && (ch =?c question)) eqn:Hm.
    { apply andb_prop in Hm as [Hm Hc]. apply Ascii.eqb_eq in Hc as ->.
      injection Hx as <- <- <-. eexists. split_and!; [by apply lex_mysql|done|].
      cbn [bump]. lia. }
    destruct (_ && (ch =?c dollar)) eqn:Hp; [|done].
    apply andb_prop in Hp as [Hp Hc]. apply Ascii.eqb_eq in Hc as ->.
    destruct (spanDigits s1) as [digits r'] eqn:Hs.
    apply spanDigits_sound in Hs as (-> & Hdig & Hst).
    destruct digits as [|c0 digits]; [done|].
    destruct (parseIntE _ 64) as [|n] eqn:Hn; [done|].
    destruct ((n <? 1) || _) eqn:Hr; [done|]. bool_to_prop.
    injection Hx as <- <- <-. exists (TParam n).
    split_and!; [apply lex_postgres; (done || by apply String.eqb_eq)|done|].
    cbn [bump]. destruct (n >? count) eqn:E; bool_to_prop; lia.
  - injection Hok as <- <- <-. exists (TByte ch). split_and!; [|done..].
    constructor. unfold bindPlaceholder in Hx. unfold plain_byte. rewrite Hq, Hd, Hb.
    destruct (_ && (ch =?c question)); [done|].
    destruct (_ && (ch =?c dollar)) eqn:Hp; [|done].
    repeat case_match; discriminate.
Qed.

Lemma bindStep_complete count ch s1 t rest out :
  lex_token d count (String ch s1) t rest -> render d args describe t = Ok out ->
  bindStep d args describe count ch s1 = Ok (out, bump count t, rest).
Proof.
  intros Hl Hr. inversion Hl as [c body v r Hq Hb Hst|x r Hx|x Hx|x r Hx|r Hm
    |digits r n Hp Hne Hdig Hst Hn Hrange|c r Hpl]; subst; unfold bindStep.
  - rewrite Hq, (scanQuoted_complete _ _ _ _ _ Hb Hst). cbn [render bump] in *.
    repeat case_match; simplify_eq; done.
  - change (isQuote dash) with false. cbn [startsWith]. rewrite !Ascii.eqb_refl. cbn [andb].
    change (String dash (String dash (x +:+ String newline rest)))
      with (String dash (String dash x) +:+ String newline rest).
    rewrite cutAt_intro by exact Hx. cbn [render bump] in *. injection Hr as <-. done.
  - change (isQuote dash) with false. cbn [startsWith]. rewrite !Ascii.eqb_refl. cbn [andb].
    assert (cutAt newline (String dash (String dash x)) = None) as ->.
    { by apply cutAt_None. }
    cbn [render bump] in *. injection Hr as <-. done.
  - change (isQuote slash) with false. cbn [startsWith drop_str].
    change (slash =?c dash) with false. rewrite !Ascii.eqb_refl. cbn [andb].
    rewrite cutAt2_intro by done. cbn [render bump] in *. injection Hr as <-. done.
  - change (isQuote question) with false. change (question =?c dash) with false.
    change (question =?c slash) with false. cbn [andb].
    unfold bindPlaceholder. rewrite Hm, Ascii.eqb_refl. cbn [andb mbind outcome_bind].
    cbn [render bump] in *. rewrite Hr. cbn. do 3 f_equal. lia.
  - change (isQuote dollar) with false. change (dollar =?c dash) with false.
    change (dollar =?c slash) with false. cbn [andb].
    unfold bindPlaceholder. change (dollar =?c question) with false.
    rewrite andb_false_r, Hp, Ascii.eqb_refl. cbn [andb].
    rewrite spanDigits_complete by done. destruct digits as [|c0 digits]; [done|].
    rewrite Hn. destruct ((n <? 1) || (n >? 65535)) eqn:E; [lia|].
    cbn [mbind outcome_bind render bump] in *. rewrite Hr. cbn [mbind outcome_bind].
    do 3 f_equal. destruct (n >? count) eqn:E2; bool_to_prop; lia.
  - destruct Hpl as (Hq & Hd & Hb & Hm & Hp). rewrite Hq, Hd, Hb.
    unfold bindPlaceholder. rewrite Hm, Hp. cbn [render bump] in *. by injection Hr as <-.
Qed.

Lemma lex_token_length count s t rest :
  lex_token d count s t rest -> (String.length rest < String.length s)%nat.
Proof.
  inversion 1; subst; cbn [String.length]; rewrite ?string_length_app; cbn; lia.
Qed.

Lemma bindLoop_sound fuel q b count out n :
  bindLoop fuel d args describe q b count = Ok (out, n) ->
  exists ts outs, Lex d count q ts n /\ mapM (render d args describe) ts = Ok outs
    /\ out = b +:+ concat_all outs.
Proof.
  assert (forall b count, (Ok (b, count) : res _) = Ok (out, n) -> exists ts outs,
    Lex d count "" ts n /\ mapM (render d args describe) ts = Ok outs
    /\ out = b +:+ concat_all outs) as Hnil.
  { intros b' c' [= <- <-]. exists [], []. split_and!;
      [constructor|done|by rewrite string_app_nil_r]. }
  revert q b count; induction fuel as [|fuel IH]; intros [|ch s1] b count;
    cbn [bindLoop]; [apply Hnil|done|apply Hnil|]. intros Hok.
  apply bind_Ok in Hok as ([[o c] rest] & Hx & Hok).
  apply bindStep_sound in Hx as (t & Ht & Hr & ->).
  apply IH in Hok as (ts & outs & HL & Hm & ->).
  exists (t :: ts), (o :: outs). split_and!; [by econstructor| |].
  - cbn. by rewrite Hr, Hm.
  - by rewrite concat_all_cons, string_app_assoc.
Qed.

Lemma bindLoop_complete fuel q b count ts outs n :
  (String.length q <= fuel)%nat -> Lex d count q ts n ->
  mapM (render d args describe) ts = Ok outs ->
  bindLoop fuel d args describe q b count = Ok (b +:+ concat_all outs, n).
Proof.
  intros Hf HL. revert fuel b outs Hf.
  induction HL as [count|count s t s' ts n Ht HL IH]; intros fuel b outs Hf Hm.
  - injection Hm as <-. rewrite string_app_nil_r. by destruct fuel.
  - pose proof (lex_token_length _ _ _ _ Ht) as Hlt.
    destruct s as [|ch s1]; [by inversion Ht|]. destruct fuel as [|fuel]; [cbn in *; lia|].
    cbn in Hm. apply bind_Ok in Hm as (o & Ho & Hm). apply bind_Ok in Hm as (outs' & Hm & E).
    injection E as <-. cbn [bindLoop].
    rewrite (bindStep_complete _ _ _ _ _ _ Ht Ho). cbn [mbind outcome_bind].
    rewrite (IH fuel (b +:+ o) outs') by (done || cbn in *; lia).
    by rewrite concat_all_cons, string_app_assoc.
Qed.

Lemma bindStep_no_panic count ch s1 :
  0 <= count -> is_panic (bindStep d args describe count ch s1) = false.
Proof.
  intros Hc. unfold bindStep. destruct (isQuote ch); [by repeat case_match|].
  destruct (_ && startsWith dash s1); [by repeat case_match|].
  destruct (_ && startsWith star s1); [by repeat case_match|].
  apply bind_no_panic.
  { unfold bindPlaceholder. by repeat case_match. }
  intros [[[idx c2] r]|] Hp; [|done]. apply bind_no_panic; [|done].
  assert (1 <= idx) as Hidx.
  { unfold bindPlaceholder in Hp. repeat case_match; simplify_eq; bool_to_prop; lia. }
  unfold bindParam. destruct describe; [done|].
  destruct (idx >? _) eqn:E; [done|]. bool_to_prop.
  destruct (args !! Z.to_nat (idx - 1)) as [v|] eqn:Hv.
  - destruct v; done.
  - apply lookup_ge_None in Hv. lia.
Qed.

Lemma bindLoop_no_panic fuel q b count :
  0 <= count -> (String.length q <= fuel)%nat ->
  is_panic (bindLoop fuel d args describe q b count) = false.
Proof.
  revert q b count; induction fuel as [|fuel IH]; intros [|ch s1] b count Hc Hf;
    cbn [bindLoop String.length] in *; [done|lia|done|].
  apply bind_no_panic; [by apply bindStep_no_panic|]. intros [[o c] rest] Hs.
  apply bindStep_sound in Hs as (t & Ht & _ & ->). apply IH.
  - destruct t; cbn; lia.
  - apply lex_token_length in Ht. cbn in Ht. lia.
Qed.
End step.

(** ** Lexing is deterministic *)

(** A plain byte starts no other token. *)
Lemma plain_byte_excl d count c s t r :
  plain_byte d c s -> lex_token d count (String c s) t r -> t = TByte c /\ r = s.
Proof.
  intros (Hq & Hd & Hsl & Hm & Hp) Ht.
  inversion Ht as [c' b' v' r' Hq' Hb' Hst' E|x' r' Hx' E|x' Hx' E|x' r' Hx' E|r' Hm' E
    |ds' r' n' Hp' Hne' Hdig' Hst' Hn' Hrange' E|c' r' Hpl' E]; subst; cbn in *;
    rewrite ?Ascii.eqb_refl in *; try congruence; try done.
  - by rewrite Hm' in Hm.
  - by rewrite Hp' in Hp.
Qed.

Lemma lex_token_functional_eq d count s1 s2 t1 r1 t2 r2 :
  lex_token d count s1 t1 r1 -> lex_token d count s2 t2 r2 -> s1 = s2 ->
  t1 = t2 /\ r1 = r2.
Proof.
  intros H1 H2 E. pose proof H2 as H2'.
  destruct H2 as [c' b' v' r' Hq' Hb' Hst'|x' r' Hx'|x' Hx'|x' r' Hx'|r' Hm'
    |ds' r' n' Hp' Hne' Hdig' Hst' Hn' Hrange'|c' r' Hpl'].
  7: { subst s1. by destruct (plain_byte_excl _ _ _ _ _ _ Hpl' H1) as [-> ->]. }
  all: destruct H1 as [c b v r Hq Hb Hst|x r Hx|x Hx|x r Hx|r Hm
    |ds r n Hp Hne Hdig Hst Hn Hrange|c r Hpl];
    try (rewrite <- E in H2'; destruct (plain_byte_excl _ _ _ _ _ _ Hpl H2') as [E1 E2];
         first [discriminate E1 | by rewrite E1, E2]);
    clear H2';
    try discriminate E; injection E; clear E; intros E; intros; subst; try discriminate;
    try done.
  - pose proof (scanQuoted_complete _ _ _ _ _ Hb Hst) as E1.
    rewrite E, (scanQuoted_complete _ _ _ _ _ Hb' Hst') in E1. by injection E1 as -> -> ->.
  - pose proof (cutAt_intro newline x r Hx) as E1.
    rewrite E, (cutAt_intro newline x' r' Hx') in E1. by injection E1 as -> ->.
  - apply cutAt_None in Hx. by rewrite (cutAt_intro newline x' r' Hx') in Hx.
  - apply cutAt_None in Hx'. by rewrite (cutAt_intro newline x r Hx) in Hx'.
  - pose proof (cutAt2_intro star slash x r ltac:(done) Hx) as E1.
    rewrite E, (cutAt2_intro star slash x' r' ltac:(done) Hx') in E1.
    by injection E1 as -> ->.
  - pose proof (spanDigits_complete ds r Hdig Hst) as E1.
    rewrite E, (spanDigits_complete ds' r' Hdig' Hst') in E1.
    injection E1 as -> ->. rewrite Hn in Hn'. by injection Hn' as ->.
Qed.

Lemma lex_token_functional d count s t1 r1 t2 r2 :
  lex_token d count s t1 r1 -> lex_token d count s t2 r2 -> t1 = t2 /\ r1 = r2.
Proof. intros H1 H2. by eapply lex_token_functional_eq. Qed.

Lemma Lex_functional d count s ts1 n1 ts2 n2 :
  Lex d count s ts1 n1 -> Lex d count s ts2 n2 -> ts1 = ts2 /\ n1 = n2.
Proof.
  intros H1. revert ts2 n2. induction H1 as [count|count s t s' ts n Ht HL IH];
    intros ts2 n2 H2; inversion H2 as [?|? ? t2 s2 ts2' ? Ht2 HL2]; subst.
  - done.
  - inversion Ht2.
  - inversion Ht.
  - destruct (lex_token_functional _ _ _ _ _ _ _ Ht Ht2) as [-> ->].
    by destruct (IH _ _ HL2) as [-> ->].
Qed.

(** ** Literals *)

(** The byte that a MySQL escape sequence denotes. *)
Definition mysqlEscape (e : ascii) : ascii :=
  if e =?c "0"%char then nul else if e =?c "n"%char then newline
  else if e =?c "t"%char then chr 9 else if e =?c "r"%char then chr 13
  else if e =?c "b"%char then chr 8 else if e =?c "Z"%char then chr 26 else e.

(** The text that the body of a quoted MySQL literal denotes. *)
Fixpoint unescape (s : string) : option string :=
  match s with
  | EmptyString => Some ""
  | String c s1 =>
      if c =?c backslash then
        match s1 with
        | String e s2 => String (mysqlEscape e) <$> unescape s2
        | EmptyString => None
        end
      else String c <$> unescape s1
  end.

Lemma escapeByte_cases c :
  (escapeByte c = str2 backslash backslash /\ c = backslash)
  \/ (escapeByte c = str2 backslash squote /\ c = squote)
  \/ (escapeByte c = str2 backslash "0" /\ c = nul)
  \/ (escapeByte c = str1 c /\ c <> backslash /\ c <> squote).
Proof.
  unfold escapeByte.
  destruct (c =?c backslash) eqn:H1; [apply Ascii.eqb_eq in H1; auto|].
  destruct (c =?c squote) eqn:H2; [apply Ascii.eqb_eq in H2; auto|].
  destruct (c =?c nul) eqn:H3; [apply Ascii.eqb_eq in H3; auto|].
  apply Ascii.eqb_neq in H1, H2. auto 6.
Qed.

Lemma unescape_escapeText x : unescape (escapeText x) = Some x.
Proof.
  induction x as [|c x IH]; [done|]. cbn [escapeText].
  destruct (escapeByte_cases c) as [[-> ->]|[[-> ->]|[[-> ->]|(-> & Hc & _)]]];
    rewrite ?str1_app, ?str2_app; cbn [unescape].
  1-3: rewrite Ascii.eqb_refl, IH; done.
  by rewrite (proj2 (Ascii.eqb_neq _ _) Hc), IH.
Qed.

Lemma escapeText_body x : exists v, quoted_body true squote (escapeText x) v.
Proof.
  induction x as [|c x [v IH]]; [exists ""; constructor|]. cbn [escapeText].
  destruct (escapeByte_cases c) as [[-> ->]|[[-> ->]|[[-> ->]|(-> & Hc & Hq)]]];
    rewrite ?str1_app, ?str2_app.
  1-3: exists v; by constructor.
  exists (String c v). constructor; auto.
Qed.

Lemma stringLiteral_app x rest :
  stringLiteral x +:+ rest = String squote (escapeText x +:+ String squote rest).
Proof.
  unfold stringLiteral. by rewrite str1_app, string_app_cons, <- string_app_assoc, str1_app.
Qed.

(** A string literal is one token of the MySQL dialect. *)
Lemma stringLiteral_token count x rest :
  startsWith squote rest = false ->
  exists v, lex_token "mysql" count (stringLiteral x +:+ rest)
              (TQuoted squote v (stringLiteral x)) rest.
Proof.
  intros Hr. destruct (escapeText_body x) as [v Hv]. exists v.
  rewrite stringLiteral_app. by apply lex_quoted.
Qed.

Lemma backtick_body v :
  memByte backslash v = false ->
  exists w, quoted_body true backtick (replaceByte backtick (str2 backtick backtick) v) w.
Proof.
  induction v as [|c v IH]; [exists ""; constructor|]. cbn [memByte replaceByte].
  intros [Hc Hv]%orb_false_elim. destruct (IH Hv) as [w Hw].
  destruct (c =?c backtick) eqn:Hb.
  - exists (String backtick w). unfold str2, str1. rewrite !string_app_cons.
    change ("" +:+ ?t) with t. by constructor.
  - exists (String c w). apply Ascii.eqb_neq in Hb, Hc. constructor; auto.
Qed.

(** ** Re-lexing a bound statement *)

Definition tok_raw (t : token) : string :=
  match t with
  | TQuoted _ _ raw => raw
  | TComment raw => raw
  | TParam _ => str1 question
  | TByte c => str1 c
  end.

(** The tokens that are rendered as a string literal. *)
Definition is_literal (t : token) : bool :=
  match t with
  | TParam _ => true
  | TQuoted c _ _ => c =?c squote
  | _ => false
  end.

Fixpoint no_adjacent (ts : list token) : bool :=
  match ts with
  | t :: ((t' :: _) as ts') => negb (is_literal t && is_literal t') && no_adjacent ts'
  | _ => true
  end.

(** No bare [?], and no backslash in a quoted identifier that is rewritten. *)
Definition plain_token (d : string) (t : token) : bool :=
  match t with
  | TByte c => negb (c =?c question)
  | TQuoted c v _ => negb ((d =?s "postgres") && (c =?c dquote) && memByte backslash v)
  | _ => true
  end.

Definition is_string (v : value) : bool :=
  match v with VString _ | VBytes _ => true | _ => false end.

Section relex.
Context `{GoFloat}.
Variable d : string.
Hypothesis dialect : d = "mysql" \/ d = "postgres".
Variable args : list value.
Hypothesis args_strings : forallb is_string args = true.

Lemma bindParam_string n o :
  bindParam args false n = Ok o -> exists x, o = stringLiteral x.
Proof.
  unfold bindParam. destruct (n >? _); [done|].
  destruct (args !! Z.to_nat (n - 1)) as [v|] eqn:Hv; [|done].
  assert (is_string v = true) as Hs.
  { apply list_elem_of_lookup_2, list_elem_of_In in Hv.
    rewrite forallb_forall in args_strings. by apply args_strings. }
  destruct v; try discriminate Hs; intros [= <-]; eauto.
Qed.

(** A quoted token of either dialect. *)
Lemma render_quoted c v raw o :
  render d args false (TQuoted c v raw) = Ok o ->
  (d = "mysql" /\ o = raw)
  \/ (d = "postgres" /\ c = dquote
      /\ o = str1 backtick +:+ replaceByte backtick (str2 backtick backtick) v +:+ str1 backtick)
  \/ (d = "postgres" /\ c = squote /\ o = stringLiteral v).
Proof.
  cbn [render]. destruct dialect as [-> | ->].
  - intros [= <-]. by left.
  - change ("postgres" =?s "postgres") with true. cbn match.
    destruct (c =?c dquote) eqn:Hd; [intros [= <-]; apply Ascii.eqb_eq in Hd; tauto|].
    destruct (c =?c squote) eqn:Hs; [intros [= <-]; apply Ascii.eqb_eq in Hs; tauto|done].
Qed.

(** The first byte of a rendered token is a quote or the token's own. *)
Lemma render_first count s t s' o tail c :
  lex_token d count s t s' -> render d args false t = Ok o ->
  startsWith c (o +:+ tail) = true ->
  c = squote /\ is_literal t = true
  \/ d = "postgres" /\ c = backtick /\ startsWith dquote s = true
  \/ startsWith c s = true /\ (isQuote c = true -> d = "mysql" /\ c <> squote).
Proof.
  intros Ht Hr Hs. destruct Ht as [q b v r Hq Hb Hst|x r Hx|x Hx|x r Hx|r Hm
    |ds r n Hp Hne Hdig Hst Hn Hrange|b r Hpl].
  - apply render_quoted in Hr as [[Hd ->]|[(Hd & -> & ->)|(Hd & -> & ->)]];
      cbn in Hs; apply Ascii.eqb_eq in Hs as <-; [|by right; left|by left].
    destruct (q =?c squote) eqn:E; [left|right; right].
    + by apply Ascii.eqb_eq in E as ->.
    + apply Ascii.eqb_neq in E. cbn. by rewrite Ascii.eqb_refl.
  - injection Hr as <-. cbn in Hs. apply Ascii.eqb_eq in Hs as <-. right; right. by split.
  - injection Hr as <-. cbn in Hs. apply Ascii.eqb_eq in Hs as <-. right; right. by split.
  - injection Hr as <-. cbn in Hs. apply Ascii.eqb_eq in Hs as <-. right; right. by split.
  - apply bindParam_string in Hr as [x ->]. cbn in Hs. apply Ascii.eqb_eq in Hs as <-. auto.
  - apply bindParam_string in Hr as [x ->]. cbn in Hs. apply Ascii.eqb_eq in Hs as <-. auto.
  - injection Hr as <-. cbn in Hs. apply Ascii.eqb_eq in Hs as <-.
    right; right. destruct Hpl as [Hq _]. rewrite Hq. cbn. by rewrite Ascii.eqb_refl.
Qed.

(** One quoted token, when what follows it does not run into it. *)
Lemma render_token_quoted q b v r o tail :
  isQuote q = true -> quoted_body (d =?s "mysql") q b v -> startsWith q r = false ->
  render d args false (TQuoted q v (String q (b +:+ str1 q))) = Ok o ->
  plain_token d (TQuoted q v (String q (b +:+ str1 q))) = true ->
  (q = squote -> startsWith squote tail = false) ->
  (d = "postgres" -> startsWith dquote r = false -> startsWith backtick tail = false) ->
  (d = "mysql" -> q <> squote -> startsWith q tail = true -> startsWith q r = true) ->
  exists t', lex_token "mysql" 0 (o +:+ tail) t' tail /\ tok_raw t' = o /\ bump 0 t' = 0.
Proof.
  intros Hq Hb Hst Hr Hplain Hlit Hbt Hfirst.
  apply render_quoted in Hr as [[Hd ->]|[(Hd & -> & ->)|(Hd & -> & ->)]].
  - eexists (TQuoted q v _). split_and!; [|done..].
    rewrite string_app_cons, <- string_app_assoc, str1_app. apply lex_quoted; [done| |].
    + by rewrite Hd in Hb.
    + destruct (q =?c squote) eqn:E; [apply Ascii.eqb_eq in E as ->; by apply Hlit|].
      apply Ascii.eqb_neq in E. destruct (startsWith q tail) eqn:Et; [|done].
      by rewrite (Hfirst Hd E eq_refl) in Hst.
  - cbn in Hplain. rewrite Hd in Hplain. cbn in Hplain.
    apply negb_true_iff, backtick_body in Hplain as [w Hw].
    eexists (TQuoted backtick w _). split_and!; [|done..].
    rewrite str1_app, string_app_cons, <- string_app_assoc, str1_app. apply lex_quoted; auto.
  - destruct (stringLiteral_token 0 v tail) as [w Hw]; [by apply Hlit|].
    eexists. split_and!; [exact Hw|done..].
Qed.

(** One token, when what follows it does not run into it. *)
Lemma render_token count s t s' o tail :
  lex_token d count s t s' -> render d args false t = Ok o ->
  plain_token d t = true ->
  (is_literal t = true -> startsWith squote tail = false) ->
  (d = "postgres" -> startsWith dquote s' = false -> startsWith backtick tail = false) ->
  (forall c, isQuote c = false \/ (d = "mysql" /\ c <> squote) ->
     startsWith c tail = true -> startsWith c s' = true) ->
  (s' = "" -> tail = "") ->
  exists t', lex_token "mysql" 0 (o +:+ tail) t' tail /\ tok_raw t' = o /\ bump 0 t' = 0.
Proof.
  intros Ht Hr Hplain Hlit Hbt Hfirst Hend.
  destruct Ht as [q b v r Hq Hb Hst|x r Hx|x Hx|x r Hx|r Hm
    |ds r n Hp Hne Hdig Hst Hn Hrange|b r Hpl].
  - apply (render_token_quoted q b v r); auto. intros ->. by apply Hlit.
  - injection Hr as <-. exists (TComment (String dash (String dash (x +:+ str1 newline)))).
    split_and!; [|done..]. rewrite !string_app_cons, <- string_app_assoc, str1_app.
    by apply lex_line.
  - injection Hr as <-. rewrite (Hend eq_refl), string_app_nil_r.
    exists (TComment (String dash (String dash x))). split_and!; [by apply lex_line_end|done..].
  - injection Hr as <-.
    exists (TComment (String slash (String star (x +:+ str2 star slash)))).
    split_and!; [|done..]. rewrite !string_app_cons, <- string_app_assoc, str2_app.
    by apply lex_block.
  - apply bindParam_string in Hr as [x ->].
    destruct (stringLiteral_token 0 x tail) as [w Hw]; [by apply Hlit|].
    eexists. split_and!; [exact Hw|done..].
  - apply bindParam_string in Hr as [x ->].
    destruct (stringLiteral_token 0 x tail) as [w Hw]; [by apply Hlit|].
    eexists. split_and!; [exact Hw|done..].
  - injection Hr as <-. exists (TByte b). split_and!; [|done..].
    change (str1 b +:+ tail) with (String b tail). constructor.
    destruct Hpl as (Hq & Hd & Hsl & _ & _). cbn in Hplain. apply negb_true_iff in Hplain.
    unfold plain_byte. rewrite Hq, Hplain. split_and!; [done| | |done|done].
    + destruct (b =?c dash); [|done]. cbn in *.
      destruct (startsWith dash tail) eqn:E; [|done].
      by rewrite (Hfirst dash (or_introl eq_refl) E) in Hd.
    + destruct (b =?c slash); [|done]. cbn in *.
      destruct (startsWith star tail) eqn:E; [|done].
      by rewrite (Hfirst star (or_introl eq_refl) E) in Hsl.
Qed.

Lemma relex count s ts n outs :
  Lex d count s ts n ->
  mapM (render d args false) ts = Ok outs ->
  no_adjacent ts = true -> forallb (plain_token d) ts = true ->
  exists ts', Lex "mysql" 0 (concat_all outs) ts' 0 /\ map tok_raw ts' = outs.
Proof.
  intros HL. revert outs. induction HL as [count|count s t s' ts n Ht HL IH];
    intros outs Hm Hadj Hpl.
  { injection Hm as <-. exists []. by split; [constructor|]. }
  cbn in Hm. apply bind_Ok in Hm as (o & Ho & Hm). apply bind_Ok in Hm as (outs' & Hm & E).
  injection E as <-. cbn [forallb] in Hpl. apply andb_prop in Hpl as [Hpt Hpl].
  assert (no_adjacent ts = true) as Hadj'.
  { destruct ts; [done|]. cbn in Hadj. by apply andb_prop in Hadj as [_ Hadj]. }
  destruct (IH outs' Hm Hadj' Hpl) as (ts' & HL' & Hraw).
  assert (forall c, startsWith c (concat_all outs') = true ->
    c = squote /\ is_literal t = false
    \/ d = "postgres" /\ c = backtick /\ startsWith dquote s' = true
    \/ startsWith c s' = true /\ (isQuote c = true -> d = "mysql" /\ c <> squote)) as Hfirst.
  { intros c Hc. destruct HL as [?|count' s2 t2 s3 ts2 n2 Ht2 HL2]; cbn in Hm.
    - injection Hm as <-. discriminate Hc.
    - apply bind_Ok in Hm as (o2 & Ho2 & Hm). apply bind_Ok in Hm as (outs2 & Hm & E).
      injection E as <-. rewrite concat_all_cons in Hc.
      destruct (render_first _ _ _ _ _ _ _ Ht2 Ho2 Hc) as [[-> Hl]|[?|?]]; [|tauto..].
      left. split; [done|]. cbn in Hadj. rewrite Hl, andb_true_r in Hadj.
      apply andb_prop in Hadj as [Hadj _]. by apply negb_true_iff in Hadj. }
  destruct (render_token _ _ _ _ _ (concat_all outs') Ht Ho Hpt) as (t' & Ht' & Hr' & Hb').
  - intros Hl. destruct (startsWith squote _) eqn:E; [|done].
    destruct (Hfirst _ E) as [[_ ?]|[(_ & ? & _)|[_ Hq]]]; [congruence|discriminate|].
    by destruct (Hq eq_refl) as [_ ?].
  - intros Hd Hl. destruct (startsWith backtick _) eqn:E; [|done].
    destruct (Hfirst _ E) as [[? _]|[(_ & _ & ?)|[_ Hq]]]; [discriminate|congruence|].
    destruct (Hq eq_refl) as [Hd' _]. by rewrite Hd in Hd'.
  - intros c Hq Hc. destruct (Hfirst _ Hc) as [[-> _]|[(Hd & -> & _)|[? _]]]; [|..|done].
    + by destruct Hq as [Hq|[_ Hq]].
    + destruct Hq as [Hq|[Hq _]]; [done|]. by rewrite Hd in Hq.
  - intros ->. inversion HL as [|? ? ? ? ? ? Ht2]; subst; [|by inversion Ht2].
    by injection Hm as <-.
  - exists (t' :: ts'). split; [|by rewrite <- Hr', <- Hraw].
    rewrite concat_all_cons. econstructor; [exact Ht'|]. by rewrite Hb'.
Qed.
End relex.

(** ** The scan of quoted tokens in [normalizeTypes] *)
Lemma scanRaw_eq c a b s :
  scanRaw c (String a (String b s)) =
    if a =?c backslash
    then let '(x, y) := scanRaw c s in (String a (String b x), y)
    else if a =?c c then
      if b =?c c
      then let '(x, y) := scanRaw c s in (String a (String b x), y)
      else (str1 a, String b s)
    else let '(x, y) := scanRaw c (String b s) in (String a x, y).
Proof. done. Qed.

(** ** The properties of statement binding *)

(** C2: [bindSQL] is "lex, then render": it succeeds exactly when the statement
    splits into tokens of the dialect all of which can be rendered and, outside
    describe mode, the largest placeholder is the number of arguments; its text
    is the concatenation of the rendered tokens and its count that largest
    placeholder.  In particular quoted tokens and comments are never searched for
    placeholders. *)
Theorem bindSQL_lex_render `{GoFloat} q d args describe out n :
  bindSQL q d args describe = Ok (out, n) <->
  exists ts outs, Lex d 0 q ts n
    /\ mapM (render d args describe) ts = Ok outs
    /\ out = concat_all outs
    /\ (describe = false -> n = Z.of_nat (length args)).
Proof.
  unfold bindSQL. split.
  - intros Hok. apply bind_Ok in Hok as ([o c] & Hl & Hok).
    destruct (negb describe && _) eqn:E; [done|]. injection Hok as <- <-.
    apply bindLoop_sound in Hl as (ts & outs & HL & Hm & ->).
    exists ts, outs. split_and!; [done..|]. intros ->. cbn in E. bool_to_prop. done.
  - intros (ts & outs & HL & Hm & -> & Hn).
    rewrite (bindLoop_complete _ _ _ _ _ _ _ _ _ _ ltac:(done) HL Hm).
    cbn [mbind outcome_bind]. destruct describe; [done|].
    rewrite Hn, Z.eqb_refl by done. done.
Qed.

(** Two successful bindings of a statement count the same parameters. *)
Lemma bindSQL_counts_agree `{GoFloat} q d args b out n args' b' out' n' :
  bindSQL q d args b = Ok (out, n) -> bindSQL q d args' b' = Ok (out', n') -> n = n'.
Proof.
  unfold bindSQL. intros H1 H2.
  apply bind_Ok in H1 as ([o c] & L1 & H1). apply bind_Ok in H2 as ([o' c'] & L2 & H2).
  destruct (negb b && _); [done|]. destruct (negb b' && _); [done|].
  injection H1 as <- <-. injection H2 as <- <-.
  apply bindLoop_sound in L1 as (ts & ? & L1 & _). apply bindLoop_sound in L2 as (ts' & ? & L2 & _).
  by destruct (Lex_functional _ _ _ _ _ _ _ L1 L2).
Qed.
(** Outside describe mode the count is the number of arguments. *)
Lemma bindSQL_count `{GoFloat} q d args out n :
  bindSQL q d args false = Ok (out, n) -> n = Z.of_nat (length args).
Proof.
  unfold bindSQL. intros H'. apply bind_Ok in H' as ([o c] & _ & H'). cbn in H'.
  destruct (c =? _)%Z eqn:E; [|done]. injection H' as <- <-. by bool_to_prop.
Qed.

Lemma bindSQL_no_panic `{GoFloat} q d args describe : is_panic (bindSQL q d args describe) = false.
Proof.
  unfold bindSQL. apply bind_no_panic.
  - by apply bindLoop_no_panic.
  - intros [out c] _. by destruct (_ && _).
Qed.

(** [bindSQL] always terminates with a result or an error: the fuel, the
    length of the statement, is never exhausted, and no argument is indexed out
    of range, for any statement, dialect and arguments. *)
Theorem bindSQL_never_panics `{GoFloat} q d args describe :
  is_panic (bindSQL q d args describe) = false.
Proof. apply bindSQL_no_panic. Qed.

(** C23: a bound string is one closed literal.  For every string [x] and any text
    that does not itself begin with a quote, the MySQL scan of the literal that
    [sqlLiteral] produces ends exactly at its last byte, so does the scan of
    [normalizeTypes], and the escapes of the body denote [x]: a parameter cannot
    leave its literal. *)
Theorem sqlLiteral_string_closed `{GoFloat} x rest :
  startsWith squote rest = false ->
  exists body,
    sqlLiteral (VString x) = Ok (str1 squote +:+ body +:+ str1 squote)
    /\ (exists v, scanQuoted true squote (body +:+ String squote rest)
                  = Some (v, body +:+ str1 squote, rest))
    /\ scanRaw squote (body +:+ String squote rest) = (body +:+ str1 squote, rest)
    /\ unescape body = Some x.
Proof.
  intros Hr. exists (escapeText x). split_and!; [done| | |apply unescape_escapeText].
  - destruct (escapeText_body x) as [v Hv]. exists v. by apply scanQuoted_complete.
  - assert (forall b c d, scanRaw squote (b +:+ String squote rest) = (c, d) ->
      forall a, a <> backslash -> a <> squote ->
      scanRaw squote (String a (b +:+ String squote rest)) = (String a c, d)) as Hplain.
    { intros b c d Hs a H1 H2. destruct (b +:+ String squote rest) as [|e t] eqn:E.
      { by destruct b. }
      rewrite scanRaw_eq, Hs. by ascii_neq. }
    induction x as [|c x IH].
    + change (scanRaw squote (String squote rest) = (str1 squote, rest)).
      destruct rest as [|e rest]; [done|]. rewrite scanRaw_eq.
      cbn [startsWith] in Hr. by rewrite Hr.
    + cbn [escapeText].
      destruct (escapeByte_cases c) as [[-> ->]|[[-> ->]|[[-> ->]|(-> & Hc & Hq)]]];
        rewrite ?str1_app, ?str2_app, !string_app_cons.
      1-3: rewrite scanRaw_eq, IH; done.
      by apply Hplain.
Qed.

Lemma sqlLiteral_string_closed_witness :
  startsWith squote " AND b = 1" = false /\
  exists body,
    @sqlLiteral sampleFloat (VString "it's -- \") = Ok (str1 squote +:+ body +:+ str1 squote)
    /\ (exists v, scanQuoted true squote (body +:+ String squote " AND b = 1")
                  = Some (v, body +:+ str1 squote, " AND b = 1"))
    /\ scanRaw squote (body +:+ String squote " AND b = 1")
         = (body +:+ str1 squote, " AND b = 1")
    /\ unescape body = Some "it's -- \".
Proof.
  split; [reflexivity|].
  exact (@sqlLiteral_string_closed sampleFloat "it's -- \" " AND b = 1" eq_refl).
Defined.

(** C1: string parameters cannot change the structure of a statement.  In either
    dialect, when a statement is bound to strings only, no literal or placeholder
    of it touches another, it has no bare [?] and, for PostgreSQL, no backslash in
    a quoted identifier, then the bound text splits, under the quoting rules of the
    shared grammar, into one token per token of the statement, each being the
    rendering of that token. *)
Theorem bindSQL_strings_keep_structure `{GoFloat} d q args ts n out :
  d = "mysql" \/ d = "postgres" ->
  Lex d 0 q ts n ->
  forallb is_string args = true ->
  no_adjacent ts = true -> forallb (plain_token d) ts = true ->
  bindSQL q d args false = Ok (out, n) ->
  exists outs ts', mapM (render d args false) ts = Ok outs
    /\ out = concat_all outs /\ Lex "mysql" 0 out ts' 0 /\ map tok_raw ts' = outs.
Proof.
  intros Hd HL Hs Hadj Hpl Hb. unfold bindSQL in Hb.
  apply bind_Ok in Hb as ([o c] & Hl & Hb).
  destruct (negb false && _) eqn:E; [done|]. injection Hb as <- <-.
  apply bindLoop_sound in Hl as (ts2 & outs & HL2 & Hm & ->).
  destruct (Lex_functional _ _ _ _ _ _ _ HL2 HL) as [-> _].
  destruct (relex d Hd args Hs 0 q ts c outs HL Hm Hadj Hpl) as (ts' & HL' & Hraw).
  exists outs, ts'. done.
Qed.

(** Lexing a concrete prefix of plain bytes. *)
Ltac lex_bytes :=
  repeat (eapply Lex_cons;
    [apply lex_byte; unfold plain_byte; repeat split; reflexivity|cbn [bump]]).

Lemma bindSQL_strings_keep_structure_witness :
  exists ts outs ts',
    mapM (@render sampleFloat "postgres" [VString "x' OR 1=1"] false) ts = Ok outs
    /\ "a='x\' OR 1=1'" = concat_all outs /\ Lex "mysql" 0 "a='x\' OR 1=1'" ts' 0
    /\ map tok_raw ts' = outs.
Proof.
  exists [TByte "a"; TByte "="; TParam 1].
  refine (@bindSQL_strings_keep_structure sampleFloat "postgres" "a=$1" [VString "x' OR 1=1"]
    [TByte "a"; TByte "="; TParam 1] 1 "a='x\' OR 1=1'" (or_intror eq_refl) _ _ _ _ _);
    try reflexivity.
  lex_bytes. eapply Lex_cons; [|apply Lex_nil].
  apply (lex_postgres _ _ "1" "" 1); (reflexivity || discriminate || lia).
Defined.

Lemma digitsLoop_all_digits m n s v : digitsLoop m n s = inr v -> all_digits s = true.
Proof.
  revert n; induction s as [|c s IH]; intros n; [done|]. cbn [digitsLoop all_digits].
  destruct (is_digit c); [|done]. destruct (_ >? m); [done|]. apply IH.
Qed.

Lemma all_digits_no_newline s : all_digits s = true -> memByte newline s = false.
Proof.
  induction s as [|c s IH]; [done|]. cbn. intros [Hc Hs]%andb_prop. rewrite IH by done.
  rewrite orb_false_r. apply Ascii.eqb_neq. by intros ->.
Qed.

Lemma memByte_app c s t : memByte c (s +:+ t) = memByte c s || memByte c t.
Proof.
  induction s as [|a s IH]; [done|]. rewrite string_app_cons. cbn [memByte].
  by rewrite IH, orb_assoc.
Qed.

(** C39: a negative number bound right after a minus sign opens a comment.  The
    statement below deletes the rows with [a=1] only when [b=2]; bound to any
    negative integer, its text ends in a comment that swallows the condition on
    [b], because [bindSQL] writes the sign of the number next to the minus
    sign of the statement. *)
Theorem bindSQL_negative_opens_comment `{GoFloat} z :
  z < 0 ->
  let out := "DELETE FROM t WHERE a=1 -" +:+ formatInt z +:+ " AND b=2" in
  bindSQL "DELETE FROM t WHERE a=1 -$1 AND b=2" "postgres" [VInt64 z] false = Ok (out, 1)
  /\ exists ts, Lex "mysql" 0 out
       (ts ++ [TComment ("-" +:+ formatInt z +:+ " AND b=2")]) 0
     /\ concat_all (map tok_raw ts) = "DELETE FROM t WHERE a=1 ".
Proof.
  intros Hz out. split.
  - unfold bindSQL.
    assert (exists ts n, Lex "postgres" 0 "DELETE FROM t WHERE a=1 -$1 AND b=2" ts n
      /\ n = 1 /\ mapM (render "postgres" [VInt64 z] false) ts
         = Ok (map str1 (String.list_ascii_of_string "DELETE FROM t WHERE a=1 -")
               ++ [formatInt z] ++ map str1 (String.list_ascii_of_string " AND b=2")))
      as (ts & n & HL & -> & Hm).
    { do 2 eexists. split; [|split].
      - lex_bytes. eapply Lex_cons;
          [apply (lex_postgres _ _ "1" " AND b=2" 1); (reflexivity || discriminate || lia)|].
        lex_bytes. apply Lex_nil.
      - reflexivity.
      - reflexivity. }
    rewrite (bindLoop_complete _ _ _ _ _ _ _ _ _ _ ltac:(done) HL Hm).
    rewrite !concat_all_app. change (concat_all [formatInt z]) with (formatInt z +:+ "").
    rewrite string_app_nil_r. reflexivity.
  - destruct z as [|p|p]; [lia..|]. subst out.
    change (formatInt (Z.neg p)) with (String "-" (pretty (N.pos p))).
    destruct (pretty_N_unfold (N.pos p)) as (_ & _ & _ & _ & Hd).
    specialize (Hd (Z.pos p) ltac:(done)). apply digitsLoop_all_digits in Hd.
    eexists (map TByte (String.list_ascii_of_string "DELETE FROM t WHERE a=1 ")). split; [|done].
    rewrite string_app_cons. cbn [map String.list_ascii_of_string app].
    lex_bytes. eapply Lex_cons; [|apply Lex_nil].
    apply lex_line_end. rewrite memByte_app, (all_digits_no_newline _ Hd). reflexivity.
Qed.

Lemma bindSQL_negative_opens_comment_witness :
  (-5 < 0) /\
  (@bindSQL sampleFloat "DELETE FROM t WHERE a=1 -$1 AND b=2" "postgres" [VInt64 (-5)] false
     = Ok ("DELETE FROM t WHERE a=1 --5 AND b=2", 1)
   /\ exists ts, Lex "mysql" 0 "DELETE FROM t WHERE a=1 --5 AND b=2"
        (ts ++ [TComment "--5 AND b=2"]) 0
      /\ concat_all (map tok_raw ts) = "DELETE FROM t WHERE a=1 ").
Proof.
  split; [reflexivity|]. exact (@bindSQL_negative_opens_comment sampleFloat (-5) eq_refl).
Defined.
