(* ===== verification/AliasSpec.v ===== *)
(** * Correctness of the rewriting of type aliases

    [Split] says how the text of a CREATE TABLE splits into quoted tokens, words and
    other bytes, [rewritten] what each becomes; [normalizeTypes] is "split, then
    rewrite each segment", and rewrites nothing else. *)
From S2P Require Export BindSpec.
Open Scope Z_scope.
Open Scope go_scope.

(** ** Type aliases *)

Inductive segment :=
| NQuoted (raw : string)
| NWord (w : string)
| NByte (c : ascii).

(** How the scanner splits its text. *)
Inductive NScan : string -> list segment -> Prop :=
| NScan_nil : NScan "" []
| NScan_quoted c s1 x y segs :
    isQuote c = true -> scanRaw c s1 = (x, y) -> NScan y segs ->
    NScan (String c s1) (NQuoted (String c x) :: segs)
| NScan_word c s1 x y segs :
    wordStart c = true -> spanWord s1 = (x, y) -> NScan y segs ->
    NScan (String c s1) (NWord (String c x) :: segs)
| NScan_byte c s1 segs :
    isQuote c = false -> wordStart c = false -> NScan s1 segs ->
    NScan (String c s1) (NByte c :: segs).

Definition word_segments (segs : list segment) : list string :=
  omap (fun g => match g with NWord w => Some w | _ => None end) segs.

Lemma scanRaw_split c s x y : scanRaw c s = (x, y) -> s = x +:+ y.
Proof.
  revert x y. induction s as [s IH] using string_len_ind. intros x y.
  destruct s as [|a [|b s]]; [by intros [= <- <-]..|]. rewrite scanRaw_eq.
  assert (forall x y, scanRaw c s = (x, y) -> s = x +:+ y) as IH0
    by (intros; apply IH; [cbn; lia|done]).
  assert (forall x y, scanRaw c (String b s) = (x, y) -> String b s = x +:+ y) as IH1
    by (intros; apply IH; [cbn; lia|done]).
  destruct (a =?c backslash); [|destruct (a =?c c); [destruct (b =?c c)|]].
  - destruct (scanRaw c s) as [x' y']. intros [= <- <-]. by rewrite (IH0 x' y').
  - destruct (scanRaw c s) as [x' y']. intros [= <- <-]. by rewrite (IH0 x' y').
  - by intros [= <- <-].
  - destruct (scanRaw c (String b s)) as [x' y'] eqn:E. intros [= <- <-].
    by rewrite string_app_cons, <- (IH1 x' y').
Qed.

(** The scan depends on what follows the token only through its first byte. *)
Lemma scanRaw_tail c s x y y' :
  c <> backslash -> scanRaw c s = (x, y) -> (y = "" -> y' = "") ->
  (startsWith c y' = true -> startsWith c y = true) -> scanRaw c (x +:+ y') = (x, y').
Proof.
  intros Hcb. revert x y. induction s as [s IH] using string_len_ind. intros x y Hs Hnil Hst.
  destruct s as [|a [|b s]]; [| |rewrite scanRaw_eq in Hs].
  - injection Hs as <- <-. by rewrite Hnil.
  - injection Hs as <- <-. by rewrite Hnil.
  - destruct (a =?c backslash) eqn:Ha; [|destruct (a =?c c) eqn:Hac].
    + destruct (scanRaw c s) as [x' z] eqn:E. injection Hs as <- <-.
      rewrite !string_app_cons, scanRaw_eq, Ha.
      by rewrite (IH s ltac:(cbn; lia) x' z).
    + destruct (b =?c c) eqn:Hb.
      * destruct (scanRaw c s) as [x' z] eqn:E. injection Hs as <- <-.
        rewrite !string_app_cons, scanRaw_eq, Ha, Hac, Hb.
        by rewrite (IH s ltac:(cbn; lia) x' z).
      * injection Hs as <- <-. rewrite str1_app.
        destruct y' as [|e y']; [done|]. rewrite scanRaw_eq, Ha, Hac.
        destruct (e =?c c) eqn:He; [|done]. exfalso.
        cbn [startsWith] in Hst. rewrite Hb in Hst. by specialize (Hst He).
    + destruct (scanRaw c (String b s)) as [x' z] eqn:E. injection Hs as <- <-.
      pose proof (IH (String b s) ltac:(cbn; lia) x' z E Hnil Hst) as IH'.
      rewrite string_app_cons. destruct (x' +:+ y') as [|e t] eqn:E2.
      * apply scanRaw_split in E. destruct x'; [|discriminate E2].
        change ("" +:+ y') with y' in E2. by subst.
      * by rewrite scanRaw_eq, Ha, Hac, IH'.
Qed.

Lemma spanWord_split s x y : spanWord s = (x, y) -> s = x +:+ y.
Proof.
  revert x y; induction s as [|c s IH]; intros x y; cbn [spanWord]; [by intros [= <- <-]|].
  destruct (wordRest c); [|by intros [= <- <-]].
  destruct (spanWord s) as [x' y']. intros [= <- <-].
  by rewrite string_app_cons, <- (IH x' y').
Qed.

Definition startsRest (s : string) : bool :=
  match s with String c _ => wordRest c | EmptyString => false end.

Lemma spanWord_sound s x y : spanWord s = (x, y) -> startsRest y = false.
Proof.
  revert x y; induction s as [|c s IH]; intros x y; cbn [spanWord]; [by intros [= <- <-]|].
  destruct (wordRest c) eqn:E; [|by intros [= <- <-]].
  destruct (spanWord s) as [x' y']. intros [= <- <-]. by eapply IH.
Qed.

Lemma spanWord_rest y : startsRest y = false -> spanWord y = ("", y).
Proof. destruct y as [|c y]; [done|]. cbn [startsRest spanWord]. by intros ->. Qed.

Lemma spanWord_tail s x y y' :
  spanWord s = (x, y) -> startsRest y' = false -> spanWord (x +:+ y') = (x, y').
Proof.
  intros Hs H. revert x y Hs; induction s as [|c s IH]; intros x y; cbn [spanWord].
  - intros [= <- <-]. by apply spanWord_rest.
  - destruct (wordRest c) eqn:E; [|intros [= <- <-]; by apply spanWord_rest].
    destruct (spanWord s) as [x' z]. intros [= <- <-].
    rewrite string_app_cons. cbn [spanWord]. by rewrite E, (IH x' z).
Qed.

Lemma NScan_exists s : exists segs, NScan s segs.
Proof.
  induction s as [s IH] using string_len_ind. destruct s as [|c s1]; [eexists; constructor|].
  destruct (isQuote c) eqn:Hq; [|destruct (wordStart c) eqn:Hw].
  - destruct (scanRaw c s1) as [x y] eqn:E. pose proof (scanRaw_split _ _ _ _ E) as ->.
    destruct (IH y) as [segs H]; [cbn; rewrite string_length_app; lia|].
    eexists. by eapply NScan_quoted.
  - destruct (spanWord s1) as [x y] eqn:E. pose proof (spanWord_split _ _ _ E) as ->.
    destruct (IH y) as [segs H]; [cbn; rewrite string_length_app; lia|].
    eexists. by eapply NScan_word.
  - destruct (IH s1) as [segs H]; [cbn; lia|]. eexists. by apply NScan_byte.
Qed.

Lemma isQuote_wordStart c : isQuote c = true -> wordStart c = false.
Proof.
  unfold isQuote. intros H. repeat (apply orb_prop in H as [H|H]);
    by apply Ascii.eqb_eq in H as ->.
Qed.

Lemma tinyint_app t :
  "tinyint(1)" +:+ t = String "t" ("inyint" +:+ String "(" (String "1" (String ")" t))).
Proof. done. Qed.

Section norm.
Context `{U : UnicodeTables}.

Definition seg_out (g : segment) : string :=
  match g with NQuoted raw => raw | NWord w => rewriteWord w | NByte c => str1 c end.

(** The segments that the rewriting of one segment splits into. *)
Definition resegment (g : segment) : list segment :=
  match g with
  | NWord w =>
      if rewriteWord w =?s w then [NWord w]
      else [NWord "tinyint"; NByte "("; NByte "1"; NByte ")"]
  | _ => [g]
  end.

Lemma rewriteWord_cases w : rewriteWord w = w \/ rewriteWord w = "tinyint(1)".
Proof. unfold rewriteWord. destruct (_ || _); auto. Qed.

Lemma normLoop_spec fuel q segs :
  (String.length q <= fuel)%nat -> NScan q segs ->
  normLoop fuel q = concat_all (map seg_out segs).
Proof.
  revert q segs; induction fuel as [|fuel IH]; intros q segs Hf HN.
  { destruct HN; [done|cbn in Hf; lia..]. }
  destruct HN as [|c s1 x y segs Hq E HN|c s1 x y segs Hw E HN|c s1 segs Hq Hw HN];
    [done|cbn [normLoop map seg_out]; unfold normStep; rewrite ?concat_all_cons..].
  - rewrite Hq, E. pose proof (scanRaw_split _ _ _ _ E) as ->.
    rewrite (IH y segs); [done|cbn in Hf; rewrite string_length_app in Hf; lia|done].
  - destruct (isQuote c) eqn:Hq; [by rewrite isQuote_wordStart in Hw|].
    rewrite Hw, E. pose proof (spanWord_split _ _ _ E) as ->.
    rewrite (IH y segs); [done|cbn in Hf; rewrite string_length_app in Hf; lia|done].
  - rewrite Hq, Hw. rewrite (IH s1 segs); [done|cbn in Hf; lia|done].
Qed.

(** The class of the first byte is the same before and after rewriting. *)
Lemma NScan_first q segs :
  NScan q segs ->
  let o := concat_all (map seg_out segs) in
  (q = "" -> o = "") /\ startsRest o = startsRest q
  /\ (forall c, isQuote c = true -> startsWith c o = startsWith c q).
Proof.
  assert (forall c a t, isQuote c = true -> wordStart a = true ->
    startsWith c (String a t) = false) as Hqw.
  { intros c a t Hc Ha. cbn. apply Ascii.eqb_neq. intros ->.
    by rewrite isQuote_wordStart in Ha. }
  assert (forall a, wordStart a = true -> wordRest a = true) as Hwr.
  { intros a. unfold wordStart, wordRest. destruct (is_lower a), (is_upper a), (is_digit a);
      cbn; auto. }
  intros [|c s1 x y segs' Hq E HN|c s1 x y segs' Hw E HN|c s1 segs' Hq Hw HN]; cbn zeta;
    [done|rewrite map_cons, concat_all_cons; cbn [seg_out]; split; [done|]..].
  - done.
  - cbn [startsRest]. rewrite (Hwr c) by done.
    destruct (rewriteWord_cases (String c x)) as [-> | ->].
    + rewrite string_app_cons. split; [by apply Hwr|done].
    + split; [done|]. intros b Hb. rewrite string_app_cons, !Hqw; done.
  - done.
Qed.

Lemma NScan_rewritten q segs :
  NScan q segs -> NScan (concat_all (map seg_out segs)) (concat (map resegment segs)).
Proof.
  induction 1 as [|c s1 x y segs Hq E HN IH|c s1 x y segs Hw E HN IH|c s1 segs Hq Hw HN IH];
    [constructor|rewrite !map_cons, concat_all_cons; cbn [seg_out concat resegment]..].
  - destruct (NScan_first _ _ HN) as (Hnil & _ & Hst).
    rewrite string_app_cons. eapply NScan_quoted; [done| |exact IH].
    eapply scanRaw_tail; [|exact E|done|by rewrite Hst].
    by apply isQuote_cases in Hq as (_ & _ & _ & _ & ?).
  - destruct (NScan_first _ _ HN) as (_ & Hrest & _).
    destruct (rewriteWord (String c x) =?s String c x) eqn:Hr.
    + apply String.eqb_eq in Hr. rewrite Hr, string_app_cons. eapply NScan_word; [done| |exact IH].
      eapply spanWord_tail; [exact E|]. rewrite Hrest. by eapply spanWord_sound.
    + apply String.eqb_neq in Hr.
      destruct (rewriteWord_cases (String c x)) as [?|Hr']; [done|].
      rewrite Hr'. cbn [app].
      rewrite tinyint_app.
      eapply (NScan_word "t" _ "inyint"); [done|done|].
      do 3 (apply NScan_byte; [done..|]). exact IH.
  - rewrite str1_app. by apply NScan_byte.
Qed.

Lemma resegment_words segs w :
  w ∈ word_segments (concat (map resegment segs)) -> rewriteWord w = w.
Proof.
  unfold word_segments. rewrite list_elem_of_omap. intros (g & Hg & Hw).
  apply list_elem_of_In, in_concat in Hg as (l & Hl & Hg).
  apply in_map_iff in Hl as (g0 & <- & _).
  destruct g0 as [raw|w0|c]; cbn in Hg; [by destruct Hg as [<-|[]]| |by destruct Hg as [<-|[]]].
  destruct (_ =?s _) eqn:E; cbn in Hg.
  - destruct Hg as [<-|[]]. injection Hw as <-. by apply String.eqb_eq.
  - destruct Hg as [<-|[<-|[<-|[<-|[]]]]]; try discriminate.
    injection Hw as <-. by vm_compute.
Qed.
End norm.

Definition seg_raw (g : segment) : string :=
  match g with NQuoted raw => raw | NWord w => w | NByte c => str1 c end.

Lemma NScan_raw q segs : NScan q segs -> q = concat_all (map seg_raw segs).
Proof.
  induction 1 as [|c s1 x y segs Hq E HN IH|c s1 x y segs Hw E HN IH|c s1 segs Hq Hw HN IH];
    [done|rewrite map_cons, concat_all_cons, <- IH; cbn [seg_raw]..].
  - by rewrite string_app_cons, <- (scanRaw_split _ _ _ _ E).
  - by rewrite string_app_cons, <- (spanWord_split _ _ _ E).
  - done.
Qed.

Lemma NScan_seg_out_id `{U : UnicodeTables} q segs :
  NScan q segs -> (forall w, w ∈ word_segments segs -> rewriteWord w = w) ->
  concat_all (map seg_out segs) = q.
Proof.
  intros HN Hw. rewrite (NScan_raw _ _ HN). clear q HN. f_equal.
  induction segs as [|g segs IH]; [done|]. rewrite !map_cons. f_equal.
  - destruct g; [done| |done]. apply Hw. unfold word_segments. cbn. set_solver.
  - apply IH. intros w Hin. apply Hw. unfold word_segments in *. cbn. destruct g; set_solver.
Qed.

(** ** The split, declared *)

(** The inside of a quoted token: a backslash takes the next byte with it, and the
    quote is doubled. *)
Inductive raw_body (q : ascii) : string -> Prop :=
| rb_nil : raw_body q ""
| rb_escape c b : raw_body q b -> raw_body q (String backslash (String c b))
| rb_double b : raw_body q b -> raw_body q (String q (String q b))
| rb_byte c b : c <> q -> c <> backslash -> raw_body q b -> raw_body q (String c b).

(** A quoted token after its opening quote, and the text after it: it is closed by
    a quote, or runs to the end of the text. *)
Inductive quoted_raw (q : ascii) : string -> string -> Prop :=
| qr_closed b rest :
    raw_body q b -> startsWith q rest = false -> quoted_raw q (b +:+ str1 q) rest
| qr_open b : raw_body q b -> quoted_raw q b ""
| qr_backslash b : raw_body q b -> quoted_raw q (b +:+ str1 backslash) "".

Fixpoint all_rest (s : string) : bool :=
  match s with String c s' => wordRest c && all_rest s' | EmptyString => true end.

(** The text splits into quoted tokens, words (as long as they go) and other bytes. *)
Inductive Split : string -> list segment -> Prop :=
| Split_nil : Split "" []
| Split_quoted c raw rest segs :
    isQuote c = true -> quoted_raw c raw rest -> Split rest segs ->
    Split (String c (raw +:+ rest)) (NQuoted (String c raw) :: segs)
| Split_word c w rest segs :
    wordStart c = true -> all_rest w = true -> startsRest rest = false -> Split rest segs ->
    Split (String c (w +:+ rest)) (NWord (String c w) :: segs)
| Split_byte c rest segs :
    isQuote c = false -> wordStart c = false -> Split rest segs ->
    Split (String c rest) (NByte c :: segs).

(** ASCII case. *)
Fixpoint lowercase (s : string) : string :=
  match s with
  | String c s' => String (if is_upper c then chr (zc c + 32) else c) (lowercase s')
  | EmptyString => ""
  end.

(** The words that are rewritten, and what each segment becomes. *)
Definition alias (w : string) : Prop := lowercase w = "bool" \/ lowercase w = "boolean".
Inductive rewritten : segment -> string -> Prop :=
| rewritten_quoted raw : rewritten (NQuoted raw) raw
| rewritten_byte c : rewritten (NByte c) (str1 c)
| rewritten_word w : ~ alias w -> rewritten (NWord w) w
| rewritten_alias w : alias w -> rewritten (NWord w) "tinyint(1)".

(** ** The scanner splits *)
Lemma scanRaw_body q b t :
  q <> backslash -> raw_body q b ->
  scanRaw q (b +:+ t) = (b +:+ (scanRaw q t).1, (scanRaw q t).2).
Proof.
  intros Hq. induction 1 as [|c b _ IH|b _ IH|c b Hc Hb _ IH].
  - change (scanRaw q t = ((scanRaw q t).1, (scanRaw q t).2)). apply surjective_pairing.
  - rewrite !string_app_cons, scanRaw_eq, Ascii.eqb_refl, IH. done.
  - rewrite !string_app_cons, scanRaw_eq, (proj2 (Ascii.eqb_neq _ _) Hq), Ascii.eqb_refl, IH. done.
  - rewrite !string_app_cons. destruct (b +:+ t) as [|a s] eqn:E.
    + destruct b; [|discriminate E]. by destruct t; [|discriminate E].
    + rewrite scanRaw_eq, (proj2 (Ascii.eqb_neq _ _) Hc), (proj2 (Ascii.eqb_neq _ _) Hb).
      by rewrite IH.
Qed.

Lemma scanRaw_quoted q raw rest :
  q <> backslash -> quoted_raw q raw rest -> scanRaw q (raw +:+ rest) = (raw, rest).
Proof.
  intros Hq [b r Hb Hr|b Hb|b Hb]; rewrite <- ?string_app_assoc, scanRaw_body by done.
  - rewrite str1_app. destruct r as [|a r]; [done|].
    cbn [startsWith] in Hr. rewrite scanRaw_eq, (proj2 (Ascii.eqb_neq _ _) Hq), Ascii.eqb_refl, Hr.
    done.
  - cbn. by rewrite string_app_nil_r.
  - done.
Qed.

(** What one step of the scan puts in front of a quoted token. *)
Lemma quoted_raw_cons q p x y :
  (forall b, raw_body q b -> raw_body q (p +:+ b)) -> quoted_raw q x y -> quoted_raw q (p +:+ x) y.
Proof.
  intros Hp [b r Hb Hr|b Hb|b Hb]; rewrite ?string_app_assoc;
    [apply qr_closed|apply qr_open|apply qr_backslash]; auto.
Qed.

Lemma scanRaw_sound q s x y :
  q <> backslash -> scanRaw q s = (x, y) -> quoted_raw q x y.
Proof.
  intros Hq. revert x y. induction s as [s IH] using string_len_ind. intros x y.
  destruct s as [|a [|b s]].
  - intros [= <- <-]. apply qr_open. constructor.
  - intros [= <- <-]. destruct (decide (a = q)) as [->|H1].
    + by apply (qr_closed q "" "" (rb_nil q)).
    + destruct (decide (a = backslash)) as [->|H2].
      * apply (qr_backslash q "" (rb_nil q)).
      * apply qr_open. constructor; [done..|constructor].
  - rewrite scanRaw_eq. destruct (a =?c backslash) eqn:E1.
    { apply Ascii.eqb_eq in E1 as ->. destruct (scanRaw q s) as [x' y'] eqn:E. intros [= <- <-].
      apply (quoted_raw_cons q (str2 backslash b)); [by constructor|]. apply (IH s); [cbn; lia|done]. }
    apply Ascii.eqb_neq in E1. destruct (a =?c q) eqn:E2.
    + apply Ascii.eqb_eq in E2 as ->. destruct (b =?c q) eqn:E3.
      * apply Ascii.eqb_eq in E3 as ->. destruct (scanRaw q s) as [x' y'] eqn:E. intros [= <- <-].
        apply (quoted_raw_cons q (str2 q q)); [by constructor|]. apply (IH s); [cbn; lia|done].
      * intros [= <- <-]. by apply (qr_closed q "" (String b s) (rb_nil q)).
    + apply Ascii.eqb_neq in E2. destruct (scanRaw q (String b s)) as [x' y'] eqn:E.
      intros [= <- <-]. apply (quoted_raw_cons q (str1 a)); [by constructor|].
      apply (IH (String b s)); [cbn; lia|done].
Qed.

Lemma spanWord_all_rest s x y : spanWord s = (x, y) -> all_rest x = true.
Proof.
  revert x y; induction s as [|c s IH]; intros x y; cbn [spanWord]; [by intros [= <- <-]|].
  destruct (wordRest c) eqn:E; [|by intros [= <- <-]].
  destruct (spanWord s) as [x' y']. intros [= <- <-]. cbn. by rewrite E, (IH x' y').
Qed.
Lemma spanWord_complete w rest :
  all_rest w = true -> startsRest rest = false -> spanWord (w +:+ rest) = (w, rest).
Proof.
  intros Hw Hr. induction w as [|c w IH]; [by apply spanWord_rest|].
  cbn in Hw. apply andb_prop in Hw as [Hc Hw]. rewrite string_app_cons. cbn [spanWord].
  by rewrite Hc, IH.
Qed.

Lemma isQuote_not_backslash c : isQuote c = true -> c <> backslash.
Proof. by intros (_ & _ & _ & _ & ?)%isQuote_cases. Qed.

Lemma NScan_Split q segs : NScan q segs <-> Split q segs.
Proof.
  split.
  - induction 1 as [|c s1 x y segs Hq E HN IH|c s1 x y segs Hw E HN IH|c s1 segs Hq Hw HN IH];
      [constructor|..].
    + rewrite (scanRaw_split _ _ _ _ E). apply Split_quoted; [done| |done].
      eapply scanRaw_sound; [by apply isQuote_not_backslash|done].
    + rewrite (spanWord_split _ _ _ E).
      apply Split_word; [done|by eapply spanWord_all_rest|by eapply spanWord_sound|done].
    + by constructor.
  - induction 1 as [|c raw rest segs Hq E HS IH|c w rest segs Hw Hr Hs HS IH|c rest segs Hq Hw HS IH];
      [constructor|..].
    + eapply NScan_quoted; [done| |done].
      apply scanRaw_quoted; [by apply isQuote_not_backslash|done].
    + eapply NScan_word; [done| |done]. by apply spanWord_complete.
    + by constructor.
Qed.

Lemma NScan_functional q segs1 segs2 : NScan q segs1 -> NScan q segs2 -> segs1 = segs2.
Proof.
  intros H. revert segs2.
  induction H as [|c s1 x y segs Hq E HN IH|c s1 x y segs Hw E HN IH|c s1 segs Hq Hw HN IH];
    intros segs2 H2; inversion H2 as [|? ? x2 y2 ? Hq2 E2 HN2|? ? x2 y2 ? Hw2 E2 HN2|? ? ? Hq2 Hw2 HN2];
    subst; try congruence;
    try (exfalso; match goal with
         | H : isQuote ?c = true, H' : wordStart ?c = true |- _ =>
             by rewrite (isQuote_wordStart _ H) in H' end).
  - rewrite E in E2. injection E2 as <- <-. f_equal. by apply IH.
  - rewrite E in E2. injection E2 as <- <-. f_equal. by apply IH.
  - f_equal. by apply IH.
Qed.

(** ** Words *)
Section words.
Context `{U : UnicodeTables}.

Lemma wordRest_ascii c : wordRest c = true -> zc c < 128.
Proof.
  unfold wordRest, is_lower, is_upper, is_digit, between. intros H.
  destruct (zc c <? 128) eqn:E; [by apply Z.ltb_lt|]. apply Z.ltb_ge in E.
  destruct (c =?c "_"%char) eqn:E2; [by apply Ascii.eqb_eq in E2 as ->|].
  rewrite orb_false_r, !orb_true_iff, !andb_true_iff, !Z.leb_le in H. lia.
Qed.

Lemma toLower_word w : all_rest w = true -> toLower w = lowercase w.
Proof.
  unfold toLower. induction w as [|c w IH]; [done|]. cbn [all_rest].
  intros [Hc%wordRest_ascii Hw]%andb_prop. rewrite runes_ascii_cons by done.
  cbn [map lowercase rn]. rewrite concat_all_cons, IH by done.
  unfold lowerRune. rewrite (proj2 (Z.ltb_lt _ _) Hc). fold (is_upper c).
  assert (forall z, 0 <= z < 128 -> encodeRune z = str1 (chr z)) as Hen.
  { intros z Hz. unfold encodeRune.
    by rewrite (proj2 (Z.leb_le 0 z) (proj1 Hz)), (proj2 (Z.ltb_lt z 128) (proj2 Hz)). }
  pose proof (zc_range c). change (between 65 90 (zc c)) with (is_upper c).
  destruct (is_upper c) eqn:E.
  - unfold is_upper, between in E. apply andb_prop in E as [E1%Z.leb_le E2%Z.leb_le].
    rewrite Hen by lia. done.
  - by rewrite Hen, chr_zc by lia.
Qed.

Lemma wordStart_rest c : wordStart c = true -> wordRest c = true.
Proof.
  unfold wordStart, wordRest. by destruct (is_lower c), (is_upper c), (is_digit c).
Qed.

Lemma rewriteWord_rewritten w : all_rest w = true -> rewritten (NWord w) (rewriteWord w).
Proof.
  intros Hw. unfold rewriteWord. rewrite toLower_word by done. cbv zeta.
  destruct (_ =?s "bool") eqn:E1; bool_to_prop; [constructor; by left|].
  destruct (_ =?s "boolean") eqn:E2; bool_to_prop; [constructor; by right|].
  constructor. by intros [?|?].
Qed.

Lemma Split_rewritten q segs : Split q segs -> Forall2 rewritten segs (map seg_out segs).
Proof.
  induction 1 as [|c raw rest segs Hq E HS IH|c w rest segs Hw Hr Hs HS IH|c rest segs Hq Hw HS IH];
    constructor; try done; try constructor.
  apply rewriteWord_rewritten. cbn [all_rest]. by rewrite wordStart_rest.
Qed.
End words.

(** C36: [normalizeTypes] rewrites the words [bool] and [boolean] of a CREATE TABLE,
    and nothing else.  Other statements are left as they are.  The text of a CREATE
    TABLE splits in exactly one way into quoted tokens, words and other bytes; the
    result is the same segments, in order, with the words that are [bool] or
    [boolean] in any case, and only those, replaced by [tinyint(1)].  Rewriting it
    again changes nothing. *)
Theorem normalizeTypes_rewrites `{U : UnicodeTables} q :
  (hasPrefix (toUpper (trimSpace q)) "CREATE TABLE" = false -> normalizeTypes q = q)
  /\ (hasPrefix (toUpper (trimSpace q)) "CREATE TABLE" = true ->
      exists segs outs, Split q segs /\ (forall segs', Split q segs' -> segs' = segs)
        /\ Forall2 rewritten segs outs /\ normalizeTypes q = concat_all outs)
  /\ normalizeTypes (normalizeTypes q) = normalizeTypes q.
Proof.
  destruct (NScan_exists q) as [segs HN].
  assert (normalizeBody q = concat_all (map seg_out segs)) as Hq by (by apply normLoop_spec).
  assert (normalizeBody (normalizeBody q) = normalizeBody q) as Hid.
  { pose proof (NScan_rewritten _ _ HN) as HN'. rewrite <- Hq in HN'.
    unfold normalizeBody at 1. rewrite (normLoop_spec _ _ _ ltac:(done) HN').
    apply NScan_seg_out_id; [done|]. intros w. apply resegment_words. }
  unfold normalizeTypes. destruct (hasPrefix (toUpper (trimSpace q)) _) eqn:E; cbn [negb].
  - split_and!; [done| |by destruct (negb _)]. intros _. exists segs, (map seg_out segs).
    pose proof (proj1 (NScan_Split _ _) HN) as HS. split_and!; [done| |by eapply Split_rewritten|done].
    intros segs' HS'%NScan_Split. by eapply NScan_functional.
  - rewrite E. by split_and!.
Qed.

Lemma normalizeTypes_rewrites_witness :
  exists segs outs,
    Split "create table t (a Bool, b varchar(3) comment 'bool')" segs /\ Forall2 rewritten segs outs
    /\ concat_all outs = "create table t (a tinyint(1), b varchar(3) comment 'bool')".
Proof.
  destruct (proj1 (proj2 (@normalizeTypes_rewrites sampleUnicode
    "create table t (a Bool, b varchar(3) comment 'bool')")) ltac:(vm_compute; reflexivity))
    as (segs & outs & H1 & _ & H2 & H3).
  exists segs, outs. split; [exact H1|]. split; [exact H2|]. rewrite <- H3. vm_compute. reflexivity.
Defined.
