(* ===== verification/SelectPlan.v ===== *)
(** * Planning a SELECT ([select_plan.go])

    [planSelect] checks the clauses of a SELECT, splits its WHERE into a scalar
    filter and at most one vector predicate ([extractVector]), and renders the
    filter in Milvus syntax ([scalarFilter]).

    The specification interprets predicates over a row ([holds]) and states the
    fragment of scalar predicates that can be rendered ([filterable]). *)
From S2P Require Export Sqlparser Values Samples.
Open Scope Z_scope.
Open Scope go_scope.

(** [fieldIdentifier] *)
Definition fieldIdentifier : re :=
  RSeq (RClass identStart) (RSeq (RMany (fun r => identStart r || between 48 57 r)) REnd).

Section filter.
Context `{U : UnicodeTables}.

Definition isNumber (t : ValType) : bool :=
  match t with IntVal | FloatVal => true | _ => false end.

(** [filterValue] *)
Definition filterValue (e : Expr) : res string :=
  let unsupported := Err ("unsupported WHERE value " +:+ typeName e) in
  match e with
  | ColName name qualEmpty =>
      if qualEmpty && matchString fieldIdentifier name then Ok name else unsupported
  | SQLVal StrVal v => Ok (quote v)
  | SQLVal IntVal v => Ok v
  | SQLVal FloatVal v => Ok v
  | BoolVal b => Ok (formatBool b)
  | UnaryExpr op (SQLVal t v) =>
      if ((op =?s "-") || (op =?s "+")) && isNumber t then Ok (op +:+ v) else unsupported
  | _ => unsupported
  end.

(** One item of an IN list. *)
Definition filterItem (x : Expr) : res string :=
  match x with
  | SQLVal _ _ | BoolVal _ | UnaryExpr _ _ => filterValue x
  | _ => Err "IN requires literals"
  end.

(** [filterPair], on the filters of the two sides *)
Definition filterPair (l r : res string) (op : string) : res string :=
  a ← l; b ← r; Ok ("(" +:+ a +:+ " " +:+ op +:+ " " +:+ b +:+ ")").

(** The tail of the comparison case: both operands around [op]. *)
Definition compareWith (op : string) (l r : Expr) (escape : option Expr) : res string :=
  match escape with
  | Some _ => Err "ESCAPE is not supported"
  | None =>
      a ← filterValue l; b ← filterValue r;
      Ok (a +:+ " " +:+ op +:+ " " +:+ b)
  end.

(** The [*sqlparser.ComparisonExpr] case of [scalarFilter]. *)
Definition comparisonFilter (op : string) (l r : Expr) (escape : option Expr) : res string :=
  if op =?s "=" then compareWith "==" l r escape
  else if (op =?s "!=") || (op =?s "<>") then compareWith "!=" l r escape
  else if (op =?s "in") || (op =?s "not in") then
    a ← filterValue l;
    match r with
    | ValTuple items =>
        xs ← mapM filterItem items;
        Ok (a +:+ " " +:+ op +:+ " [" +:+ join xs "," +:+ "]")
    | _ => Err "IN requires a literal list"
    end
  else if op =?s "like" then
    match r with
    | SQLVal _ _ => compareWith op l r escape
    | _ => Err "LIKE requires a string literal"
    end
  else if (op =?s "<") || (op =?s "<=") || (op =?s ">") || (op =?s ">=")
  then compareWith op l r escape
  else Err ("unsupported WHERE operator " +:+ op).

(** [scalarFilter] *)
Fixpoint scalarFilter (e : Expr) : res string :=
  match e with
  | AndExpr l r => filterPair (scalarFilter l) (scalarFilter r) "and"
  | OrExpr l r => filterPair (scalarFilter l) (scalarFilter r) "or"
  | NotExpr x => (fun s => "not (" +:+ s +:+ ")") <$> scalarFilter x
  | ParenExpr x => (fun s => "(" +:+ s +:+ ")") <$> scalarFilter x
  | ComparisonExpr op l r escape => comparisonFilter op l r escape
  | _ => Err ("unsupported WHERE expression " +:+ typeName e)
  end.
End filter.

(** [extractVector]: the scalar remainder of a predicate, and the column and the
    argument of its vector predicate *)
Fixpoint extractVector (e : Expr) : res (option Expr * string * option Expr) :=
  match e with
  | ParenExpr x =>
      '(x', f, q) ← extractVector x;
      match x' with
      | None => Ok (None, f, q)
      | Some y => Ok (Some (ParenExpr y), f, q)
      end
  | AndExpr a b =>
      '(l, lf, lq) ← extractVector a;
      '(r, rf, rq) ← extractVector b;
      if negb (lf =?s "") && negb (rf =?s "") then Err "only one vector predicate is supported"
      else
        let '(f, q) := if negb (rf =?s "") then (rf, rq) else (lf, lq) in
        match l, r with
        | None, _ => Ok (r, f, q)
        | _, None => Ok (l, f, q)
        | Some x, Some y => Ok (Some (AndExpr x y), f, q)
        end
  | ComparisonExpr op l r escape =>
      match r with
      | FuncExpr name args =>
          if (op =?s "like") && equalFold name "json_vector" then
            match l, escape with
            | ColName col true, None => Ok (None, col, Some r)
            | _, _ => Err "invalid vector predicate"
            end
          else Ok (Some e, "", None)
      | _ => Ok (Some e, "", None)
      end
  | _ => Ok (Some e, "", None)
  end.

(** [selectPlan] *)
Record selectPlan := mk_selectPlan {
  p_table : string;
  p_filter : string;
  p_vectorField : string;
  p_vectorExpr : option Expr;
  p_limit : Z;
  p_offset : Z
}.

Section plan.
Context `{U : UnicodeTables} `{S : Sqlparser}.

(** [selectInteger] *)
Definition selectInteger (e : Expr) : res Z :=
  match e with
  | SQLVal IntVal v =>
      match parseInt v 64 with
      | Ok n => if n <? 0 then Err "invalid LIMIT or OFFSET" else Ok n
      | _ => Err "invalid LIMIT or OFFSET"
      end
  | _ => Err "LIMIT and OFFSET must be non-negative integer literals"
  end.

(** The table of the FROM clause: lines 17-27 of the function. *)
Definition planFrom (from : list TableExpr) : res string :=
  match from with
  | [AliasedTableExpr x asEmpty hintsNil] =>
      match x with
      | TableNameExpr t =>
          if negb asEmpty || negb hintsNil || negb (tn_QualifierIsEmpty t)
          then Err "subqueries, table aliases, hints and qualified tables are not supported"
          else Ok (tn_Name t)
      | _ => Err "subqueries, table aliases, hints and qualified tables are not supported"
      end
  | [_] => Err "joins are not supported"
  | _ => Err "SELECT requires one collection"
  end.

(** One iteration of the loop over the projections; [n] is their number. *)
Definition planProjection (n : nat) (e : SelectExpr) : res unit :=
  match e with
  | StarExpr tableEmpty =>
      if negb (n =? 1)%nat || negb tableEmpty
      then Err "only an unqualified standalone * is supported" else Ok tt
  | AliasedExpr x true =>
      if equalFold (StringExpr x) "count(*)" && (n =? 1)%nat then Ok tt
      else match x with
           | ColName _ true => Ok tt
           | _ => Err "projection must be an unqualified field"
           end
  | _ => Err "projection aliases are not supported"
  end.

(** The WHERE clause: the filter, the vector column and its argument. *)
Definition planWhere (w : option Expr) : res (string * string * option Expr) :=
  match w with
  | None => Ok ("", "", None)
  | Some e =>
      '(expr, field, vector) ← extractVector e;
      match expr with
      | None => Ok ("", field, vector)
      | Some x => f ← scalarFilter x; Ok (f, field, vector)
      end
  end.

(** The LIMIT clause; the defaults are those of the initial plan. *)
Definition planLimit (l : option Limit) : res (Z * Z) :=
  match l with
  | None => Ok (100, 0)
  | Some l =>
      n ← selectInteger (lim_Rowcount l);
      match lim_Offset l with
      | None => Ok (n, 0)
      | Some o => m ← selectInteger o; Ok (n, m)
      end
  end.

(** [planSelect] *)
Definition planSelect (s : Select) : res selectPlan :=
  _ ← guard_err (negb (sel_Distinct s =?s "") || nonempty (sel_GroupBy s)
        || isSome (sel_Having s) || nonempty (sel_OrderBy s)
        || negb (sel_Lock s =?s ""))
      "DISTINCT, GROUP BY, HAVING, ORDER BY and locking are not supported";
  table ← planFrom (sel_From s);
  _ ← mapM (planProjection (length (sel_SelectExprs s))) (sel_SelectExprs s);
  '(filter, field, vector) ← planWhere (sel_Where s);
  '(limit, offset) ← planLimit (sel_Limit s);
  if (limit >? 16384) || (offset >? 16384) || (wrap 64 (limit + offset) >? 16384)
  then Err "LIMIT + OFFSET must not exceed 16384"
  else Ok (mk_selectPlan table filter field vector limit offset).
End plan.
