(* ===== verification/SelectPlanSpec.v ===== *)
(** * Correctness of SELECT planning

    The WHERE clause is split without changing its meaning; the filter text is
    produced exactly for the supported predicates, with string literals that
    cannot leave their quotes; accepted plans stay within the pagination bound. *)
From S2P Require Export SelectPlan QuoteSpec.
Open Scope Z_scope.
Open Scope go_scope.

(** ** The meaning of a predicate *)

(** The vector predicate of a comparison: its column and its argument. *)
Definition vectorPredicate (e : Expr) : option (string * Expr) :=
  match e with
  | ComparisonExpr op (ColName col true) (FuncExpr name args) None =>
      if (op =?s "like") && equalFold name "json_vector"
      then Some (col, FuncExpr name args) else None
  | _ => None
  end.

Section meaning.
(** The value of a scalar predicate on a row, and whether the row is a nearest
    neighbour for a vector predicate. *)
Variables (atom : Expr -> bool) (near : string -> Expr -> bool).

Fixpoint holds (e : Expr) : bool :=
  match e with
  | AndExpr l r => holds l && holds r
  | OrExpr l r => holds l || holds r
  | NotExpr x => negb (holds x)
  | ParenExpr x => holds x
  | _ =>
      match vectorPredicate e with
      | Some (col, q) => near col q
      | None => atom e
      end
  end.
End meaning.

(** The vector predicates of a predicate, wherever they occur. *)
Fixpoint vectorPredicates (e : Expr) : list (string * Expr) :=
  match e with
  | AndExpr l r | OrExpr l r => vectorPredicates l ++ vectorPredicates r
  | NotExpr x | ParenExpr x => vectorPredicates x
  | _ => match vectorPredicate e with Some p => [p] | None => [] end
  end.

(** Column identifiers are not empty: the grammar has no empty identifier. *)
Definition named_vectors (e : Expr) : bool :=
  forallb (fun p => negb (p.1 =?s "")) (vectorPredicates e).

(** ** [extractVector] *)

(** What a split promises: the remainder, and the vector predicate if any. *)
Definition split_of (e : Expr) (x : option Expr) (f : string) (q : option Expr) : Prop :=
  (forall atom near, holds atom near e =
     match x with Some y => holds atom near y | None => true end
     && match q with Some v => near f v | None => true end)
  /\ (f = "" <-> q = None).

Lemma split_leaf e : split_of e (Some e) "" None.
Proof. split; [|done]. intros. by rewrite andb_true_r. Qed.

Lemma split_and a b l lf lq r rf rq :
  split_of a l lf lq -> split_of b r rf rq ->
  negb (lf =?s "") && negb (rf =?s "") = false ->
  split_of (AndExpr a b)
    match l, r with
    | None, _ => r
    | _, None => l
    | Some x, Some y => Some (AndExpr x y)
    end
    (if negb (rf =?s "") then rf else lf) (if negb (rf =?s "") then rq else lq).
Proof.
  intros [Ha Hla] [Hb Hrb] Hone.
  destruct (rf =?s "") eqn:Hr; cbn [negb andb] in *.
  - apply String.eqb_eq in Hr. assert (rq = None) as -> by (by apply Hrb).
    split; [|done]. intros atom near. cbn [holds]. rewrite Ha, Hb.
    destruct l, r; cbn [holds]; by repeat case_match; rewrite ?andb_true_r;
      try (by rewrite <- ?andb_assoc, (andb_comm (near _ _))).
  - rewrite andb_true_r in Hone. apply negb_false_iff, String.eqb_eq in Hone.
    assert (lq = None) as -> by (by apply Hla).
    split; [|done]. intros atom near. cbn [holds]. rewrite Ha, Hb.
    destruct l, r; cbn [holds]; rewrite ?andb_true_r, ?andb_true_l, ?andb_assoc; done.
Qed.

Lemma split_leaf_vector op col name args :
  op =?s "like" = true -> equalFold name "json_vector" = true -> col <> "" ->
  split_of (ComparisonExpr op (ColName col true) (FuncExpr name args) None)
    None col (Some (FuncExpr name args)).
Proof.
  intros Ho Hn Hc. split; [|done]. intros atom near. cbn. by rewrite Ho, Hn.
Qed.

Lemma named_vectors_app l k :
  forallb (fun p : string * Expr => negb (p.1 =?s "")) (l ++ k) = true ->
  forallb (fun p : string * Expr => negb (p.1 =?s "")) l = true
  /\ forallb (fun p : string * Expr => negb (p.1 =?s "")) k = true.
Proof. rewrite forallb_app. apply andb_prop. Qed.

Lemma extractVector_split e x f q :
  named_vectors e = true -> extractVector e = Ok (x, f, q) -> split_of e x f q.
Proof.
  unfold named_vectors. revert x f q. induction e; intros x f q Hn; cbn [extractVector];
    try (intros [= <- <- <-]; apply split_leaf).
  - cbn [vectorPredicates] in Hn. apply named_vectors_app in Hn as [Hn1 Hn2].
    intros H. apply bind_Ok in H as ([[l lf] lq] & H1 & H).
    apply bind_Ok in H as ([[r rf] rq] & H2 & H).
    destruct (negb _ && _) eqn:Hone; [done|].
    pose proof (split_and _ _ _ _ _ _ _ _ (IHe1 _ _ _ Hn1 H1) (IHe2 _ _ _ Hn2 H2) Hone).
    destruct (negb (rf =?s "")), l, r; by injection H as <- <- <-.
  - intros H. apply bind_Ok in H as ([[y yf] yq] & H1 & H).
    destruct (IHe _ _ _ Hn H1) as [Hs Hf].
    destruct y; injection H as <- <- <-; split; try done; intros atom near;
      cbn [holds]; apply Hs.
  - destruct e2; try (intros [= <- <- <-]; apply split_leaf).
    destruct (_ && equalFold _ _) eqn:Hop; [|intros [= <- <- <-]; apply split_leaf].
    destruct e1; try done. destruct QualifierIsEmpty; [|done]. destruct Escape; [done|].
    intros [= <- <- <-]. cbn in Hn. rewrite Hop in Hn. cbn in Hn.
    rewrite andb_true_r in Hn. apply negb_true_iff, String.eqb_neq in Hn.
    apply andb_prop in Hop as [Ho Hname]. by apply split_leaf_vector.
Qed.

(** The predicates of a split: its remainder's and its own. *)
Lemma extractVector_predicates e x f q :
  named_vectors e = true -> extractVector e = Ok (x, f, q) ->
  vectorPredicates e ≡ₚ
    match x with Some y => vectorPredicates y | None => [] end
    ++ match q with Some v => [(f, v)] | None => [] end.
Proof.
  unfold named_vectors. revert x f q. induction e; intros x f q Hn; cbn [extractVector];
    try (intros [= <- <- <-]; by rewrite app_nil_r).
  - cbn [vectorPredicates] in Hn |- *. apply named_vectors_app in Hn as [Hn1 Hn2].
    intros H. apply bind_Ok in H as ([[l lf] lq] & H1 & H).
    apply bind_Ok in H as ([[r rf] rq] & H2 & H).
    destruct (negb _ && _) eqn:Hone; [done|].
    rewrite (IHe1 _ _ _ Hn1 H1), (IHe2 _ _ _ Hn2 H2).
    destruct (extractVector_split _ _ _ _ Hn1 H1) as [_ Hl].
    destruct (extractVector_split _ _ _ _ Hn2 H2) as [_ Hr].
    destruct (rf =?s "") eqn:E; cbn [negb andb] in *.
    + apply String.eqb_eq, Hr in E. subst rq.
      destruct l, r; injection H as <- <- <-; cbn [vectorPredicates];
        rewrite ?app_nil_r, ?app_nil_l; try done; solve_Permutation.
    + rewrite andb_true_r in Hone. apply negb_false_iff, String.eqb_eq, Hl in Hone. subst lq.
      destruct l, r; injection H as <- <- <-; cbn [vectorPredicates];
        rewrite ?app_nil_r, ?app_nil_l, ?app_assoc; done.
  - intros H. apply bind_Ok in H as ([[y yf] yq] & H1 & H).
    rewrite (IHe _ _ _ Hn H1). by destruct y; injection H as <- <- <-.
  - destruct e2; try (intros [= <- <- <-]; by rewrite app_nil_r).
    destruct (_ && equalFold _ _) eqn:Hop; [|intros [= <- <- <-]; by rewrite app_nil_r].
    destruct e1; try done. destruct QualifierIsEmpty; [|done]. destruct Escape; [done|].
    intros [= <- <- <-]. cbn. by rewrite Hop.
Qed.

(** ** Identifiers *)

(** The bytes of a field identifier. *)
Definition ident_start (c : ascii) : bool := is_upper c || is_lower c || (c =?c "_"%char).
Fixpoint ident_rest (s : string) : bool :=
  match s with
  | String c s' => (ident_start c || is_digit c) && ident_rest s'
  | EmptyString => true
  end.
Definition is_identifier (s : string) : bool :=
  match s with String c s' => ident_start c && ident_rest s' | EmptyString => false end.

Lemma ident_start_spec c : identStart (zc c) = ident_start c.
Proof.
  unfold identStart, ident_start, is_upper, is_lower.
  assert ((zc c =? 95) = (c =?c "_"%char)) as ->; [|done].
  change 95 with (zc "_"%char). destruct (c =?c "_"%char) eqn:E.
  - apply Ascii.eqb_eq in E as ->. done.
  - apply Z.eqb_neq. intros H%zc_inj. by rewrite H, Ascii.eqb_refl in E.
Qed.

Lemma identStart_ascii r : identStart r || between 48 57 r = true -> r < 128.
Proof.
  unfold identStart, between. intros H.
  repeat (apply orb_prop in H as [H|H]); repeat (apply andb_prop in H as [? H]);
    rewrite ?Z.leb_le, ?Z.eqb_eq in *; lia.
Qed.

(** The runes of a text are all of an ASCII class exactly when its bytes are. *)
Lemma runes_class f s :
  (forall r, f r = true -> r < 128) ->
  forallb (fun x => f (rn x)) (runes s) = forallb (fun c => f (zc c)) (String.list_ascii_of_string s).
Proof.
  intros Hf. induction s as [s IH] using string_len_ind. destruct s as [|c s]; [done|].
  cbn [String.list_ascii_of_string forallb].
  destruct (runes (String c s)) as [|x l] eqn:Hr.
  { pose proof (bytes_of_runes (String c s)) as H. by rewrite Hr in H. }
  cbn [forallb]. destruct (Z.lt_ge_cases (rn x) 128) as [Hlt|Hge].
  - destruct (runes_head_ascii _ _ _ Hr Hlt) as (c' & s' & [= <- <-] & Hc & -> & ->).
    cbn [rn]. by rewrite IH by (cbn; lia).
  - destruct (f (rn x)) eqn:E; [apply Hf in E; lia|]. cbn [andb].
    destruct (f (zc c)) eqn:E'; [|done]. apply Hf in E'.
    rewrite runes_ascii_cons in Hr by done. injection Hr as <- _. cbn in Hge. lia.
Qed.

Lemma fieldIdentifier_spec s : matchString fieldIdentifier s = is_identifier s.
Proof.
  pose proof (runes_class (fun r => identStart r || between 48 57 r) ) as Hcl.
  assert (forall t, forallb (fun c => identStart (zc c) || between 48 57 (zc c))
      (String.list_ascii_of_string t) = ident_rest t) as Hrest.
  { induction t as [|c t IH]; [done|]. cbn [String.list_ascii_of_string forallb ident_rest].
    by rewrite IH, ident_start_spec. }
  unfold matchString. apply Bool.eq_iff_eq_true. split.
  - destruct (re_find fieldIdentifier s) as [[cs rest]|] eqn:Hf; [intros _|done].
    apply re_find_sound in Hf as (q & Hd & _).
    destruct Hd as (m & (x & a & Hx & Hfx & ->) & (m2 & (xs & Hall & Ha & _) & (He & ->))).
    cbn [fst snd] in *. rewrite He, app_nil_r in Ha. subst a.
    destruct (runes_head_ascii _ _ _ Hx) as (c & s' & -> & Hc & -> & ->).
    { apply identStart_ascii. by rewrite Hfx. }
    cbn [rn] in Hfx. unfold is_identifier. rewrite <- ident_start_spec, Hfx, <- Hrest, <- Hcl
      by apply identStart_ascii.
    cbn [andb]. apply forallb_forall. intros y Hy. rewrite Forall_forall in Hall.
    apply Hall. by apply list_elem_of_In.
  - unfold is_identifier. destruct s as [|c s]; [done|]. intros [Hc Hs]%andb_prop.
    rewrite <- ident_start_spec in Hc.
    rewrite <- Hrest, <- Hcl in Hs by apply identStart_ascii.
    assert (zc c < 128) as Hlt by (apply identStart_ascii; by rewrite Hc).
    assert (is_Some (re_find fieldIdentifier (String c s))) as [[cs r] ->]; [|done].
    apply (re_find_complete _ _ (reverse (runes s) ++ [mk_rune (zc c) (str1 c)], [])).
    rewrite runes_ascii_cons by done.
    eexists (_, _). split; [by eexists _, _|]. cbn [fst snd].
    eexists (_, []). split; [|by split]. exists (runes s). cbn [fst snd].
    split_and!; [|by rewrite app_nil_r|done]. apply Forall_forall. intros y Hy.
    rewrite forallb_forall in Hs. apply Hs. by apply list_elem_of_In.
Qed.

(** ** The scalar predicates that are supported *)

Definition isLiteral (e : Expr) : bool :=
  match e with
  | SQLVal t _ => negb (bool_decide (t = OtherVal))
  | BoolVal _ => true
  | UnaryExpr op (SQLVal t _) => ((op =?s "-") || (op =?s "+")) && isNumber t
  | _ => false
  end.
Definition isOperand (e : Expr) : bool :=
  match e with
  | ColName n qualEmpty => qualEmpty && is_identifier n
  | _ => isLiteral e
  end.
Definition comparisonOperators : list string := ["="; "!="; "<>"; "<"; "<="; ">"; ">="].

(** The predicates of the documentation: AND, OR, NOT and parentheses over
    comparisons of unqualified fields and literals, IN lists of literals, and LIKE
    with a literal pattern and no ESCAPE. *)
Fixpoint filterable (e : Expr) : bool :=
  match e with
  | AndExpr l r | OrExpr l r => filterable l && filterable r
  | NotExpr x | ParenExpr x => filterable x
  | ComparisonExpr op l r escape =>
      if existsb (String.eqb op) comparisonOperators
      then isNone escape && isOperand l && isOperand r
      else if existsb (String.eqb op) ["in"; "not in"]
      then isOperand l && match r with ValTuple xs => forallb isLiteral xs | _ => false end
      else if op =?s "like"
      then isNone escape && isOperand l
           && match r with SQLVal t _ => negb (bool_decide (t = OtherVal)) | _ => false end
      else false
  | _ => false
  end.

Section filters.
Context `{U : UnicodeTables}.

Lemma is_ok_bind {A B} (c : res A) (f : A -> res B) :
  (forall a, c = Ok a -> is_ok (f a) = true) -> is_ok (c ≫= f) = is_ok c.
Proof. destruct c; cbn; auto. Qed.

Lemma filterValue_ok e : is_ok (filterValue e) = isOperand e.
Proof.
  destruct e as [| | | | |n q|t v|b|op x| | |]; cbn; try done.
  - rewrite fieldIdentifier_spec. by destruct (q && is_identifier n).
  - by destruct t.
  - destruct x; try done. by destruct (_ && isNumber _).
Qed.

Lemma filterItem_ok e : is_ok (filterItem e) = isLiteral e.
Proof. destruct e; try done; apply filterValue_ok. Qed.

Lemma filterItems_ok l : is_ok (mapM filterItem l) = forallb isLiteral l.
Proof.
  induction l as [|x l IH]; [done|]. cbn [mapM forallb]. rewrite <- filterItem_ok, <- IH.
  destruct (filterItem x); try done. by destruct (mapM filterItem l).
Qed.

Lemma compareWith_ok op l r escape :
  is_ok (compareWith op l r escape) = isNone escape && isOperand l && isOperand r.
Proof.
  destruct escape; [done|]. cbn. rewrite <- !filterValue_ok.
  destruct (filterValue l); [|done..]. by destruct (filterValue r).
Qed.

Lemma comparisonFilter_ok op l r escape :
  is_ok (comparisonFilter op l r escape) = filterable (ComparisonExpr op l r escape).
Proof.
  unfold comparisonFilter. cbn [filterable existsb comparisonOperators].
  destruct (op =?s "=") eqn:E1; [by rewrite compareWith_ok|].
  destruct (op =?s "!=") eqn:E2; cbn [orb]; [by rewrite compareWith_ok|].
  destruct (op =?s "<>") eqn:E3; cbn [orb]; [by rewrite compareWith_ok|].
  destruct (op =?s "in") eqn:E4; [|destruct (op =?s "not in") eqn:E5].
  1,2: apply String.eqb_eq in E4 || apply String.eqb_eq in E5; subst op; cbn [orb String.eqb].
  1,2: rewrite <- filterValue_ok; cbn -[filterValue];
    destruct (filterValue l); [|done..]; cbn; destruct r; try done;
    rewrite <- filterItems_ok; by destruct (mapM filterItem _).
  cbn [orb]. destruct (op =?s "like") eqn:E6.
  { apply String.eqb_eq in E6. subst op. cbn -[compareWith isOperand is_ok isNone].
    destruct r; try (by rewrite andb_false_r). by rewrite compareWith_ok. }
  rewrite orb_false_r. destruct (_ || _) eqn:E7; rewrite <- ?orb_assoc in E7; rewrite E7;
    [by rewrite compareWith_ok|done].
Qed.
End filters.

Lemma scalarFilter_ok `{U : UnicodeTables} e : is_ok (scalarFilter e) = filterable e.
Proof.
  assert (forall l r op, is_ok (filterPair l r op) = is_ok l && is_ok r) as Hpair
    by (by intros [] []).
  induction e; cbn [scalarFilter]; try done.
  - by rewrite Hpair, IHe1, IHe2.
  - by rewrite Hpair, IHe1, IHe2.
  - cbn [filterable]. rewrite <- IHe. by destruct (scalarFilter e).
  - cbn [filterable]. rewrite <- IHe. by destruct (scalarFilter e).
  - apply comparisonFilter_ok.
Qed.

Lemma scalarFilter_no_panic `{U : UnicodeTables} e : is_panic (scalarFilter e) = false.
Proof.
  assert (forall x, is_panic (filterValue x) = false) as Hv.
  { intros []; cbn; try done; by repeat case_match. }
  assert (forall x, is_panic (filterItem x) = false) as Hi by (intros []; apply Hv || done).
  assert (forall op l r esc, is_panic (compareWith op l r esc) = false) as Hc.
  { intros op l r []; [done|]. cbn. apply bind_no_panic; [apply Hv|]. intros.
    apply bind_no_panic; [apply Hv|done]. }
  assert (forall a b op, is_panic a = false -> is_panic b = false ->
    is_panic (filterPair a b op) = false) as Hp by (by intros [] []).
  induction e; cbn [scalarFilter]; rewrite ?fmap_no_panic; auto.
  unfold comparisonFilter. repeat case_match; auto.
  all: apply bind_no_panic; [apply Hv|]; intros; repeat case_match; try done.
  apply bind_no_panic; [apply mapM_no_panic; auto|done].
Qed.

Lemma scalarFilter_nonempty `{U : UnicodeTables} e f : scalarFilter e = Ok f -> f <> "".
Proof.
  assert (forall op l r esc f, compareWith op l r esc = Ok f -> f <> "") as Hc.
  { intros op l r [] g; [done|]. intros H. apply bind_Ok in H as (x & _ & H).
    apply bind_Ok in H as (y & _ & [= <-]). intros Hg. apply (f_equal String.length) in Hg.
    rewrite !string_length_app in Hg. cbn in Hg. lia. }
  destruct e; cbn [scalarFilter]; try done.
  1,2: intros H; apply bind_Ok in H as (x & _ & H); apply bind_Ok in H as (y & _ & [= <-]); done.
  1,2: intros H; apply fmap_Ok in H as (x & _ & ->); done.
  unfold comparisonFilter. intros H. repeat (case_match; try done; try (by eapply Hc)).
  all: apply bind_Ok in H as (x & _ & H); try done; apply bind_Ok in H as (xs & _ & [= <-]);
    intros Hg; apply (f_equal String.length) in Hg;
    rewrite !string_length_app in Hg; cbn in Hg; lia.
Qed.

Lemma filterable_no_vectors e : filterable e = true -> vectorPredicates e = [].
Proof.
  induction e; cbn [filterable vectorPredicates]; try done.
  - intros [H1 H2]%andb_prop. by rewrite IHe1, IHe2.
  - intros [H1 H2]%andb_prop. by rewrite IHe1, IHe2.
  - destruct e2; try (by destruct e1 as [| | | | |? []| | | | | |]).
    intros H. exfalso. destruct (existsb _ comparisonOperators).
    + by rewrite andb_false_r in H.
    + destruct (existsb _ _); [by rewrite andb_false_r in H|].
      destruct (Operator =?s "like"); [by rewrite andb_false_r in H|done].
Qed.

(** ** Accepted plans *)

Section plans.
Context `{U : UnicodeTables} `{S : Sqlparser}.

Lemma selectInteger_bounds e n : selectInteger e = Ok n -> 0 <= n < 2 ^ 63.
Proof.
  unfold selectInteger. destruct e; try done. destruct Type_; try done.
  destruct (parseInt Val 64) as [z| |] eqn:Hp; try done.
  apply parseInt_bounds in Hp as [Hlo Hhi]; [|done].
  destruct (z <? 0) eqn:E; [done|]. intros [= <-]. bool_to_prop.
  change (64 - 1) with 63 in *. lia.
Qed.

Lemma planLimit_bounds l n m : planLimit l = Ok (n, m) -> 0 <= n < 2 ^ 63 /\ 0 <= m < 2 ^ 63.
Proof.
  unfold planLimit. destruct l as [l|]; [|intros [= <- <-]; lia].
  intros H. apply bind_Ok in H as (n' & Hn%selectInteger_bounds & H).
  destruct (lim_Offset l) as [o|].
  - apply bind_Ok in H as (m' & Hm%selectInteger_bounds & [= <- <-]). lia.
  - injection H as <- <-. lia.
Qed.

Lemma selectInteger_no_panic e : is_panic (selectInteger e) = false.
Proof. unfold selectInteger. by repeat case_match. Qed.

Lemma extractVector_no_panic e : is_panic (extractVector e) = false.
Proof.
  induction e; try done; cbn [extractVector].
  - apply bind_no_panic; [done|]. intros [[l lf] lq] _.
    apply bind_no_panic; [done|]. intros [[r rf] rq] _. by repeat case_match.
  - apply bind_no_panic; [done|]. intros [[x f] q] _. by case_match.
  - by repeat case_match.
Qed.

Lemma planSelect_no_panic s : is_panic (planSelect s) = false.
Proof.
  unfold planSelect. apply bind_no_panic; [apply guard_err_no_panic|]. intros _ _.
  apply bind_no_panic; [unfold planFrom; by repeat case_match|]. intros table _.
  apply bind_no_panic.
  { apply mapM_no_panic. intros e _. unfold planProjection. by repeat case_match. }
  intros us _. apply bind_no_panic.
  { unfold planWhere. destruct (sel_Where s) as [e|]; [|done].
    apply bind_no_panic; [apply extractVector_no_panic|]. intros [[x f] q] _.
    destruct x; [|done]. apply bind_no_panic; [apply scalarFilter_no_panic|done]. }
  intros [[f c] q] _. apply bind_no_panic.
  { unfold planLimit. destruct (sel_Limit s) as [l|]; [|done].
    apply bind_no_panic; [apply selectInteger_no_panic|]. intros n _.
    destruct (lim_Offset l); [|done]. apply bind_no_panic; [apply selectInteger_no_panic|done]. }
  intros [n m] _. by case_match.
Qed.

Lemma planSelect_inv s p :
  planSelect s = Ok p ->
  (sel_Distinct s = "" /\ sel_GroupBy s = [] /\ sel_Having s = None /\ sel_OrderBy s = []
   /\ sel_Lock s = "")
  /\ planFrom (sel_From s) = Ok (p_table p)
  /\ Forall (fun e => planProjection (length (sel_SelectExprs s)) e = Ok tt) (sel_SelectExprs s)
  /\ planWhere (sel_Where s) = Ok (p_filter p, p_vectorField p, p_vectorExpr p)
  /\ planLimit (sel_Limit s) = Ok (p_limit p, p_offset p)
  /\ (0 <= p_limit p /\ 0 <= p_offset p /\ p_limit p + p_offset p <= 16384).
Proof.
  unfold planSelect. intros H.
  apply bind_Ok in H as (? & Hg & H). apply guard_err_Ok in Hg.
  apply bind_Ok in H as (table & Hf & H). apply bind_Ok in H as (us & Hp & H).
  apply bind_Ok in H as ([[flt f] v] & Hw & H). apply bind_Ok in H as ([n m] & Hl & H).
  destruct (_ || _) eqn:E in H; [done|]. injection H as <-. cbn.
  pose proof (planLimit_bounds _ _ _ Hl) as [Hn Hm].
  bool_to_prop. rewrite (wrap_id 64) in * by
    (first [lia | unfold in_range; change (64 - 1) with 63; lia]).
  destruct (sel_GroupBy s); [|done]. destruct (sel_Having s); [done|].
  destruct (sel_OrderBy s); [|done]. bool_to_prop.
  split_and!; try done; try lia.
  apply mapM_Ok in Hp. clear -Hp. revert Hp.
  generalize (length (sel_SelectExprs s)) as n. intros n Hp.
  induction Hp as [|x u l k Hx Hl IH]; constructor; [by destruct u|done].
Qed.
End plans.

(** ** The properties of SELECT planning *)

(** C3: the WHERE clause is split without changing its meaning.  When a predicate
    is accepted, it holds on a row exactly when the remaining scalar predicate
    (the one whose Milvus rendering is the filter) holds on it and the row is a
    nearest neighbour for the extracted vector predicate; and that predicate
    is the only vector predicate of the clause, so none was left under OR or NOT. *)
Theorem planWhere_meaning `{U : UnicodeTables} e filter field vector :
  named_vectors e = true ->
  planWhere (Some e) = Ok (filter, field, vector) ->
  vectorPredicates e = match vector with Some v => [(field, v)] | None => [] end
  /\ (field = "" <-> vector = None)
  /\ exists rest,
       match rest with Some x => scalarFilter x = Ok filter | None => filter = "" end
       /\ forall atom near, holds atom near e =
            match rest with Some x => holds atom near x | None => true end
            && match vector with Some v => near field v | None => true end.
Proof.
  intros Hn H. cbn [planWhere] in H. apply bind_Ok in H as ([[x f] q] & He & H).
  pose proof (extractVector_predicates _ _ _ _ Hn He) as Hp.
  destruct (extractVector_split _ _ _ _ Hn He) as [Hs Hf].
  assert (f = field /\ q = vector /\
    match x with Some y => scalarFilter y = Ok filter | None => filter = "" end)
    as (-> & -> & Hx).
  { destruct x as [y|]; [apply bind_Ok in H as (s & Hy & H)|]; by injection H as <- <- <-. }
  split_and!; [|done|by exists x].
  destruct x as [y|].
  - rewrite (filterable_no_vectors y) in Hp by (by rewrite <- scalarFilter_ok, Hx).
    destruct vector; cbn in Hp; [by apply Permutation_singleton_r in Hp|].
    by apply Permutation_nil_r in Hp.
  - destruct vector; cbn in Hp; [by apply Permutation_singleton_r in Hp|].
    by apply Permutation_nil_r in Hp.
Qed.

(** A predicate of the README's example: a vector predicate and a scalar one. *)
Definition sampleWhere : Expr :=
  AndExpr
    (ComparisonExpr "like" (ColName "embedding" true)
       (FuncExpr "json_vector" [AliasedExpr (SQLVal StrVal "[1,0,0]") true]) None)
    (ComparisonExpr "=" (ColName "published" true) (BoolVal true) None).

Lemma planWhere_meaning_witness :
  named_vectors sampleWhere = true /\
  exists vector,
    @planWhere sampleUnicode (Some sampleWhere)
      = Ok ("published == true", "embedding", Some vector)
    /\ vectorPredicates sampleWhere = [("embedding", vector)].
Proof.
  split; [reflexivity|].
  exists (FuncExpr "json_vector" [AliasedExpr (SQLVal StrVal "[1,0,0]") true]).
  split; [reflexivity|].
  exact (proj1 (@planWhere_meaning sampleUnicode sampleWhere "published == true" "embedding"
    (Some (FuncExpr "json_vector" [AliasedExpr (SQLVal StrVal "[1,0,0]") true]))
    eq_refl eq_refl)).
Defined.

(** C21: [scalarFilter] accepts exactly the documented scalar predicates, and
    returns an error (it never panics) on every other expression. *)
Theorem scalarFilter_supported `{U : UnicodeTables} e :
  is_ok (scalarFilter e) = filterable e /\ is_panic (scalarFilter e) = false.
Proof.
  split; [apply scalarFilter_ok|apply scalarFilter_no_panic].
Qed.

(** C24: a string literal of a filter cannot leave its quotes.  For every string,
    the filter text that [filterValue] produces is one double-quoted literal: read
    with Go's unquoting rules it ends at its own closing quote, whatever follows
    it, and denotes exactly the string. *)
Theorem filterValue_string_closed `{U : UnicodeTables} s rest :
  exists body, filterValue (SQLVal StrVal s) = Ok (str1 dquote +:+ body +:+ str1 dquote)
    /\ readQuoted (body +:+ String dquote rest) = Some (s, rest).
Proof.
  destruct (readQuoted_quote s rest) as (body & Hq & Hr). exists body. cbn. by rewrite Hq.
Qed.

(** C25: an accepted plan paginates within the documented bound: its limit and
    offset are not negative and their sum, computed on 64-bit integers, is at most
    16384; without a LIMIT clause they are 100 and 0. *)
Theorem planSelect_pagination_bound `{U : UnicodeTables} `{S : Sqlparser} s p :
  planSelect s = Ok p ->
  0 <= p_limit p /\ 0 <= p_offset p /\ p_limit p + p_offset p <= 16384
  /\ (sel_Limit s = None -> p_limit p = 100 /\ p_offset p = 0).
Proof.
  intros (_ & _ & _ & _ & Hl & Hb)%planSelect_inv. split_and!; try tauto.
  intros Hnone. rewrite Hnone in Hl. by injection Hl as <- <-.
Qed.

(** [SELECT id FROM docs LIMIT 3 OFFSET 2] *)
Definition sampleSelect : Select :=
  mk_Select "" [AliasedExpr (ColName "id" true) true]
    [AliasedTableExpr (TableNameExpr (mk_TableName "docs" true)) true true] None [] None []
    (Some (mk_Limit (Some (SQLVal IntVal "2")) (SQLVal IntVal "3"))) "".

Lemma planSelect_pagination_bound_witness :
  @planSelect sampleUnicode (sampleSqlparser (SelectStmt sampleSelect)) sampleSelect
    = Ok (mk_selectPlan "docs" "" "" None 3 2)
  /\ (0 <= 3 /\ 0 <= 2 /\ 3 + 2 <= 16384
      /\ (sel_Limit sampleSelect = None -> 3 = 100 /\ 2 = 0)).
Proof.
  split; [reflexivity|].
  exact (@planSelect_pagination_bound sampleUnicode (sampleSqlparser (SelectStmt sampleSelect))
    sampleSelect (mk_selectPlan "docs" "" "" None 3 2) eq_refl).
Defined.
