(* ===== verification/Milvus.v ===== *)
(** * The Milvus client the proxy drives ([types.go], and the SDK's interface)

    The Go SDK is not part of the repository.  The records of [entity] that the
    source reads or builds have the fields it uses; columns are an abstract type
    with the constructors and accessors the source calls (class [Vendor]), whose
    documented behaviour is the class [VendorLaws]; and the server is an oracle:
    [respond] answers a call from the calls made before it, in any way it likes.

    [call] has one constructor per client method the source calls, with every
    argument it passes (contexts excepted: they only carry cancellation). *)
From S2P Require Export Values Sqlparser.
Open Scope Z_scope.

(** ** [entity] *)

(** [entity.FieldType]: the types the source names, and any other by its code. *)
Inductive FieldType :=
| FieldTypeBool | FieldTypeInt8 | FieldTypeInt16 | FieldTypeInt32 | FieldTypeInt64
| FieldTypeFloat | FieldTypeDouble | FieldTypeString | FieldTypeVarChar | FieldTypeJSON
| FieldTypeFloatVector | FieldTypeOther (code : Z).
#[export] Instance FieldType_eq_dec : EqDecision FieldType.
Proof. solve_decision. Defined.

(** A Go map; the nil map is [None]. *)
Abbreviation gomap := (option (gmap string string)).
(** [m[k]] *)
Definition mapGet (m : gomap) (k : string) : string := default "" (m ≫= lookup k).

(** [entity.Field]; named apart from [mysql.Field] *)
Record SField := mk_SField {
  sf_Name : string;
  sf_PrimaryKey : bool;
  sf_AutoID : bool;
  sf_Description : string;
  sf_DataType : FieldType;
  sf_TypeParams : gomap
}.

Record Schema := mk_Schema {
  sc_CollectionName : string;
  sc_Description : string;
  sc_Fields : list SField
}.

(** [MilvusSchema] of [types.go] *)
Record MilvusSchema := mk_MilvusSchema { ms_Schema : Schema; ms_ShardNum : Z }.

Record Collection := mk_Collection { co_Name : string; co_Schema : option Schema }.
Record Database := mk_Database { da_Name : string }.
Record Partition := mk_Partition { pa_Name : string }.

(** What the methods of an [entity.Index] answer. *)
Record Index := mk_Index {
  ix_Name : string;
  ix_IndexType : string;
  ix_Params : gomap
}.

Inductive ConsistencyLevel := ClStrong | ClOther.

(** [commonpb.ErrorCode], [commonpb.Status] and [milvuspb.DescribeIndexResponse] *)
Inductive ErrorCode := ErrorCode_Success | ErrorCode_IndexNotExist | ErrorCode_Other (z : Z).
#[export] Instance ErrorCode_eq_dec : EqDecision ErrorCode.
Proof. solve_decision. Defined.
Record Status := mk_Status { st_ErrorCode : ErrorCode; st_Code : Z; st_Reason : string }.
Record IndexDescription := mk_IndexDescription {
  id_IndexName : string;
  id_FieldName : string;
  id_Params : list (string * string)
}.
Record DescribeIndexResponse := mk_DescribeIndexResponse {
  di_Status : option Status;
  di_IndexDescriptions : list IndexDescription
}.

(** ** Third-party functions *)
Class Vendor := {
  (** [entity.Column] and its constructors on an empty slice *)
  Column : Type;
  NewColumnBool : string -> Column;
  NewColumnInt8 : string -> Column;
  NewColumnInt16 : string -> Column;
  NewColumnInt32 : string -> Column;
  NewColumnInt64 : string -> Column;
  NewColumnFloat : string -> Column;
  NewColumnDouble : string -> Column;
  NewColumnVarChar : string -> Column;
  NewColumnJSONBytes : string -> Column;
  NewColumnFloatVector : string -> Z -> Column;
  (** [AppendValue] (the column after it), [Len] and [Get] *)
  AppendValue : Column -> value -> string + Column;
  ColumnLen : Column -> Z;
  ColumnGet : Column -> Z -> string + value;
  (** [client.ResultSet.GetColumn] *)
  GetColumn : list Column -> string -> option Column;
  (** [entity.FieldType.String] *)
  FieldTypeText : FieldType -> string;
  (** Index constructors *)
  NewGenericIndex : string -> string -> gomap -> Index;
  NewIndexFlat : string -> string + Index;
  NewIndexHNSW : string -> Z -> Z -> string + Index;
  NewIndexIvfFlat : string -> Z -> string + Index;
  NewIndexAUTOINDEX : string -> string + Index;
  (** [entity.KvPairsMap] *)
  KvPairsMap : list (string * string) -> gmap string string;
  (** [errorsWrap msg err]: the text of [errors.Wrap(err, msg)] of [pkg/errors] *)
  errorsWrap : string -> string -> string
}.

(** The element type of the column of a field type. *)
Definition fitsType (t : FieldType) (v : value) : bool :=
  match t, v with
  | FieldTypeBool, VBool _ | FieldTypeInt8, VInt8 _ | FieldTypeInt16, VInt16 _
  | FieldTypeInt32, VInt32 _ | FieldTypeInt64, VInt64 _ | FieldTypeFloat, VFloat32 _
  | FieldTypeDouble, VFloat64 _ | FieldTypeVarChar, VString _ | FieldTypeJSON, VBytes _
  | FieldTypeFloatVector, VFloats _ => true
  | _, _ => false
  end.

(** What a column built by the proxy holds. *)
Record columnView := mk_columnView {
  cv_Name : string;
  cv_Type : FieldType;
  cv_Dim : option Z;
  cv_Values : list value
}.
Definition emptyView (n : string) (t : FieldType) : columnView := mk_columnView n t None [].

(** Documented behaviour of the column constructors and of [AppendValue]: a new
    column has its name and type and no value, and a value of the column's element
    type is appended. *)
Class VendorLaws (V : Vendor) := {
  view : Column -> columnView;
  view_Bool n : view (NewColumnBool n) = emptyView n FieldTypeBool;
  view_Int8 n : view (NewColumnInt8 n) = emptyView n FieldTypeInt8;
  view_Int16 n : view (NewColumnInt16 n) = emptyView n FieldTypeInt16;
  view_Int32 n : view (NewColumnInt32 n) = emptyView n FieldTypeInt32;
  view_Int64 n : view (NewColumnInt64 n) = emptyView n FieldTypeInt64;
  view_Float n : view (NewColumnFloat n) = emptyView n FieldTypeFloat;
  view_Double n : view (NewColumnDouble n) = emptyView n FieldTypeDouble;
  view_VarChar n : view (NewColumnVarChar n) = emptyView n FieldTypeVarChar;
  view_JSONBytes n : view (NewColumnJSONBytes n) = emptyView n FieldTypeJSON;
  view_FloatVector n d :
    view (NewColumnFloatVector n d) = mk_columnView n FieldTypeFloatVector (Some d) [];
  AppendValue_fits c v :
    fitsType (cv_Type (view c)) v = true ->
    exists c', AppendValue c v = inr c'
      /\ view c' = mk_columnView (cv_Name (view c)) (cv_Type (view c)) (cv_Dim (view c))
                     (cv_Values (view c) ++ [v])
}.

(** ** Calls *)

(** [client.SearchQueryOptionFunc]: the options the source passes. *)
Inductive SearchOption :=
| WithLimit (n : Z) | WithOffset (n : Z) | WithSearchQueryConsistencyLevel (l : ConsistencyLevel).

Section calls.
Context `{V : Vendor}.

Inductive call :=
| CUsingDatabase (db : string)
| CCreateDatabase (db : string)
| CDropDatabase (db : string)
| CListDatabases
| CListCollections
| CDescribeCollection (coll : string)
| CCreateCollection (schema : Schema) (shards : Z) (consistency : ConsistencyLevel)
| CDropCollection (coll : string)
| CLoadCollection (coll : string) (async : bool)
| CReleaseCollection (coll : string)
| CFlush (coll : string) (async : bool)
| CCreateIndex (coll field : string) (idx : Index) (async : bool) (indexName : string)
| CDropIndex (coll field indexName : string)
| CCreatePartition (coll part : string)
| CDropPartition (coll part : string)
| CLoadPartitions (coll : string) (parts : list string) (async : bool)
| CReleasePartitions (coll : string) (parts : list string)
| CShowPartitions (coll : string)
| CServiceDescribeIndex (coll field : string)    (* the gRPC service's request *)
| CDescribeIndex (coll field : string)
| CInsert (coll part : string) (columns : list Column)
| CUpsert (coll part : string) (columns : list Column)
| CDelete (coll part filter : string)
| CQuery (coll : string) (parts : list string) (filter : string) (outputs : list string)
    (opts : list SearchOption)
| CSearch (coll : string) (parts : list string) (filter : string) (outputs : list string)
    (vectors : list (list Z)) (field metric : string) (topK : Z)
    (sp : gmap string value) (opts : list SearchOption)
| CClose.

(** [client.SearchResult]; scores are float32 bits *)
Record SearchResult := mk_SearchResult {
  sr_ResultCount : Z;
  sr_IDs : option Column;
  sr_Fields : list Column;
  sr_Scores : list Z;
  sr_Err : option string
}.

(** What a call answers beside its error. *)
Definition reply (c : call) : Type :=
  match c with
  | CListDatabases => list Database
  | CListCollections => list Collection
  | CDescribeCollection _ => option Collection
  | CShowPartitions _ => list Partition
  | CServiceDescribeIndex _ _ => DescribeIndexResponse
  | CDescribeIndex _ _ => list Index
  | CInsert _ _ _ | CUpsert _ _ _ => option Column
  | CQuery _ _ _ _ _ => list Column
  | CSearch _ _ _ _ _ _ _ _ _ _ => list SearchResult
  | _ => unit
  end.

(** The server behind a client: the reply to a call after the calls made before
    it, or the text of its error.  [upstreamIsGrpc] is the type assertion
    that [c.upstream] is a [client.GrpcClient]. *)
Class Upstream := {
  upstreamIsGrpc : bool;
  respond : list call -> forall c : call, string + reply c
}.

(** Documented behaviour of the SDK: lengths and counts are not negative. *)
Class UpstreamLaws (Up : Upstream) : Prop := {
  ColumnLen_nonneg c : 0 <= ColumnLen c;
  ResultCount_nonneg h a b f o v fi m k sp op rs r :
    respond h (CSearch a b f o v fi m k sp op) = inr rs -> r ∈ rs -> 0 <= sr_ResultCount r
}.

(** Calls that only read. *)
Definition readOnly (c : call) : bool :=
  match c with
  | CListDatabases | CListCollections | CDescribeCollection _ | CShowPartitions _
  | CServiceDescribeIndex _ _ | CDescribeIndex _ _ | CQuery _ _ _ _ _
  | CSearch _ _ _ _ _ _ _ _ _ _ => true
  | _ => false
  end.
End calls.
