(* ===== verification/SampleMilvus.v ===== *)
(** * A sample SDK and a sample server

    Concrete functions for the parameters of [Milvus.v], for the witnesses: columns
    are their views, and the server knows one collection, which has two rows. *)
From S2P Require Export Samples Milvus.
Open Scope Z_scope.

Definition sampleAppend (c : columnView) (v : value) : string + columnView :=
  if fitsType (cv_Type c) v
  then inr (mk_columnView (cv_Name c) (cv_Type c) (cv_Dim c) (cv_Values c ++ [v]))
  else inl "invalid type".

Definition sampleTypeText (t : FieldType) : string :=
  match t with
  | FieldTypeInt64 => "Int64" | FieldTypeVarChar => "VarChar"
  | FieldTypeFloatVector => "FloatVector" | FieldTypeString => "String" | _ => "?"
  end.

Definition sampleVendor : Vendor := {|
  Column := columnView;
  NewColumnBool n := emptyView n FieldTypeBool;
  NewColumnInt8 n := emptyView n FieldTypeInt8;
  NewColumnInt16 n := emptyView n FieldTypeInt16;
  NewColumnInt32 n := emptyView n FieldTypeInt32;
  NewColumnInt64 n := emptyView n FieldTypeInt64;
  NewColumnFloat n := emptyView n FieldTypeFloat;
  NewColumnDouble n := emptyView n FieldTypeDouble;
  NewColumnVarChar n := emptyView n FieldTypeVarChar;
  NewColumnJSONBytes n := emptyView n FieldTypeJSON;
  NewColumnFloatVector n d := mk_columnView n FieldTypeFloatVector (Some d) [];
  AppendValue := sampleAppend;
  ColumnLen c := Z.of_nat (length (cv_Values c));
  ColumnGet c i :=
    match cv_Values c !! Z.to_nat i with Some v => inr v | None => inl "index out of range" end;
  GetColumn cs n := List.find (fun c => String.eqb (cv_Name c) n) cs;
  FieldTypeText := sampleTypeText;
  NewGenericIndex n t p := mk_Index n t p;
  NewIndexFlat m := inr (mk_Index "" "FLAT" (Some {[ "metric_type" := m ]}));
  NewIndexHNSW m x y :=
    if (4 <=? x) && (x <=? 64)
    then inr (mk_Index "" "HNSW" (Some (<["M" := formatInt x]> {[ "metric_type" := m ]})))
    else inl "M has to be in range [4, 64]";
  NewIndexIvfFlat m n :=
    inr (mk_Index "" "IVF_FLAT" (Some (<["nlist" := formatInt n]> {[ "metric_type" := m ]})));
  NewIndexAUTOINDEX m := inr (mk_Index "" "AUTOINDEX" (Some {[ "metric_type" := m ]}));
  KvPairsMap l := list_to_map l;
  errorsWrap msg err := msg +:+ ": " +:+ err
|}.

#[export] Instance sampleVendor_laws : VendorLaws sampleVendor.
Proof.
  refine {| view := fun c : @Column sampleVendor => c |}; try done.
  intros c v H. cbn in *. unfold sampleAppend. rewrite H. eauto.
Defined.

(** A collection [docs] with an ID, a title and a vector of dimension 2. *)
Definition sampleSchema : Schema :=
  mk_Schema "docs" ""
    [mk_SField "id" true false "" FieldTypeInt64 None;
     mk_SField "title" false false "" FieldTypeVarChar (Some {[ "max_length" := "8" ]});
     mk_SField "embedding" false false "" FieldTypeFloatVector (Some {[ "dim" := "2" ]})].

Definition sampleIds : columnView :=
  mk_columnView "id" FieldTypeInt64 None [VInt64 7; VInt64 8].
Definition sampleTitles : columnView :=
  mk_columnView "title" FieldTypeVarChar None [VString "a"; VString "b"].

Definition sampleUpstream : @Upstream sampleVendor := {|
  upstreamIsGrpc := false;
  respond := fun _ (c : @call sampleVendor) =>
    match c return string + reply c with
    | CListDatabases => inr [mk_Database "default"]
    | CListCollections => inr [mk_Collection "docs" (Some sampleSchema)]
    | CDescribeCollection n =>
        if String.eqb n "docs" then inr (Some (mk_Collection "docs" (Some sampleSchema)))
        else inl "collection not found"
    | CShowPartitions _ => inr [mk_Partition "_default"]
    | CServiceDescribeIndex _ _ => inr (mk_DescribeIndexResponse None [])
    | CDescribeIndex _ _ =>
        inr [mk_Index "ix" "HNSW" (Some {[ "metric_type" := "L2" ]})]
    | CInsert _ _ _ => inr (Some sampleIds)
    | CUpsert _ _ _ => inr None
    | CQuery _ _ _ _ _ => inr [sampleIds; sampleTitles]
    | CSearch _ _ _ _ _ _ _ _ _ _ =>
        inr [@mk_SearchResult sampleVendor 2 (Some sampleIds) [sampleTitles] [0; 1] None]
    | _ => inr tt
    end
|}.

#[export] Instance sampleUpstream_laws : UpstreamLaws sampleUpstream.
Proof.
  split.
  - intros c. cbn. lia.
  - intros h a b f o v fi m k sp op rs r [= <-] ->%list_elem_of_singleton. cbn. lia.
Qed.
