(* ===== verification/Session.v ===== *)
(** * SQL sessions ([conn.go], [use.go], [indexes.go], part of [conn_resultvalue.go])

    A session is the record [ClientConn].  Handlers run in a state and error
    monad, [M], over the session and the calls it has made to Milvus ([s_calls],
    oldest first): an error keeps the state reached when it was returned, as
    mutations of the Go object do.  Contexts and the mutex around the database
    name are left out: they carry cancellation, and a session is driven by one
    goroutine.  A session always has a client here; the source only tolerates a
    nil client in [Close]. *)
From S2P Require Export Milvus.
Open Scope Z_scope.
Open Scope go_scope.

(** The kingshard error codes the source names. *)
Inductive ErrCode :=
| ER_UNKNOWN_ERROR | ER_CANT_CREATE_TABLE | ER_CANT_DROP_FIELD_OR_KEY
| ER_ABORTING_CONNECTION | ER_DATABASE_NAME.

(** [error]: a plain error ([fmt.Errorf], [errors.New], an SDK error) with its
    text, or a [*mysql.SqlError] with its code and message. *)
Inductive error :=
| Errorf (msg : string)
| NewError (code : ErrCode) (msg : string).

(** The text of a [*mysql.SqlError], by the kingshard library. *)
Class SqlErrorText := { sqlErrorText : ErrCode -> string -> string }.

(** [err.Error()] *)
Definition errorText `{SqlErrorText} (e : error) : string :=
  match e with
  | Errorf msg => msg
  | NewError code msg => sqlErrorText code msg
  end.

(** ** [ClientConn] *)
Record ClientConn := mk_ClientConn {
  c_db : string;
  c_status : ServerStatus;
  c_result : option Result;
  c_describe : bool
}.

(** [NewSession] *)
Definition NewSession : ClientConn :=
  mk_ClientConn "default" SERVER_STATUS_AUTOCOMMIT None false.

Definition set_db (db : string) (c : ClientConn) : ClientConn :=
  mk_ClientConn db (c_status c) (c_result c) (c_describe c).
Definition set_result (r : option Result) (c : ClientConn) : ClientConn :=
  mk_ClientConn (c_db c) (c_status c) r (c_describe c).
Definition set_describe (b : bool) (c : ClientConn) : ClientConn :=
  mk_ClientConn (c_db c) (c_status c) (c_result c) b.

Section session.
Context `{V : Vendor}.

Record session := mk_session { s_conn : ClientConn; s_calls : list call }.

(** ** The handler monad *)
Definition M (A : Type) : Type := session -> outcome error A * session.
#[export] Instance M_ret : MRet M := fun A a s => (Ok a, s).
#[export] Instance M_bind : MBind M := fun A B f m s =>
  match m s with
  | (Ok a, s') => f a s'
  | (Err e, s') => (Err e, s')
  | (Panic w, s') => (Panic w, s')
  end.

Definition throw {A} (e : error) : M A := fun s => (Err e, s).
Definition panicM {A} (w : string) : M A := fun s => (Panic w, s).
(** A computation of the pure layer; its error is returned as it is. *)
Definition lift {A} (c : res A) : M A := fun s => (map_err Errorf c, s).
Definition gets {A} (f : ClientConn -> A) : M A := fun s => (Ok (f (s_conn s)), s).
Definition modify (f : ClientConn -> ClientConn) : M unit := fun s =>
  (Ok tt, mk_session (f (s_conn s)) (s_calls s)).
(** [if c { return e }] *)
Definition checkM (c : bool) (e : error) : M unit := if c then throw e else mret tt.

Context {Up : @Upstream V}.

(** A method call on [c.upstream], whose error is wrapped by [wrap]. *)
Definition invoke_ (wrap : string -> error) (c : call) : M (reply c) := fun s =>
  (match respond (s_calls s) c with
   | inl e => Err (wrap e)
   | inr r => Ok r
   end,
   mk_session (s_conn s) (s_calls s ++ [c])).
Definition invoke (c : call) : M (reply c) := invoke_ Errorf c.
(** A call whose reply is discarded. *)
Definition invoke' (wrap : string -> error) (c : call) : M unit :=
  _ ← invoke_ wrap c; mret tt.

(** ** Results *)

(** [writeOK] *)
Definition writeOK (r : option Result) : M unit :=
  modify (set_result (Some (default emptyResult r))).

(** [writeResultset] *)
Definition writeResultset (status : ServerStatus) (r : Resultset) : M unit :=
  modify (set_result (Some (mk_Result status 0 0 (Some r)))).

(** [rows] of [commands.go] *)
Definition rows (names : list string) (rs : list (list value)) : M unit :=
  r ← lift (buildResultset [] names rs);
  status ← gets c_status;
  writeResultset status r.

(** ** [use.go] *)

(** [handleUseDB] *)
Definition handleUseDB (dbName : string) : M unit :=
  _ ← invoke' (NewError ER_DATABASE_NAME) (CUsingDatabase dbName);
  _ ← modify (set_db dbName);
  writeOK None.

(** [GetCollectinSchema] of [insert.go] *)
Definition GetCollectinSchema (name : string) : M Schema :=
  col ← invoke (CDescribeCollection name);
  match col ≫= co_Schema with
  | None => throw (Errorf "collection has no schema")
  | Some schema => mret schema
  end.

(** [Close] *)
Definition Close : M unit := invoke' Errorf CClose.

(** ** [indexes.go] *)

(** [status == nil || status.GetErrorCode() != Success || status.GetCode() != 0] *)
Definition statusFailed (st : option Status) : bool :=
  match st with
  | None => true
  | Some st =>
      negb (bool_decide (st_ErrorCode st = ErrorCode_Success)) || negb (st_Code st =? 0)
  end.
(** [status.GetReason()] *)
Definition statusReason (st : option Status) : string :=
  match st with None => "" | Some st => st_Reason st end.
(** [status.GetErrorCode()] *)
Definition statusErrorCode (st : option Status) : ErrorCode :=
  match st with None => ErrorCode_Success | Some st => st_ErrorCode st end.

(** The index of a description. *)
Definition describedIndex (d : IndexDescription) : Index :=
  let params := Some (KvPairsMap (id_Params d)) in
  NewGenericIndex (id_IndexName d) (mapGet params "index_type") params.

(** [listIndexes] *)
Definition listIndexes (table : string) : M (list Index) :=
  if negb upstreamIsGrpc
  then throw (Errorf "index listing requires the Milvus gRPC client")
  else
    resp ← invoke (CServiceDescribeIndex table "");
    if bool_decide (statusErrorCode (di_Status resp) = ErrorCode_IndexNotExist) then mret []
    else if statusFailed (di_Status resp)
    then throw (Errorf ("describe indexes: " +:+ statusReason (di_Status resp)))
    else mret (map describedIndex (di_IndexDescriptions resp)).

(** [vectorIndexes] *)
Definition vectorIndexes (table field : string) : M (list Index) :=
  if upstreamIsGrpc then
    resp ← invoke (CServiceDescribeIndex table field);
    if statusFailed (di_Status resp)
    then throw (Errorf ("describe vector index: " +:+ statusReason (di_Status resp)))
    else mret (map describedIndex
                 (filter (fun d => id_FieldName d = field) (di_IndexDescriptions resp)))
  else invoke (CDescribeIndex table field).
End session.
Arguments M {V} A.
