(* ===== verification/SessionSpec.v ===== *)
(** * Reasoning on handlers

    [obeys R m]: however [m] ends, the session before and after it are related by
    [R].  For a preorder [R] this composes along [≫=], so a property of every
    handler follows from the primitives by walking through its code ([walk]).
    [safe m] says that [m] does not panic; it composes likewise.  [walk] and
    [walk_safe] close the primitive cases with the hint database [session]. *)
From S2P Require Export Session.
Open Scope Z_scope.

Create HintDb session discriminated.

Section obeys.
Context `{V : Vendor}.

(** The session after a call. *)
Definition record_call (c : call) (s : session) : session :=
  mk_session (s_conn s) (s_calls s ++ [c]).
Definition on_conn (f : ClientConn -> ClientConn) (s : session) : session :=
  mk_session (f (s_conn s)) (s_calls s).

Definition obeys {A} (R : relation session) (m : M A) : Prop := forall s, R s (m s).2.

(** The rows of a result agree with its fields. *)
Definition result_wf (r : option Result) : Prop :=
  match r ≫= r_Resultset with Some rs => resultset_wf rs | None => True end.

(** A relation that handlers may only break through certain calls: they only ever
    write well-formed results. *)
Class SessionRel (R : relation session) := {
  rel_preorder : PreOrder R;
  rel_result : forall r s, result_wf r -> R s (on_conn (set_result r) s)
}.
Definition admits (R : relation session) (c : call) : Prop := forall s, R s (record_call c s).

Section rules.
Context (R : relation session) {HR : SessionRel R}.
#[local] Existing Instance rel_preorder.

Lemma obeys_ret {A} (a : A) : obeys R (mret a).
Proof. intros s. by cbn. Qed.
Lemma obeys_throw {A} e : obeys R (throw e : M A).
Proof. intros s. by cbn. Qed.
Lemma obeys_panic {A} w : obeys R (panicM w : M A).
Proof. intros s. by cbn. Qed.
Lemma obeys_lift {A} (c : res A) : obeys R (lift c).
Proof. intros s. by cbn. Qed.
Lemma obeys_gets {A} (f : ClientConn -> A) : obeys R (gets f).
Proof. intros s. by cbn. Qed.
Lemma obeys_checkM c e : obeys R (checkM c e).
Proof. destruct c; [apply obeys_throw|apply obeys_ret]. Qed.
Lemma obeys_bind {A B} (m : M A) (f : A -> M B) :
  obeys R m -> (forall a, obeys R (f a)) -> obeys R (m ≫= f).
Proof.
  intros Hm Hf s. specialize (Hm s). cbv [mbind M_bind].
  destruct (m s) as [[a|e|w] s']; cbn in Hm |- *; [|done..].
  etransitivity; [done|]. apply Hf.
Qed.
(** The continuation need only obey on values the first part can return. *)
Lemma obeys_bind_from {A B} (m : M A) (f : A -> M B) :
  obeys R m -> (forall a s s', m s = (Ok a, s') -> obeys R (f a)) -> obeys R (m ≫= f).
Proof.
  intros Hm Hf s. specialize (Hm s). cbv [mbind M_bind].
  destruct (m s) as [[a|e|w] s'] eqn:E; cbn in Hm |- *; [|done..].
  etransitivity; [done|]. by eapply Hf.
Qed.
Lemma obeys_bind_lift {A B} (c : res A) (f : A -> M B) :
  (forall a, c = Ok a -> obeys R (f a)) -> obeys R (lift c ≫= f).
Proof.
  intros Hf. apply obeys_bind_from; [apply obeys_lift|].
  intros a s s' [= H _]. apply Hf. by apply map_err_Ok in H.
Qed.
Lemma obeys_writeOK r : result_wf r -> obeys R (writeOK r).
Proof. intros H s. apply rel_result. by destruct r. Qed.
Lemma obeys_writeResultset st r : resultset_wf r -> obeys R (writeResultset st r).
Proof. intros H s. by apply rel_result. Qed.
Lemma obeys_set_result r : result_wf r -> obeys R (modify (set_result r)).
Proof. intros H s. by apply rel_result. Qed.

Context {Up : @Upstream V}.

Lemma obeys_invoke_ w c : admits R c -> obeys R (invoke_ w c).
Proof. intros H s. apply H. Qed.
Lemma obeys_invoke c : admits R c -> obeys R (invoke c).
Proof. apply obeys_invoke_. Qed.
Lemma obeys_invoke' w c : admits R c -> obeys R (invoke' w c).
Proof. intros H. apply obeys_bind; [by apply obeys_invoke_|]. intros. apply obeys_ret. Qed.
Lemma obeys_rows names rs : obeys R (rows names rs).
Proof.
  apply obeys_bind_lift. intros r Hr%buildResultset_wf.
  apply obeys_bind; [apply obeys_gets|intros st]. by apply obeys_writeResultset.
Qed.
End rules.

(** ** Panics *)
Definition safe {A} (m : M A) : Prop := forall s, is_panic (m s).1 = false.

Lemma safe_ret {A} (a : A) : safe (mret a).
Proof. by intros s. Qed.
Lemma safe_throw {A} e : safe (throw e : M A).
Proof. by intros s. Qed.
Lemma safe_lift {A} (c : res A) : is_panic c = false -> safe (lift c).
Proof. intros H s. cbn. by rewrite map_err_no_panic. Qed.
Lemma safe_gets {A} (f : ClientConn -> A) : safe (gets f).
Proof. by intros s. Qed.
Lemma safe_modify f : safe (modify f).
Proof. by intros s. Qed.
Lemma safe_checkM c e : safe (checkM c e).
Proof. by destruct c. Qed.
Lemma safe_writeOK r : safe (writeOK r).
Proof. by intros s. Qed.
Lemma safe_writeResultset st r : safe (writeResultset st r).
Proof. by intros s. Qed.
(** The continuation need only be safe on values the first part can return. *)
Lemma safe_bind_from {A B} (m : M A) (f : A -> M B) :
  safe m -> (forall a s s', m s = (Ok a, s') -> safe (f a)) -> safe (m ≫= f).
Proof.
  intros Hm Hf s. specialize (Hm s). cbv [mbind M_bind].
  destruct (m s) as [[a|e|w] s'] eqn:E; cbn in *; [by eapply Hf|done..].
Qed.
Lemma safe_bind {A B} (m : M A) (f : A -> M B) :
  safe m -> (forall a, safe (f a)) -> safe (m ≫= f).
Proof. intros. apply safe_bind_from; auto. Qed.
Lemma safe_bind_lift {A B} (c : res A) (f : A -> M B) :
  is_panic c = false -> (forall a, c = Ok a -> safe (f a)) -> safe (lift c ≫= f).
Proof.
  intros Hc Hf. apply safe_bind_from; [by apply safe_lift|].
  intros a s s' [= H _]. apply Hf. by apply map_err_Ok in H.
Qed.

Context {Up : @Upstream V}.
Lemma safe_invoke_ w c : safe (invoke_ w c).
Proof. intros s. cbn. by destruct (respond _ c). Qed.
Lemma safe_invoke c : safe (invoke c).
Proof. apply safe_invoke_. Qed.
Lemma safe_invoke' w c : safe (invoke' w c).
Proof. apply safe_bind; [apply safe_invoke_|]. intros. apply safe_ret. Qed.
Lemma safe_rows names rs : safe (rows names rs).
Proof.
  apply safe_bind; [apply safe_lift, buildResultset_no_panic|intros r].
  apply safe_bind; [apply safe_gets|intros]. apply safe_writeResultset.
Qed.

(** What a call leaves. *)
Lemma invoke_Ok w c s r s' :
  invoke_ w c s = (Ok r, s') -> respond (s_calls s) c = inr r /\ s' = record_call c s.
Proof. unfold invoke_. destruct (respond _ c) eqn:E; [done|]. by intros [= <- <-]. Qed.
Lemma invoke_inv c s r s' :
  invoke c s = (Ok r, s') -> respond (s_calls s) c = inr r /\ s' = record_call c s.
Proof. apply (invoke_Ok Errorf). Qed.

(** ** Inversion of successful runs *)
Lemma bindM_Ok {A B} (m : M A) (f : A -> M B) s b s' :
  (m ≫= f) s = (Ok b, s') -> exists a s1, m s = (Ok a, s1) /\ f a s1 = (Ok b, s').
Proof. cbv [mbind M_bind]. destruct (m s) as [[a|e|w] s1]; intros H; [eauto|done..]. Qed.
Lemma gets_bind {A B} (f : ClientConn -> A) (k : A -> M B) s :
  (gets f ≫= k) s = k (f (s_conn s)) s.
Proof. done. Qed.
Lemma lift_inv {A} (c : res A) s a s' : lift c s = (Ok a, s') -> c = Ok a /\ s' = s.
Proof. intros [= H <-]. by apply map_err_Ok in H. Qed.
Lemma checkM_inv c e s u s' : checkM c e s = (Ok u, s') -> c = false /\ s' = s.
Proof. destruct c; [done|]. by intros [= <- <-]. Qed.
End obeys.

(** Open the first step of a successful run. *)
Ltac inv_M H :=
  repeat match type of H with
  | (lift _ ≫= _) _ = (Ok _, _) =>
      let a := fresh "a" in let Ha := fresh "Ha" in
      apply bindM_Ok in H as (a & ? & Ha & H); apply lift_inv in Ha as [Ha ->]
  | (checkM _ _ ≫= _) _ = (Ok _, _) =>
      let Ha := fresh "Ha" in
      apply bindM_Ok in H as (? & ? & Ha & H); apply checkM_inv in Ha as [Ha ->]
  | (gets _ ≫= _) _ = (Ok _, _) => rewrite gets_bind in H
  | @mbind _ _ _ _ _ (@invoke _ _ ?c) _ = (Ok _, _) =>
      let a := fresh "r" in let Ha := fresh "Ha" in
      apply bindM_Ok in H as (a & ? & Ha & H); apply (invoke_inv c) in Ha as [Ha ->]
  end.

#[export] Hint Resolve obeys_ret obeys_throw obeys_panic obeys_lift obeys_gets obeys_checkM
  obeys_writeOK obeys_writeResultset obeys_set_result obeys_invoke obeys_invoke_ obeys_invoke'
  obeys_rows : session.
#[export] Hint Resolve safe_ret safe_throw safe_gets safe_modify safe_checkM safe_writeOK
  safe_writeResultset safe_invoke safe_invoke_ safe_invoke' safe_rows : session.

#[export] Hint Extern 1 (result_wf _) => exact I : session.
#[export] Hint Extern 1 (SessionRel _) => apply _ : session.

(** Walk through a handler, down to its primitives. *)
Ltac walk :=
  repeat (intros; cbv zeta; first
    [ solve [auto with session]
    | apply obeys_bind
    | match goal with
      | |- SessionRel _ => apply _
      | |- obeys ?R (invoke_ ?w ?c) => refine (obeys_invoke_ R w c _)
      | |- obeys ?R (invoke ?c) => refine (obeys_invoke R c _)
      | |- obeys _ (match ?x with _ => _ end) => destruct x
      | |- obeys _ (match ?x with _ => _ end _) => destruct x
      end ]).

(** One bind of a handler whose first part the hints close. *)
Ltac walk_one := apply obeys_bind; [apply _|solve [auto with session]|intros].

Ltac walk_safe :=
  repeat (intros; cbv zeta; first
    [ solve [auto with session go]
    | apply safe_bind_lift
    | apply safe_bind
    | match goal with
      | |- safe (invoke_ ?w ?c) => exact (safe_invoke_ w c)
      | |- safe (invoke ?c) => exact (safe_invoke c)
      | |- safe (match ?x with _ => _ end) => destruct x eqn:?
      end ]).

(** ** Relations on sessions *)
Section relations.
Context `{V : Vendor}.

(** The describe flag is kept and calls are only added. *)
Definition extends (s s' : session) : Prop :=
  c_describe (s_conn s') = c_describe (s_conn s) /\ s_calls s `prefix_of` s_calls s'.

#[export] Instance extends_rel : SessionRel extends.
Proof.
  split; [split|done].
  - by intros s.
  - intros s t u [H1 H2] [H3 H4]. split; [congruence|by etransitivity].
Qed.
Lemma extends_admits c : admits extends c.
Proof. intros s. split; [done|]. by apply prefix_app_r. Qed.

(** Under a describe, only collection schemas are read and the session keeps its
    database. *)
Definition isDescribeCollection (c : call) : bool :=
  match c with CDescribeCollection _ => true | _ => false end.
Definition describeSafe (s s' : session) : Prop :=
  extends s s' /\
  (c_describe (s_conn s) = true ->
   c_db (s_conn s') = c_db (s_conn s) /\
   exists new, s_calls s' = s_calls s ++ new /\ Forall (fun c => isDescribeCollection c = true) new).

#[export] Instance describeSafe_rel : SessionRel describeSafe.
Proof.
  split; [split|].
  - intros s. split; [by split|]. intros _. split; [done|]. exists []. by rewrite app_nil_r.
  - intros s t u [[H1 H2] H3] [[H4 H5] H6]. split.
    { split; [congruence|by etransitivity]. }
    intros H. destruct (H3 H) as (E1 & n1 & Hn1 & F1).
    destruct H6 as (E2 & n2 & Hn2 & F2); [congruence|]. split; [congruence|].
    exists (n1 ++ n2). rewrite Hn2, Hn1, app_assoc. split; [done|]. by apply Forall_app.
  - intros r s _. split; [by split|]. intros _. split; [done|]. exists []. by rewrite app_nil_r.
Qed.
Lemma describeSafe_admits n : admits describeSafe (CDescribeCollection n).
Proof.
  intros s. split; [apply extends_admits|]. intros _. split; [done|].
  exists [CDescribeCollection n]. by split; [|constructor].
Qed.
(** Outside a describe, extending the session is enough. *)
Lemma describeSafe_split {A} (m : M A) :
  obeys extends m -> (forall s, c_describe (s_conn s) = true -> describeSafe s (m s).2) ->
  obeys describeSafe m.
Proof.
  intros H1 H2 s. destruct (c_describe (s_conn s)) eqn:E; [by apply H2|].
  split; [apply H1|congruence].
Qed.

(** The result of the session stays well formed. *)
Definition keepsWf (s s' : session) : Prop :=
  result_wf (c_result (s_conn s)) -> result_wf (c_result (s_conn s')).
#[export] Instance keepsWf_rel : SessionRel keepsWf.
Proof.
  split; [split|]; unfold keepsWf; [by intros ? H|intros ? ? ? ? ?; auto|by intros r s H _].
Qed.
Lemma keepsWf_admits c : admits keepsWf c.
Proof. by intros s H. Qed.

(** Every call added satisfies [Q]. *)
Definition callsIn (Q : call -> Prop) (s s' : session) : Prop :=
  exists new, s_calls s' = s_calls s ++ new /\ Forall Q new.
#[export] Instance callsIn_rel Q : SessionRel (callsIn Q).
Proof.
  split; [split|].
  - intros s. exists []. by rewrite app_nil_r.
  - intros s t u (n1 & E1 & F1) (n2 & E2 & F2). exists (n1 ++ n2).
    rewrite E2, E1, app_assoc. split; [done|]. by apply Forall_app.
  - intros r s _. exists []. by rewrite app_nil_r.
Qed.
Lemma callsIn_admits (Q : call -> Prop) c : Q c -> admits (callsIn Q) c.
Proof. intros H s. exists [c]. split; [done|by constructor]. Qed.

Context {Up : @Upstream V}.

(** The database Milvus was last switched to: the latest [UsingDatabase] call
    that succeeded; [before] are the calls before [calls]. *)
Fixpoint lastDb (db : string) (before calls : list call) : string :=
  match calls with
  | [] => db
  | c :: calls' =>
      lastDb (match c with
              | CUsingDatabase d => if respond before c then db else d
              | _ => db
              end) (before ++ [c]) calls'
  end.
Definition db_in_sync (s : session) : Prop := c_db (s_conn s) = lastDb "default" [] (s_calls s).

Lemma lastDb_snoc db before calls c :
  lastDb db before (calls ++ [c])
  = match c with
    | CUsingDatabase d =>
        if respond (before ++ calls) c then lastDb db before calls else d
    | _ => lastDb db before calls
    end.
Proof.
  revert db before; induction calls as [|c' calls IH]; intros db before; cbn [lastDb app].
  - rewrite app_nil_r. by destruct c.
  - rewrite IH, <- app_assoc. cbn. by destruct c.
Qed.

Definition keepsSync (s s' : session) : Prop := db_in_sync s -> db_in_sync s'.
#[export] Instance keepsSync_rel : SessionRel keepsSync.
Proof. split; [split|]; unfold keepsSync;
  [intros ? H; exact H|intros ? ? ? ? ?; auto|intros ? ? _ H; exact H]. Qed.

Definition isUse (c : call) : bool := match c with CUsingDatabase _ => true | _ => false end.
Lemma keepsSync_admits c : isUse c = false -> admits keepsSync c.
Proof. intros H s. unfold keepsSync, db_in_sync. cbn. rewrite lastDb_snoc. by destruct c. Qed.
End relations.
