(* ===== verification/Ddl.v ===== *)
(** * Data definition ([ddl.go], [dbddl.go], [show.go])

    [columnToMilvusField] and [DDLToMilvusSchema] translate a CREATE TABLE to a
    collection schema; the handlers issue the client calls of CREATE and DROP of
    tables and databases and of SHOW. *)
From S2P Require Export Session SelectPlan.
Open Scope Z_scope.
Open Scope go_scope.

(** [colKeyNone] and [colKeyPrimary] *)
Definition colKeyNone : Z := 0.
Definition colKeyPrimary : Z := 1.

(** [MilvusDataTypeMap] *)
Definition MilvusDataTypeMap (t : QueryType) : option FieldType :=
  match t with
  | Type_INT8 => Some FieldTypeInt8
  | Type_INT16 => Some FieldTypeInt16
  | Type_INT32 => Some FieldTypeInt32
  | Type_INT64 => Some FieldTypeInt64
  | Type_FLOAT32 => Some FieldTypeFloat
  | Type_FLOAT64 => Some FieldTypeDouble
  | Type_TEXT => Some FieldTypeString
  | Type_VARCHAR => Some FieldTypeVarChar
  | Type_DATE => Some FieldTypeInt32
  | Type_DATETIME => Some FieldTypeInt64
  | Type_OTHER _ => None
  end.

Section ddl.
Context `{U : UnicodeTables} `{S : Sqlparser} `{V : Vendor}.

(** [strconv.Atoi] of a length, and the bounds of a type parameter *)
Definition lengthBetween (lo hi : Z) (s : string) : bool :=
  match atoi s with Ok n => negb ((n <? lo) || (n >? hi)) | _ => false end.

(** The chain of type tests of [columnToMilvusField]: the data type and the type
    parameters. *)
Definition columnDataType (t : ColumnType) : res (FieldType * gomap) :=
  if equalFold (ct_Type t) "bool" || equalFold (ct_Type t) "boolean"
     || ((ct_Type t =?s "tinyint")
         && match ct_Length t with Some v => v =?s "1" | None => false end)
  then Ok (FieldTypeBool, None)
  else if equalFold (ct_Type t) "json" then Ok (FieldTypeJSON, None)
  else if ct_Type t =?s vectorKeyword then
    match ct_Length t with
    | None => Err "vector dim is nil"
    | Some v =>
        if lengthBetween 1 32768 v
        then Ok (FieldTypeFloatVector, Some {[ "dim" := v ]})
        else Err "vector dimension must be 1..32768"
    end
  else
    match MilvusDataTypeMap (SQLType t) with
    | None => Err ("type[" +:+ QueryTypeText (SQLType t) +:+ "] not supported")
    | Some FieldTypeVarChar =>
        match ct_Length t with
        | None => Err "varchar max_length must be specified"
        | Some v =>
            if lengthBetween 1 65535 v
            then Ok (FieldTypeVarChar, Some {[ "max_length" := v ]})
            else Err "varchar length must be 1..65535"
        end
    | Some d => Ok (d, None)
    end.

(** The switch on [col.Type.KeyOpt]: [PrimaryKey] and [AutoID]. *)
Definition columnKey (t : ColumnType) : res (bool * bool) :=
  if ct_KeyOpt t =? colKeyPrimary then Ok (true, ct_Autoincrement t)
  else if ct_KeyOpt t =? colKeyNone then
    if ct_Autoincrement t then Err "not primarykey, autoincrement not supported"
    else Ok (false, false)
  else Err ("key option[" +:+ formatInt (ct_KeyOpt t) +:+ "] not supported").

(** [columnToMilvusField] *)
Definition columnToMilvusField (col : ColumnDefinition) : res SField :=
  let t := cd_Type col in
  _ ← guard_err (isSome (ct_Default t) || isSome (ct_OnUpdate t) || ct_Unsigned t
        || ct_Zerofill t || isSome (ct_Scale t) || negb (ct_Charset t =?s "")
        || negb (ct_Collate t =?s "")) "unsupported column options";
  '(dataType, params) ← columnDataType t;
  '(primary, auto) ← columnKey t;
  Ok (mk_SField (cd_Name col) primary auto (default "" (ct_Comment t)) dataType params).

(** One iteration of the loop over the schema's fields; the state is [seen],
    [pk] and [vectors]. *)
Definition checkField (st : gset string * Z * Z) (f : SField) : res (gset string * Z * Z) :=
  let '(seen, pk, vectors) := st in
  if bool_decide (sf_Name f ∈ seen) then Err "duplicate field"
  else if sf_Name f =?s "_distance"
  then Err "_distance is reserved for vector search scores"
  else if negb (matchString fieldIdentifier (sf_Name f)) then Err "invalid field name"
  else
    _ ← guard_err (sf_PrimaryKey f
          && negb (bool_decide (sf_DataType f = FieldTypeInt64))
          && negb (bool_decide (sf_DataType f = FieldTypeVarChar)))
        "primary key must be BIGINT or VARCHAR";
    _ ← guard_err (sf_PrimaryKey f && sf_AutoID f
          && negb (bool_decide (sf_DataType f = FieldTypeInt64)))
        "auto-ID requires BIGINT";
    Ok ({[ sf_Name f ]} ∪ seen,
        if sf_PrimaryKey f then pk + 1 else pk,
        if bool_decide (sf_DataType f = FieldTypeFloatVector) then vectors + 1 else vectors).

Fixpoint checkFields (st : gset string * Z * Z) (fs : list SField)
    : res (gset string * Z * Z) :=
  match fs with
  | [] => Ok st
  | f :: fs' => st' ← checkField st f; checkFields st' fs'
  end.

(** One iteration of the loop over the columns. *)
Definition schemaField (col : ColumnDefinition) : res SField :=
  map_err (errorsWrap ("column[" +:+ cd_Name col +:+ "] to milvus field failed"))
    (columnToMilvusField col).

(** [DDLToMilvusSchema] *)
Definition DDLToMilvusSchema (stmt : DDL) : res MilvusSchema :=
  match ddl_TableSpec stmt with
  | None => Err "table spec is nil"
  | Some spec =>
      _ ← guard_err (negb (tn_QualifierIsEmpty (ddl_NewName stmt))
            || negb (ts_Options spec =?s "") || nonempty (ts_Indexes spec))
          "qualified tables, table options and table-level constraints are not supported; use inline PRIMARY KEY and CREATE INDEX";
      fields ← mapM schemaField (ts_Columns spec);
      '(_, pk, vectors) ← checkFields (∅, 0, 0) fields;
      if negb (pk =? 1) || (vectors =? 0)
      then Err "collection requires exactly one primary key and at least one vector field"
      else Ok (mk_MilvusSchema (mk_Schema (tn_Name (ddl_NewName stmt)) "" fields) 1)
  end.

Context {Up : @Upstream V}.

(** [handleCreateTable] *)
Definition handleCreateTable (stmt : DDL) : M unit :=
  match DDLToMilvusSchema stmt with
  | Ok ms =>
      _ ← invoke' (NewError ER_CANT_CREATE_TABLE)
            (CCreateCollection (ms_Schema ms) (ms_ShardNum ms) ClStrong);
      writeOK None
  | Err e => throw (NewError ER_CANT_CREATE_TABLE e)
  | Panic w => panicM w
  end.

(** [handleDropTable] *)
Definition handleDropTable (stmt : DDL) : M unit :=
  _ ← checkM (negb (tn_QualifierIsEmpty (ddl_Table stmt)) || ddl_IfExists stmt)
        (Errorf "qualified DROP and IF EXISTS are unsupported");
  _ ← invoke' (NewError ER_CANT_DROP_FIELD_OR_KEY)
        (CDropCollection (tn_Name (ddl_Table stmt)));
  writeOK None.

(** [handleDDL] *)
Definition handleDDL (stmt : DDL) : M unit :=
  if ddl_Action stmt =?s CreateStr then handleCreateTable stmt
  else if ddl_Action stmt =?s DropStr then handleDropTable stmt
  else throw (NewError ER_UNKNOWN_ERROR ("ddl " +:+ ddl_Action stmt +:+ " not supported")).

(** [handleCreateDB] *)
Definition handleCreateDB (stmt : DBDDL) : M unit :=
  _ ← invoke' (NewError ER_ABORTING_CONNECTION) (CCreateDatabase (db_DBName stmt));
  writeOK (Some (mk_Result SERVER_STATUS_NONE 0 1 None)).

(** [handleDropDB] *)
Definition handleDropDB (stmt : DBDDL) : M unit :=
  _ ← invoke' (NewError ER_ABORTING_CONNECTION) (CDropDatabase (db_DBName stmt));
  writeOK None.

(** [handleDBDDL] *)
Definition handleDBDDL (stmt : DBDDL) : M unit :=
  if db_Action stmt =?s CreateStr then handleCreateDB stmt
  else if db_Action stmt =?s DropStr then handleDropDB stmt
  else throw (NewError ER_UNKNOWN_ERROR ("create " +:+ db_Action stmt +:+ " not supported")).

(** [databasesToValues] and [collectionsToValues] *)
Definition databasesToValues (dbs : list Database) : list (list value) :=
  map (fun db => [VString (da_Name db)]) dbs.
Definition collectionsToValues (cols : list Collection) : list (list value) :=
  map (fun col => [VString (co_Name col)]) cols.

(** The tail of both cases of [handleShow]: the result set is built, with its
    error wrapped, and written. *)
Definition showValues (name : string) (values : list (list value)) : M unit :=
  match buildResultset [] [name] values with
  | Ok r => status ← gets c_status; writeResultset status r
  | Err e => throw (NewError ER_UNKNOWN_ERROR (errorsWrap "build resultset failed" e))
  | Panic w => panicM w
  end.

(** [handleShow] *)
Definition handleShow (typ : string) : M unit :=
  let t := toUpper typ in
  describe ← gets c_describe;
  if t =?s "DATABASES" then
    if (describe : bool) then rows ["DATABASES"] []
    else
      ret ← invoke_ (fun e => NewError ER_ABORTING_CONNECTION
                                (errorsWrap "list databases failed" e)) CListDatabases;
      if negb (nonempty ret) then rows ["DATABASES"] []
      else showValues "DATABASES" (databasesToValues ret)
  else if t =?s "TABLES" then
    if (describe : bool) then rows ["TABLES"] []
    else
      ret ← invoke_ (fun e => NewError ER_ABORTING_CONNECTION
                                (errorsWrap "list collections failed" e)) CListCollections;
      showValues "TABLES" (collectionsToValues ret)
  else throw (NewError ER_UNKNOWN_ERROR ("show " +:+ typ +:+ " not supported")).
End ddl.
