(* ===== verification/DdlSpec.v ===== *)
(** * Properties of data definition

    [schema_ok] says which lists of fields make a collection; [DDLToMilvusSchema]
    is shown to accept exactly the statements whose columns translate to such a
    list, and the parameters of every translated column to be within bounds. *)
From S2P Require Export SampleMilvus Ddl SessionSpec.
Open Scope Z_scope.
Open Scope go_scope.

(** ** What a collection needs *)
Definition name_ok (n : string) : Prop :=
  n <> "_distance" /\ matchString fieldIdentifier n = true.

Definition primary_ok (f : SField) : Prop :=
  (sf_DataType f = FieldTypeInt64 \/ sf_DataType f = FieldTypeVarChar)
  /\ (sf_AutoID f = true -> sf_DataType f = FieldTypeInt64).

Record schema_ok (fs : list SField) : Prop := mk_schema_ok {
  ok_unique : NoDup (map sf_Name fs);
  ok_names : Forall (fun f => name_ok (sf_Name f)) fs;
  ok_primary : exists pk, List.filter sf_PrimaryKey fs = [pk] /\ primary_ok pk;
  ok_vector : exists f, f ∈ fs /\ sf_DataType f = FieldTypeFloatVector
}.

Section ddl_lemmas.
Context `{U : UnicodeTables} `{S : Sqlparser} `{V : Vendor}.

Definition isVector (f : SField) : bool := bool_decide (sf_DataType f = FieldTypeFloatVector).

Lemma checkField_Ok seen pk vs f st :
  checkField (seen, pk, vs) f = Ok st <->
  sf_Name f ∉ seen /\ name_ok (sf_Name f) /\ (sf_PrimaryKey f = true -> primary_ok f)
  /\ st = ({[ sf_Name f ]} ∪ seen, pk + Z.of_nat (if sf_PrimaryKey f then 1 else 0),
           vs + Z.of_nat (if isVector f then 1 else 0)).
Proof.
  unfold checkField, name_ok, primary_ok, isVector.
  destruct (bool_decide (sf_Name f ∈ seen)) eqn:E1; bool_to_prop; [naive_solver|].
  destruct (sf_Name f =?s "_distance") eqn:E2; bool_to_prop; [naive_solver|].
  destruct (matchString fieldIdentifier (sf_Name f)) eqn:E3; cbn [negb]; [|naive_solver].
  rewrite bind_Ok. setoid_rewrite guard_err_Ok. setoid_rewrite bind_Ok.
  setoid_rewrite guard_err_Ok.
  set (p := if sf_PrimaryKey f then pk + 1 else pk).
  assert (p = pk + Z.of_nat (if sf_PrimaryKey f then 1 else 0)) as -> by
    (subst p; destruct (sf_PrimaryKey f); lia).
  set (v := if bool_decide _ then vs + 1 else vs).
  assert (v = vs + Z.of_nat (if bool_decide (sf_DataType f = FieldTypeFloatVector)
                             then 1 else 0)) as ->
    by (subst v; case_bool_decide; lia).
  destruct (sf_PrimaryKey f), (sf_AutoID f); cbn [andb negb];
    repeat case_bool_decide; cbn; split;
    (intros (? & ? & ? & ? & [= <-]) || intros (? & ? & ? & ->)); try done;
    try (split_and!; naive_solver); try (exists tt; naive_solver); naive_solver.
Qed.

Lemma checkFields_Ok seen pk vs fs st :
  checkFields (seen, pk, vs) fs = Ok st <->
  NoDup (map sf_Name fs) /\ (forall f, f ∈ fs -> sf_Name f ∉ seen)
  /\ Forall (fun f => name_ok (sf_Name f)) fs
  /\ Forall primary_ok (List.filter sf_PrimaryKey fs)
  /\ st = (list_to_set (map sf_Name fs) ∪ seen,
           pk + Z.of_nat (length (List.filter sf_PrimaryKey fs)),
           vs + Z.of_nat (length (List.filter isVector fs))).
Proof.
  revert seen pk vs; induction fs as [|f fs IH]; intros seen pk vs; cbn.
  - rewrite !Z.add_0_r, union_empty_l_L. split; [intros [= <-]|by intros (_ & _ & _ & _ & ->)].
    split_and!; [constructor|set_solver|done..].
  - rewrite bind_Ok. setoid_rewrite checkField_Ok.
    assert (forall (b : bool) (l : list SField), length (if b then f :: l else l)
      = ((if b then 1 else 0) + length l)%nat) as Hlen by (by intros [] ?).
    split.
    + intros (st' & (Hf & Hn & Hp & ->) & H). apply IH in H as (Hd & Hs & Hns & Hps & ->).
      split_and!.
      * constructor; [|done]. rewrite list_elem_of_fmap. intros (y & Hy & Hin).
        apply (Hs y Hin). rewrite <- Hy. set_solver.
      * intros g [->|Hg]%elem_of_cons; [done|]. specialize (Hs g Hg). set_solver.
      * by constructor.
      * destruct (sf_PrimaryKey f); [constructor; auto|done].
      * rewrite !Hlen, !Nat2Z.inj_add, !Z.add_assoc. do 2 f_equal. set_solver.
    + intros (Hd & Hs & Hns & Hps & ->). inversion Hd as [|? ? Hnotin Hd']; subst.
      inversion Hns as [|? ? Hn Hns']; subst. eexists. split.
      * split_and!; [apply Hs; set_solver|done| |done].
        intros Hp. rewrite Hp in Hps. by inversion Hps.
      * apply IH. split_and!; [done| |done| |].
        -- intros g Hg. rewrite not_elem_of_union, elem_of_singleton. split; [|apply Hs; set_solver].
           intros Heq. apply Hnotin. rewrite <- Heq. by apply list_elem_of_fmap_2.
        -- destruct (sf_PrimaryKey f); [by inversion Hps|done].
        -- rewrite !Hlen, !Nat2Z.inj_add, !Z.add_assoc. do 2 f_equal. set_solver.
Qed.

Lemma filter_isVector_length fs :
  length (List.filter isVector fs) <> 0%nat
  <-> exists f, f ∈ fs /\ sf_DataType f = FieldTypeFloatVector.
Proof.
  induction fs as [|f fs IH]; cbn.
  - split; [done|]. intros (f & Hf & _). by apply elem_of_nil in Hf.
  - unfold isVector at 1. case_bool_decide as H; cbn.
    + split; [|done]. intros _. exists f. split; [set_solver|done].
    + rewrite IH. setoid_rewrite elem_of_cons. naive_solver.
Qed.

Lemma fieldsChecked_iff fs :
  (exists seen pk vs, checkFields (∅, 0, 0) fs = Ok (seen, pk, vs)
     /\ negb (pk =? 1) || (vs =? 0) = false) <-> schema_ok fs.
Proof.
  setoid_rewrite checkFields_Ok. split.
  - intros (seen & pk & vs & (Hd & _ & Hn & Hp & Hst) & E).
    simplify_eq/=. bool_to_prop.
    constructor; [done..| |].
    + destruct (List.filter sf_PrimaryKey fs) as [|x [|y l]]; cbn in *; try lia.
      exists x. split; [done|]. by inversion Hp.
    + apply filter_isVector_length. lia.
  - intros [Hd Hn (pk & Hpk & Hok) Hv]. do 3 eexists. rewrite Hpk. split.
    + split_and!; [done|set_solver|done|by constructor|done].
    + apply filter_isVector_length in Hv. cbn. apply Z.eqb_neq. lia.
Qed.

Lemma lengthBetween_spec lo hi v :
  lengthBetween lo hi v = true -> exists n, atoi v = Ok n /\ lo <= n <= hi.
Proof.
  unfold lengthBetween. destruct (atoi v) as [n| |]; [|done..]. intros H. bool_to_prop. eauto.
Qed.

(** The type parameters of a translated column. *)
Definition params_ok (f : SField) : Prop :=
  match sf_DataType f with
  | FieldTypeFloatVector =>
      exists v n, sf_TypeParams f = Some {[ "dim" := v ]} /\ atoi v = Ok n /\ 1 <= n <= 32768
  | FieldTypeVarChar =>
      exists v n, sf_TypeParams f = Some {[ "max_length" := v ]} /\ atoi v = Ok n
        /\ 1 <= n <= 65535
  | FieldTypeOther _ => False
  | _ => sf_TypeParams f = None
  end.

Lemma columnDataType_params t d p n pk a c :
  columnDataType t = Ok (d, p) -> params_ok (mk_SField n pk a c d p).
Proof.
  unfold columnDataType, params_ok. intros H. cbn.
  destruct (_ || _ || _); [by injection H as <- <-|].
  destruct (equalFold _ "json"); [by injection H as <- <-|].
  destruct (ct_Type t =?s vectorKeyword).
  { destruct (ct_Length t) as [v|]; [|done].
    destruct (lengthBetween 1 32768 v) eqn:Hl; [|done]. injection H as <- <-.
    apply lengthBetween_spec in Hl as (k & ? & ?). eauto 6. }
  destruct (SQLType t); cbn in H; try done; try (by injection H as <- <-).
  destruct (ct_Length t) as [v|]; [|done].
  destruct (lengthBetween 1 65535 v) eqn:Hl; [|done]. injection H as <- <-.
  apply lengthBetween_spec in Hl as (k & ? & ?). eauto 6.
Qed.

(** How a column definition determines a field. *)
Lemma columnToMilvusField_inv col f :
  columnToMilvusField col = Ok f ->
  sf_Name f = cd_Name col
  /\ sf_PrimaryKey f = (ct_KeyOpt (cd_Type col) =? colKeyPrimary)
  /\ sf_AutoID f = ct_Autoincrement (cd_Type col)
  /\ (sf_AutoID f = true -> sf_PrimaryKey f = true)
  /\ columnDataType (cd_Type col) = Ok (sf_DataType f, sf_TypeParams f)
  /\ params_ok f.
Proof.
  unfold columnToMilvusField, columnKey. intros H.
  apply bind_Ok in H as (? & _ & H). apply bind_Ok in H as ([d p] & Hd & H).
  apply bind_Ok in H as ([pk a] & Hk & H). injection H as <-. cbn.
  pose proof (columnDataType_params _ _ _ (cd_Name col) pk a
    (default "" (ct_Comment (cd_Type col))) Hd) as Hp.
  destruct (ct_KeyOpt _ =? colKeyPrimary).
  - injection Hk as <- <-. by split_and!.
  - destruct (ct_KeyOpt _ =? colKeyNone); [|done].
    destruct (ct_Autoincrement _) eqn:Ha; [done|]. injection Hk as <- <-. by split_and!.
Qed.

Lemma columnDataType_no_panic t : is_panic (columnDataType t) = false.
Proof. unfold columnDataType. by repeat case_match. Qed.

Lemma columnToMilvusField_no_panic col : is_panic (columnToMilvusField col) = false.
Proof.
  unfold columnToMilvusField. apply bind_no_panic; [apply guard_err_no_panic|]. intros _ _.
  apply bind_no_panic; [apply columnDataType_no_panic|]. intros [d p] _.
  apply bind_no_panic; [|by intros [] _]. unfold columnKey. by repeat case_match.
Qed.

Lemma checkField_no_panic st f : is_panic (checkField st f) = false.
Proof.
  destruct st as [[seen pk] vs]. unfold checkField. repeat case_match; try done.
  all: apply bind_no_panic; [apply guard_err_no_panic|]; intros _ _;
    apply bind_no_panic; [apply guard_err_no_panic|done].
Qed.

Lemma checkFields_no_panic st fs : is_panic (checkFields st fs) = false.
Proof.
  revert st; induction fs as [|f fs IH]; intros st; [done|].
  apply bind_no_panic; [apply checkField_no_panic|auto].
Qed.

Lemma DDLToMilvusSchema_no_panic stmt : is_panic (DDLToMilvusSchema stmt) = false.
Proof.
  unfold DDLToMilvusSchema. destruct (ddl_TableSpec stmt); [|done].
  apply bind_no_panic; [apply guard_err_no_panic|]. intros _ _.
  apply bind_no_panic.
  { apply mapM_no_panic. intros col _. unfold schemaField.
    by rewrite map_err_no_panic, columnToMilvusField_no_panic. }
  intros fs _. apply bind_no_panic; [apply checkFields_no_panic|].
  intros [[seen pk] vs] _. by case_match.
Qed.

Lemma DDLToMilvusSchema_iff stmt ms :
  DDLToMilvusSchema stmt = Ok ms <->
  exists spec fs,
    ddl_TableSpec stmt = Some spec
    /\ (tn_QualifierIsEmpty (ddl_NewName stmt) = true /\ ts_Options spec = "" /\ ts_Indexes spec = [])
    /\ Forall2 (fun col f => columnToMilvusField col = Ok f) (ts_Columns spec) fs
    /\ schema_ok fs
    /\ ms = mk_MilvusSchema (mk_Schema (tn_Name (ddl_NewName stmt)) "" fs) 1.
Proof.
  unfold DDLToMilvusSchema. destruct (ddl_TableSpec stmt) as [spec|]; [|naive_solver].
  assert (forall fs, mapM schemaField (ts_Columns spec) = Ok fs <->
    Forall2 (fun col f => columnToMilvusField col = Ok f) (ts_Columns spec) fs) as Hm.
  { intros fs. rewrite mapM_Ok. unfold schemaField.
    split; intros H; (eapply Forall2_impl; [exact H|]); intros ? ?; by rewrite map_err_Ok. }
  assert (forall b, negb (tn_QualifierIsEmpty (ddl_NewName stmt)) || negb (ts_Options spec =?s "")
    || nonempty (ts_Indexes spec) = b -> b = false <->
    tn_QualifierIsEmpty (ddl_NewName stmt) = true /\ ts_Options spec = "" /\ ts_Indexes spec = [])
    as Hg.
  { intros b <-. destruct (tn_QualifierIsEmpty _), (ts_Options spec =?s "") eqn:E,
      (ts_Indexes spec); cbn; bool_to_prop; naive_solver. }
  specialize (Hg _ eq_refl). split.
  - intros H. apply bind_Ok in H as (? & Hq%guard_err_Ok & H). apply Hg in Hq.
    apply bind_Ok in H as (fs & Hf%Hm & H).
    apply bind_Ok in H as ([[seen pk] vs] & Hc & H).
    destruct (_ || _) eqn:E in H; [done|]. injection H as <-. exists spec, fs.
    split; [done|]. split; [done|]. split; [done|]. split; [|done].
    apply fieldsChecked_iff. eauto.
  - intros (spec' & fs & [= <-] & Hq & Hf & Hs & ->).
    apply bind_Ok. exists tt. rewrite guard_err_Ok. split; [by apply Hg|].
    apply bind_Ok. exists fs. split; [by apply Hm|].
    apply fieldsChecked_iff in Hs as (seen & pk & vs & Hc & E).
    apply bind_Ok. exists (seen, pk, vs). split; [done|]. by rewrite E.
Qed.
End ddl_lemmas.

(** ** The handlers *)
Section handlers.
Context `{U : UnicodeTables} `{S : Sqlparser} `{V : Vendor} {Up : @Upstream V}.
Context (R : relation session) {HR : SessionRel R}.
Context (Hadm : forall c, isUse c = false -> admits R c).

Lemma handleCreateTable_obeys stmt : obeys R (handleCreateTable stmt).
Proof. unfold handleCreateTable. walk. Qed.
Lemma handleDropTable_obeys stmt : obeys R (handleDropTable stmt).
Proof. unfold handleDropTable. walk. Qed.
Lemma handleDDL_obeys stmt : obeys R (handleDDL stmt).
Proof.
  pose proof handleCreateTable_obeys. pose proof handleDropTable_obeys.
  unfold handleDDL. walk.
Qed.
Lemma handleDBDDL_obeys stmt : obeys R (handleDBDDL stmt).
Proof. unfold handleDBDDL, handleCreateDB, handleDropDB. walk. Qed.
Lemma showValues_obeys name values : obeys R (showValues name values).
Proof.
  unfold showValues. destruct (buildResultset _ _ _) as [r| |] eqn:Hr; [|walk..].
  apply buildResultset_wf in Hr. pose proof (obeys_writeResultset R). walk.
Qed.
End handlers.

Section show.
Context `{U : UnicodeTables} `{S : Sqlparser} `{V : Vendor} {Up : @Upstream V}.

(** SHOW, per relation: outside a describe it lists through Milvus. *)
Lemma handleShow_obeys (R : relation session) {HR : SessionRel R} typ :
  (forall c, isUse c = false -> admits R c) -> obeys R (handleShow typ).
Proof.
  intros Hadm. pose proof (showValues_obeys R). unfold handleShow. walk.
Qed.

Lemma handleShow_describe typ : obeys describeSafe (handleShow typ).
Proof.
  apply describeSafe_split; [apply handleShow_obeys; [apply _|by intros; apply extends_admits]|].
  intros s Hd. unfold handleShow. rewrite gets_bind, Hd.
  destruct (toUpper typ =?s "DATABASES"); [apply obeys_rows, _|].
  destruct (toUpper typ =?s "TABLES"); [apply obeys_rows, _|]. apply (obeys_throw describeSafe).
Qed.

Lemma handleCreateTable_safe stmt : safe (handleCreateTable stmt).
Proof.
  unfold handleCreateTable. pose proof (DDLToMilvusSchema_no_panic stmt).
  destruct (DDLToMilvusSchema stmt); [walk_safe|walk_safe|done].
Qed.
Lemma handleDDL_safe stmt : safe (handleDDL stmt).
Proof.
  pose proof handleCreateTable_safe. unfold handleDDL, handleDropTable. walk_safe.
Qed.
Lemma handleDBDDL_safe stmt : safe (handleDBDDL stmt).
Proof. unfold handleDBDDL, handleCreateDB, handleDropDB. walk_safe. Qed.
Lemma showValues_safe name values : safe (showValues name values).
Proof.
  unfold showValues. pose proof (buildResultset_no_panic [] [name] values).
  destruct (buildResultset _ _ _); [walk_safe|walk_safe|done].
Qed.
Lemma handleShow_safe typ : safe (handleShow typ).
Proof. pose proof showValues_safe. unfold handleShow. walk_safe. Qed.
End show.

(** ** The properties of data definition *)

(** C19: [DDLToMilvusSchema] accepts exactly the statements that define a Milvus
    collection, and answers their schema.  A CREATE TABLE is accepted when its
    name is unqualified, it has no table options or table-level constraints, every
    column translates to a field, and the fields have distinct valid names (the
    score column's name excluded), exactly one primary key, of type BIGINT or
    VARCHAR and only auto-ID when it is BIGINT, and at least one vector field. *)
Theorem DDLToMilvusSchema_exact `{U : UnicodeTables} `{S : Sqlparser} `{V : Vendor} stmt ms :
  DDLToMilvusSchema stmt = Ok ms <->
  exists spec fs,
    ddl_TableSpec stmt = Some spec
    /\ (tn_QualifierIsEmpty (ddl_NewName stmt) = true /\ ts_Options spec = "" /\ ts_Indexes spec = [])
    /\ Forall2 (fun col f => columnToMilvusField col = Ok f) (ts_Columns spec) fs
    /\ schema_ok fs
    /\ ms = mk_MilvusSchema (mk_Schema (tn_Name (ddl_NewName stmt)) "" fs) 1.
Proof. apply DDLToMilvusSchema_iff. Qed.

(** A column translates to a field that means it: the field has the column's
    name, is the primary key exactly when the column is, is auto-ID exactly when
    the column is AUTO_INCREMENT, which only a primary key may be, and carries the
    type parameters of its type: a dimension between 1 and 32768 for a vector, a
    length between 1 and 65535 for a VARCHAR, and none otherwise. *)
Theorem columnToMilvusField_sound `{U : UnicodeTables} `{S : Sqlparser} col f :
  columnToMilvusField col = Ok f ->
  sf_Name f = cd_Name col
  /\ (sf_PrimaryKey f = true <-> ct_KeyOpt (cd_Type col) = colKeyPrimary)
  /\ sf_AutoID f = ct_Autoincrement (cd_Type col)
  /\ (sf_AutoID f = true -> sf_PrimaryKey f = true)
  /\ params_ok f.
Proof.
  intros (Hn & Hp & Ha & Hap & _ & Hok)%columnToMilvusField_inv.
  split_and!; try done. rewrite Hp. apply Z.eqb_eq.
Qed.

Definition sampleType (name : string) (len : option string) (key : Z) : ColumnType :=
  mk_ColumnType name false None None None len false false None "" "" key.

Definition sampleColumn : ColumnDefinition :=
  mk_ColumnDefinition "emb" (sampleType "vector" (Some "3") 0).
Definition sampleField : SField :=
  mk_SField "emb" false false "" FieldTypeFloatVector (Some {[ "dim" := "3" ]}).

Lemma columnToMilvusField_sound_witness :
  @columnToMilvusField sampleUnicode (sampleSqlparser (OtherStatement "")) sampleColumn
    = Ok sampleField
  /\ @params_ok sampleUnicode sampleField.
Proof.
  split; [vm_compute; reflexivity|].
  exact (proj2 (proj2 (proj2 (proj2
    (@columnToMilvusField_sound sampleUnicode (sampleSqlparser (OtherStatement ""))
       sampleColumn sampleField ltac:(vm_compute; reflexivity)))))).
Defined.

(** The one call that [handleDDL] may make for a statement. *)
Definition ddlCall `{U : UnicodeTables} `{S : Sqlparser} `{V : Vendor} (stmt : DDL) (c : call)
    : Prop :=
  match c with
  | CCreateCollection sc shards level =>
      ddl_Action stmt = CreateStr
      /\ DDLToMilvusSchema stmt = Ok (mk_MilvusSchema sc shards)
      /\ schema_ok (sc_Fields sc) /\ shards = 1 /\ level = ClStrong
  | CDropCollection n =>
      ddl_Action stmt = DropStr /\ ddl_IfExists stmt = false
      /\ tn_QualifierIsEmpty (ddl_Table stmt) = true /\ n = tn_Name (ddl_Table stmt)
  | _ => False
  end.

(** C28: a CREATE or DROP TABLE does what it says or reports an error.  [handleDDL]
    makes at most one call to Milvus: it creates a collection with the well-formed
    schema of the statement, or drops the named one; it succeeds exactly when it
    made that call and Milvus accepted it, with an empty result, and it never
    panics. *)
Theorem handleDDL_effects `{U : UnicodeTables} `{S : Sqlparser} `{V : Vendor}
    {Up : @Upstream V} stmt s :
  exists new,
    s_calls (handleDDL stmt s).2 = s_calls s ++ new
    /\ is_panic (handleDDL stmt s).1 = false
    /\ match new with [] => True | [c] => ddlCall stmt c | _ => False end
    /\ ((handleDDL stmt s).1 = Ok tt <->
        exists c r, new = [c] /\ respond (s_calls s) c = inr r)
    /\ (is_ok (handleDDL stmt s).1 = true ->
        c_result (s_conn (handleDDL stmt s).2) = Some emptyResult).
Proof.
  assert (forall e : error, exists new, s_calls s = s_calls s ++ new /\ false = false
    /\ match new with [] => True | [c] => ddlCall stmt c | _ => False end
    /\ (Err e = @Ok error unit tt <-> exists c r, new = [c] /\ respond (s_calls s) c = inr r)
    /\ (false = true -> c_result (s_conn s) = Some emptyResult)) as Hfail.
  { intros e. exists []. rewrite app_nil_r. split_and!; try done.
    split; [done|]. by intros (? & ? & ? & _). }
  assert (forall w c, ddlCall stmt c ->
    let m := (_ ← invoke' w c; writeOK None) in
    exists new, s_calls (m s).2 = s_calls s ++ new /\ is_panic (m s).1 = false
    /\ match new with [] => True | [c] => ddlCall stmt c | _ => False end
    /\ ((m s).1 = Ok tt <-> exists c r, new = [c] /\ respond (s_calls s) c = inr r)
    /\ (is_ok (m s).1 = true -> c_result (s_conn (m s).2) = Some emptyResult)) as Hcall.
  { intros w c Hc. cbn zeta. exists [c].
    cbv [mbind M_bind mret M_ret invoke' invoke_ writeOK modify].
    destruct (respond (s_calls s) c) eqn:E; cbn; split_and!; try done.
    - split; [done|]. intros (c' & r & [= <-] & H). congruence.
    - split; [eauto|done]. }
  unfold handleDDL. destruct (ddl_Action stmt =?s CreateStr) eqn:Ea.
  { bool_to_prop. unfold handleCreateTable. pose proof (DDLToMilvusSchema_no_panic stmt).
    destruct (DDLToMilvusSchema stmt) as [[sc n]| |] eqn:Hs; [|apply Hfail|done].
    apply Hcall. apply DDLToMilvusSchema_iff in Hs as Hs'.
    destruct Hs' as (spec & fs & _ & _ & _ & Hok & [= -> ->]). by split_and!. }
  destruct (ddl_Action stmt =?s DropStr) eqn:Ed; [|apply Hfail]. bool_to_prop.
  unfold handleDropTable. destruct (tn_QualifierIsEmpty (ddl_Table stmt)) eqn:Eq, (ddl_IfExists stmt) eqn:Ei;
    cbn [negb orb checkM]; try apply Hfail. apply Hcall. by split_and!.
Qed.
