(* ===== verification/Insert.v ===== *)
(** * INSERT, REPLACE and DELETE ([insert.go])

    [FillInsertColumns] checks the column list and the rows of an INSERT against
    the schema of the collection and builds one typed column per field;
    [fieldValue] converts a literal to the type of its field. *)
From S2P Require Export Session SelectPlan.
Open Scope Z_scope.
Open Scope go_scope.

Section literals.
Context `{U : UnicodeTables} `{F : GoFloat} `{J : GoJson} `{V : Vendor}.

(** [emptyColumn] *)
Definition emptyColumn (f : SField) : res Column :=
  match sf_DataType f with
  | FieldTypeBool => Ok (NewColumnBool (sf_Name f))
  | FieldTypeInt8 => Ok (NewColumnInt8 (sf_Name f))
  | FieldTypeInt16 => Ok (NewColumnInt16 (sf_Name f))
  | FieldTypeInt32 => Ok (NewColumnInt32 (sf_Name f))
  | FieldTypeInt64 => Ok (NewColumnInt64 (sf_Name f))
  | FieldTypeFloat => Ok (NewColumnFloat (sf_Name f))
  | FieldTypeDouble => Ok (NewColumnDouble (sf_Name f))
  | FieldTypeVarChar => Ok (NewColumnVarChar (sf_Name f))
  | FieldTypeJSON => Ok (NewColumnJSONBytes (sf_Name f))
  | FieldTypeFloatVector =>
      match atoi (mapGet (sf_TypeParams f) "dim") with
      | Ok dim =>
          if dim <=? 0 then Err "invalid vector dimension"
          else Ok (NewColumnFloatVector (sf_Name f) dim)
      | _ => Err "invalid vector dimension"
      end
  | t => Err ("unsupported field type " +:+ FieldTypeText t)
  end.

(** [literalText] *)
Definition literalText (e : Expr) : res string :=
  let expected := Err "expected a literal value" in
  match e with
  | SQLVal StrVal v | SQLVal IntVal v | SQLVal FloatVal v => Ok v
  | BoolVal b => Ok (formatBool b)
  | UnaryExpr op (SQLVal t v) =>
      if ((op =?s "-") || (op =?s "+")) && isNumber t then Ok (op +:+ v) else expected
  | _ => expected
  end.

(** The argument of [json_vector], or the expression itself: the first lines of
    [fieldValue]. *)
Definition vectorArgument (f : SField) (e : Expr) : res Expr :=
  match sf_DataType f, e with
  | FieldTypeFloatVector, FuncExpr name args =>
      if negb (equalFold name "json_vector") then Err "expected json_vector(string)"
      else match args with
           | [AliasedExpr x _] => Ok x
           | [_] => Err "invalid vector argument"
           | _ => Err "expected json_vector(string)"
           end
  | _, _ => Ok e
  end.

(** The integer cases: [ParseInt] at the width, and the conversion. *)
Definition integerValue (text : string) (bits : Z) (conv : Z -> value) : res value :=
  n ← parseInt text bits; Ok (conv n).

(** The float cases. *)
Definition floatValue (text : string) (bits : Z) : res value :=
  n ← of_sum (parseFloat text bits);
  if isNaN n || isInf n then Err "non-finite float"
  else Ok (if bits =? 32 then VFloat32 (f32_of_f64 n) else VFloat64 n).

(** The [FieldTypeFloatVector] case. *)
Definition vectorValue (f : SField) (text : string) : res value :=
  raw ← of_sum (jsonRawArray text);
  if existsb (fun x => x =?s "null") raw then Err "vector elements must be numbers"
  else
    v ← of_sum (jsonFloat32Array text);
    let dim := atoiValue (mapGet (sf_TypeParams f) "dim") in
    if negb (Z.of_nat (length v) =? dim)
    then Err ("vector dimension " +:+ formatInt (Z.of_nat (length v)) +:+ ", expected "
              +:+ formatInt dim)
    else Ok (VFloats v).

(** The [FieldTypeVarChar] case, on the expression after [vectorArgument]. *)
Definition varcharValue (f : SField) (e : Expr) (text : string) : res value :=
  match e with
  | SQLVal StrVal _ =>
      match atoi (mapGet (sf_TypeParams f) "max_length") with
      | Ok max =>
          if Z.of_nat (String.length text) >? max then Err "string exceeds max_length"
          else Ok (VString text)
      | _ => Err "string exceeds max_length"
      end
  | _ => Err "expected string literal"
  end.

(** [fieldValue] *)
Definition fieldValue (f : SField) (e : Expr) : res value :=
  e ← vectorArgument f e;
  text ← literalText e;
  match sf_DataType f with
  | FieldTypeBool =>
      if text =?s "1" then Ok (VBool true)
      else if text =?s "0" then Ok (VBool false)
      else VBool <$> parseBool text
  | FieldTypeInt8 => integerValue text 8 VInt8
  | FieldTypeInt16 => integerValue text 16 VInt16
  | FieldTypeInt32 => integerValue text 32 VInt32
  | FieldTypeInt64 => integerValue text 64 VInt64
  | FieldTypeFloat => floatValue text 32
  | FieldTypeDouble => floatValue text 64
  | FieldTypeVarChar => varcharValue f e text
  | FieldTypeJSON => if jsonValid text then Ok (VBytes (Some text)) else Err "invalid JSON"
  | FieldTypeFloatVector => vectorValue f text
  | t => Err ("unsupported field type " +:+ FieldTypeText t)
  end.

(** ** [FillInsertColumns] *)

(** [fields[f.Name] = f] over the schema: the last field of a name wins. *)
Definition schemaFields (fs : list SField) : gmap string SField :=
  foldl (fun m f => <[sf_Name f := f]> m) ∅ fs.

(** The columns of the statement, or every field that is not auto-ID. *)
Definition insertNames (schema : Schema) (s : Insert) : list string :=
  if negb (nonempty (ins_Columns s))
  then map sf_Name (List.filter (fun f => negb (sf_AutoID f)) (sc_Fields schema))
  else ins_Columns s.

(** The loop over the names; it returns [seen]. *)
Fixpoint checkNames (fields : gmap string SField) (names : list string) (seen : gset string)
    : res (gset string) :=
  match names with
  | [] => Ok seen
  | n :: names' =>
      match fields !! n with
      | None => Err ("unknown field " +:+ n)
      | Some f =>
          if bool_decide (n ∈ seen) then Err ("duplicate field " +:+ n)
          else if sf_AutoID f then Err ("auto-ID field " +:+ n +:+ " must be omitted")
          else checkNames fields names' ({[ n ]} ∪ seen)
      end
  end.

(** The loop that requires every field that is not auto-ID. *)
Fixpoint checkMissing (seen : gset string) (fs : list SField) : res unit :=
  match fs with
  | [] => Ok tt
  | f :: fs' =>
      if negb (sf_AutoID f) && negb (bool_decide (sf_Name f ∈ seen))
      then Err ("missing field " +:+ sf_Name f)
      else checkMissing seen fs'
  end.

(** The loop over the lengths of the rows; [i] is the index of the first row. *)
Fixpoint checkRowLengths (i : nat) (n : nat) (rows : list (list Expr)) : res unit :=
  match rows with
  | [] => Ok tt
  | row :: rows' =>
      if negb (length row =? n)%nat
      then Err ("row " +:+ formatInt (Z.of_nat i + 1) +:+ " has "
                +:+ formatInt (Z.of_nat (length row)) +:+ " values, expected "
                +:+ formatInt (Z.of_nat n))
      else checkRowLengths (S i) n rows'
  end.

(** The inner loop: one value per row is appended to the column of name [j]. *)
Fixpoint fillColumn (f : SField) (name : string) (j i : nat) (rows : list (list Expr))
    (column : Column) : res Column :=
  match rows with
  | [] => Ok column
  | row :: rows' =>
      match row !! j with
      | None => Panic "index out of range"
      | Some e =>
          v ← map_err (fun err => "field " +:+ name +:+ " row " +:+ formatInt (Z.of_nat i + 1)
                                  +:+ ": " +:+ err) (fieldValue f e);
          column' ← of_sum (AppendValue column v);
          fillColumn f name j (S i) rows' column'
      end
  end.

(** The outer loop; [fields[name]] is not nil for a checked name. *)
Fixpoint fillColumns (fields : gmap string SField) (j : nat) (names : list string)
    (rows : list (list Expr)) : res (list Column) :=
  match names with
  | [] => Ok []
  | name :: names' =>
      match fields !! name with
      | None => Panic "nil pointer dereference"
      | Some f =>
          column ← emptyColumn f;
          column' ← fillColumn f name j 0 rows column;
          columns ← fillColumns fields (S j) names' rows;
          Ok (column' :: columns)
      end
  end.
End literals.

Section insert.
Context `{U : UnicodeTables} `{F : GoFloat} `{J : GoJson} `{S : Sqlparser} `{V : Vendor}.

(** [FillInsertColumns] *)
Definition FillInsertColumns (schema : Schema) (s : Insert) : res (list Column) :=
  match ins_Rows s with
  | Values ((_ :: _) as rows) =>
      let fields := schemaFields (sc_Fields schema) in
      let names := insertNames schema s in
      seen ← checkNames fields names ∅;
      _ ← guard_err ((ins_Action s =?s ReplaceStr) && existsb sf_AutoID (sc_Fields schema))
            "upsert requires an explicit primary key; auto-ID collections are unsupported";
      _ ← checkMissing seen (sc_Fields schema);
      _ ← checkRowLengths 0 (length names) rows;
      fillColumns fields 0 names rows
  | _ => Err "INSERT requires VALUES rows"
  end.

Context {Up : @Upstream V}.

(** [id, ok := v.(int64); ok && id >= 0] of the first inserted ID. *)
Definition insertId (ids : option Column) : Z :=
  match ids with
  | Some c =>
      if ColumnLen c >? 0 then
        match ColumnGet c 0 with
        | inr (VInt64 id) => if id >=? 0 then id else 0
        | _ => 0
        end
      else 0
  | None => 0
  end.

(** [len(s.Rows.(sqlparser.Values))], which panics on other rows. *)
Definition rowCount (r : InsertRows) : M Z :=
  match r with
  | Values rows => mret (Z.of_nat (length rows))
  | OtherInsertRows _ => panicM "interface conversion"
  end.

(** [handleInsert] *)
Definition handleInsert (s : Insert) : M unit :=
  let table := tn_Name (ins_Table s) in
  _ ← checkM (negb (tn_QualifierIsEmpty (ins_Table s)) || negb (ins_Ignore s =?s "")
        || nonempty (ins_OnDup s) || nonempty (ins_Partitions s))
        (Errorf "qualified tables, IGNORE, ON DUPLICATE KEY and partition clauses are not supported");
  schema ← GetCollectinSchema table;
  columns ← lift (FillInsertColumns schema s);
  ids ← (if ins_Action s =?s ReplaceStr
         then invoke (CUpsert table "" columns) : M (option Column)
         else invoke (CInsert table "" columns) : M (option Column));
  affected ← rowCount (ins_Rows s);
  writeOK (Some (mk_Result SERVER_STATUS_NONE (insertId ids) affected None)).

(** The target of a DELETE: one unqualified table. *)
Definition deleteTarget (ts : list TableExpr) : res string :=
  match ts with
  | [AliasedTableExpr x asEmpty hintsNil] =>
      if negb asEmpty || negb hintsNil then Err "unsupported DELETE target"
      else match x with
           | TableNameExpr t =>
               if negb (tn_QualifierIsEmpty t) then Err "unsupported DELETE target"
               else Ok (tn_Name t)
           | _ => Err "unsupported DELETE target"
           end
  | [_] => Err "unsupported DELETE target"
  | _ => Err "DELETE requires one collection"
  end.

(** [handleDelete] *)
Definition handleDelete (s : Delete) : M unit :=
  let requires := "DELETE requires WHERE; multi-table, partition, ORDER BY and LIMIT are unsupported" in
  match del_Where s with
  | None => throw (Errorf requires)
  | Some cond =>
      _ ← checkM (nonempty (del_Targets s) || nonempty (del_Partitions s)
            || isSome (del_Limit s) || nonempty (del_OrderBy s)) (Errorf requires);
      table ← lift (deleteTarget (del_TableExprs s));
      filter ← lift (scalarFilter cond);
      _ ← invoke' Errorf (CDelete table "" filter);
      writeOK None
  end.
End insert.
