(* ===== verification/InsertSpec.v ===== *)
(** * Properties of INSERT, REPLACE and DELETE

    A converted literal has the type of its field and respects its bounds; the
    columns sent to Milvus are exactly the rows of the statement, transposed and
    converted, one column per field that is not auto-ID. *)
From S2P Require Export Insert DdlSpec SelectPlanSpec.
Open Scope Z_scope.
Open Scope go_scope.

(** ** Converted literals *)
Section values.
Context `{U : UnicodeTables} `{F : GoFloat} `{J : GoJson} `{V : Vendor}.

(** A float64 that is a finite number. *)
Definition finite64 (b : Z) : Prop := isNaN b = false /\ isInf b = false.

(** What a value of a field is, beyond its Go type, given what a float32 must be. *)
Definition fits_with (finite32 : Z -> Prop) (f : SField) (v : value) : Prop :=
  fitsType (sf_DataType f) v = true /\ value_wf v
  /\ match v with
     | VString s =>
         exists max, atoi (mapGet (sf_TypeParams f) "max_length") = Ok max
           /\ Z.of_nat (String.length s) <= max
     | VFloats l => Z.of_nat (length l) = atoiValue (mapGet (sf_TypeParams f) "dim")
     | VBytes s => exists text, s = Some text /\ jsonValid text = true
     | VFloat64 b => finite64 b
     | VFloat32 b => finite32 b
     | _ => True
     end.

(** A float32 is finite when the float64 it equals is. *)
Definition value_fits : SField -> value -> Prop := fits_with (fun b => finite64 (f64_of_f32 b)).
(** The conversion to float32 of what [ParseFloat] reads in 32 bits. *)
Definition parsed32 (b : Z) : Prop :=
  exists text d, parseFloat text 32 = inr d /\ b = f32_of_f64 d /\ finite64 d.

Lemma integerValue_Ok text bits conv v :
  (0 < bits)%Z -> integerValue text bits conv = Ok v -> exists n, v = conv n /\ in_range bits n.
Proof.
  intros Hb H. apply bind_Ok in H as (n & Hn & [= <-]). exists n. split; [done|].
  by eapply parseInt_bounds.
Qed.

Lemma floatValue_Ok text bits v :
  floatValue text bits = Ok v ->
  exists d, parseFloat text bits = inr d /\ finite64 d
    /\ v = if bits =? 32 then VFloat32 (f32_of_f64 d) else VFloat64 d.
Proof.
  intros H. apply bind_Ok in H as (d & Hd%of_sum_Ok & H). destruct (_ || _) eqn:E; [done|].
  bool_to_prop. injection H as <-. exists d. by split_and!.
Qed.

Lemma varcharValue_Ok f e text v :
  varcharValue f e text = Ok v ->
  v = VString text
  /\ exists max, atoi (mapGet (sf_TypeParams f) "max_length") = Ok max
       /\ Z.of_nat (String.length text) <= max.
Proof.
  unfold varcharValue. intros H. destruct e; try done. destruct Type_; try done.
  destruct (atoi _) as [max| |]; try done. destruct (_ >? _) eqn:E; [done|].
  bool_to_prop. injection H as <-. eauto.
Qed.

Lemma vectorValue_Ok f text v :
  vectorValue f text = Ok v ->
  exists l, v = VFloats l
    /\ Z.of_nat (length l) = atoiValue (mapGet (sf_TypeParams f) "dim").
Proof.
  intros H. apply bind_Ok in H as (raw & _ & H). destruct (existsb _ raw); [done|].
  apply bind_Ok in H as (l & _ & H). cbv zeta in H.
  destruct (Z.of_nat (length l) =? _) eqn:E; [|done].
  bool_to_prop. injection H as <-. eauto.
Qed.

Lemma fieldValue_fits f e v : fieldValue f e = Ok v -> fits_with parsed32 f v.
Proof.
  unfold fieldValue, fits_with. intros H. apply bind_Ok in H as (e' & _ & H).
  apply bind_Ok in H as (text & _ & H).
  destruct (sf_DataType f) eqn:Ht; try done.
  - destruct (text =?s "1"); [by injection H as <-|].
    destruct (text =?s "0"); [by injection H as <-|].
    by apply fmap_Ok in H as (b & _ & ->).
  - by apply integerValue_Ok in H as (n & -> & ?).
  - by apply integerValue_Ok in H as (n & -> & ?).
  - by apply integerValue_Ok in H as (n & -> & ?).
  - by apply integerValue_Ok in H as (n & -> & ?).
  - apply floatValue_Ok in H as (d & ? & ? & ->). split_and!; [done..|]. by exists text, d.
  - by apply floatValue_Ok in H as (d & ? & ? & ->).
  - apply varcharValue_Ok in H as (-> & max & ? & ?). cbn. eauto 6.
  - destruct (jsonValid text) eqn:E; [|done]. injection H as <-. cbn. eauto.
  - apply vectorValue_Ok in H as (l & -> & ?). done.
Qed.

Lemma parsed32_finite `{L : !GoFloatLaws F} b : parsed32 b -> finite64 (f64_of_f32 b).
Proof. intros (text & d & Hd%parseFloat_32 & -> & H). by rewrite Hd. Qed.
Lemma fits_with_impl (P Q : Z -> Prop) f v :
  (forall b, P b -> Q b) -> fits_with P f v -> fits_with Q f v.
Proof. intros HPQ (H1 & H2 & H3). split_and!; [done..|]. destruct v; auto. Qed.

Lemma vectorArgument_no_panic f e : is_panic (vectorArgument f e) = false.
Proof. unfold vectorArgument. by repeat case_match. Qed.
Lemma literalText_no_panic e : is_panic (literalText e) = false.
Proof. destruct e; try done; cbn; by repeat case_match. Qed.
Lemma parseInt_no_panic s b : is_panic (parseInt s b) = false.
Proof. apply lift_num_no_panic. Qed.
Lemma atoi_no_panic s : is_panic (atoi s) = false.
Proof. apply lift_num_no_panic. Qed.
Lemma parseBool_no_panic s : is_panic (parseBool s) = false.
Proof. unfold parseBool. by repeat case_match. Qed.

Lemma fieldValue_no_panic f e : is_panic (fieldValue f e) = false.
Proof.
  unfold fieldValue. apply bind_no_panic; [apply vectorArgument_no_panic|]. intros e' _.
  apply bind_no_panic; [apply literalText_no_panic|]. intros text _.
  assert (forall b c, is_panic (integerValue text b c) = false) as Hi.
  { intros b c. apply bind_no_panic; [apply parseInt_no_panic|done]. }
  assert (forall b, is_panic (floatValue text b) = false) as Hf.
  { intros b. apply bind_no_panic; [apply of_sum_no_panic|]. intros. by case_match. }
  destruct (sf_DataType f); auto.
  - repeat case_match; try done. by rewrite fmap_no_panic, parseBool_no_panic.
  - unfold varcharValue. by repeat case_match.
  - by case_match.
  - apply bind_no_panic; [apply of_sum_no_panic|]. intros raw _. case_match; [done|].
    apply bind_no_panic; [apply of_sum_no_panic|]. intros l _. cbv zeta. by case_match.
Qed.

Lemma emptyColumn_no_panic f : is_panic (emptyColumn f) = false.
Proof. unfold emptyColumn. by repeat case_match. Qed.
End values.

(** ** The checks of [FillInsertColumns] *)
Section checks.
Context `{U : UnicodeTables} `{F : GoFloat} `{J : GoJson}.

Lemma schemaFields_foldl fs (m : gmap string SField) n f :
  foldl (fun m f => <[sf_Name f := f]> m) m fs !! n = Some f ->
  (f ∈ fs /\ sf_Name f = n) \/ m !! n = Some f.
Proof.
  revert m; induction fs as [|g fs IH]; intros m; cbn; [auto|].
  intros [[? ?]|H]%IH; [left; split; [set_solver|done]|].
  destruct (decide (sf_Name g = n)) as [<-|Hn].
  - rewrite lookup_insert_eq in H. injection H as ->. left. split; [set_solver|done].
  - rewrite lookup_insert_ne in H by done. auto.
Qed.
Lemma schemaFields_lookup fs n f :
  schemaFields fs !! n = Some f -> f ∈ fs /\ sf_Name f = n.
Proof. by intros [?|?]%schemaFields_foldl. Qed.



Lemma checkNames_Ok fields names seen seen' :
  checkNames fields names seen = Ok seen' <->
  NoDup names /\ (forall n, n ∈ names -> n ∉ seen)
  /\ Forall (fun n => exists f, fields !! n = Some f /\ sf_AutoID f = false) names
  /\ seen' = list_to_set names ∪ seen.
Proof.
  revert seen; induction names as [|n names IH]; intros seen; cbn.
  - rewrite union_empty_l_L. split; [intros [= <-]|by intros (_ & _ & _ & ->)].
    split_and!; [constructor|set_solver|constructor|done].
  - destruct (fields !! n) as [f|] eqn:Hf.
    2: { split; [done|]. intros (_ & _ & H & _). inversion H as [|? ? (? & ? & _) _]. congruence. }
    destruct (bool_decide (n ∈ seen)) eqn:Hn; bool_to_prop.
    { split; [done|]. intros (_ & H & _). destruct (H n); [set_solver|done]. }
    destruct (sf_AutoID f) eqn:Ha.
    { split; [done|]. intros (_ & _ & H & _). inversion H as [|? ? (? & ? & ?) _]. congruence. }
    rewrite IH, NoDup_cons, Forall_cons. split.
    + intros (Hd & Hs & Hall & ->). split_and!; [|done| |by eauto|done|set_solver].
      * intros Hin. apply (Hs n Hin). set_solver.
      * intros k [->|Hk]%elem_of_cons; [done|]. specialize (Hs k Hk). set_solver.
    + intros ([Hnin Hd] & Hs & [_ Hall] & ->). split_and!; [done| |done|set_solver].
      intros k Hk. specialize (Hs k ltac:(set_solver)). set_solver.
Qed.

Lemma checkNames_no_panic fields names seen : is_panic (checkNames fields names seen) = false.
Proof. revert seen; induction names; intros; cbn; [done|]. by repeat case_match. Qed.

Lemma checkMissing_Ok seen fs u :
  checkMissing seen fs = Ok u <->
  forall f, f ∈ fs -> sf_AutoID f = false -> sf_Name f ∈ seen.
Proof.
  destruct u. induction fs as [|f fs IH]; cbn [checkMissing]; [set_solver|].
  assert ((forall g, g ∈ f :: fs -> sf_AutoID g = false -> sf_Name g ∈ seen) <->
    (sf_AutoID f = false -> sf_Name f ∈ seen)
    /\ forall g, g ∈ fs -> sf_AutoID g = false -> sf_Name g ∈ seen) as ->.
  { setoid_rewrite elem_of_cons. split; [|intros [H1 H2] g [->|Hg]; auto].
    intros H. split; intros; apply H; auto. }
  rewrite <- IH. destruct (sf_AutoID f), (bool_decide (sf_Name f ∈ seen)) eqn:Hn;
    bool_to_prop; cbn [negb andb]; intuition done.
Qed.

Lemma checkMissing_no_panic seen fs : is_panic (checkMissing seen fs) = false.
Proof. induction fs as [|f fs IH]; [done|]. cbn [checkMissing]. by destruct (_ && _). Qed.

Lemma checkRowLengths_Ok i n rows u :
  checkRowLengths i n rows = Ok u <-> Forall (fun row => length row = n) rows.
Proof.
  destruct u. revert i; induction rows as [|row rows IH]; intros i; cbn; [split; constructor|].
  rewrite Forall_cons. destruct (length row =? n)%nat eqn:E; bool_to_prop; cbn.
  - rewrite IH. naive_solver.
  - split; [done|naive_solver].
Qed.

Lemma checkRowLengths_no_panic i n rows : is_panic (checkRowLengths i n rows) = false.
Proof.
  revert i; induction rows as [|row rows IH]; intros i; [done|]. cbn [checkRowLengths].
  destruct (negb _); [done|apply IH].
Qed.
End checks.

(** ** Filling the columns *)
Section fill.
Context `{U : UnicodeTables} `{F : GoFloat} `{J : GoJson} `{V : Vendor}.

(** Value [v] is cell [j] of a row, converted to the type of field [f]. *)
Definition cell (f : SField) (j : nat) (row : list Expr) (v : value) : Prop :=
  exists e, row !! j = Some e /\ fieldValue f e = Ok v.

Lemma fillColumn_no_panic f name j i rows c :
  Forall (fun row => j < length row)%nat rows ->
  is_panic (fillColumn f name j i rows c) = false.
Proof.
  revert i c; induction rows as [|row rows IH]; intros i c; [done|].
  intros [Hj Hrows]%Forall_cons. cbn. destruct (lookup_lt_is_Some_2 row j Hj) as [e ->].
  apply bind_no_panic; [by rewrite map_err_no_panic, fieldValue_no_panic|]. intros v _.
  apply bind_no_panic; [apply of_sum_no_panic|]. intros c' _. by apply IH.
Qed.

Lemma fillColumns_no_panic fields j names rows :
  Forall (fun n => is_Some (fields !! n)) names ->
  Forall (fun row => length row = j + length names)%nat rows ->
  is_panic (fillColumns fields j names rows) = false.
Proof.
  revert j; induction names as [|n names IH]; intros j; [done|].
  intros [[f Hf] Hn]%Forall_cons Hrows. cbn in Hrows |- *. rewrite Hf.
  apply bind_no_panic; [apply emptyColumn_no_panic|]. intros c _.
  apply bind_no_panic.
  { apply fillColumn_no_panic. eapply Forall_impl; [exact Hrows|]. cbn. lia. }
  intros c' _. apply bind_no_panic; [|done]. apply IH; [done|].
  eapply Forall_impl; [exact Hrows|]. cbn. lia.
Qed.

Context `{L : !VendorLaws V}.

Lemma emptyColumn_view f c :
  emptyColumn f = Ok c ->
  cv_Name (view c) = sf_Name f /\ cv_Type (view c) = sf_DataType f /\ cv_Values (view c) = [].
Proof.
  unfold emptyColumn. intros H. destruct (sf_DataType f); try done;
    try (injection H as <-; rewrite ?view_Bool, ?view_Int8, ?view_Int16, ?view_Int32,
      ?view_Int64, ?view_Float, ?view_Double, ?view_VarChar, ?view_JSONBytes; done).
  destruct (atoi _); try done. destruct (_ <=? 0); [done|]. injection H as <-.
  by rewrite view_FloatVector.
Qed.

Lemma fillColumn_Ok f name j i rows c c' :
  cv_Type (view c) = sf_DataType f ->
  fillColumn f name j i rows c = Ok c' ->
  cv_Name (view c') = cv_Name (view c) /\ cv_Type (view c') = sf_DataType f
  /\ exists vs, cv_Values (view c') = cv_Values (view c) ++ vs /\ Forall2 (cell f j) rows vs.
Proof.
  revert i c; induction rows as [|row rows IH]; intros i c Ht; cbn.
  - intros [= <-]. split_and!; [done..|]. exists []. by rewrite app_nil_r.
  - destruct (row !! j) as [e|] eqn:He; [|done]. intros H.
    apply bind_Ok in H as (v & Hv%map_err_Ok & H).
    apply bind_Ok in H as (c1 & Hc1%of_sum_Ok & H).
    pose proof (fieldValue_fits _ _ _ Hv) as [Hfit _].
    destruct (AppendValue_fits c v) as (c2 & Hc2 & Hv2); [by rewrite Ht|].
    assert (c1 = c2) as -> by congruence.
    apply IH in H as (H1 & H2 & vs & H3 & H4); [|by rewrite Hv2].
    rewrite Hv2 in *. cbn in *. split_and!; [done..|]. exists (v :: vs).
    rewrite H3, <- app_assoc. split; [done|]. constructor; [by exists e|done].
Qed.

Lemma fillColumn_complete f name j i rows c vs :
  cv_Type (view c) = sf_DataType f -> Forall2 (cell f j) rows vs ->
  is_ok (fillColumn f name j i rows c) = true.
Proof.
  intros Ht Hvs. revert i c Ht; induction Hvs as [|row v rows vs (e & He & Hv) _ IH];
    intros i c Ht; [done|]. cbn. rewrite He, Hv. cbn.
  pose proof (fieldValue_fits _ _ _ Hv) as [Hfit _].
  destruct (AppendValue_fits c v) as (c' & -> & Hc'); [by rewrite Ht|]. cbn.
  apply IH. by rewrite Hc'.
Qed.

(** Column [c] is column [n], number [j], of the rows. *)
Definition columnOf (fields : gmap string SField) (rows : list (list Expr)) (j : nat)
    (n : string) (c : Column) : Prop :=
  exists f, fields !! n = Some f
    /\ cv_Name (view c) = sf_Name f /\ cv_Type (view c) = sf_DataType f
    /\ Forall2 (cell f j) rows (cv_Values (view c)).

Lemma fillColumns_Ok fields j names rows cs :
  fillColumns fields j names rows = Ok cs ->
  length cs = length names
  /\ forall k n c, names !! k = Some n -> cs !! k = Some c -> columnOf fields rows (j + k) n c.
Proof.
  revert j cs; induction names as [|n names IH]; intros j cs; cbn.
  - intros [= <-]. by split.
  - destruct (fields !! n) as [f|] eqn:Hf; [|done]. intros H.
    apply bind_Ok in H as (c & Hc & H). apply bind_Ok in H as (c' & Hc' & H).
    apply bind_Ok in H as (cs' & Hcs & [= <-]).
    apply emptyColumn_view in Hc as (E1 & E2 & E3).
    apply fillColumn_Ok in Hc' as (F1 & F2 & vs & F3 & F4); [|done].
    rewrite E3 in F3. cbn in F3. subst vs.
    apply IH in Hcs as [Hl Hcs]. split; [cbn; congruence|].
    intros [|k] m d; cbn.
    + intros [= <-] [= <-]. rewrite Nat.add_0_r. exists f. split_and!; congruence || done.
    + intros Hm Hd. rewrite <- Nat.add_succ_comm. by apply Hcs.
Qed.

Lemma fillColumns_emptyColumn fields j names rows cs :
  fillColumns fields j names rows = Ok cs ->
  forall n f, n ∈ names -> fields !! n = Some f -> is_ok (emptyColumn f) = true.
Proof.
  revert j cs; induction names as [|m names IH]; intros j cs; cbn.
  - intros _ n f Hn. by apply elem_of_nil in Hn.
  - destruct (fields !! m) as [g|] eqn:Hg; [|done]. intros H.
    apply bind_Ok in H as (c & Hc & H). apply bind_Ok in H as (c' & _ & H).
    apply bind_Ok in H as (cs' & Hcs & _).
    intros n f [->|Hn]%elem_of_cons Hf; [|by eapply IH].
    rewrite Hg in Hf. injection Hf as <-. by rewrite Hc.
Qed.

Lemma fillColumns_complete fields j names rows :
  (forall k n, names !! k = Some n -> exists f vs, fields !! n = Some f
     /\ is_ok (emptyColumn f) = true /\ Forall2 (cell f (j + k)) rows vs) ->
  is_ok (fillColumns fields j names rows) = true.
Proof.
  revert j; induction names as [|n names IH]; intros j H; [done|]. cbn.
  destruct (H 0%nat n eq_refl) as (f & vs & -> & Hc & Hvs). rewrite Nat.add_0_r in Hvs.
  destruct (emptyColumn f) as [c| |] eqn:Ec; try done. cbn.
  apply emptyColumn_view in Ec as (_ & Ht & _).
  pose proof (fillColumn_complete f n j 0 rows c vs Ht Hvs) as Hok.
  destruct (fillColumn f n j 0 rows c); try done. cbn.
  specialize (IH (S j)). destruct (fillColumns fields (S j) names rows); try done; cbn;
    apply IH; intros k m Hm; destruct (H (S k) m Hm) as (g & ws & ? & ? & ?);
    exists g, ws; rewrite Nat.add_succ_comm; done.
Qed.
End fill.

(** ** [FillInsertColumns] *)
Section fillInsert.
Context `{U : UnicodeTables} `{F : GoFloat} `{J : GoJson} `{P : Sqlparser} `{V : Vendor}.

(** The checks that [FillInsertColumns] makes before it converts a value. *)
Record wellShaped (schema : Schema) (s : Sqlparser.Insert) (rows : list (list Expr)) : Prop := {
  shape_rows : ins_Rows s = Values rows /\ rows <> [];
  shape_distinct : NoDup (insertNames schema s);
  shape_known : Forall (fun n => exists f, schemaFields (sc_Fields schema) !! n = Some f
                          /\ sf_AutoID f = false) (insertNames schema s);
  shape_replace : ins_Action s = ReplaceStr ->
                  forall f, f ∈ sc_Fields schema -> sf_AutoID f = false;
  shape_complete : forall f, f ∈ sc_Fields schema -> sf_AutoID f = false ->
                   sf_Name f ∈ insertNames schema s;
  shape_lengths : Forall (fun row => length row = length (insertNames schema s)) rows
}.

Lemma FillInsertColumns_shape schema s rows :
  wellShaped schema s rows ->
  FillInsertColumns schema s
  = fillColumns (schemaFields (sc_Fields schema)) 0 (insertNames schema s) rows.
Proof.
  intros [[Hr Hne] Hd Hk Hrep Hc Hl]. unfold FillInsertColumns. rewrite Hr.
  destruct rows as [|row rows]; [done|].
  assert (checkNames (schemaFields (sc_Fields schema)) (insertNames schema s) ∅
    = Ok (list_to_set (insertNames schema s) ∪ ∅)) as ->
    by (apply checkNames_Ok; split_and!; [done|set_solver|done|done]).
  cbn [mbind outcome_bind].
  assert ((ins_Action s =?s ReplaceStr) && existsb sf_AutoID (sc_Fields schema) = false) as ->.
  { apply andb_false_iff. destruct (ins_Action s =?s ReplaceStr) eqn:E; [|by left].
    right. apply not_true_is_false. intros (f & Hf & Ha)%existsb_exists.
    apply list_elem_of_In in Hf. bool_to_prop. rewrite (Hrep E f Hf) in Ha. done. }
  cbn [guard_err mbind outcome_bind].
  assert (checkMissing (list_to_set (insertNames schema s) ∪ ∅) (sc_Fields schema) = Ok tt) as ->
    by (apply checkMissing_Ok; set_solver).
  cbn [mbind outcome_bind].
  assert (checkRowLengths 0 (length (insertNames schema s)) (row :: rows) = Ok tt) as ->
    by (by apply checkRowLengths_Ok).
  done.
Qed.

Lemma FillInsertColumns_inv schema s :
  (exists e, FillInsertColumns schema s = Err e) \/ exists rows, wellShaped schema s rows.
Proof.
  unfold FillInsertColumns. destruct (ins_Rows s) as [[|row rows]|] eqn:Hr; [eauto| |eauto].
  destruct (checkNames _ _ _) as [seen|e|w] eqn:Hn; [|eauto|].
  2: { pose proof (checkNames_no_panic (schemaFields (sc_Fields schema)) (insertNames schema s) ∅)
         as H. by rewrite Hn in H. }
  apply checkNames_Ok in Hn as (Hd & _ & Hk & ->). cbn [mbind outcome_bind].
  destruct (_ && _) eqn:Hrep; cbn [guard_err mbind outcome_bind]; [eauto|].
  destruct (checkMissing _ _) as [[]|e|w] eqn:Hm; [|eauto|].
  2: { pose proof (checkMissing_no_panic (list_to_set (insertNames schema s) ∪ ∅)
         (sc_Fields schema)) as H. by rewrite Hm in H. }
  cbn [mbind outcome_bind]. destruct (checkRowLengths _ _ _) as [[]|e|w] eqn:Hl; [|eauto|].
  2: { pose proof (checkRowLengths_no_panic 0 (length (insertNames schema s)) (row :: rows)) as H.
       by rewrite Hl in H. }
  right. exists (row :: rows). constructor; try done.
  - intros Ha f Hf. rewrite Ha, String.eqb_refl in Hrep. cbn in Hrep.
    apply not_true_is_false. intros Hauto. apply not_true_iff_false in Hrep. apply Hrep.
    apply existsb_exists. exists f. by rewrite <- list_elem_of_In.
  - intros f Hf Ha. apply (proj1 (checkMissing_Ok _ _ _) Hm f Hf) in Ha. set_solver.
  - by apply checkRowLengths_Ok in Hl.
Qed.

Lemma FillInsertColumns_no_panic schema s : is_panic (FillInsertColumns schema s) = false.
Proof.
  destruct (FillInsertColumns_inv schema s) as [[e ->]|[rows Hs]]; [done|].
  rewrite (FillInsertColumns_shape _ _ _ Hs). destruct Hs as [_ _ Hk _ _ Hl].
  apply fillColumns_no_panic; [|done]. eapply Forall_impl; [exact Hk|]. naive_solver.
Qed.

Lemma FillInsertColumns_Ok schema s cs :
  FillInsertColumns schema s = Ok cs ->
  exists rows, wellShaped schema s rows
    /\ fillColumns (schemaFields (sc_Fields schema)) 0 (insertNames schema s) rows = Ok cs.
Proof.
  intros H. destruct (FillInsertColumns_inv schema s) as [[e He]|[rows Hs]]; [congruence|].
  exists rows. split; [done|]. by rewrite <- (FillInsertColumns_shape _ _ _ Hs).
Qed.
End fillInsert.

(** ** The handlers *)
Section insertHandlers.
Context `{U : UnicodeTables} `{F : GoFloat} `{J : GoJson} `{P : Sqlparser} `{V : Vendor}.
Context {Up : @Upstream V}.

Section relation.
Context (R : relation session) {HR : SessionRel R}.
Context (Hadm : forall c, isUse c = false -> admits R c).

Lemma GetCollectinSchema_obeys n : admits R (CDescribeCollection n) -> obeys R (GetCollectinSchema n).
Proof. intros H. unfold GetCollectinSchema. walk. Qed.
Lemma handleInsert_obeys s : obeys R (handleInsert s).
Proof.
  assert (forall n, obeys R (GetCollectinSchema n)) by (intros; apply GetCollectinSchema_obeys; auto).
  unfold handleInsert, rowCount. walk.
Qed.
Lemma handleDelete_obeys s : obeys R (handleDelete s).
Proof. unfold handleDelete. walk. Qed.
End relation.

Lemma GetCollectinSchema_safe n : safe (GetCollectinSchema n).
Proof. unfold GetCollectinSchema. walk_safe. Qed.

Lemma handleInsert_safe s : safe (handleInsert s).
Proof.
  unfold handleInsert. apply safe_bind; [apply safe_checkM|intros _].
  apply safe_bind; [apply GetCollectinSchema_safe|intros schema].
  apply safe_bind_lift; [apply FillInsertColumns_no_panic|]. intros cs Hcs.
  apply FillInsertColumns_Ok in Hcs as (rows & [[Hr _] _ _ _ _ _] & _).
  apply safe_bind; [destruct (_ =?s _); refine (safe_invoke _)|intros ids].
  unfold rowCount. rewrite Hr. walk_safe.
Qed.

Lemma deleteTarget_no_panic ts : is_panic (deleteTarget ts) = false.
Proof. unfold deleteTarget. by repeat case_match. Qed.

Lemma handleDelete_safe s : safe (handleDelete s).
Proof.
  unfold handleDelete. destruct (del_Where s) as [cond|]; [|apply safe_throw].
  apply safe_bind; [apply safe_checkM|intros _].
  apply safe_bind_lift; [apply deleteTarget_no_panic|intros table _].
  apply safe_bind_lift; [apply scalarFilter_no_panic|intros filter _]. walk_safe.
Qed.
End insertHandlers.

(** ** The properties of INSERT, REPLACE and DELETE *)

(** C5: an accepted INSERT sends exactly its rows.  There is one column per name,
    in order; the names are distinct, and are exactly the fields of the schema
    that are not auto-ID; column [j] has the name and type of its field and holds,
    row by row, the conversion of the row's [j]-th literal. *)
Theorem FillInsertColumns_transposes `{U : UnicodeTables} `{F : GoFloat} `{J : GoJson}
    `{P : Sqlparser} `{V : Vendor} `{L : !VendorLaws V} schema s cs :
  FillInsertColumns schema s = Ok cs ->
  exists rows,
    ins_Rows s = Values rows /\ rows <> []
    /\ NoDup (insertNames schema s) /\ length cs = length (insertNames schema s)
    /\ (forall n, n ∈ insertNames schema s <->
          exists f, f ∈ sc_Fields schema /\ sf_AutoID f = false /\ sf_Name f = n)
    /\ forall j n c, insertNames schema s !! j = Some n -> cs !! j = Some c ->
         columnOf (schemaFields (sc_Fields schema)) rows j n c.
Proof.
  intros (rows & [[Hr Hne] Hd Hk _ Hc _] & H)%FillInsertColumns_Ok.
  apply fillColumns_Ok in H as [Hl H]. exists rows. split_and!; try done.
  intros n. split; [|by intros (f & Hf & Ha & <-); apply Hc].
  intros Hn. rewrite Forall_forall in Hk. destruct (Hk n Hn) as (f & Hf & Ha).
  apply schemaFields_lookup in Hf as [Hf <-]. eauto.
Qed.

(** [INSERT INTO docs (title, id, embedding) VALUES ('x', 1, json_vector('[3,4]'))] *)
Definition sampleVector : Expr :=
  FuncExpr "json_vector" [AliasedExpr (SQLVal StrVal "[3,4]") true].
Definition sampleInsert : Sqlparser.Insert :=
  mk_Insert "insert" "" (mk_TableName "docs" true) [] ["title"; "id"; "embedding"]
    (Values [[SQLVal StrVal "x"; SQLVal IntVal "1"; sampleVector]]) [].
Definition sampleColumns : list columnView :=
  [mk_columnView "title" FieldTypeVarChar None [VString "x"];
   mk_columnView "id" FieldTypeInt64 None [VInt64 1];
   mk_columnView "embedding" FieldTypeFloatVector (Some 2) [VFloats [3; 4]]].

Lemma FillInsertColumns_transposes_witness :
  @FillInsertColumns sampleUnicode sampleFloat sampleJson (sampleSqlparser (OtherStatement ""))
    sampleVendor sampleSchema sampleInsert = Ok sampleColumns
  /\ exists rows, ins_Rows sampleInsert = Values rows /\ length rows = 1%nat.
Proof.
  split; [vm_compute; reflexivity|].
  destruct (@FillInsertColumns_transposes sampleUnicode sampleFloat sampleJson
    (sampleSqlparser (OtherStatement "")) sampleVendor _ sampleSchema sampleInsert sampleColumns
    ltac:(vm_compute; reflexivity)) as (rows & Hr & _).
  exists rows. split; [exact Hr|]. injection Hr as <-. reflexivity.
Defined.

(** C20: [FillInsertColumns] accepts exactly the inserts that fit the schema: a
    well-shaped column list and rows, a supported type for every column, and in
    every cell a literal that converts to the type of its field. *)
Theorem FillInsertColumns_accepts `{U : UnicodeTables} `{F : GoFloat} `{J : GoJson}
    `{P : Sqlparser} `{V : Vendor} `{L : !VendorLaws V} schema s :
  is_ok (FillInsertColumns schema s) = true <->
  exists rows, wellShaped schema s rows /\
    forall j n, insertNames schema s !! j = Some n ->
      exists f vs, schemaFields (sc_Fields schema) !! n = Some f
        /\ is_ok (emptyColumn f) = true /\ Forall2 (cell f j) rows vs.
Proof.
  split.
  - destruct (FillInsertColumns schema s) as [cs| |] eqn:H; [intros _|done..].
    apply FillInsertColumns_Ok in H as (rows & Hs & H). exists rows. split; [done|].
    intros j n Hn. pose proof (fillColumns_Ok _ _ _ _ _ H) as [Hl Hcs].
    pose proof (fillColumns_emptyColumn _ _ _ _ _ H) as He.
    destruct (lookup_lt_is_Some_2 cs j) as [c Hc].
    { rewrite Hl. by eapply lookup_lt_Some. }
    destruct (Hcs j n c Hn Hc) as (f & Hf & _ & _ & Hvs).
    exists f, (cv_Values (view c)). split_and!; [done| |done].
    apply (He n f); [by eapply list_elem_of_lookup_2|done].
  - intros (rows & Hs & H). rewrite (FillInsertColumns_shape _ _ _ Hs).
    by apply fillColumns_complete.
Qed.

Lemma FillInsertColumns_accepts_witness :
  exists rows, @wellShaped (sampleSqlparser (OtherStatement "")) sampleSchema sampleInsert rows.
Proof.
  destruct (proj1 (@FillInsertColumns_accepts sampleUnicode sampleFloat sampleJson
    (sampleSqlparser (OtherStatement "")) sampleVendor _ sampleSchema sampleInsert)
    ltac:(vm_compute; reflexivity)) as (rows & H & _).
  exists rows. exact H.
Defined.

(** C34: a converted literal is a value of its field: it has the Go type of the
    field's type, an integer is within the width of the field, a string within
    its [max_length], a vector has the field's dimension, a DOUBLE is a finite
    float64 and a FLOAT a finite float32, and a JSON text is valid. *)
Theorem fieldValue_sound `{U : UnicodeTables} `{F : GoFloat} `{L : !GoFloatLaws F} `{J : GoJson}
    `{V : Vendor} f e v :
  fieldValue f e = Ok v -> value_fits f v.
Proof. intros H%fieldValue_fits. eapply fits_with_impl; [apply parsed32_finite|done]. Qed.

Lemma fieldValue_sound_witness :
  let f := mk_SField "n" false false "" FieldTypeInt8 None in
  @value_fits sampleUnicode sampleFloat sampleJson f (VInt8 (-128)).
Proof.
  exact (@fieldValue_sound sampleUnicode sampleFloat _ sampleJson sampleVendor
    (mk_SField "n" false false "" FieldTypeInt8 None)
    (UnaryExpr "-" (SQLVal IntVal "128")) (VInt8 (-128)) ltac:(vm_compute; reflexivity)).
Defined.

(** The calls of an INSERT of statement [s] after the calls [before]: it reads the
    schema, then sends the columns it filled; the last call decides. *)
Definition insertCalls `{U : UnicodeTables} `{F : GoFloat} `{J : GoJson} `{P : Sqlparser}
    `{V : Vendor} {Up : @Upstream V} (s : Sqlparser.Insert) (before new : list call) : Prop :=
  let table := tn_Name (ins_Table s) in
  let filled cs :=
    exists coll schema, respond before (CDescribeCollection table) = inr (Some coll)
      /\ co_Schema coll = Some schema /\ FillInsertColumns schema s = Ok cs in
  match new with
  | [] => True
  | [c] => c = CDescribeCollection table
  | [c; CInsert t p cs] =>
      c = CDescribeCollection table /\ ins_Action s <> ReplaceStr /\ t = table /\ p = ""
      /\ filled cs
  | [c; CUpsert t p cs] =>
      c = CDescribeCollection table /\ ins_Action s = ReplaceStr /\ t = table /\ p = ""
      /\ filled cs
  | _ => False
  end.

(** C26: an INSERT or REPLACE reads the schema of its collection and then makes one
    Insert or Upsert of the columns it filled, or fails.  When it succeeds, that
    call was made, and the result reports one affected row per row of the
    statement; it never panics. *)
Theorem handleInsert_effects `{U : UnicodeTables} `{F : GoFloat} `{J : GoJson} `{P : Sqlparser}
    `{V : Vendor} {Up : @Upstream V} s st :
  is_panic (handleInsert s st).1 = false
  /\ exists new,
    s_calls (handleInsert s st).2 = s_calls st ++ new /\ insertCalls s (s_calls st) new
    /\ (is_ok (handleInsert s st).1 = true ->
        length new = 2%nat
        /\ exists rows r, ins_Rows s = Values rows
             /\ c_result (s_conn (handleInsert s st).2) = Some r
             /\ r_AffectedRows r = Z.of_nat (length rows) /\ 0 <= r_InsertId r).
Proof.
  split; [apply handleInsert_safe|].
  unfold handleInsert. destruct (_ || _) eqn:E0; cbn [checkM].
  { exists []. by rewrite app_nil_r. }
  cbv [GetCollectinSchema invoke invoke_ mbind M_bind mret M_ret throw lift].
  set (d := CDescribeCollection _).
  destruct (respond (s_calls st) d) as [e|col] eqn:Ed; [by exists [d]|].
  destruct col as [coll|]; [|by exists [d]]. cbn [option_bind].
  destruct (co_Schema coll) as [schema|] eqn:Es; [|by exists [d]].
  destruct (FillInsertColumns schema s) as [cs| |] eqn:Ef; cbn [map_err]; [|by exists [d]..].
  assert (exists coll schema, respond (s_calls st) d = inr (Some coll)
    /\ co_Schema coll = Some schema /\ FillInsertColumns schema s = Ok cs) as Hfilled.
  { by exists coll, schema. }
  pose proof (FillInsertColumns_Ok _ _ _ Ef) as (rows & [[Hr _] _ _ _ _ _] & _).
  assert (forall ids, 0 <= insertId ids) as Hid.
  { intros ids. unfold insertId. repeat (case_match; try lia). }
  destruct (ins_Action s =?s ReplaceStr) eqn:Ea; bool_to_prop; cbn [s_calls].
  - destruct (respond _ (CUpsert _ _ cs)) as [e|ids].
    + exists [d; CUpsert (tn_Name (ins_Table s)) "" cs]. rewrite <- app_assoc. done.
    + exists [d; CUpsert (tn_Name (ins_Table s)) "" cs]. unfold rowCount. rewrite Hr.
      cbn. rewrite <- app_assoc. split_and!; try done. intros _. split; [done|]. eauto 10.
  - destruct (respond _ (CInsert _ _ cs)) as [e|ids].
    + exists [d; CInsert (tn_Name (ins_Table s)) "" cs]. rewrite <- app_assoc. done.
    + exists [d; CInsert (tn_Name (ins_Table s)) "" cs]. unfold rowCount. rewrite Hr.
      cbn. rewrite <- app_assoc. split_and!; try done. intros _. split; [done|]. eauto 10.
Qed.

(** C27: a DELETE never deletes without a predicate.  [handleDelete] makes at most
    one call, a Delete on the named collection whose filter is the rendering of
    the statement's WHERE and is not empty; it succeeds exactly when Milvus accepts
    that call, and never panics. *)
Theorem handleDelete_effects `{U : UnicodeTables} `{V : Vendor} {Up : @Upstream V}
    s st :
  is_panic (handleDelete s st).1 = false
  /\ exists new,
    s_calls (handleDelete s st).2 = s_calls st ++ new
    /\ match new with
       | [] => True
       | [CDelete t p filter] =>
           exists cond, del_Where s = Some cond /\ scalarFilter cond = Ok filter /\ filter <> ""
             /\ deleteTarget (del_TableExprs s) = Ok t /\ p = ""
       | _ => False
       end
    /\ (is_ok (handleDelete s st).1 = true <->
        exists c r, new = [c] /\ respond (s_calls st) c = inr r).
Proof.
  split; [apply handleDelete_safe|].
  assert (forall e : error, exists new, s_calls st = s_calls st ++ new /\
    match new with [] => True | _ => False end
    /\ (@is_ok _ unit (Err e) = true <-> exists c r, new = [c] /\ respond (s_calls st) c = inr r))
    as Hfail.
  { intros e. exists []. rewrite app_nil_r. split_and!; try done. split; [done|].
    by intros (? & ? & ? & _). }
  assert (forall (P : list call -> Prop), P [] -> forall e : error,
    exists new, s_calls st = s_calls st ++ new /\ P new
    /\ (@is_ok _ unit (Err e) = true <-> exists c r, new = [c] /\ respond (s_calls st) c = inr r))
    as Hfail'.
  { intros P HP e. destruct (Hfail e) as ([|] & ? & ? & ?); [eauto|done]. }
  unfold handleDelete. destruct (del_Where s) as [cond|]; [|by apply Hfail'].
  destruct (_ || _); [by apply Hfail'|].
  cbv [checkM mbind M_bind mret M_ret lift throw invoke' invoke_].
  destruct (deleteTarget _) as [t|e|w] eqn:Et; [|by apply Hfail'|].
  2: { pose proof (deleteTarget_no_panic (del_TableExprs s)) as H. by rewrite Et in H. }
  destruct (scalarFilter cond) as [filter|e|w] eqn:Ef; [|by apply Hfail'|].
  2: { pose proof (scalarFilter_no_panic cond) as H. by rewrite Ef in H. }
  cbn [map_err]. exists [CDelete t "" filter].
  assert (filter <> "") by (by eapply scalarFilter_nonempty).
  destruct (respond _ (CDelete t "" filter)) as [e|r] eqn:Er; cbn.
  - split; [done|]. split; [by exists cond|]. split; [done|].
    intros (c & r & [= <-] & H'). congruence.
  - split; [done|]. split; [by exists cond|]. split; [eauto|done].
Qed.





