(* ===== verification/Select.v ===== *)
(** * Executing a SELECT ([select.go])

    [handleSelect] plans the statement, resolves its projections against the
    schema of the collection, and runs one scalar query or one vector search,
    whose columns it transposes to rows. *)
From S2P Require Export Insert.
Open Scope Z_scope.
Open Scope go_scope.

(** [resultField] *)
Definition resultField (name : string) (t : FieldType) : Field :=
  match t with
  | FieldTypeBool => mk_Field name 63 MYSQL_TYPE_TINY []
  | FieldTypeInt8 | FieldTypeInt16 | FieldTypeInt32 | FieldTypeInt64 =>
      mk_Field name 63 MYSQL_TYPE_LONGLONG []
  | FieldTypeFloat | FieldTypeDouble => mk_Field name 63 MYSQL_TYPE_DOUBLE []
  | _ => mk_Field name 33 MYSQL_TYPE_VAR_STRING []
  end.

(** A column of the result: its name and type. *)
Abbreviation projection := (string * FieldType)%type.

Section select.
Context `{U : UnicodeTables} `{F : GoFloat} `{J : GoJson} `{S : Sqlparser} `{V : Vendor}.

(** The statements without a collection: [SELECT 1], [version()], [database()]. *)
Definition dualSelect (stmt : Select) : option string :=
  match sel_From stmt, sel_SelectExprs stmt with
  | [t], [e] =>
      if (StringTableExpr t =?s "dual") && isNone (sel_Where stmt) && isNone (sel_Limit stmt)
         && (sel_Distinct stmt =?s "") && negb (nonempty (sel_GroupBy stmt))
         && isNone (sel_Having stmt) && negb (nonempty (sel_OrderBy stmt))
         && (sel_Lock stmt =?s "")
      then Some (toLower (StringSelectExpr e)) else None
  | _, _ => None
  end.

(** [var pk string]: the name of the last primary key of the schema. *)
Definition primaryKey (fs : list SField) : string :=
  foldl (fun pk f => if sf_PrimaryKey f then sf_Name f else pk) "" fs.

(** [expr.( *sqlparser.AliasedExpr).Expr.( *sqlparser.ColName).Name.String()] *)
Definition projectionName (e : SelectExpr) : res string :=
  let name := StringSelectExpr e in
  if equalFold name "count(*)" then Ok "count(*)"
  else match e with
       | AliasedExpr (ColName n _) _ => Ok n
       | _ => Panic "interface conversion"
       end.

(** One iteration of the loop over the projections. *)
Definition resolveProjection (fields : gmap string SField) (vectorField : string)
    (e : SelectExpr) : res projection :=
  name ← projectionName e;
  if name =?s "count(*)" then
    if negb (vectorField =?s "") then Err "count with vector search is unsupported"
    else Ok (name, FieldTypeInt64)
  else if (name =?s "_distance") && negb (vectorField =?s "") then Ok (name, FieldTypeFloat)
  else match fields !! name with
       | None => Err ("unknown field " +:+ name)
       | Some f => Ok (name, sf_DataType f)
       end.

(** The names and types of the result. *)
Definition resolveProjections (schema : Schema) (vectorField : string)
    (es : list SelectExpr) : res (list projection) :=
  match es with
  | [e] =>
      if StringSelectExpr e =?s "*"
      then Ok (map (fun f => (sf_Name f, sf_DataType f)) (sc_Fields schema))
      else mapM (resolveProjection (schemaFields (sc_Fields schema)) vectorField) es
  | _ => mapM (resolveProjection (schemaFields (sc_Fields schema)) vectorField) es
  end.

(** The fields asked of Milvus: each name once, without the score. *)
Fixpoint outputFields (names : list string) (vectorField : string) (seen : gset string)
    : list string :=
  match names with
  | [] => []
  | n :: names' =>
      if (negb (n =?s "_distance") || (vectorField =?s "")) && negb (bool_decide (n ∈ seen))
      then n :: outputFields names' vectorField ({[ n ]} ∪ seen)
      else outputFields names' vectorField seen
  end.

(** The [querySearchParams] of an index type. *)
Definition querySearchParams (indexType : string) (limit offset : Z) : gmap string value :=
  let t := toUpper indexType in
  if t =?s "HNSW" then
    let ef := wrap 64 (limit + offset) in
    {[ "ef" := VInt64 (if ef <? 64 then 64 else ef) ]}
  else if (t =?s "IVF_FLAT") || (t =?s "IVF_SQ8") || (t =?s "IVF_PQ")
  then {[ "nprobe" := VInt 16 ]}
  else ∅.

(** [make([][]interface{}, n)]: it panics on a negative length. *)
Definition makeRows (n : Z) : res nat :=
  if n <? 0 then Panic "makeslice: len out of range" else Ok (Z.to_nat n).

(** Row [i] of a scalar query: one value per name. *)
Definition queryCell (cols : list Column) (i : nat) (n : string) : res value :=
  match GetColumn cols n with
  | None => Err ("missing result field " +:+ n)
  | Some col => of_sum (ColumnGet col (Z.of_nat i))
  end.
Definition queryRow (cols : list Column) (names : list string) (i : nat) : res (list value) :=
  mapM (queryCell cols i) names.

(** A cell of a search result. *)
Definition searchCell (r : SearchResult) (cols : list Column) (pk : string) (i : nat)
    (n : string) : res value :=
  if n =?s "_distance" then
    match sr_Scores r !! i with
    | None => Err "incomplete search scores"
    | Some score => Ok (VFloat32 score)
    end
  else
    let col := match GetColumn cols n with
               | Some c => Some c
               | None => if n =?s pk then sr_IDs r else None
               end in
    match col with
    | None => Err ("missing result field " +:+ n)
    | Some c => of_sum (ColumnGet c (Z.of_nat i))
    end.
Definition searchRow (r : SearchResult) (cols : list Column) (pk : string)
    (names : list string) (i : nat) : res (list value) :=
  mapM (searchCell r cols pk i) names.

(** [cols = r.Fields], with the IDs when the primary key is not among them. *)
Definition searchColumns (r : SearchResult) (pk : string) : list Column :=
  match sr_IDs r, GetColumn (sr_Fields r) pk with
  | Some ids, None => sr_Fields r ++ [ids]
  | _, _ => sr_Fields r
  end.

Context {Up : @Upstream V}.

(** The closure [result]. *)
Definition selectResult (ps : list projection) (rs : list (list value)) : M unit :=
  let fields := map (fun p => resultField p.1 p.2) ps in
  r ← lift (buildResultset fields (map fst ps) rs);
  status ← gets c_status;
  writeResultset status (set_Fields fields r).

(** The vector passed to [Search]: [entity.FloatVector(v.([]float32))]. *)
Definition floatVector (v : value) : res (list Z) :=
  match v with VFloats l => Ok l | _ => Panic "interface conversion" end.

(** The metric and the parameters of a search, from the indexes of the field. *)
Definition searchIndex (plan : selectPlan) (indexes : list Index)
    : res (string * gmap string value) :=
  match indexes with
  | [] => Err "vector field has no index"
  | ix :: _ =>
      let metric := mapGet (ix_Params ix) "metric_type" in
      if metric =?s "" then Err "vector index has no metric_type"
      else Ok (metric, querySearchParams (ix_IndexType ix) (p_limit plan) (p_offset plan))
  end.

(** The branch [plan.vectorField != ""] that searches. *)
Definition selectSearch (plan : selectPlan) (fields : gmap string SField) (pk : string)
    (ps : list projection) (outputs : list string) : M unit :=
  f ← (match fields !! p_vectorField plan with
       | Some f =>
           if bool_decide (sf_DataType f = FieldTypeFloatVector) then mret f
           else throw (Errorf "search requires a FLOAT_VECTOR field")
       | None => throw (Errorf "search requires a FLOAT_VECTOR field")
       end : M SField);
  v ← lift (match p_vectorExpr plan with
            | Some e => fieldValue f e
            | None => Err "expected a literal value"
            end);
  indexes ← vectorIndexes (p_table plan) (p_vectorField plan);
  '(metric, sp) ← lift (searchIndex plan indexes);
  vec ← lift (floatVector v);
  rs ← invoke (CSearch (p_table plan) [] (p_filter plan) outputs [vec] (p_vectorField plan)
                 metric (p_limit plan) sp
                 [WithOffset (p_offset plan); WithSearchQueryConsistencyLevel ClStrong]);
  match rs with
  | [] => selectResult ps []
  | r :: _ =>
      match sr_Err r with
      | Some e => throw (Errorf e)
      | None =>
          n ← lift (makeRows (sr_ResultCount r));
          rows ← lift (mapM (searchRow r (searchColumns r pk) pk (map fst ps)) (seq 0 n));
          selectResult ps rows
      end
  end.

(** The branch that queries. *)
Definition selectQuery (stmt : Select) (plan : selectPlan) (ps : list projection)
    (outputs : list string) : M unit :=
  let count := match ps with [p] => p.1 =?s "count(*)" | _ => false end in
  _ ← checkM (count && isSome (sel_Limit stmt)) (Errorf "LIMIT on count(*) is unsupported");
  let opts := WithSearchQueryConsistencyLevel ClStrong
              :: (if count then [] else [WithLimit (p_limit plan); WithOffset (p_offset plan)]) in
  cols ← invoke (CQuery (p_table plan) [] (p_filter plan) outputs opts);
  match cols with
  | [] => selectResult ps []
  | c :: _ =>
      n ← lift (makeRows (ColumnLen c));
      rows ← lift (mapM (queryRow cols (map fst ps)) (seq 0 n));
      selectResult ps rows
  end.

(** The body of [handleSelect] after the statements on [dual]. *)
Definition selectCollection (stmt : Select) : M unit :=
  plan ← lift (planSelect stmt);
  schema ← GetCollectinSchema (p_table plan);
  let fields := schemaFields (sc_Fields schema) in
  _ ← checkM (negb (p_vectorField plan =?s "") && isSome (fields !! "_distance"))
        (Errorf "_distance is reserved for vector search scores");
  ps ← lift (resolveProjections schema (p_vectorField plan) (sel_SelectExprs stmt));
  describe ← gets c_describe;
  if (describe : bool) || (p_limit plan =? 0) then selectResult ps []
  else
    let outputs := outputFields (map fst ps) (p_vectorField plan) ∅ in
    if negb (p_vectorField plan =?s "")
    then selectSearch plan fields (primaryKey (sc_Fields schema)) ps outputs
    else selectQuery stmt plan ps outputs.

(** [handleSelect] *)
Definition handleSelect (stmt : Select) : M unit :=
  match dualSelect stmt with
  | Some expr =>
      if expr =?s "1" then rows ["1"] [[VInt64 1]]
      else if expr =?s "version()" then rows ["version"] [[VString "milvus-sql-proxy"]]
      else if (expr =?s "database()") || (expr =?s "current_database()") then
        db ← gets c_db;
        rows ["database"] [[VString db]]
      else selectCollection stmt
  | None => selectCollection stmt
  end.
End select.
