(* ===== verification/SelectSpec.v ===== *)
(** * Properties of SELECT

    [handleSelect] never panics and reads only; [selection] says which calls a
    planned SELECT makes on its collection and which rows it answers, and the
    handler is shown to refine it. *)
From S2P Require Export Select InsertSpec.
Open Scope Z_scope.
Open Scope go_scope.

Section select_lemmas.
Context `{U : UnicodeTables} `{F : GoFloat} `{J : GoJson} `{P : Sqlparser} `{V : Vendor}.

(** ** Projections *)
Lemma projectionName_no_panic `{L : !SqlparserLaws P} n e :
  planProjection n e = Ok tt -> (n = 1%nat -> StringSelectExpr e <> "*") ->
  is_panic (projectionName e) = false.
Proof.
  unfold planProjection, projectionName. intros H Hs.
  destruct e as [[]|x []|]; try done.
  - rewrite String_star in *. destruct (n =? 1)%nat eqn:E; [|done]. bool_to_prop.
    by destruct (Hs E).
  - cbn [negb] in H. by rewrite orb_true_r in H.
  - rewrite String_aliased in *. destruct (equalFold (StringExpr x) _); [done|].
    by destruct x as [| | | | |? []| | | | | |].
Qed.

Lemma resolveProjections_no_panic `{L : !SqlparserLaws P} schema vf es :
  Forall (fun e => planProjection (length es) e = Ok tt) es ->
  is_panic (resolveProjections schema vf es) = false.
Proof.
  intros Hes.
  assert (forall e, e ∈ es -> (length es = 1%nat -> StringSelectExpr e <> "*") ->
    is_panic (resolveProjection (schemaFields (sc_Fields schema)) vf e) = false) as Hr.
  { intros e He Hs. unfold resolveProjection.
    apply bind_no_panic; [|intros n _; by repeat case_match].
    eapply projectionName_no_panic; [|done]. by apply (proj1 (Forall_forall _ _) Hes). }
  unfold resolveProjections. destruct es as [|e [|e' es]]; [done| |].
  - destruct (StringSelectExpr e =?s "*") eqn:E; bool_to_prop; [done|].
    apply mapM_no_panic. intros x ->%list_elem_of_singleton. apply Hr; [set_solver|done].
  - apply mapM_no_panic. intros x Hx. by apply Hr.
Qed.

(** ** Rows *)

(** [rows] are [n] rows, with [cell i name v] for every value [v]. *)
Definition tabulates (cell : nat -> string -> value -> Prop) (names : list string) (n : nat)
    (rows : list (list value)) : Prop :=
  length rows = n
  /\ forall i row, rows !! i = Some row -> Forall2 (cell i) names row.

Lemma mapM_tabulates (cell : nat -> string -> value -> Prop) (get : nat -> string -> res value)
    names n rows :
  (forall i m v, get i m = Ok v -> cell i m v) ->
  mapM (fun i => mapM (get i) names) (seq 0 n) = Ok rows -> tabulates cell names n rows.
Proof.
  intros Hc H%mapM_Ok. split.
  - apply Forall2_length in H. by rewrite length_seq in H.
  - intros i row Hrow. destruct (Forall2_lookup_r _ _ _ _ _ H Hrow) as (k & Hk & Hm).
    apply lookup_seq in Hk as [-> _]. apply mapM_Ok in Hm.
    eapply Forall2_impl; [exact Hm|]. intros m v. apply Hc.
Qed.

(** The value of a column at a row. *)
Definition column_at (col : Column) (i : nat) (v : value) : Prop :=
  ColumnGet col (Z.of_nat i) = inr v.

(** Row [i] of a query under a name: the value at [i] of the column of that name. *)
Definition query_cell (cols : list Column) (i : nat) (n : string) (v : value) : Prop :=
  exists col, GetColumn cols n = Some col /\ column_at col i v.

(** The columns of a search result: its fields, and its IDs when no field is the
    primary key. *)
Definition result_columns (r : SearchResult) (pk : string) (cols : list Column) : Prop :=
  (exists ids, sr_IDs r = Some ids /\ GetColumn (sr_Fields r) pk = None
     /\ cols = sr_Fields r ++ [ids])
  \/ ((sr_IDs r = None \/ GetColumn (sr_Fields r) pk <> None) /\ cols = sr_Fields r).

(** Row [i] of a search under a name: score [i] for the distance; otherwise the
    value at [i] of the column of that name, or of the IDs for a primary key that
    has none. *)
Definition search_cell (r : SearchResult) (pk : string) (i : nat) (n : string) (v : value) : Prop :=
  (n = "_distance" /\ exists score, sr_Scores r !! i = Some score /\ v = VFloat32 score)
  \/ (n <> "_distance" /\ exists cols col, result_columns r pk cols /\ column_at col i v
      /\ (GetColumn cols n = Some col
          \/ (GetColumn cols n = None /\ n = pk /\ sr_IDs r = Some col))).

Lemma queryCell_spec cols i n v : queryCell cols i n = Ok v -> query_cell cols i n v.
Proof.
  unfold queryCell, query_cell. destruct (GetColumn cols n) as [col|]; [|done].
  intros H%of_sum_Ok. eauto.
Qed.
Lemma searchColumns_spec r pk : result_columns r pk (searchColumns r pk).
Proof.
  unfold searchColumns, result_columns. destruct (sr_IDs r) as [ids|]; [|by right; auto].
  destruct (GetColumn (sr_Fields r) pk); [right; split; [by right|done]|left; eauto].
Qed.
Lemma searchCell_spec r pk i n v :
  searchCell r (searchColumns r pk) pk i n = Ok v -> search_cell r pk i n v.
Proof.
  unfold searchCell, search_cell. destruct (n =?s "_distance") eqn:En; bool_to_prop.
  - destruct (sr_Scores r !! i) as [score|]; [|done]. intros [= <-]. left. eauto.
  - intros H. right. split; [done|]. exists (searchColumns r pk).
    destruct (GetColumn (searchColumns r pk) n) as [col|] eqn:Ec.
    + apply of_sum_Ok in H. exists col. split_and!; [apply searchColumns_spec|done|by left].
    + destruct (n =?s pk) eqn:Ep; bool_to_prop; [|done].
      destruct (sr_IDs r) as [col|]; [|done]. apply of_sum_Ok in H.
      exists col. split_and!; [apply searchColumns_spec|done|by right].
Qed.

Lemma queryCell_no_panic cols i n : is_panic (queryCell cols i n) = false.
Proof. unfold queryCell. case_match; [apply of_sum_no_panic|done]. Qed.
Lemma searchCell_no_panic r cols pk i n : is_panic (searchCell r cols pk i n) = false.
Proof. unfold searchCell. repeat (case_match; try done; try apply of_sum_no_panic). Qed.

Lemma makeRows_Ok n k : makeRows n = Ok k -> 0 <= n /\ k = Z.to_nat n.
Proof. unfold makeRows. destruct (n <? 0) eqn:E; [done|]. intros [= <-]. bool_to_prop. lia. Qed.
Lemma makeRows_no_panic n : 0 <= n -> is_panic (makeRows n) = false.
Proof. intros H. unfold makeRows. destruct (n <? 0) eqn:E; [bool_to_prop; lia|done]. Qed.

(** ** The fields asked of Milvus *)
Lemma outputFields_spec names vf seen n :
  n ∈ outputFields names vf seen <->
  n ∈ names /\ n ∉ seen /\ (n = "_distance" -> vf = "").
Proof.
  revert seen; induction names as [|m names IH]; intros seen; cbn.
  - set_solver.
  - destruct (negb (m =?s "_distance") || (vf =?s "")) eqn:E; cbn.
    + assert (m = "_distance" -> vf = "") as Hm.
      { intros ->. cbn in E. by bool_to_prop. }
      destruct (bool_decide (m ∈ seen)) eqn:Es; bool_to_prop; cbn.
      * rewrite IH. set_solver.
      * rewrite elem_of_cons, IH. destruct (decide (n = m)) as [->|]; set_solver.
    + bool_to_prop. subst m. rewrite IH. destruct (decide (n = "_distance")) as [->|]; [|set_solver].
      naive_solver.
Qed.

Lemma outputFields_NoDup names vf seen : NoDup (outputFields names vf seen).
Proof.
  revert seen; induction names as [|m names IH]; intros seen; cbn; [constructor|].
  destruct (_ && _) eqn:E; [|apply IH]. constructor; [|apply IH].
  rewrite outputFields_spec. set_solver.
Qed.
End select_lemmas.

(** ** The handlers, per relation *)
Section selectHandlers.
Context `{U : UnicodeTables} `{F : GoFloat} `{J : GoJson} `{P : Sqlparser} `{V : Vendor}.
Context {Up : @Upstream V}.

Section relation.
Context (R : relation session) {HR : SessionRel R}.
Context (Hadm : forall c, isUse c = false -> admits R c).

Lemma selectResult_obeys ps rs : obeys R (selectResult ps rs).
Proof.
  unfold selectResult. cbv zeta. apply obeys_bind_lift; [apply _|]. intros r Hr.
  apply buildResultset_shape in Hr as (_ & Hv & Hrows). walk_one.
  apply obeys_writeResultset; [apply _|]. unfold resultset_wf. cbn.
  by rewrite Hv, length_map, <- (length_map fst ps).
Qed.
Lemma vectorIndexes_obeys t f : obeys R (vectorIndexes t f).
Proof. unfold vectorIndexes. walk. Qed.
Lemma listIndexes_obeys t : obeys R (listIndexes t).
Proof. unfold listIndexes. walk. Qed.
Lemma selectSearch_obeys plan fields pk ps outs : obeys R (selectSearch plan fields pk ps outs).
Proof.
  pose proof vectorIndexes_obeys. pose proof selectResult_obeys. unfold selectSearch. walk.
Qed.
Lemma selectQuery_obeys stmt plan ps outs : obeys R (selectQuery stmt plan ps outs).
Proof. pose proof selectResult_obeys. unfold selectQuery. walk. Qed.
Lemma selectCollection_obeys stmt : obeys R (selectCollection stmt).
Proof.
  pose proof selectSearch_obeys. pose proof selectQuery_obeys. pose proof selectResult_obeys.
  assert (forall n, obeys R (GetCollectinSchema n)) by (intros; apply GetCollectinSchema_obeys; auto).
  unfold selectCollection. walk.
Qed.
Lemma handleSelect_obeys stmt : obeys R (handleSelect stmt).
Proof. pose proof selectCollection_obeys. unfold handleSelect. walk. Qed.
End relation.

Lemma handleSelect_describe stmt : obeys describeSafe (handleSelect stmt).
Proof.
  assert (forall n, obeys describeSafe (GetCollectinSchema n))
    by (intros; apply GetCollectinSchema_obeys; [apply _|apply describeSafe_admits]).
  assert (Hadm : forall c, isUse c = false -> admits extends c)
    by (intros; apply extends_admits).
  assert (obeys describeSafe (selectCollection stmt)) as Hc.
  { unfold selectCollection. do 4 (walk_one; cbv zeta). apply describeSafe_split.
    - pose proof (selectResult_obeys extends). pose proof (selectSearch_obeys extends Hadm).
      pose proof (selectQuery_obeys extends Hadm). walk.
    - intros s Hd. rewrite gets_bind, Hd. cbn [orb]. apply selectResult_obeys, _. }
  unfold handleSelect. walk.
Qed.

(** ** Panics *)
Lemma selectResult_safe ps rs : safe (selectResult ps rs).
Proof. unfold selectResult. pose proof buildResultset_no_panic. walk_safe. Qed.
Lemma vectorIndexes_safe t f : safe (vectorIndexes t f).
Proof. unfold vectorIndexes. walk_safe. Qed.
Lemma listIndexes_safe t : safe (listIndexes t).
Proof. unfold listIndexes. walk_safe. Qed.

Context `{LU : !UpstreamLaws Up} `{LP : !SqlparserLaws P}.

Lemma selectQuery_safe stmt plan ps outs : safe (selectQuery stmt plan ps outs).
Proof.
  unfold selectQuery. cbv zeta. apply safe_bind; [apply safe_checkM|intros _].
  apply safe_bind; [refine (safe_invoke _)|]. intros cols.
  destruct cols as [|c cols]; [apply selectResult_safe|].
  apply safe_bind_lift; [apply makeRows_no_panic, ColumnLen_nonneg|]. intros n _.
  apply safe_bind_lift; [|intros; apply selectResult_safe].
  apply mapM_no_panic. intros i _. apply mapM_no_panic. intros m _. apply queryCell_no_panic.
Qed.

Lemma fieldValue_vector f e v :
  sf_DataType f = FieldTypeFloatVector -> fieldValue f e = Ok v ->
  exists l, v = VFloats l /\ Z.of_nat (length l) = atoiValue (mapGet (sf_TypeParams f) "dim").
Proof.
  intros Ht Hv. apply fieldValue_fits in Hv as (Hf & _ & Hl). rewrite Ht in Hf.
  destruct v; try done. eauto.
Qed.

Lemma selectSearch_safe plan fields pk ps outs : safe (selectSearch plan fields pk ps outs).
Proof.
  unfold selectSearch. apply safe_bind_from.
  { walk_safe. }
  intros f s s' Hf. assert (sf_DataType f = FieldTypeFloatVector) as Ht.
  { destruct (fields !! _); [|done]. case_bool_decide; [|done]. by injection Hf as <- _. }
  clear Hf s s'. apply safe_bind_from.
  { destruct (p_vectorExpr plan); [|by apply safe_lift].
    apply safe_lift, fieldValue_no_panic. }
  intros v s s' Hv. assert (exists l, v = VFloats l) as [l ->].
  { destruct (p_vectorExpr plan) as [e|]; [|done]. injection Hv as Hv _.
    apply map_err_Ok in Hv. destruct (fieldValue_vector f e v Ht Hv) as (l & -> & _). eauto. }
  clear Hv s s'. apply safe_bind; [apply vectorIndexes_safe|]. intros ixs.
  apply safe_bind_lift.
  { unfold searchIndex. by repeat case_match. }
  intros [metric sp] _. apply safe_bind_lift; [done|]. intros vec _.
  apply safe_bind_from; [refine (safe_invoke _)|]. intros rs s s' Hrs.
  destruct rs as [|r rs]; [apply selectResult_safe|].
  destruct (sr_Err r); [apply safe_throw|].
  apply safe_bind_lift.
  { apply makeRows_no_panic. apply (invoke_Ok Errorf (CSearch _ _ _ _ _ _ _ _ _ _)) in Hrs as [Hrs _].
    eapply ResultCount_nonneg; [exact Hrs|]. apply elem_of_cons. by left. }
  intros n _. apply safe_bind_lift; [|intros; apply selectResult_safe].
  apply mapM_no_panic. intros i _. apply mapM_no_panic. intros m _. apply searchCell_no_panic.
Qed.

Lemma selectCollection_safe stmt : safe (selectCollection stmt).
Proof.
  unfold selectCollection. apply safe_bind_lift; [apply planSelect_no_panic|].
  intros plan (_ & _ & Hp & _)%planSelect_inv.
  apply safe_bind; [apply GetCollectinSchema_safe|intros schema]. cbv zeta.
  apply safe_bind; [apply safe_checkM|intros _].
  apply safe_bind_lift; [by apply resolveProjections_no_panic|]. intros ps _.
  apply safe_bind; [apply safe_gets|]. intros d.
  destruct (_ || _); [apply selectResult_safe|].
  destruct (negb _); [apply selectSearch_safe|apply selectQuery_safe].
Qed.

Lemma handleSelect_safe stmt : safe (handleSelect stmt).
Proof. pose proof selectCollection_safe. unfold handleSelect. walk_safe. Qed.
End selectHandlers.

(** ** What a SELECT on a collection does *)
Section selection.
Context `{U : UnicodeTables} `{F : GoFloat} `{J : GoJson} `{P : Sqlparser} `{V : Vendor}.
Context {Up : @Upstream V}.

(** The request for the indexes of a vector field, and the indexes it answers. *)
Definition indexCall (t f : string) : call :=
  if upstreamIsGrpc then CServiceDescribeIndex t f else CDescribeIndex t f.
Definition indexesOf (before : list call) (t f : string) (ixs : list Index) : Prop :=
  if upstreamIsGrpc then
    exists resp, respond before (CServiceDescribeIndex t f) = inr resp
      /\ statusFailed (di_Status resp) = false
      /\ ixs = map describedIndex
                 (filter (fun d => id_FieldName d = f) (di_IndexDescriptions resp))
  else respond before (CDescribeIndex t f) = inr ixs.

Definition isCount (ps : list projection) : bool :=
  match ps with [p] => p.1 =?s "count(*)" | _ => false end.

(** The calls that a planned SELECT makes after it has read the schema, and the
    rows it answers. *)
Inductive selection (stmt : Select) (plan : selectPlan) (schema : Schema)
    (ps : list projection) (describe : bool) (before : list call)
    : list call -> list (list value) -> Prop :=
| sel_metadata :
    describe || (p_limit plan =? 0) = true ->
    selection stmt plan schema ps describe before [] []
| sel_query cols c rows :
    describe || (p_limit plan =? 0) = false ->
    p_vectorField plan = "" ->
    (isCount ps = true -> sel_Limit stmt = None) ->
    c = CQuery (p_table plan) [] (p_filter plan) (outputFields (map fst ps) "" ∅)
          (WithSearchQueryConsistencyLevel ClStrong
           :: (if isCount ps then [] else [WithLimit (p_limit plan); WithOffset (p_offset plan)])) ->
    respond before (CQuery (p_table plan) [] (p_filter plan) (outputFields (map fst ps) "" ∅)
          (WithSearchQueryConsistencyLevel ClStrong
           :: (if isCount ps then [] else [WithLimit (p_limit plan); WithOffset (p_offset plan)])))
      = inr cols ->
    tabulates (query_cell cols) (map fst ps)
      (match cols with [] => 0%nat | col :: _ => Z.to_nat (ColumnLen col) end) rows ->
    selection stmt plan schema ps describe before [c] rows
| sel_search f e v ix ixs metric c rs rows :
    describe || (p_limit plan =? 0) = false ->
    p_vectorField plan <> "" ->
    schemaFields (sc_Fields schema) !! p_vectorField plan = Some f ->
    sf_DataType f = FieldTypeFloatVector ->
    p_vectorExpr plan = Some e -> fieldValue f e = Ok (VFloats v) ->
    indexesOf before (p_table plan) (p_vectorField plan) (ix :: ixs) ->
    metric = mapGet (ix_Params ix) "metric_type" -> metric <> "" ->
    c = indexCall (p_table plan) (p_vectorField plan) ->
    respond (before ++ [c])
      (CSearch (p_table plan) [] (p_filter plan)
         (outputFields (map fst ps) (p_vectorField plan) ∅) [v] (p_vectorField plan) metric
         (p_limit plan) (querySearchParams (ix_IndexType ix) (p_limit plan) (p_offset plan))
         [WithOffset (p_offset plan); WithSearchQueryConsistencyLevel ClStrong]) = inr rs ->
    match rs with
    | [] => rows = []
    | r :: _ =>
        let pk := primaryKey (sc_Fields schema) in
        sr_Err r = None
        /\ tabulates (search_cell r pk) (map fst ps)
             (Z.to_nat (sr_ResultCount r)) rows
    end ->
    selection stmt plan schema ps describe before
      [c; CSearch (p_table plan) [] (p_filter plan)
            (outputFields (map fst ps) (p_vectorField plan) ∅) [v] (p_vectorField plan) metric
            (p_limit plan) (querySearchParams (ix_IndexType ix) (p_limit plan) (p_offset plan))
            [WithOffset (p_offset plan); WithSearchQueryConsistencyLevel ClStrong]] rows.

(** The session after a result set of rows. *)
Definition answered (ps : list projection) (rows : list (list value)) (s s' : session) : Prop :=
  exists r,
    s' = on_conn (set_result (Some (mk_Result (c_status (s_conn s)) 0 0 (Some r)))) s
    /\ rs_Fields r = map (fun p => resultField p.1 p.2) ps
    /\ rs_Values r = rows /\ resultset_wf r.

Lemma selectResult_inv ps rows s s' :
  selectResult ps rows s = (Ok tt, s') -> answered ps rows s s'.
Proof.
  unfold selectResult. cbv zeta. intros H. inv_M H. injection H as <-.
  pose proof (buildResultset_shape _ _ _ _ Ha) as (Hl & Hv & Hrows).
  eexists. split; [done|]. cbn. split_and!; try done.
  unfold resultset_wf. cbn. rewrite Hv, length_map. by rewrite length_map in Hrows.
Qed.

Lemma vectorIndexes_inv t f s ixs s' :
  vectorIndexes t f s = (Ok ixs, s') ->
  indexesOf (s_calls s) t f ixs /\ s' = record_call (indexCall t f) s.
Proof.
  unfold vectorIndexes, indexesOf, indexCall. destruct upstreamIsGrpc; intros H.
  - inv_M H. destruct (statusFailed (di_Status r)) eqn:E; [done|]. injection H as <- <-. eauto.
  - by apply (invoke_inv (CDescribeIndex t f)) in H.
Qed.

(** The parts of a run, from the calls made so far. *)
Definition selected (stmt : Select) (plan : selectPlan) (schema : Schema)
    (ps : list projection) (s s' : session) : Prop :=
  exists new rows,
    selection stmt plan schema ps (c_describe (s_conn s)) (s_calls s) new rows
    /\ answered ps rows (mk_session (s_conn s) (s_calls s ++ new)) s'.

Lemma selectQuery_inv stmt plan schema ps s s' :
  c_describe (s_conn s) || (p_limit plan =? 0) = false -> p_vectorField plan = "" ->
  selectQuery stmt plan ps (outputFields (map fst ps) "" ∅) s = (Ok tt, s') ->
  selected stmt plan schema ps s s'.
Proof.
  intros Hd Hv H. unfold selectQuery in H. cbv zeta in H. fold (isCount ps) in H. inv_M H.
  assert (isCount ps = true -> sel_Limit stmt = None) as Hlim.
  { intros Hc. rewrite Hc in Ha. by destruct (sel_Limit stmt). }
  set (q := CQuery _ _ _ _ _) in *. exists [q].
  destruct r as [|col cols].
  - apply selectResult_inv in H. exists []. split; [|done].
    eapply (sel_query _ _ _ _ _ _ []); try done.
  - inv_M H. apply selectResult_inv in H. apply makeRows_Ok in Ha1 as [_ ->].
    apply (mapM_tabulates _ _ _ _ _ (queryCell_spec _)) in Ha2. eexists. split; [|exact H].
    by eapply (sel_query _ _ _ _ _ _ (col :: cols)).
Qed.

Lemma selectSearch_inv stmt plan schema ps s s' :
  c_describe (s_conn s) || (p_limit plan =? 0) = false -> p_vectorField plan <> "" ->
  selectSearch plan (schemaFields (sc_Fields schema)) (primaryKey (sc_Fields schema)) ps
    (outputFields (map fst ps) (p_vectorField plan) ∅) s = (Ok tt, s') ->
  selected stmt plan schema ps s s'.
Proof.
  intros Hd Hv H. unfold selectSearch in H.
  apply bindM_Ok in H as (f & s1 & Hf & H).
  assert (schemaFields (sc_Fields schema) !! p_vectorField plan = Some f
    /\ sf_DataType f = FieldTypeFloatVector /\ s1 = s) as (Hl & Ht & ->).
  { destruct (_ !! _); [|done]. case_bool_decide; [|done]. by injection Hf as <- <-. }
  inv_M H. destruct (p_vectorExpr plan) as [e|] eqn:He; [|done].
  destruct (fieldValue_vector f e a Ht Ha) as (v & -> & _).
  apply bindM_Ok in H as (ixs & s1 & Hix & H). apply vectorIndexes_inv in Hix as [Hix ->].
  apply bindM_Ok in H as ([metric sp] & s1 & Hm & H). apply lift_inv in Hm as [Hm ->].
  destruct ixs as [|ix ixs]; [done|]. cbn [searchIndex] in Hm.
  destruct (_ =?s _) eqn:Em in Hm; [done|]. injection Hm as <- <-.
  apply String.eqb_neq in Em.
  inv_M H. injection Ha0 as <-.
  cbn [record_call s_calls] in Ha1.
  eexists [_; _].
  destruct r as [|r rs].
  - apply selectResult_inv in H. exists [].
    split; [by eapply (sel_search _ _ _ _ _ _ f e v ix ixs _ _ [])|].
    unfold record_call in H. cbn in H.
    by rewrite <- app_assoc in H.
  - destruct (sr_Err r) eqn:Er; [done|]. inv_M H. apply selectResult_inv in H.
    apply makeRows_Ok in Ha0 as [_ ->].
    apply (mapM_tabulates _ _ _ _ _ (searchCell_spec r _)) in Ha2.
    eexists.
    split; [by eapply (sel_search _ _ _ _ _ _ f e v ix ixs _ _ (r :: rs))|]. unfold record_call in H. cbn in H.
    by rewrite <- app_assoc in H.
Qed.

Lemma GetCollectinSchema_inv n s schema s' :
  GetCollectinSchema n s = (Ok schema, s') ->
  (exists coll, respond (s_calls s) (CDescribeCollection n) = inr (Some coll)
     /\ co_Schema coll = Some schema)
  /\ s' = record_call (CDescribeCollection n) s.
Proof.
  unfold GetCollectinSchema. intros H. inv_M H.
  destruct r as [coll|]; [|done]. cbn in H.
  destruct (co_Schema coll) eqn:E; [|done]. injection H as <- <-. eauto.
Qed.

Lemma selectCollection_inv stmt s s' :
  selectCollection stmt s = (Ok tt, s') ->
  exists plan coll schema ps,
    planSelect stmt = Ok plan
    /\ respond (s_calls s) (CDescribeCollection (p_table plan)) = inr (Some coll)
    /\ co_Schema coll = Some schema
    /\ (p_vectorField plan <> "" -> schemaFields (sc_Fields schema) !! "_distance" = None)
    /\ resolveProjections schema (p_vectorField plan) (sel_SelectExprs stmt) = Ok ps
    /\ selected stmt plan schema ps (record_call (CDescribeCollection (p_table plan)) s) s'.
Proof.
  unfold selectCollection. intros H. inv_M H. rename a into plan.
  apply bindM_Ok in H as (schema & s1 & Hs & H).
  apply GetCollectinSchema_inv in Hs as [(coll & Hr & Hc) ->].
  cbv zeta in H. inv_M H. rename a into ps.
  exists plan, coll, schema, ps. split_and!; try done.
  { intros Hv. destruct (_ =?s _) eqn:E in Ha0; bool_to_prop; [done|]. cbn in Ha0.
    by destruct (_ !! _). }
  destruct (_ || _) eqn:Ed.
  { apply selectResult_inv in H. exists [], []. split; [by apply sel_metadata|].
    rewrite app_nil_r. exact H. }
  destruct (p_vectorField plan =?s "") eqn:Ev; cbn [negb] in H.
  - apply String.eqb_eq in Ev. rewrite Ev in H. by apply selectQuery_inv.
  - apply String.eqb_neq in Ev. by apply selectSearch_inv.
Qed.
End selection.

(** ** The calls of a SELECT, successful or not *)
Section bounded.
Context `{U : UnicodeTables} `{F : GoFloat} `{J : GoJson} `{P : Sqlparser} `{V : Vendor}.
Context {Up : @Upstream V}.

Definition paged (limit offset : Z) : Prop :=
  0 < limit /\ 0 <= offset /\ limit + offset <= 16384.

Definition strong : SearchOption := WithSearchQueryConsistencyLevel ClStrong.

(** What a SELECT may ask of Milvus: only reads, with bounded pages.  A Query has no
    page only when it counts, and then the statement has no LIMIT. *)
Definition boundedRead (stmt : Select) (c : call) : Prop :=
  match c with
  | CQuery _ parts _ outs opts =>
      parts = [] /\ NoDup outs
      /\ ((opts = [strong] /\ outs = ["count(*)"] /\ sel_Limit stmt = None)
          \/ exists n m, opts = [strong; WithLimit n; WithOffset m] /\ paged n m)
  | CSearch _ parts _ outs vs _ metric k sp opts =>
      parts = [] /\ NoDup outs /\ "_distance" ∉ outs /\ length vs = 1%nat /\ metric <> ""
      /\ exists m, opts = [WithOffset m; strong] /\ paged k m
           /\ forall ef, sp !! "ef" = Some (VInt64 ef) -> k + m <= ef /\ 64 <= ef
  | c => readOnly c = true
  end.

Lemma querySearchParams_ef t n m ef :
  paged n m -> querySearchParams t n m !! "ef" = Some (VInt64 ef) -> n + m <= ef /\ 64 <= ef.
Proof.
  intros (H1 & H2 & H3). unfold querySearchParams.
  rewrite wrap_id by (unfold in_range; change (2 ^ (64 - 1)) with 9223372036854775808; lia).
  destruct (_ =?s "HNSW").
  - rewrite lookup_singleton_eq. intros [= <-]. destruct (_ <? 64) eqn:E; bool_to_prop; lia.
  - destruct (_ || _); [|done]. by rewrite lookup_singleton_ne by done.
Qed.

Lemma isCount_outputs ps :
  isCount ps = true -> outputFields (map fst ps) "" ∅ = ["count(*)"].
Proof. destruct ps as [|[n t] [|]]; try done. cbn. by intros ->%String.eqb_eq. Qed.

Lemma selectQuery_bounded stmt plan ps :
  paged (p_limit plan) (p_offset plan) ->
  obeys (callsIn (boundedRead stmt))
    (selectQuery stmt plan ps (outputFields (map fst ps) "" ∅)).
Proof.
  intros Hp. unfold selectQuery. cbv zeta. fold (isCount ps).
  pose proof (selectResult_obeys (callsIn (boundedRead stmt))).
  apply obeys_bind_from; [apply _|apply obeys_checkM, _|]. intros ? s s' [E _]%checkM_inv.
  clear s s'.
  apply obeys_bind; [apply _| |intros cols; walk].
  refine (obeys_invoke _ _ _). apply callsIn_admits.
  split_and!; [done|apply outputFields_NoDup|].
  destruct (isCount ps) eqn:Ec; [left|right; by eauto].
  split_and!; [done|by apply isCount_outputs|]. by destruct (sel_Limit stmt).
Qed.

Lemma selectSearch_bounded stmt plan fields pk ps outs :
  paged (p_limit plan) (p_offset plan) -> NoDup outs -> "_distance" ∉ outs ->
  obeys (callsIn (boundedRead stmt)) (selectSearch plan fields pk ps outs).
Proof.
  intros Hp Ho Hd. unfold selectSearch.
  pose proof (selectResult_obeys (callsIn (boundedRead stmt))).
  apply obeys_bind; [apply _|walk|]. intros f. walk_one.
  apply obeys_bind; [apply _| |].
  { unfold vectorIndexes. destruct upstreamIsGrpc.
    - apply obeys_bind; [apply _|refine (obeys_invoke _ _ _); by apply callsIn_admits|].
      intros resp. walk.
    - refine (obeys_invoke _ _ _). by apply callsIn_admits. }
  intros ixs. apply obeys_bind_lift; [apply _|]. intros [metric sp] Hix.
  destruct ixs as [|ix ixs]; [done|]. cbn [searchIndex] in Hix.
  destruct (_ =?s _) eqn:Em; [done|]. injection Hix as <- <-. apply String.eqb_neq in Em.
  walk_one. apply obeys_bind; [apply _| |].
  { refine (obeys_invoke _ _ _). apply callsIn_admits. split_and!; try done.
    eexists. split; [done|]. split; [done|]. intros ef. by apply querySearchParams_ef. }
  intros rs. walk.
Qed.

Lemma selectCollection_bounded stmt :
  obeys (callsIn (boundedRead stmt)) (selectCollection stmt).
Proof.
  pose proof (selectResult_obeys (callsIn (boundedRead stmt))).
  unfold selectCollection. apply obeys_bind_lift; [apply _|]. intros plan Hplan.
  apply planSelect_inv in Hplan as (_ & _ & _ & _ & _ & Hb).
  apply obeys_bind; [apply _| |].
  { apply GetCollectinSchema_obeys; [apply _|]. by apply callsIn_admits. }
  intros schema. cbv zeta. do 3 walk_one.
  destruct (_ || _) eqn:E; [auto|]. apply orb_false_elim in E as [_ E]. apply Z.eqb_neq in E.
  assert (paged (p_limit plan) (p_offset plan)) by (unfold paged; lia).
  destruct (p_vectorField plan =?s "") eqn:Ev; cbn [negb].
  - apply String.eqb_eq in Ev. rewrite Ev. by apply selectQuery_bounded.
  - apply String.eqb_neq in Ev. apply selectSearch_bounded; [done|apply outputFields_NoDup|].
    rewrite outputFields_spec. naive_solver.
Qed.
End bounded.

(** ** The properties of SELECT *)

(** C4: a SELECT on a collection answers the rows of one Milvus query or search.
    When it succeeds: its plan was accepted and the schema of the collection was
    read; under a describe or with LIMIT 0 nothing more was asked and there are no
    rows; otherwise exactly one Query was made, with the filter, the page and the
    distinct output fields of the plan, or, for a vector predicate, the indexes of
    the field were read and one Search was made, with the converted vector and the
    metric of the field's first index.  Cell [j] of row [i] is the value at
    [i] of the column named by projection [j] (of the IDs of a search, for a primary
    key it has no column for), or score [i] for the distance, and
    the result has one typed field per projection and full rows. *)
Theorem selectCollection_refines `{U : UnicodeTables} `{F : GoFloat} `{J : GoJson}
    `{P : Sqlparser} `{V : Vendor} {Up : @Upstream V} stmt s s' :
  selectCollection stmt s = (Ok tt, s') ->
  exists plan coll schema ps,
    planSelect stmt = Ok plan
    /\ respond (s_calls s) (CDescribeCollection (p_table plan)) = inr (Some coll)
    /\ co_Schema coll = Some schema
    /\ (p_vectorField plan <> "" -> schemaFields (sc_Fields schema) !! "_distance" = None)
    /\ resolveProjections schema (p_vectorField plan) (sel_SelectExprs stmt) = Ok ps
    /\ selected stmt plan schema ps (record_call (CDescribeCollection (p_table plan)) s) s'.
Proof. apply selectCollection_inv. Qed.

(** C22: SELECT only reads, within bounds.  Every call that [handleSelect] makes,
    whether it succeeds or not, only reads; a Query or Search asks for distinct
    fields, at least one row and at most 16384 rows counted from the start, except
    the Query of [count( * )] alone without a LIMIT, which has no page; a Search
    has one vector and a metric, never asks for the score as a field, and
    its [ef] is at least 64 and covers the page. *)
Theorem handleSelect_bounded `{U : UnicodeTables} `{F : GoFloat} `{J : GoJson}
    `{P : Sqlparser} `{V : Vendor} {Up : @Upstream V} stmt s :
  exists new, s_calls (handleSelect stmt s).2 = s_calls s ++ new /\ Forall (boundedRead stmt) new.
Proof.
  enough (obeys (callsIn (boundedRead stmt)) (handleSelect stmt)) as H by apply H.
  pose proof (@selectCollection_bounded). unfold handleSelect. walk.
Qed.

(** [SELECT id, title FROM docs LIMIT 3 OFFSET 2] on the sample server *)
Definition sampleTitleSelect : Select :=
  mk_Select "" [AliasedExpr (ColName "id" true) true; AliasedExpr (ColName "title" true) true]
    [AliasedTableExpr (TableNameExpr (mk_TableName "docs" true)) true true] None [] None []
    (Some (mk_Limit (Some (SQLVal IntVal "2")) (SQLVal IntVal "3"))) "".
Definition sampleRun :=
  @selectCollection sampleUnicode sampleFloat sampleJson
    (sampleSqlparser (SelectStmt sampleTitleSelect)) sampleVendor sampleUpstream
    sampleTitleSelect (mk_session NewSession []).

Lemma sampleRun_ok : sampleRun = (Ok tt, sampleRun.2).
Proof. vm_compute. reflexivity. Qed.

Lemma selectCollection_refines_witness :
  match c_result (s_conn sampleRun.2) with
  | Some (mk_Result _ _ _ (Some r)) =>
      rs_Values r = [[VInt64 7; VString "a"]; [VInt64 8; VString "b"]]
  | _ => False
  end
  /\ exists plan, @planSelect sampleUnicode (sampleSqlparser (SelectStmt sampleTitleSelect))
       sampleTitleSelect = Ok plan.
Proof.
  split; [vm_compute; reflexivity|].
  destruct (@selectCollection_refines sampleUnicode sampleFloat sampleJson
    (sampleSqlparser (SelectStmt sampleTitleSelect)) sampleVendor sampleUpstream
    sampleTitleSelect (mk_session NewSession []) sampleRun.2 sampleRun_ok)
    as (plan & _ & _ & _ & Hp & _).
  exists plan. exact Hp.
Defined.
