(* ===== verification/Commands.v ===== *)
(** * Milvus commands ([commands.go])

    Statements of Milvus that the SQL grammar lacks are recognised by regular
    expressions before parsing.  [handleMilvusCommand] answers whether the
    statement was one of them; in the source every error it returns comes with
    [true], so an error of the monad is [(true, err)].  UPSERT goes back to
    [handleQuery], a parameter here; [Query.v] ties the knot. *)
From S2P Require Export Select.
Open Scope Z_scope.
Open Scope go_scope.

(** ** The expressions *)
Definition space : re := rchar " "%char.
Definition spaces : re := RMany isReSpace.
(** [ident], as capture group [n] *)
Definition ident (n : nat) : re := RGroup n identF.
Definition words (n : nat) (l : list string) : re := RGroup n (alts (map litF l)).

Definition lifecycleRE : re :=
  seqs [words 1 ["LOAD"; "RELEASE"; "FLUSH"]; space; alts [litF "TABLE"; litF "COLLECTION"];
        space; ident 2; REnd].
Definition describeRE : re :=
  seqs [alts [litF "DESCRIBE"; litF "DESC"]; space; ident 1; REnd].
Definition createIndexRE : re :=
  seqs [litF "CREATE INDEX "; ident 1; litF " ON "; ident 2; spaces; rchar "("%char; spaces;
        ident 3; spaces; rchar ")"%char; litF " USING ";
        words 4 ["FLAT"; "IVF_FLAT"; "HNSW"; "AUTOINDEX"; "INVERTED"];
        opt (seqs [litF " WITH"; spaces; rchar "("%char; RGroup 5 (RMany isDot);
                   rchar ")"%char]); REnd].
Definition dropIndexRE : re :=
  seqs [litF "DROP INDEX "; ident 1; litF " ON "; ident 2; REnd].
Definition showIndexesRE : re := seqs [litF "SHOW INDEXES FROM "; ident 1; REnd].
Definition partitionRE : re :=
  seqs [words 1 ["CREATE"; "DROP"; "LOAD"; "RELEASE"]; litF " PARTITION "; ident 2;
        litF " ON "; ident 3; REnd].
Definition showPartitionsRE : re := seqs [litF "SHOW PARTITIONS FROM "; ident 1; REnd].
Definition upsertRE : re :=
  seqs [litF "UPSERT"; plus isReSpace; litF "INTO"; RWordB].

(** ** CREATE INDEX *)
Section indexes.
Context `{U : UnicodeTables} `{V : Vendor}.

(** [params[k]] of a map that is not nil *)
Definition param (params : gmap string string) (k : string) : string :=
  default "" (params !! k).

(** One iteration of the loop over the options of WITH. *)
Definition indexOption (params : gmap string string) (part : string)
    : res (gmap string string) :=
  match splitOnce "="%char part with
  | None => Err "index options must be key=value"
  | Some (k, v) =>
      let key := trimSpace k in
      if negb ((key =?s "metric_type") || (key =?s "M") || (key =?s "efConstruction")
               || (key =?s "nlist"))
      then Err ("unsupported index parameter " +:+ key)
      else if isSome (params !! key) then Err "duplicate index parameter"
      else Ok (<[key := trimSet (trimSpace v) (str2 squote dquote)]> params)
  end.

Fixpoint indexOptions (params : gmap string string) (parts : list string)
    : res (gmap string string) :=
  match parts with
  | [] => Ok params
  | part :: parts' => params' ← indexOption params part; indexOptions params' parts'
  end.

(** [if params[k] == "" { params[k] = v }] *)
Definition defaultParam (k v : string) (params : gmap string string) : gmap string string :=
  if param params k =?s "" then <[k := v]> params else params.

(** The metric of an index that is not INVERTED. *)
Definition indexMetric (params : gmap string string) : res (gmap string string) :=
  if negb (param params "index_type" =?s "INVERTED") then
    let params := defaultParam "metric_type" "L2" params in
    let m := param params "metric_type" in
    if (m =?s "L2") || (m =?s "IP") || (m =?s "COSINE") then Ok params
    else Err "metric_type must be L2, IP or COSINE"
  else Ok params.

(** The defaults of the other parameters. *)
Definition indexDefaults (params : gmap string string) : gmap string string :=
  let kind := param params "index_type" in
  if kind =?s "HNSW"
  then defaultParam "efConstruction" "200" (defaultParam "M" "16" params)
  else if kind =?s "IVF_FLAT" then defaultParam "nlist" "128" params
  else params.

(** The parameters of a CREATE INDEX, from groups 4 and 5 of its expression. *)
Definition indexParams (typ options : string) : res (gmap string string) :=
  let params := {[ "index_type" := toUpper typ ]} in
  params ← (if negb (options =?s "") then indexOptions params (splitOn ","%char options)
            else Ok params);
  params ← indexMetric params;
  Ok (indexDefaults params).

(** [allowed] of [buildIndex] *)
Definition allowedParam (kind key : string) : bool :=
  (key =?s "index_type")
  || ((key =?s "metric_type") && negb (kind =?s "INVERTED"))
  || ((kind =?s "HNSW") && ((key =?s "M") || (key =?s "efConstruction")))
  || ((kind =?s "IVF_FLAT") && (key =?s "nlist")).

(** [buildIndex].  Go ranges over the map in an unspecified order: when several
    keys are not allowed, the one the error names is unspecified too. *)
Definition buildIndex (params : gmap string string) : res Index :=
  let kind := param params "index_type" in
  let metric := param params "metric_type" in
  match List.find (fun key => negb (allowedParam kind key)) (map fst (map_to_list params)) with
  | Some key => Err ("parameter " +:+ key +:+ " is not valid for " +:+ kind)
  | None =>
      if kind =?s "FLAT" then of_sum (NewIndexFlat metric)
      else if kind =?s "HNSW" then
        m ← atoi (param params "M");
        ef ← atoi (param params "efConstruction");
        of_sum (NewIndexHNSW metric m ef)
      else if kind =?s "IVF_FLAT" then
        n ← atoi (param params "nlist");
        of_sum (NewIndexIvfFlat metric n)
      else if kind =?s "AUTOINDEX" then of_sum (NewIndexAUTOINDEX metric)
      else if kind =?s "INVERTED" then
        Ok (NewGenericIndex "" kind (Some (<["index_type" := kind]> {[ "params" := "{}" ]})))
      else Err ("unsupported index type " +:+ kind)
  end.

(** [sqlIndex]: the index whose methods answer its three fields. *)
Definition sqlIndex (name kind : string) (params : gomap) : Index := mk_Index name kind params.

(** The index passed to [CreateIndex]: a [sqlIndex] over the parameters. *)
Definition commandIndex (name typ options : string) : res Index :=
  params ← indexParams typ options;
  idx ← buildIndex params;
  Ok (sqlIndex name (param params "index_type") (ix_Params idx)).
End indexes.

(** ** The commands *)
Section commands.
Context `{U : UnicodeTables} `{F : GoFloat} `{J : GoJson} `{S : Sqlparser} `{V : Vendor}.
Context {Up : @Upstream V}.

(** [if c.describe { return true, c.writeOK(nil) }], before [m] *)
Definition unlessDescribe (m : M unit) : M unit :=
  describe ← gets c_describe;
  if (describe : bool) then writeOK None else m.

(** LOAD, RELEASE and FLUSH *)
Definition lifecycleCommand (verb coll : string) : M unit :=
  let v := toUpper verb in
  _ ← (if v =?s "LOAD" then invoke' Errorf (CLoadCollection coll false)
       else if v =?s "RELEASE" then invoke' Errorf (CReleaseCollection coll)
       else if v =?s "FLUSH" then invoke' Errorf (CFlush coll false)
       else mret tt);
  writeOK None.

Definition describeNames : list string := ["Field"; "Type"; "PrimaryKey"; "AutoID"; "Parameters"].

(** The row of a field. *)
Definition describeRow (f : SField) : list value :=
  [VString (sf_Name f); VString (FieldTypeText (sf_DataType f)); VBool (sf_PrimaryKey f);
   VBool (sf_AutoID f); VString (jsonMarshalMap (sf_TypeParams f))].

(** DESCRIBE under a describe: the columns, without rows. *)
Definition describeMetadata : M unit :=
  match buildResultset [] describeNames [] with
  | Ok r =>
      let fs := <[2%nat := resultField "PrimaryKey" FieldTypeBool]>
                  (<[3%nat := resultField "AutoID" FieldTypeBool]> (rs_Fields r)) in
      status ← gets c_status;
      writeResultset status (set_Fields fs r)
  | _ => panicM "nil pointer dereference"
  end.

(** DESCRIBE *)
Definition describeCommand (coll : string) : M unit :=
  describe ← gets c_describe;
  if (describe : bool) then describeMetadata
  else
    schema ← GetCollectinSchema coll;
    rows describeNames (map describeRow (sc_Fields schema)).

(** CREATE INDEX *)
Definition createIndexCommand (name coll field typ options : string) : M unit :=
  idx ← lift (commandIndex name typ options);
  _ ← invoke' Errorf (CCreateIndex coll field idx false name);
  writeOK None.

(** DROP INDEX *)
Definition dropIndexCommand (name coll : string) : M unit :=
  _ ← invoke' Errorf (CDropIndex coll "" name);
  writeOK None.

Definition indexRow (idx : Index) : list value :=
  [VString (ix_Name idx); VString (ix_IndexType idx); VString (jsonMarshalMap (ix_Params idx))].

(** SHOW INDEXES *)
Definition showIndexesCommand (coll : string) : M unit :=
  let names := ["Name"; "Type"; "Parameters"] in
  describe ← gets c_describe;
  if (describe : bool) then rows names []
  else
    indexes ← listIndexes coll;
    rows names (map indexRow indexes).

(** CREATE, DROP, LOAD and RELEASE PARTITION *)
Definition partitionCommand (verb part coll : string) : M unit :=
  let v := toUpper verb in
  _ ← (if v =?s "CREATE" then invoke' Errorf (CCreatePartition coll part)
       else if v =?s "DROP" then invoke' Errorf (CDropPartition coll part)
       else if v =?s "LOAD" then invoke' Errorf (CLoadPartitions coll [part] false)
       else if v =?s "RELEASE" then invoke' Errorf (CReleasePartitions coll [part])
       else mret tt);
  writeOK None.

(** SHOW PARTITIONS *)
Definition showPartitionsCommand (coll : string) : M unit :=
  let names := ["Partition"] in
  describe ← gets c_describe;
  if (describe : bool) then rows names []
  else
    ps ← invoke (CShowPartitions coll) : M (list Partition);
    rows names (map (fun p => [VString (pa_Name p)]) ps).

(** [strings.TrimSpace(strings.TrimSuffix(strings.TrimSpace(sql), ";"))] *)
Definition trimStatement (sql : string) : string :=
  trimSpace (trimSuffix (trimSpace sql) ";").

(** The commands other than UPSERT: what matches [sql], if anything does. *)
Definition milvusCommand (sql : string) : option (M unit) :=
  let group m n := re_group (fst m) n in
  match re_find lifecycleRE sql with
  | Some m => Some (unlessDescribe (lifecycleCommand (group m 1%nat) (group m 2%nat)))
  | None =>
  match re_find describeRE sql with
  | Some m => Some (describeCommand (group m 1%nat))
  | None =>
  match re_find createIndexRE sql with
  | Some m => Some (unlessDescribe (createIndexCommand (group m 1%nat) (group m 2%nat)
                                      (group m 3%nat) (group m 4%nat) (group m 5%nat)))
  | None =>
  match re_find dropIndexRE sql with
  | Some m => Some (unlessDescribe (dropIndexCommand (group m 1%nat) (group m 2%nat)))
  | None =>
  match re_find showIndexesRE sql with
  | Some m => Some (showIndexesCommand (group m 1%nat))
  | None =>
  match re_find partitionRE sql with
  | Some m => Some (unlessDescribe (partitionCommand (group m 1%nat) (group m 2%nat)
                                      (group m 3%nat)))
  | None =>
  match re_find showPartitionsRE sql with
  | Some m => Some (showPartitionsCommand (group m 1%nat))
  | None => None
  end end end end end end end.

(** [handleMilvusCommand] *)
Definition handleMilvusCommand (handleQuery : string -> M unit) (sql : string) : M bool :=
  let sql := trimStatement sql in
  if matchString upsertRE sql then
    _ ← unlessDescribe (handleQuery (replaceFirst upsertRE sql "REPLACE INTO"));
    mret true
  else
    match milvusCommand sql with
    | Some m => _ ← m; mret true
    | None => mret false
    end.
End commands.
