(* ===== verification/IndexSpec.v ===== *)
(** * The index of a CREATE INDEX

    [index_spec] says which options a CREATE INDEX may have and which index of the
    SDK they describe, without the map the code collects them in; [commandIndex] is
    shown to accept exactly those and to answer that index. *)
From S2P Require Export Commands SampleMilvus SelectSpec.
Open Scope Z_scope.
Open Scope go_scope.

(** ** What the options say *)

(** A part [key=value] of the options, split at its first equals sign; blanks around
    both and quotes around the value are dropped. *)
Definition option_pair (part : string) (kv : string * string) : Prop :=
  exists a b, part = a +:+ String "=" b /\ memByte "="%char a = false
    /\ kv = (trimSpace a, trimSet (trimSpace b) (str2 squote dquote)).

(** The options of a statement: none, or parts between commas. *)
Definition spells (options : string) (pairs : list (string * string)) : Prop :=
  (options = "" /\ pairs = [])
  \/ (options <> "" /\ Forall2 option_pair (splitOn ","%char options) pairs).

(** The value given to a key, empty when there is none, and its default. *)
Fixpoint value_of (k : string) (pairs : list (string * string)) : string :=
  match pairs with
  | [] => ""
  | (k', v) :: pairs' => if decide (k' = k) then v else value_of k pairs'
  end.
Definition setting (pairs : list (string * string)) (k d : string) : string :=
  if decide (value_of k pairs = "") then d else value_of k pairs.

(** The options an index of a type takes. *)
Definition takes (kind key : string) : Prop :=
  (key = "metric_type" /\ kind <> "INVERTED")
  \/ (kind = "HNSW" /\ (key = "M" \/ key = "efConstruction"))
  \/ (kind = "IVF_FLAT" /\ key = "nlist").

Definition metrics : list string := ["L2"; "IP"; "COSINE"].

Section spec.
Context `{U : UnicodeTables} `{V : Vendor}.

(** The index of the SDK that a type and options describe. *)
Inductive index_built (pairs : list (string * string)) : string -> Index -> Prop :=
| built_flat i :
    setting pairs "metric_type" "L2" ∈ metrics ->
    NewIndexFlat (setting pairs "metric_type" "L2") = inr i -> index_built pairs "FLAT" i
| built_hnsw m ef i :
    setting pairs "metric_type" "L2" ∈ metrics ->
    atoi (setting pairs "M" "16") = Ok m -> atoi (setting pairs "efConstruction" "200") = Ok ef ->
    NewIndexHNSW (setting pairs "metric_type" "L2") m ef = inr i -> index_built pairs "HNSW" i
| built_ivf n i :
    setting pairs "metric_type" "L2" ∈ metrics ->
    atoi (setting pairs "nlist" "128") = Ok n ->
    NewIndexIvfFlat (setting pairs "metric_type" "L2") n = inr i -> index_built pairs "IVF_FLAT" i
| built_auto i :
    setting pairs "metric_type" "L2" ∈ metrics ->
    NewIndexAUTOINDEX (setting pairs "metric_type" "L2") = inr i -> index_built pairs "AUTOINDEX" i
| built_inverted :
    index_built pairs "INVERTED"
      (NewGenericIndex "" "INVERTED" (Some (<["index_type" := "INVERTED"]> {[ "params" := "{}" ]}))).

(** The index that a CREATE INDEX of a name, a type and options describes. *)
Definition index_spec (name kind options : string) (idx : Index) : Prop :=
  exists pairs i, spells options pairs /\ NoDup (map fst pairs)
    /\ Forall (takes kind) (map fst pairs)
    /\ index_built pairs kind i /\ idx = mk_Index name kind (ix_Params i).
End spec.

(** ** The map of parameters *)
Section params.
Context `{U : UnicodeTables}.

Lemma splitOnce_iff c s a b :
  splitOnce c s = Some (a, b) <-> s = a +:+ String c b /\ memByte c a = false.
Proof.
  revert a b; induction s as [|x s IH]; intros a b; cbn [splitOnce].
  - split; [done|]. intros [H _]. by destruct a.
  - destruct (x =?c c) eqn:E.
    + apply Ascii.eqb_eq in E as ->. split; [by intros [= <- <-]|]. intros [H Hm].
      destruct a as [|y a]; [by injection H as ->|]. rewrite string_app_cons in H. injection H as <- _.
      cbn in Hm. by rewrite Ascii.eqb_refl in Hm.
    + split.
      * destruct (splitOnce c s) as [[a' b']|] eqn:Es; [|done]. intros [= <- <-].
        destruct (proj1 (IH a' b') eq_refl) as [-> Hm]. split; [by rewrite string_app_cons|].
        cbn. by rewrite E.
      * intros [H Hm]. destruct a as [|y a].
        { injection H as -> _. by rewrite Ascii.eqb_refl in E. }
        rewrite string_app_cons in H. injection H as <- H. cbn in Hm.
        apply orb_false_elim in Hm as [_ Hm]. by rewrite (proj2 (IH a b) (conj H Hm)).
Qed.

Definition option_keys : list string := ["metric_type"; "M"; "efConstruction"; "nlist"].

Lemma indexOption_iff params part params' :
  indexOption params part = Ok params' <->
  exists k v, option_pair part (k, v) /\ k ∈ option_keys /\ params !! k = None
    /\ params' = <[k := v]> params.
Proof.
  unfold indexOption, option_pair. split.
  - destruct (splitOnce _ part) as [[a b]|] eqn:E; [|done]. apply splitOnce_iff in E as [-> Hm].
    cbv zeta. destruct (negb _) eqn:Ek; [done|]. destruct (params !! trimSpace a) eqn:Ep; [done|].
    intros [= <-]. exists (trimSpace a), (trimSet (trimSpace b) (str2 squote dquote)).
    split_and!; [eauto|..]; try done. apply negb_false_iff in Ek.
    rewrite !orb_true_iff, !String.eqb_eq in Ek. set_solver.
  - intros (k & v & (a & b & -> & Hm & [= -> ->]) & Hk & Hp & ->).
    rewrite (proj2 (splitOnce_iff _ _ a b) (conj eq_refl Hm)). cbv zeta. rewrite Hp.
    unfold option_keys in Hk. rewrite !elem_of_cons, elem_of_nil in Hk.
    by destruct Hk as [->|[->|[->|[->|[]]]]].
Qed.

Lemma indexOptions_iff params parts params' :
  indexOptions params parts = Ok params' <->
  exists pairs, Forall2 option_pair parts pairs /\ NoDup (map fst pairs)
    /\ Forall (fun k => k ∈ option_keys /\ params !! k = None) (map fst pairs)
    /\ params' = list_to_map pairs ∪ params.
Proof.
  revert params; induction parts as [|part parts IH]; intros params; cbn [indexOptions].
  - split.
    + intros [= <-]. exists []. split_and!; [done|constructor|constructor|]. cbn. by rewrite (left_id_L ∅ (∪)).
    + intros (pairs & H & _ & _ & ->). inversion H; subst. cbn. by rewrite (left_id_L ∅ (∪)).
  - rewrite bind_Ok. setoid_rewrite indexOption_iff. setoid_rewrite IH. split.
    + intros (p & (k & v & Hp & Hk & Hn & ->) & pairs & Hf & Hd & Ha & ->).
      assert (k ∉ map fst pairs) as Hnot.
      { intros Hin. rewrite Forall_forall in Ha. destruct (Ha k Hin) as [_ H].
        by rewrite lookup_insert_eq in H. }
      exists ((k, v) :: pairs). split_and!; [by constructor|by constructor| |].
      * constructor; [done|]. eapply Forall_impl; [exact Ha|]. intros j [Hj1 Hj2].
        split; [done|]. by apply lookup_insert_None in Hj2 as [? _].
      * cbn. rewrite <- insert_union_l. by rewrite insert_union_r by by apply not_elem_of_list_to_map_1.
    + intros (pairs & H & Hd & Ha & ->). inversion H as [|? [k v] ? pairs' Hp Hf]; subst.
      inversion Hd as [|? ? Hnot Hd']; subst. inversion Ha as [|? ? [Hk Hn] Ha']; subst.
      eexists. split; [exists k, v; by split_and!|]. exists pairs'. split_and!; [done..| |].
      * rewrite Forall_forall in Ha' |- *. intros j Hj. destruct (Ha' j Hj) as [Hj1 Hj2].
        split; [done|]. apply lookup_insert_None. split; [done|]. intros ->. done.
      * cbn. rewrite <- insert_union_l. by rewrite insert_union_r by by apply not_elem_of_list_to_map_1.
Qed.

Lemma value_of_lookup k pairs :
  default "" ((list_to_map pairs : gmap string string) !! k) = value_of k pairs.
Proof.
  induction pairs as [|[k' v] pairs IH]; [done|]. cbn. destruct (decide (k' = k)) as [->|Hne].
  - by rewrite lookup_insert_eq.
  - by rewrite lookup_insert_ne.
Qed.

(** [p] gives [k] the value [v]. *)
Lemma param_insert_ne k k' v params :
  k <> k' -> param (<[k := v]> params) k' = param params k'.
Proof. intros H. unfold param. by rewrite lookup_insert_ne. Qed.
Lemma param_insert k v params : param (<[k := v]> params) k = v.
Proof. unfold param. by rewrite lookup_insert_eq. Qed.

Lemma defaultParam_other k k' v params :
  k <> k' -> param (defaultParam k v params) k' = param params k'.
Proof. intros H. unfold defaultParam. destruct (_ =?s _); [by apply param_insert_ne|done]. Qed.
Lemma defaultParam_setting k d params pairs :
  param params k = value_of k pairs -> param (defaultParam k d params) k = setting pairs k d.
Proof.
  intros H. unfold defaultParam, setting. rewrite H.
  destruct (value_of k pairs =?s "") eqn:E; bool_to_prop; case_decide; try done.
  apply param_insert.
Qed.

(** Every key of [params] is allowed for a type. *)
Definition allowed_all (kind : string) (params : gmap string string) : Prop :=
  forall k, is_Some (params !! k) -> allowedParam kind k = true.

Lemma defaultParam_allowed kind k d params :
  allowedParam kind k = true ->
  allowed_all kind (defaultParam k d params) <-> allowed_all kind params.
Proof.
  intros Hk. unfold defaultParam, allowed_all. destruct (_ =?s _); [|done]. split; intros H j Hj.
  - apply H. destruct (decide (k = j)) as [->|]; [by rewrite lookup_insert_eq|].
    by rewrite lookup_insert_ne.
  - destruct (decide (k = j)) as [->|Hne]; [done|]. rewrite lookup_insert_ne in Hj by done. auto.
Qed.

Lemma takes_allowed kind k :
  k ∈ option_keys -> allowedParam kind k = true <-> takes kind k.
Proof.
  unfold allowedParam, takes, option_keys.
  rewrite !orb_true_iff, !andb_true_iff, !orb_true_iff, negb_true_iff, !String.eqb_eq, String.eqb_neq.
  rewrite !elem_of_cons, elem_of_nil. intros [->|[->|[->|[->|[]]]]]; intuition discriminate.
Qed.
Lemma takes_option_key kind k : takes kind k -> k ∈ option_keys.
Proof. unfold takes, option_keys. intros [[-> _]|[[_ [->| ->]]|[_ ->]]]; set_solver. Qed.

(** The parameters after the options, and after the defaults. *)
Definition given (kind : string) (pairs : list (string * string)) : gmap string string :=
  list_to_map pairs ∪ {[ "index_type" := kind ]}.
Definition completed (kind : string) (pairs : list (string * string)) : gmap string string :=
  indexDefaults (if kind =?s "INVERTED" then given kind pairs
                 else defaultParam "metric_type" "L2" (given kind pairs)).

Section given.
Context (kind : string) (pairs : list (string * string)).
Hypothesis keys : Forall (fun k => k ∈ option_keys) (map fst pairs).

Lemma given_kind : param (given kind pairs) "index_type" = kind.
Proof.
  unfold param, given. rewrite lookup_union_r; [by rewrite lookup_singleton_eq|].
  apply not_elem_of_list_to_map_1. intros H. rewrite Forall_forall in keys.
  apply keys in H. unfold option_keys in H. rewrite !elem_of_cons, elem_of_nil in H.
  by destruct H as [|[|[|[|[]]]]].
Qed.
Lemma given_value k : k <> "index_type" -> param (given kind pairs) k = value_of k pairs.
Proof.
  intros Hk. unfold param, given. rewrite <- value_of_lookup. f_equal.
  rewrite lookup_union, (lookup_singleton_ne "index_type" k) by done. by rewrite (right_id_L None _).
Qed.
Lemma given_allowed : allowed_all kind (given kind pairs) <-> Forall (takes kind) (map fst pairs).
Proof.
  unfold allowed_all. rewrite !Forall_forall in *. split.
  - intros H k Hk. apply takes_allowed; [by apply keys|]. apply H.
    unfold given. rewrite lookup_union_is_Some. left.
    destruct ((list_to_map pairs : gmap string string) !! k) eqn:E; [done|].
    by apply not_elem_of_list_to_map in E.
  - intros H k. unfold given. rewrite lookup_union_is_Some. intros [[v Hv]|[v Hv]].
    + apply elem_of_list_to_map_2 in Hv.
      assert (k ∈ map fst pairs) as Hk by (by apply (list_elem_of_fmap_2 fst) in Hv).
      apply takes_allowed; [by apply keys|by apply H].
    + apply lookup_singleton_Some in Hv as [<- _]. unfold allowedParam. by rewrite String.eqb_refl.
Qed.

Lemma metric_kind :
  param (if kind =?s "INVERTED" then given kind pairs
         else defaultParam "metric_type" "L2" (given kind pairs)) "index_type" = kind.
Proof. destruct (_ =?s _); [|rewrite defaultParam_other by done]; apply given_kind. Qed.

(** What the defaults leave. *)
Lemma indexDefaults_other k params :
  k ∉ ["M"; "efConstruction"; "nlist"] -> param (indexDefaults params) k = param params k.
Proof.
  rewrite !not_elem_of_cons. intros (H1 & H2 & H3 & _). unfold indexDefaults.
  destruct (_ =?s _); [|destruct (_ =?s _); [|done]]; by rewrite !defaultParam_other.
Qed.
Lemma completed_kind : param (completed kind pairs) "index_type" = kind.
Proof. unfold completed. rewrite indexDefaults_other by set_solver. apply metric_kind. Qed.
Lemma completed_metric :
  kind <> "INVERTED" ->
  param (completed kind pairs) "metric_type" = setting pairs "metric_type" "L2".
Proof.
  intros Hk. unfold completed. rewrite indexDefaults_other by set_solver.
  rewrite (proj2 (String.eqb_neq _ _) Hk). by apply defaultParam_setting, given_value.
Qed.
Lemma completed_hnsw :
  kind = "HNSW" ->
  param (completed kind pairs) "M" = setting pairs "M" "16"
  /\ param (completed kind pairs) "efConstruction" = setting pairs "efConstruction" "200".
Proof.
  intros Hk. pose proof given_value as Hv. unfold completed, indexDefaults.
  rewrite metric_kind. rewrite Hk in Hv |- *. cbn [String.eqb Ascii.eqb Bool.eqb].
  split; [rewrite defaultParam_other by done|]; apply defaultParam_setting;
    rewrite ?defaultParam_other by done; by apply Hv.
Qed.
Lemma completed_ivf :
  kind = "IVF_FLAT" -> param (completed kind pairs) "nlist" = setting pairs "nlist" "128".
Proof.
  intros Hk. pose proof given_value as Hv. unfold completed, indexDefaults.
  rewrite metric_kind. rewrite Hk in Hv |- *. cbn [String.eqb Ascii.eqb Bool.eqb].
  apply defaultParam_setting. rewrite defaultParam_other by done. by apply Hv.
Qed.
Lemma completed_allowed :
  allowed_all kind (completed kind pairs) <-> Forall (takes kind) (map fst pairs).
Proof.
  rewrite <- given_allowed. unfold completed, indexDefaults. rewrite metric_kind.
  assert (allowed_all kind (if kind =?s "INVERTED" then given kind pairs
      else defaultParam "metric_type" "L2" (given kind pairs)) <-> allowed_all kind (given kind pairs)) as <-.
  { destruct (kind =?s "INVERTED") eqn:E; [done|]. apply defaultParam_allowed.
    unfold allowedParam. by rewrite E. }
  destruct (kind =?s "HNSW") eqn:E1; [|destruct (kind =?s "IVF_FLAT") eqn:E2; [|done]];
    rewrite !defaultParam_allowed; try done; unfold allowedParam; by rewrite ?E1, ?E2, ?orb_true_r.
Qed.
End given.

Lemma indexMetric_iff kind pairs params :
  Forall (fun k => k ∈ option_keys) (map fst pairs) ->
  (p ← indexMetric (given kind pairs); Ok (indexDefaults p)) = Ok params <->
  (kind <> "INVERTED" -> setting pairs "metric_type" "L2" ∈ metrics)
  /\ params = completed kind pairs.
Proof.
  intros Hk. unfold indexMetric, completed. rewrite given_kind by done.
  destruct (kind =?s "INVERTED") eqn:E; bool_to_prop; cbn [negb mbind outcome_bind].
  - naive_solver.
  - cbv zeta. rewrite (defaultParam_setting _ _ _ pairs) by by apply given_value.
    unfold metrics. rewrite !elem_of_cons, elem_of_nil.
    destruct (_ || _) eqn:Em; cbn [mbind outcome_bind].
    + rewrite !orb_true_iff, !String.eqb_eq in Em. naive_solver.
    + bool_to_prop. naive_solver.
Qed.

Lemma indexParams_iff typ options params :
  indexParams typ options = Ok params <->
  exists pairs, spells options pairs /\ NoDup (map fst pairs)
    /\ Forall (fun k => k ∈ option_keys) (map fst pairs)
    /\ (toUpper typ <> "INVERTED" -> setting pairs "metric_type" "L2" ∈ metrics)
    /\ params = completed (toUpper typ) pairs.
Proof.
  unfold indexParams, spells. cbv zeta. set (kind := toUpper typ).
  assert (forall pairs : list (string * string), Forall (fun k => k ∈ option_keys
      /\ ({[ "index_type" := kind ]} : gmap string string) !! k = None) (map fst pairs)
    <-> Forall (fun k => k ∈ option_keys) (map fst pairs)) as Hnone.
  { intros pairs. split; intros H; (eapply Forall_impl; [exact H|]); [by intros k [? _]|].
    intros k Hk. split; [done|]. apply lookup_singleton_None. intros <-. unfold option_keys in Hk.
    rewrite !elem_of_cons, elem_of_nil in Hk. by destruct Hk as [|[|[|[|[]]]]]. }
  destruct (options =?s "") eqn:E; bool_to_prop; cbn [negb mbind outcome_bind].
  - pose proof (indexMetric_iff kind [] params (Forall_nil_2 _)) as H.
    unfold given in H at 1. cbn [list_to_map foldr] in H. rewrite (left_id_L ∅ (∪)) in H.
    rewrite H. split.
    + intros [Hm ->]. exists []. split_and!; [by left|apply NoDup_nil_2|apply Forall_nil_2|exact Hm|done].
    + intros (pairs & [[_ ->]|[? _]] & _ & _ & Hm & ->); done.
  - rewrite bind_Ok. setoid_rewrite indexOptions_iff. split.
    + intros (p & (pairs & Hf & Hd & Ha%Hnone & ->) & H). fold (given kind pairs) in H.
      apply indexMetric_iff in H as [Hm ->]; [|done]. exists pairs. split_and!; try done. by right.
    + intros (pairs & [[? _]|[_ Hf]] & Hd & Ha & Hm & ->); [done|].
      exists (given kind pairs). split; [exists pairs; split_and!; try done; by apply Hnone|].
      by apply indexMetric_iff.
Qed.

Context `{V : Vendor}.

(** [buildIndex], by the type. *)
Definition built_from (params : gmap string string) (kind : string) (i : Index) : Prop :=
  let metric := param params "metric_type" in
  (kind = "FLAT" /\ NewIndexFlat metric = inr i)
  \/ (kind = "HNSW" /\ exists m ef, atoi (param params "M") = Ok m
        /\ atoi (param params "efConstruction") = Ok ef /\ NewIndexHNSW metric m ef = inr i)
  \/ (kind = "IVF_FLAT" /\ exists n, atoi (param params "nlist") = Ok n
        /\ NewIndexIvfFlat metric n = inr i)
  \/ (kind = "AUTOINDEX" /\ NewIndexAUTOINDEX metric = inr i)
  \/ (kind = "INVERTED" /\ i = NewGenericIndex "" "INVERTED"
        (Some (<["index_type" := "INVERTED"]> {[ "params" := "{}" ]}))).

Lemma buildIndex_iff params i :
  buildIndex params = Ok i <->
  allowed_all (param params "index_type") params /\ built_from params (param params "index_type") i.
Proof.
  unfold buildIndex, built_from. cbv zeta. set (kind := param params "index_type").
  destruct (List.find _ _) as [key|] eqn:Hf.
  { split; [done|]. intros [H _]. apply find_some in Hf as [Hin Hk]. apply negb_true_iff in Hk.
    apply in_map_iff in Hin as ([k v] & <- & Hin). apply list_elem_of_In, elem_of_map_to_list in Hin.
    cbn in Hk. rewrite (H k) in Hk; [done|by rewrite Hin]. }
  assert (allowed_all kind params) as Hall.
  { intros k [v Hk]. apply negb_false_iff. apply (find_none _ _ Hf).
    apply in_map_iff. exists (k, v). split; [done|].
    apply list_elem_of_In. by apply elem_of_map_to_list. }
  clear Hf. clearbody kind.
  destruct (kind =?s "FLAT") eqn:E1; bool_to_prop; [subst; rewrite of_sum_Ok; naive_solver|].
  destruct (kind =?s "HNSW") eqn:E2; bool_to_prop.
  { subst. rewrite bind_Ok. setoid_rewrite bind_Ok. setoid_rewrite of_sum_Ok. naive_solver. }
  destruct (kind =?s "IVF_FLAT") eqn:E3; bool_to_prop.
  { subst. rewrite bind_Ok. setoid_rewrite of_sum_Ok. naive_solver. }
  destruct (kind =?s "AUTOINDEX") eqn:E4; bool_to_prop; [subst; rewrite of_sum_Ok; naive_solver|].
  destruct (kind =?s "INVERTED") eqn:E5; bool_to_prop; subst; naive_solver.
Qed.

Lemma built_completed kind pairs i :
  Forall (fun k => k ∈ option_keys) (map fst pairs) ->
  (kind <> "INVERTED" -> setting pairs "metric_type" "L2" ∈ metrics) ->
  built_from (completed kind pairs) kind i <-> index_built pairs kind i.
Proof.
  intros Hk Hm. pose proof (completed_metric kind pairs Hk) as Hmet. unfold built_from. cbv zeta. split.
  - intros [[-> H]|[(-> & m & ef & H1 & H2 & H)|[(-> & n & H1 & H)|[[-> H]|[-> ->]]]]].
    + rewrite Hmet in H by done. apply built_flat; auto.
    + destruct (completed_hnsw _ pairs Hk eq_refl) as [E1 E2]. rewrite Hmet in H by done.
      rewrite E1 in H1. rewrite E2 in H2. eapply built_hnsw; eauto.
    + rewrite (completed_ivf _ pairs Hk eq_refl) in H1. rewrite Hmet in H by done.
      eapply built_ivf; eauto.
    + rewrite Hmet in H by done. apply built_auto; auto.
    + apply built_inverted.
  - intros Hi. revert Hmet. destruct Hi as [j _ H|m ef j _ H1 H2 H|n j _ H1 H|j _ H|]; intros Hmet.
    + left. by rewrite Hmet.
    + right; left. split; [done|]. destruct (completed_hnsw _ pairs Hk eq_refl) as [E1 E2].
      exists m, ef. rewrite E1, E2, Hmet by done. by split_and!.
    + right; right; left. split; [done|]. exists n.
      rewrite (completed_ivf _ pairs Hk eq_refl), Hmet by done. by split.
    + right; right; right; left. by rewrite Hmet.
    + by right; right; right; right.
Qed.
Lemma index_built_metric pairs kind i :
  index_built pairs kind i -> kind <> "INVERTED" -> setting pairs "metric_type" "L2" ∈ metrics.
Proof. by destruct 1. Qed.

Lemma commandIndex_iff name typ options idx :
  commandIndex name typ options = Ok idx <-> index_spec name (toUpper typ) options idx.
Proof.
  unfold commandIndex, index_spec, sqlIndex. rewrite bind_Ok. split.
  - intros (p & (pairs & Hsp & Hd & Hk & Hm & ->)%indexParams_iff & H).
    apply bind_Ok in H as (i & [Ha Hb]%buildIndex_iff & [= <-]).
    rewrite completed_kind in * by done. exists pairs, i.
    apply completed_allowed in Ha; [|done]. apply built_completed in Hb; [|done..]. by split_and!.
  - intros (pairs & i & Hsp & Hd & Ht & Hb & ->).
    assert (Forall (fun k => k ∈ option_keys) (map fst pairs)) as Hk.
    { eapply Forall_impl; [exact Ht|]. apply takes_option_key. }
    pose proof (index_built_metric _ _ _ Hb) as Hm.
    exists (completed (toUpper typ) pairs). split; [by apply indexParams_iff; exists pairs|].
    apply bind_Ok. exists i. rewrite completed_kind by done. split; [|done].
    apply buildIndex_iff. rewrite completed_kind by done.
    by split; [apply completed_allowed|apply built_completed].
Qed.
End params.

(** ** The property *)

(** C35: CREATE INDEX accepts exactly the options its type takes, and sends the index
    they describe.  The options are parts [key=value] between commas, with distinct
    keys, each one that the type takes: [metric_type] for every type but INVERTED,
    [M] and [efConstruction] for HNSW, [nlist] for IVF_FLAT; the metric is L2, IP or
    COSINE, by default L2, and the numbers are integers, by default 16, 200 and 128.
    The index sent has the name and the type of the statement, in upper case, and
    the parameters of the SDK's index of that type for those values. *)
Theorem commandIndex_exact `{U : UnicodeTables} `{V : Vendor} name typ options idx :
  commandIndex name typ options = Ok idx <-> index_spec name (toUpper typ) options idx.
Proof. apply commandIndex_iff. Qed.

Definition sampleHnsw : Index :=
  mk_Index "ix" "HNSW" (Some (<["M" := "16"]> {[ "metric_type" := "IP" ]})).

Lemma commandIndex_exact_witness :
  exists pairs, spells "metric_type='IP'" pairs /\ Forall (takes "HNSW") (map fst pairs).
Proof.
  destruct (proj1 (@commandIndex_exact sampleUnicode sampleVendor "ix" "hnsw" "metric_type='IP'"
    sampleHnsw) ltac:(vm_compute; reflexivity)) as (pairs & i & H1 & _ & H2 & _).
  exists pairs. split; [exact H1|exact H2].
Defined.
