(* ===== verification/CommandsSpec.v ===== *)
(** * What a Milvus command asks for

    [command] is the syntax of the statements that are recognised before parsing and
    [says] their spelling, without regular expressions; [asks] is the one call each
    makes.  [mat] is the meaning of an expression with its captures, against which
    the matcher is shown sound and complete, and from which each expression is shown
    to recognise exactly the statements of its commands. *)
From S2P Require Export Commands InsertSpec IndexSpec SampleMilvus.
Open Scope Z_scope.
Open Scope go_scope.

(** ** The syntax *)

(** A keyword, in either case; U+017F and U+212A fold to [s] and [k]. *)
Fixpoint spelled (w : string) (t : list rune) : Prop :=
  match w, t with
  | EmptyString, [] => True
  | String c w', x :: t' => foldEq (rn x) (zc c) = true /\ spelled w' t'
  | _, _ => False
  end.

(** An identifier: a letter or an underscore, then letters, digits and underscores. *)
Definition identifier (t : list rune) : Prop :=
  exists x l, t = x :: l /\ identStartF (rn x) = true
    /\ Forall (fun y => identRestF (rn y) = true) l.

Inductive piece :=
| Word (w : string)   (* a keyword, with the blanks around it *)
| Name (s : string)   (* an identifier, as it stands in the statement *)
| Blanks              (* any number of blanks *)
| Text (s : string).  (* text on one line *)

Definition piece_of (e : piece) (t : list rune) : Prop :=
  match e with
  | Word w => spelled w t
  | Name s => identifier t /\ s = bytes_of t
  | Blanks => Forall (fun x => isReSpace (rn x) = true) t
  | Text s => Forall (fun x => isDot (rn x) = true) t /\ s = bytes_of t
  end.
Fixpoint phrase (es : list piece) (t : list rune) : Prop :=
  match es with
  | [] => t = []
  | e :: es' => exists t1 t2, t = t1 ++ t2 /\ piece_of e t1 /\ phrase es' t2
  end.

(** The statements, with the names in them; an index has the keyword of its type. *)
Inductive command :=
| LoadCollection (coll : string)
| ReleaseCollection (coll : string)
| FlushCollection (coll : string)
| DescribeCollection (coll : string)
| CreateIndex (name coll field typ options : string)
| DropIndex (name coll : string)
| ShowIndexes (coll : string)
| CreatePartition (part coll : string)
| DropPartition (part coll : string)
| LoadPartition (part coll : string)
| ReleasePartition (part coll : string)
| ShowPartitions (coll : string).

Definition indexTypes : list string := ["FLAT"; "IVF_FLAT"; "HNSW"; "AUTOINDEX"; "INVERTED"].

(** LOAD TABLE name, LOAD COLLECTION name *)
Definition lifecycle (verb coll : string) (t : list rune) : Prop :=
  phrase [Word verb; Word " "; Word "TABLE"; Word " "; Name coll] t
  \/ phrase [Word verb; Word " "; Word "COLLECTION"; Word " "; Name coll] t.
Definition partition (verb part coll : string) (t : list rune) : Prop :=
  phrase [Word verb; Word " PARTITION "; Name part; Word " ON "; Name coll] t.

(** CREATE INDEX name ON coll (field) USING typ [WITH (options)] *)
Definition withOptions (options : string) : list piece :=
  [Word " WITH"; Blanks; Word "("; Text options; Word ")"].
Definition createIndex (name coll field typ : string) (rest : list piece) : list piece :=
  [Word "CREATE INDEX "; Name name; Word " ON "; Name coll; Blanks; Word "("; Blanks;
   Name field; Blanks; Word ")"; Word " USING "; Word typ] ++ rest.

(** The spelling of a command. *)
Definition says (cmd : command) (t : list rune) : Prop :=
  match cmd with
  | LoadCollection coll => lifecycle "LOAD" coll t
  | ReleaseCollection coll => lifecycle "RELEASE" coll t
  | FlushCollection coll => lifecycle "FLUSH" coll t
  | DescribeCollection coll =>
      phrase [Word "DESCRIBE"; Word " "; Name coll] t \/ phrase [Word "DESC"; Word " "; Name coll] t
  | CreateIndex name coll field typ options =>
      typ ∈ indexTypes
      /\ (phrase (createIndex name coll field typ (withOptions options)) t
          \/ options = "" /\ phrase (createIndex name coll field typ []) t)
  | DropIndex name coll => phrase [Word "DROP INDEX "; Name name; Word " ON "; Name coll] t
  | ShowIndexes coll => phrase [Word "SHOW INDEXES FROM "; Name coll] t
  | CreatePartition part coll => partition "CREATE" part coll t
  | DropPartition part coll => partition "DROP" part coll t
  | LoadPartition part coll => partition "LOAD" part coll t
  | ReleasePartition part coll => partition "RELEASE" part coll t
  | ShowPartitions coll => phrase [Word "SHOW PARTITIONS FROM "; Name coll] t
  end.

(** The call a command makes. *)
Section asks.
Context `{U : UnicodeTables} `{V : Vendor} {Up : @Upstream V}.

Inductive asks : command -> call -> Prop :=
| asks_load coll : asks (LoadCollection coll) (CLoadCollection coll false)
| asks_release coll : asks (ReleaseCollection coll) (CReleaseCollection coll)
| asks_flush coll : asks (FlushCollection coll) (CFlush coll false)
| asks_describe coll : asks (DescribeCollection coll) (CDescribeCollection coll)
| asks_create_index name coll field typ options idx :
    index_spec name typ options idx ->
    asks (CreateIndex name coll field typ options) (CCreateIndex coll field idx false name)
| asks_drop_index name coll : asks (DropIndex name coll) (CDropIndex coll "" name)
| asks_indexes coll :
    upstreamIsGrpc = true -> asks (ShowIndexes coll) (CServiceDescribeIndex coll "")
| asks_create_partition part coll : asks (CreatePartition part coll) (CCreatePartition coll part)
| asks_drop_partition part coll : asks (DropPartition part coll) (CDropPartition coll part)
| asks_load_partition part coll : asks (LoadPartition part coll) (CLoadPartitions coll [part] false)
| asks_release_partition part coll :
    asks (ReleasePartition part coll) (CReleasePartitions coll [part])
| asks_partitions coll : asks (ShowPartitions coll) (CShowPartitions coll).
End asks.

(** ** Matches with captures *)

(** [r] matches [t] before [rest], and turns the captures [cs] into [cs']. *)
Fixpoint mat (r : re) (cs : caps) (t rest : list rune) (cs' : caps) : Prop :=
  match r with
  | RClass f => exists x, t = [x] /\ f (rn x) = true /\ cs' = cs
  | RMany f => Forall (fun x => f (rn x) = true) t /\ cs' = cs
  | REps => t = [] /\ cs' = cs
  | RSeq a b =>
      exists t1 t2 c1, t = t1 ++ t2 /\ mat a cs t1 (t2 ++ rest) c1 /\ mat b c1 t2 rest cs'
  | RAlt a b => mat a cs t rest cs' \/ mat b cs t rest cs'
  | RGroup n a => exists c1, mat a cs t rest c1 /\ cs' = <[n := bytes_of t]> c1
  | RWordB => t = [] /\ cs' = cs
  | REnd => t = [] /\ rest = [] /\ cs' = cs
  end.
Fixpoint noWordB (r : re) : bool :=
  match r with
  | RSeq a b | RAlt a b => noWordB a && noWordB b
  | RGroup _ a => noWordB a
  | RWordB => false
  | _ => true
  end.

Lemma between_pos_app (b t rest : list rune) :
  between_pos (b, t ++ rest) (reverse t ++ b, rest) = bytes_of t.
Proof.
  unfold between_pos. cbn [fst snd]. rewrite length_app, Nat.add_sub.
  by rewrite take_app_length, reverse_involutive.
Qed.

Lemma rmatch_mat {R} r b a cs (k : pos -> caps -> option R) y :
  rmatch r (b, a) cs k = Some y ->
  exists t rest cs', a = t ++ rest /\ mat r cs t rest cs'
    /\ k (reverse t ++ b, rest) cs' = Some y.
Proof.
  revert b a cs k; induction r as [f|f| |r1 IH1 r2 IH2|r1 IH1 r2 IH2|n r IH| |];
    intros b a cs k; cbn [rmatch fst snd mat].
  - destruct a as [|x a]; [done|]. destruct (f (rn x)) eqn:Hf; [|done].
    intros H. exists [x], a, cs. eauto 10.
  - intros (xs & a' & Hall & -> & Hk)%many_sound. exists xs, a', cs. eauto.
  - intros H. exists [], a, cs. eauto.
  - intros (t1 & r1' & c1 & -> & H1 & H)%IH1. apply IH2 in H as (t2 & rest & c2 & -> & H2 & H).
    exists (t1 ++ t2), rest, c2. rewrite reverse_app, <- !app_assoc. eauto 12.
  - destruct (rmatch r1 _ cs k) eqn:E.
    + intros [= ->]. apply IH1 in E as (t & rest & c & -> & H1 & H). exists t, rest, c. eauto.
    + intros (t & rest & c & -> & H1 & H)%IH2. exists t, rest, c. eauto.
  - intros (t & rest & c & -> & H1 & H)%IH. rewrite between_pos_app in H. eauto 10.
  - destruct (atWordB _); [|done]. intros H. exists [], a, cs. eauto.
  - destruct a; [|done]. intros H. exists [], [], cs. eauto 10.
Qed.

Lemma mat_den r b cs t rest cs' :
  noWordB r = true -> mat r cs t rest cs' -> den r (b, t ++ rest) (reverse t ++ b, rest).
Proof.
  revert b cs t rest cs'; induction r as [f|f| |r1 IH1 r2 IH2|r1 IH1 r2 IH2|n r IH| |];
    intros b cs t rest cs'; cbn [noWordB mat den fst snd]; intros Hw.
  - intros (x & -> & Hf & _). exists x, rest. by split_and!.
  - intros [Hf _]. by exists t.
  - by intros [-> _].
  - apply andb_prop in Hw as [W1 W2]. intros (t1 & t2 & c1 & -> & H1 & H2).
    rewrite reverse_app, <- !app_assoc. eexists. split; [by eapply IH1|by eapply IH2].
  - apply andb_prop in Hw as [W1 W2]. intros [H|H]; [left; by eapply IH1|right; by eapply IH2].
  - intros (c1 & H & _). by eapply IH.
  - done.
  - by intros (-> & -> & _).
Qed.

Lemma re_find_mat r s cs rest :
  re_find r s = Some (cs, rest) -> exists t l, runes s = t ++ l /\ mat r ∅ t l cs.
Proof.
  unfold re_find. intros (t & l & cs' & Hs & H & [= <- _])%rmatch_mat. eauto.
Qed.
Lemma mat_re_find r s cs :
  noWordB r = true -> mat r ∅ (runes s) [] cs -> is_Some (re_find r s).
Proof.
  intros Hw H. eapply re_find_complete. pose proof (mat_den r [] ∅ (runes s) [] cs Hw H) as Hd.
  rewrite app_nil_r in Hd. exact Hd.
Qed.

(** ** The building blocks *)
Definition isSign (c : Z) : bool := (c <? 128) && negb (between 65 90 c || between 97 122 c).
Lemma foldEq_sign r c : isSign c = true -> foldEq r c = (r =? c).
Proof.
  unfold isSign. rewrite andb_true_iff, negb_true_iff. intros [Hc Hl].
  unfold foldEq, asciiLower. decide_ifs; z_bools; try lia.
  all: apply eq_iff_eq_true; rewrite ?orb_true_iff, ?andb_true_iff, ?Z.eqb_eq; lia.
Qed.

Lemma mat_litF w cs t rest cs' : mat (litF w) cs t rest cs' <-> spelled w t /\ cs' = cs.
Proof.
  revert t; induction w as [|c w IH]; intros t; cbn [litF mat spelled].
  - by destruct t; naive_solver.
  - split.
    + intros (t1 & t2 & c1 & -> & (x & -> & Hf & ->) & [H ->]%IH). by split_and!.
    + destruct t as [|x t]; [by intros [[] _]|]. intros [[Hf H] ->].
      exists [x], t, cs. split_and!; [done|eauto|by apply IH].
Qed.
Lemma mat_alts l cs t rest cs' :
  mat (alts (map litF l)) cs t rest cs' <-> (exists w, w ∈ l /\ spelled w t) /\ cs' = cs.
Proof.
  induction l as [|w l IH]; [cbn; split; [naive_solver|intros [(w & H & _) _]; by apply not_elem_of_nil in H]|].
  destruct l as [|w' l].
  - cbn [alts map]. rewrite mat_litF. split.
    + intros [H ->]. split; [exists w; split; [by left|done]|done].
    + intros [(v & ->%list_elem_of_singleton & H) ->]. done.
  - change (alts (map litF (w :: w' :: l))) with (RAlt (litF w) (alts (map litF (w' :: l)))).
    cbn [mat]. rewrite mat_litF, IH. setoid_rewrite (elem_of_cons (w' :: l)). naive_solver.
Qed.
Lemma mat_words n l cs t rest cs' :
  mat (words n l) cs t rest cs' <->
  (exists w, w ∈ l /\ spelled w t) /\ cs' = <[n := bytes_of t]> cs.
Proof. unfold words. cbn [mat]. setoid_rewrite mat_alts. naive_solver. Qed.
Lemma mat_either v w cs t rest cs' :
  mat (alts [litF v; litF w]) cs t rest cs' <-> (spelled v t \/ spelled w t) /\ cs' = cs.
Proof.
  change (alts [litF v; litF w]) with (alts (map litF [v; w])). rewrite mat_alts.
  setoid_rewrite elem_of_cons. setoid_rewrite elem_of_cons. setoid_rewrite elem_of_nil. naive_solver.
Qed.
Lemma mat_ident n cs t rest cs' :
  mat (ident n) cs t rest cs' <-> identifier t /\ cs' = <[n := bytes_of t]> cs.
Proof.
  unfold ident, identF, identifier. cbn [mat]. split.
  - intros (c1 & (t1 & t2 & c2 & -> & (x & -> & Hx & ->) & Hl & ->) & ->).
    split; [|done]. exists x, t2. by split_and!.
  - intros [(x & l & -> & Hx & Hl) ->]. exists cs. split; [|done].
    exists [x], l, cs. split_and!; [done|eauto|done|done].
Qed.
Lemma mat_text n f cs t rest cs' :
  mat (RGroup n (RMany f)) cs t rest cs' <->
  Forall (fun x => f (rn x) = true) t /\ cs' = <[n := bytes_of t]> cs.
Proof. cbn [mat]. naive_solver. Qed.
Lemma mat_sign c cs t rest cs' :
  isSign (zc c) = true ->
  mat (rchar c) cs t rest cs' <-> spelled (str1 c) t /\ cs' = cs.
Proof.
  intros Hc. rewrite <- (mat_litF _ _ _ rest). unfold rchar, str1. cbn [litF mat].
  setoid_rewrite (foldEq_sign _ _ Hc). split.
  - intros (x & -> & Hx & ->). exists [x], [], cs. by eauto 10.
  - intros (t1 & t2 & c1 & -> & (x & -> & Hx & ->) & -> & ->). by exists x.
Qed.

Lemma re_group_eq n v cs : re_group (<[n := v]> cs) n = v.
Proof. unfold re_group. by rewrite lookup_insert_eq. Qed.
Lemma re_group_ne n m v cs : n <> m -> re_group (<[n := v]> cs) m = re_group cs m.
Proof. intros H. unfold re_group. by rewrite lookup_insert_ne. Qed.

(** Open a match of an expression, and build one. *)
Ltac open_mat := repeat match goal with
  | H : mat (seqs _) _ _ _ _ |- _ => progress cbn [seqs] in H
  | H : mat (RSeq _ _) _ _ _ _ |- _ => destruct H as (? & ? & ? & -> & ? & ?)
  | H : mat REnd _ _ _ _ |- _ => destruct H as (-> & -> & ->)
  | H : mat (litF _) _ _ _ _ |- _ => apply mat_litF in H as [? ->]
  | H : mat (alts [litF _; litF _]) _ _ _ _ |- _ => apply mat_either in H as [? ->]
  | H : mat (words _ _) _ _ _ _ |- _ => apply mat_words in H as [(? & ? & ?) ->]
  | H : mat (ident _) _ _ _ _ |- _ => apply mat_ident in H as [? ->]
  | H : mat space _ _ _ _ |- _ => apply mat_sign in H as [? ->]; [|reflexivity]
  | H : mat (rchar _) _ _ _ _ |- _ => apply mat_sign in H as [? ->]; [|reflexivity]
  | H : mat (RGroup _ (RMany _)) _ _ _ _ |- _ => apply mat_text in H as [? ->]
  | H : mat spaces _ _ _ _ |- _ => destruct H as [? ->]
  end.
Ltac build_mat := repeat match goal with
  | |- mat (seqs _) _ _ _ _ => progress cbn [seqs]
  | |- mat (RSeq _ _) _ (_ ++ _) _ _ => eexists _, _, _; split; [reflexivity|split]
  | |- mat REnd _ _ _ _ => by split_and!
  | |- mat (litF _) _ _ _ _ => by apply mat_litF
  | |- mat (alts [litF _; litF _]) _ _ _ _ => apply mat_either; split; [eauto|reflexivity]
  | |- mat (words _ _) _ _ _ _ => apply mat_words; split; [eauto|reflexivity]
  | |- mat (ident _) _ _ _ _ => by apply mat_ident
  | |- mat space _ _ _ _ => by apply mat_sign
  | |- mat (rchar _) _ _ _ _ => by apply mat_sign
  | |- mat (RGroup _ (RMany _)) _ _ _ _ => by apply mat_text
  | |- mat spaces _ _ _ _ => by split
  end.
Ltac open_phrase := cbn [phrase piece_of] in *; repeat match goal with
  | H : exists _, _ |- _ => destruct H as [? H]
  | H : _ /\ _ |- _ => destruct H
  | H : ?t = [] |- _ => is_var t; subst t
  end.
(** The groups of a match that was opened. *)
Ltac group_simpl := repeat (rewrite re_group_eq || rewrite re_group_ne by done).
Ltac build_phrase := cbn [phrase piece_of]; repeat match goal with
  | |- exists t1 t2, ?a ++ ?b = t1 ++ t2 /\ _ => exists a, b; split; [reflexivity|split]
  | |- exists t1 t2, ?a = t1 ++ t2 /\ _ =>
      is_var a; exists a, []; split; [by rewrite app_nil_r|split]
  | |- Forall _ _ /\ _ = bytes_of _ => split; [eassumption|reflexivity]
  | |- identifier _ /\ _ = _ => split; [eassumption|reflexivity]
  end; try eassumption; try reflexivity.

(** ** Keywords in upper case *)
Section upper.
Context `{U : UnicodeTables} {UL : UnicodeLaws U}.

(** A letter other than a lower-case one and [K], or a sign. *)
Definition plainUpper (c : ascii) : bool :=
  (zc c <? 128) && negb (between 97 122 (zc c)) && negb (zc c =? 75).
Fixpoint plainWord (w : string) : bool :=
  match w with EmptyString => true | String c w' => plainUpper c && plainWord w' end.

Lemma folded_rune x c s :
  rune_ok x -> foldEq (rn x) (zc c) = true -> plainUpper c = true ->
  runes (raw x +:+ s) = x :: runes s /\ encodeRune (upperRune (rn x)) = str1 c.
Proof.
  unfold plainUpper. rewrite !andb_true_iff, !negb_true_iff. intros Hok Hf [[Hc Hl] Hk].
  assert (encodeRune (zc c) = str1 c) as Hself.
  { unfold encodeRune. pose proof (zc_range c). z_bools.
    rewrite (proj2 (Z.leb_le 0 _)), (proj2 (Z.ltb_lt _ 128)) by lia. cbn. by rewrite chr_zc. }
  destruct Hok as [[Hrn _]|[(d & Hd & ->)|(Hr & He & _)]].
  - rewrite Hrn in Hf. cbn in Hf. done.
  - cbn [rn raw] in *. split; [by rewrite str1_app, runes_ascii_cons|].
    rewrite <- Hself. f_equal. unfold foldEq, asciiLower, upperRune in *.
    rewrite (proj2 (Z.ltb_lt _ _) Hd) in *.
    destruct (between 65 90 (zc d)) eqn:?, (between 65 90 (zc c)) eqn:?; decide_ifs; z_bools; lia.
  - assert (rn x = 383 /\ zc c = 83) as [Hx Hs].
    { unfold foldEq, asciiLower in Hf. destruct (rn x <? 128) eqn:E; [z_bools; lia|].
      rewrite orb_true_iff, !andb_true_iff in Hf. destruct (between 65 90 (zc c)) eqn:?; z_bools; lia. }
    rewrite Hx in *. split.
    + rewrite <- He. destruct x as [n r]. cbn in Hx, He |- *. by subst.
    + cbn. rewrite upper_long_s, <- Hs. exact Hself.
Qed.

Lemma spelled_toUpper w t :
  Forall rune_ok t -> spelled w t -> plainWord w = true ->
  toUpper (bytes_of t) = w.
Proof.
  revert t; induction w as [|c w IH]; intros [|x t]; cbn [spelled]; try done.
  intros Hok [Hf Hs] Hp. inversion Hok as [|? ? Hx Ht]; subst.
  cbn in Hp. apply andb_prop in Hp as [Hc Hp].
  destruct (folded_rune x c (bytes_of t) Hx Hf Hc) as [E1 E2].
  unfold toUpper. rewrite bytes_of_cons, E1. cbn [map]. rewrite E2.
  change (String c (toUpper (bytes_of t)) = String c w). f_equal. by apply IH.
Qed.

(** A keyword of a list, in a statement. *)
Lemma words_upper l w t :
  Forall rune_ok t -> w ∈ l -> spelled w t -> forallb plainWord l = true ->
  toUpper (bytes_of t) = w.
Proof.
  intros Ht Hw Hs Hl. apply spelled_toUpper; [done..|].
  rewrite forallb_forall in Hl. by apply Hl, list_elem_of_In.
Qed.

(** ** What each expression recognises *)
Definition verbs : list string := ["LOAD"; "RELEASE"; "FLUSH"].
Definition partitionVerbs : list string := ["CREATE"; "DROP"; "LOAD"; "RELEASE"].

(** The start of a proof that a match of [r] reads a command. *)
Lemma mat_of r m s : re_find r s = Some m ->
  exists t l, runes s = t ++ l /\ mat r ∅ t l m.1 /\ Forall rune_ok (t ++ l).
Proof.
  destruct m as [cs rest]. intros (t & l & Hs & H)%re_find_mat. exists t, l.
  rewrite <- Hs at 2. eauto using runes_ok.
Qed.
Ltac open_match H :=
  let Hs := fresh "Hs" in let Hok := fresh "Hok" in let cs := fresh "cs" in
  let Hm := fresh "Hm" in let rest := fresh "rest" in
  apply mat_of in H as (? & ? & Hs & Hm & Hok);
  match type of Hm with context [?m.1] => destruct m as [cs rest]; cbn [fst] in Hm |- * end.
Ltac split_ok := repeat match goal with
  | H : Forall rune_ok (_ ++ _) |- _ => apply Forall_app in H as [? H]
  end.

(** The opened match, as phrases. *)
Ltac read_match H := open_match H; open_mat; group_simpl; rewrite ?app_nil_r in *;
  match goal with Hs : runes _ = _ |- _ => rewrite Hs end; split_ok.
Ltac find_match := open_phrase; subst; eapply mat_re_find; [reflexivity|];
  match goal with H : runes _ = _ |- _ => rewrite H end; build_mat.

Lemma lifecycle_read s m :
  re_find lifecycleRE s = Some m ->
  exists verb, verb ∈ verbs /\ toUpper (re_group m.1 1) = verb
    /\ lifecycle verb (re_group m.1 2) (runes s).
Proof.
  intros H. unfold lifecycleRE in H. read_match H.
  eexists. split_and!; [eassumption|by eapply words_upper|].
  match goal with H : _ \/ _ |- _ => destruct H; [left|right] end; build_phrase.
Qed.
Lemma lifecycle_found s verb coll :
  verb ∈ verbs -> lifecycle verb coll (runes s) -> is_Some (re_find lifecycleRE s).
Proof. intros Hv [H|H]; unfold lifecycleRE; find_match. Qed.

Lemma describe_read s m :
  re_find describeRE s = Some m -> says (DescribeCollection (re_group m.1 1)) (runes s).
Proof.
  intros H. unfold describeRE in H. read_match H. cbn [says].
  match goal with H : _ \/ _ |- _ => destruct H; [left|right] end; build_phrase.
Qed.
Lemma describe_found s coll :
  says (DescribeCollection coll) (runes s) -> is_Some (re_find describeRE s).
Proof. intros [H|H]; unfold describeRE; find_match. Qed.

Lemma dropIndex_read s m :
  re_find dropIndexRE s = Some m ->
  says (DropIndex (re_group m.1 1) (re_group m.1 2)) (runes s).
Proof. intros H. unfold dropIndexRE in H. read_match H. cbn [says]. build_phrase. Qed.
Lemma dropIndex_found s name coll :
  says (DropIndex name coll) (runes s) -> is_Some (re_find dropIndexRE s).
Proof. cbn [says]. intros H; unfold dropIndexRE; find_match. Qed.

Lemma showIndexes_read s m :
  re_find showIndexesRE s = Some m -> says (ShowIndexes (re_group m.1 1)) (runes s).
Proof. intros H. unfold showIndexesRE in H. read_match H. cbn [says]. build_phrase. Qed.
Lemma showIndexes_found s coll :
  says (ShowIndexes coll) (runes s) -> is_Some (re_find showIndexesRE s).
Proof. cbn [says]. intros H; unfold showIndexesRE; find_match. Qed.

Lemma showPartitions_read s m :
  re_find showPartitionsRE s = Some m -> says (ShowPartitions (re_group m.1 1)) (runes s).
Proof. intros H. unfold showPartitionsRE in H. read_match H. cbn [says]. build_phrase. Qed.
Lemma showPartitions_found s coll :
  says (ShowPartitions coll) (runes s) -> is_Some (re_find showPartitionsRE s).
Proof. cbn [says]. intros H; unfold showPartitionsRE; find_match. Qed.

Lemma partition_read s m :
  re_find partitionRE s = Some m ->
  exists verb, verb ∈ partitionVerbs /\ toUpper (re_group m.1 1) = verb
    /\ partition verb (re_group m.1 2) (re_group m.1 3) (runes s).
Proof.
  intros H. unfold partitionRE in H. read_match H.
  eexists. split_and!; [eassumption|by eapply words_upper|]. unfold partition. build_phrase.
Qed.
Lemma partition_found s verb part coll :
  verb ∈ partitionVerbs -> partition verb part coll (runes s) -> is_Some (re_find partitionRE s).
Proof. unfold partition, partitionRE. intros Hv H. find_match. Qed.

(** WITH, which may be missing *)
Definition withRE : re :=
  opt (seqs [litF " WITH"; spaces; rchar "("%char; RGroup 5 (RMany isDot); rchar ")"%char]).
Lemma mat_with cs t cs' :
  mat withRE cs t [] cs' <->
  (exists options, phrase (withOptions options) t /\ cs' = <[5%nat := options]> cs)
  \/ t = [] /\ cs' = cs.
Proof.
  unfold withRE, opt. cbn [mat]. apply or_iff_compat_r. unfold withOptions. split.
  - intros H. open_mat.
    eexists. split; [|reflexivity]. build_phrase.
  - intros (options & H & ->). open_phrase. subst. rewrite app_nil_r. build_mat.
Qed.

Lemma createIndex_read s m :
  re_find createIndexRE s = Some m ->
  says (CreateIndex (re_group m.1 1) (re_group m.1 2) (re_group m.1 3)
          (toUpper (re_group m.1 4)) (re_group m.1 5)) (runes s).
Proof.
  intros H. unfold createIndexRE in H. read_match H.
  match goal with H : mat (opt _) _ _ _ _ |- _ => apply mat_with in H as [(options & ? & ->)|[-> ->]] end;
    group_simpl; (erewrite words_upper by (eassumption || reflexivity));
    (split; [eassumption|]); [left|right; split; [done|]];
    unfold createIndex; cbn [app]; build_phrase.
Qed.
Lemma createIndex_found s name coll field typ options :
  says (CreateIndex name coll field typ options) (runes s) -> is_Some (re_find createIndexRE s).
Proof.
  intros [Ht [H|[_ H]]]; unfold createIndex, createIndexRE in *; cbn [app] in H.
  - find_match. eexists _, [], _. split; [by rewrite app_nil_r|]. split; [|by split_and!].
    apply mat_with. left. eauto.
  - find_match. eexists [], [], _. split; [done|]. split; [|by split_and!].
    apply mat_with. by right.
Qed.
End upper.

(** *** UPSERT *)

(** UPSERT INTO, before something that does not continue the word. *)
Definition upsert (s rest : string) : Prop :=
  exists t1 t2 t3 l, runes s = t1 ++ t2 ++ t3 ++ l /\ rest = bytes_of l
    /\ spelled "UPSERT" t1 /\ t2 <> [] /\ Forall (fun x => isReSpace (rn x) = true) t2
    /\ spelled "INTO" t3 /\ (forall x l', l = x :: l' -> isWord (rn x) = false).

(** The text between two positions. *)
Definition moves (p : pos) (t : list rune) (q : pos) : Prop :=
  p.2 = t ++ q.2 /\ q.1 = reverse t ++ p.1.

Lemma den_litF w p q : den (litF w) p q <-> exists t, spelled w t /\ moves p t q.
Proof.
  unfold moves. revert p q; induction w as [|c w IH]; intros p q; cbn [litF den].
  - split.
    + intros ->. by exists [].
    + intros ([|x t] & Ht & E1 & E2); [|done]. destruct p, q. by cbn in *; subst.
  - split.
    + intros (m & (x & a & Hp & Hf & ->) & (t & Ht & E1 & E2)%IH). cbn [fst snd] in *.
      exists (x :: t). split_and!; [by split|by rewrite Hp, E1|].
      by rewrite reverse_cons, <- app_assoc.
    + intros ([|x t] & Ht & E1 & E2); [done|]. destruct Ht as [Hf Ht].
      exists (x :: p.1, t ++ q.2). split; [by exists x, (t ++ q.2)|].
      apply IH. exists t. split_and!; [done..|]. by rewrite E2, reverse_cons, <- app_assoc.
Qed.
Lemma den_plus f p q :
  den (plus f) p q <-> exists t, t <> [] /\ Forall (fun x => f (rn x) = true) t /\ moves p t q.
Proof.
  unfold plus, moves. cbn [den]. split.
  - intros (m & (x & a & Hp & Hf & ->) & xs & Hxs & E1 & E2). cbn [fst snd] in *.
    exists (x :: xs). split_and!; [done|by constructor|by rewrite Hp, E1|].
    by rewrite reverse_cons, <- app_assoc.
  - intros ([|x t] & Hne & Ht & E1 & E2); [done|]. inversion Ht; subst.
    exists (x :: p.1, t ++ q.2). split; [by exists x, (t ++ q.2)|].
    exists t. split_and!; [done..|]. by rewrite E2, reverse_cons, <- app_assoc.
Qed.

(** After INTO, a word boundary is the end of the word. *)
Lemma into_boundary t b l :
  spelled "INTO" t ->
  atWordB (reverse t ++ b, l) = true <-> (forall x l', l = x :: l' -> isWord (rn x) = false).
Proof.
  destruct t as [|? [|? [|? [|x [|]]]]]; cbn [spelled]; try naive_solver. intros (_ & _ & _ & Hx & _).
  assert (isWord (rn x) = true) as Hw.
  { unfold foldEq in Hx. destruct (rn x <? 128) eqn:E.
    - unfold asciiLower, isWord in *. rewrite !orb_true_iff.
      destruct (between 65 90 (rn x)) eqn:E1; [auto|].
      change (rn x =? 111 = true) in Hx. apply Z.eqb_eq in Hx as ->. auto.
    - rewrite orb_true_iff, !andb_true_iff in Hx. by destruct Hx as [[_ ?]|[_ ?]]. }
  unfold atWordB. cbn. rewrite Hw. destruct l as [|y l]; [naive_solver|].
  destruct (isWord (rn y)) eqn:Ey; cbn; naive_solver.
Qed.
Lemma den_upsert p q :
  den upsertRE p q <->
  exists t1 t2 t3, p.2 = t1 ++ t2 ++ t3 ++ q.2 /\ q.1 = reverse (t1 ++ t2 ++ t3) ++ p.1
    /\ spelled "UPSERT" t1 /\ t2 <> [] /\ Forall (fun x => isReSpace (rn x) = true) t2
    /\ spelled "INTO" t3 /\ (forall x l', q.2 = x :: l' -> isWord (rn x) = false).
Proof.
  unfold upsertRE. cbn [seqs]. cbn [den]. split.
  - intros (m1 & (t1 & H1 & E1 & F1)%den_litF & m2 & (t2 & Hn & H2 & E2 & F2)%den_plus
      & m3 & (t3 & H3 & E3 & F3)%den_litF & Hw & ->).
    exists t1, t2, t3. rewrite E1, E2, E3, F3, F2, F1, !reverse_app, <- !app_assoc. split_and!; try done.
    destruct m3 as [b l]. cbn in F3. rewrite F3 in Hw. exact (proj1 (into_boundary _ _ _ H3) Hw).
  - intros (t1 & t2 & t3 & E & F & H1 & Hn & H2 & H3 & Hw).
    exists (reverse t1 ++ p.1, t2 ++ t3 ++ q.2). split; [apply den_litF; by exists t1|].
    exists (reverse t2 ++ reverse t1 ++ p.1, t3 ++ q.2). split; [apply den_plus; by exists t2|].
    exists q. split.
    + apply den_litF. exists t3. split; [done|]. split; [done|]. by rewrite F, !reverse_app, <- !app_assoc.
    + split; [|done]. destruct q as [b l]. cbn [fst snd] in *. rewrite F, !reverse_app, <- !app_assoc.
      exact (proj2 (into_boundary _ _ _ H3) Hw).
Qed.

Lemma upsert_found s rest : upsert s rest -> matchString upsertRE s = true.
Proof.
  intros (t1 & t2 & t3 & l & Hs & _ & H). unfold matchString.
  destruct (re_find_complete upsertRE s (reverse (t1 ++ t2 ++ t3), l)) as [m ->]; [|done].
  apply den_upsert. exists t1, t2, t3. cbn [fst snd]. by rewrite app_nil_r.
Qed.
Lemma upsert_read s :
  matchString upsertRE s = true ->
  exists rest, upsert s rest /\ forall new, replaceFirst upsertRE s new = new +:+ rest.
Proof.
  unfold matchString, replaceFirst. destruct (re_find upsertRE s) as [[cs rest]|] eqn:E; [|done].
  intros _. exists rest. split; [|done].
  apply re_find_sound in E as (q & (t1 & t2 & t3 & Hs & _ & H)%den_upsert & ->).
  by exists t1, t2, t3, q.2.
Qed.

(** ** The calls *)
Section calls.
Context `{U : UnicodeTables} {UL : UnicodeLaws U} `{F : GoFloat} `{J : GoJson} `{P : Sqlparser}.
Context `{V : Vendor} {Up : @Upstream V}.

(** [m] makes no call. *)
Definition quiet (s s' : session) : Prop := s_calls s' = s_calls s.
#[local] Instance quiet_rel : SessionRel quiet.
Proof. split; [split|]; unfold quiet; [done|congruence|done]. Qed.

(** [m] makes the call [c] and no other, and answers its error. *)
Definition sends {A} (m : M A) (c : call) : Prop :=
  forall s, s_calls (m s).2 = s_calls s ++ [c]
    /\ (forall e, respond (s_calls s) c = inl e -> (m s).1 = Err (Errorf e)).

Lemma sends_bind {A B} (m : M A) (k : A -> M B) c :
  sends m c -> (forall a, obeys quiet (k a)) -> sends (m ≫= k) c.
Proof.
  intros Hm Hk s. destruct (Hm s) as [Hc He]. cbv [mbind M_bind].
  destruct (m s) as [[a|e|w] s1]; cbn [fst snd] in *.
  - split; [by rewrite (Hk a s1), Hc|]. intros e H. by apply He in H.
  - split; [done|]. intros e' H. apply He in H. congruence.
  - split; [done|]. intros e' H. by apply He in H.
Qed.
Lemma sends_invoke c : sends (invoke c) c.
Proof. intros s. split; [done|]. intros e H. unfold invoke, invoke_. by rewrite H. Qed.
Lemma sends_invoke' c : sends (invoke' Errorf c) c.
Proof. apply sends_bind; [apply sends_invoke|]. intros a. apply obeys_ret, _. Qed.
Lemma sends_bind_lift {A B} (r : res A) (k : A -> M B) c a :
  r = Ok a -> sends (k a) c -> sends (lift r ≫= k) c.
Proof. intros -> H s. apply H. Qed.

(** [r] is what a session [s] may come to by a command.  Under a describe there is no
    call; else there is the one call asked for, and its error is the answer, or
    nothing is asked for and the command fails without a call. *)
Definition performed {A} (cmd : command) (s : session) (r : outcome error A * session) : Prop :=
  if c_describe (s_conn s) then s_calls r.2 = s_calls s
  else (exists c, asks cmd c /\ s_calls r.2 = s_calls s ++ [c]
          /\ (forall e, respond (s_calls s) c = inl e -> r.1 = Err (Errorf e)))
       \/ (forall c, ~ asks cmd c) /\ s_calls r.2 = s_calls s /\ (forall a, r.1 <> Ok a).
Definition performs (cmd : command) (m : M unit) : Prop := forall s, performed cmd s (m s).

Lemma performs_then {A} cmd m (a : A) s :
  performs cmd m -> performed cmd s ((_ ← m; mret a) s).
Proof.
  intros H. specialize (H s). unfold performed in *. cbv [mbind M_bind mret M_ret].
  destruct (m s) as [[[]|e|w] s1]; cbn [fst snd] in *; destruct (c_describe _); try done.
  - destruct H as [(c & Ha & Hc & He)|(_ & _ & H)]; [left|by destruct (H tt)].
    exists c. split_and!; [done..|]. intros e' H'. by apply He in H'.
  - destruct H as [(c & Ha & Hc & He)|(Ha & Hc & _)]; [left|by right].
    exists c. split_and!; [done..|]. intros e' H'. apply He in H'. congruence.
  - destruct H as [(c & Ha & Hc & He)|(Ha & Hc & _)]; [left|by right].
    exists c. split_and!; [done..|]. intros e' H'. by apply He in H'.
Qed.

Lemma sends_performs cmd c m :
  asks cmd c -> sends m c -> performs cmd (unlessDescribe m).
Proof.
  intros Ha Hm s. unfold performed, unlessDescribe. rewrite gets_bind. destruct (c_describe _); [done|].
  left. exists c. split; [done|]. apply Hm.
Qed.
(** A command with a description of its own. *)
Lemma described_performs cmd c (m1 m2 : M unit) :
  obeys quiet m1 -> asks cmd c -> sends m2 c ->
  performs cmd (describe ← gets c_describe; if (describe : bool) then m1 else m2).
Proof.
  intros H1 Ha H2 s. unfold performed. rewrite gets_bind. destruct (c_describe _); [apply H1|].
  left. exists c. split; [done|]. apply H2.
Qed.

Ltac quiet := intros; walk.

Lemma lifecycle_performs verb v coll cmd c :
  toUpper verb = v ->
  (v, cmd, c) ∈ [("LOAD", LoadCollection coll, CLoadCollection coll false);
                 ("RELEASE", ReleaseCollection coll, CReleaseCollection coll);
                 ("FLUSH", FlushCollection coll, CFlush coll false)] ->
  performs cmd (unlessDescribe (lifecycleCommand verb coll)).
Proof.
  intros Hv Hin. unfold lifecycleCommand. rewrite Hv. cbv zeta.
  rewrite !elem_of_cons, elem_of_nil in Hin. apply (sends_performs cmd c);
    destruct Hin as [[= -> -> ->]|[[= -> -> ->]|[[= -> -> ->]|[]]]]; try constructor;
    (apply sends_bind; [apply sends_invoke'|quiet]).
Qed.
Lemma partition_performs verb v part coll cmd c :
  toUpper verb = v ->
  (v, cmd, c) ∈ [("CREATE", CreatePartition part coll, CCreatePartition coll part);
                 ("DROP", DropPartition part coll, CDropPartition coll part);
                 ("LOAD", LoadPartition part coll, CLoadPartitions coll [part] false);
                 ("RELEASE", ReleasePartition part coll, CReleasePartitions coll [part])] ->
  performs cmd (unlessDescribe (partitionCommand verb part coll)).
Proof.
  intros Hv Hin. unfold partitionCommand. rewrite Hv. cbv zeta.
  rewrite !elem_of_cons, elem_of_nil in Hin. apply (sends_performs cmd c);
    destruct Hin as [[= -> -> ->]|[[= -> -> ->]|[[= -> -> ->]|[[= -> -> ->]|[]]]]]; try constructor;
    (apply sends_bind; [apply sends_invoke'|quiet]).
Qed.
Lemma createIndex_performs name coll field typ options :
  performs (CreateIndex name coll field (toUpper typ) options)
    (unlessDescribe (createIndexCommand name coll field typ options)).
Proof.
  destruct (commandIndex name typ options) as [idx|e|w] eqn:E.
  { eapply sends_performs; [constructor; by apply commandIndex_iff|].
    apply (sends_bind_lift _ _ _ idx E). apply sends_bind; [apply sends_invoke'|quiet]. }
  all: intros s; unfold performed, unlessDescribe; rewrite gets_bind; destruct (c_describe _); [done|];
    right; unfold createIndexCommand; rewrite E; (split_and!; [|done|done]);
    intros c H; inversion H as [| | | |? ? ? ? ? idx Hi| | | | | | |]; subst;
    apply commandIndex_iff in Hi; congruence.
Qed.
Lemma dropIndex_performs name coll :
  performs (DropIndex name coll) (unlessDescribe (dropIndexCommand name coll)).
Proof.
  eapply sends_performs; [constructor|]. apply sends_bind; [apply sends_invoke'|quiet].
Qed.
Lemma describe_performs coll : performs (DescribeCollection coll) (describeCommand coll).
Proof.
  eapply described_performs; [|constructor|].
  - unfold describeMetadata. destruct (buildResultset _ _ _) as [r| |] eqn:Hr; [|quiet..].
    cbv zeta. intros s. reflexivity.
  - apply sends_bind; [|quiet]. apply sends_bind; [apply sends_invoke|].
    intros col. destruct (col ≫= co_Schema); quiet.
Qed.
Lemma showIndexes_performs coll : performs (ShowIndexes coll) (showIndexesCommand coll).
Proof.
  unfold showIndexesCommand, listIndexes. cbv zeta. destruct upstreamIsGrpc eqn:Hg; cbn [negb].
  - eapply described_performs; [quiet|by constructor|].
    apply sends_bind; [|quiet]. apply sends_bind; [apply (sends_invoke (CServiceDescribeIndex coll ""))|].
    intros resp. repeat case_match; quiet.
  - intros s. unfold performed. rewrite gets_bind. destruct (c_describe _).
    + refine (obeys_rows quiet _ _ s).
    + right. split_and!; [|done|done]. intros c H. inversion H; congruence.
Qed.
Lemma showPartitions_performs coll :
  performs (ShowPartitions coll) (showPartitionsCommand coll).
Proof.
  eapply described_performs; [quiet|constructor|].
  apply sends_bind; [apply (sends_invoke (CShowPartitions coll))|quiet].
Qed.

(** The command found in a statement is one it says. *)
Lemma milvusCommand_says sql m :
  milvusCommand sql = Some m -> exists cmd, says cmd (runes sql) /\ performs cmd m.
Proof.
  unfold milvusCommand. intros H.
  destruct (re_find lifecycleRE sql) eqn:E; [injection H as <-|clear E].
  { apply lifecycle_read in E as (v & Hv & Hu & Hs). unfold verbs in Hv.
    rewrite !elem_of_cons, elem_of_nil in Hv.
    destruct Hv as [->|[->|[->|[]]]];
      [eexists (LoadCollection _)|eexists (ReleaseCollection _)|eexists (FlushCollection _)];
      (split; [exact Hs|]);
      eapply lifecycle_performs; try exact Hu; repeat constructor. }
  destruct (re_find describeRE sql) eqn:E; [injection H as <-|clear E].
  { apply describe_read in E. eauto using describe_performs. }
  destruct (re_find createIndexRE sql) eqn:E; [injection H as <-|clear E].
  { apply createIndex_read in E. eauto using createIndex_performs. }
  destruct (re_find dropIndexRE sql) eqn:E; [injection H as <-|clear E].
  { apply dropIndex_read in E. eauto using dropIndex_performs. }
  destruct (re_find showIndexesRE sql) eqn:E; [injection H as <-|clear E].
  { apply showIndexes_read in E. eauto using showIndexes_performs. }
  destruct (re_find partitionRE sql) eqn:E; [injection H as <-|clear E].
  { apply partition_read in E as (v & Hv & Hu & Hs). unfold partitionVerbs in Hv.
    rewrite !elem_of_cons, elem_of_nil in Hv.
    destruct Hv as [->|[->|[->|[->|[]]]]];
      [eexists (CreatePartition _ _)|eexists (DropPartition _ _)
      |eexists (LoadPartition _ _)|eexists (ReleasePartition _ _)]; (split; [exact Hs|]);
      eapply partition_performs; try exact Hu; repeat constructor. }
  destruct (re_find showPartitionsRE sql) eqn:E; [injection H as <-|done].
  apply showPartitions_read in E. eauto using showPartitions_performs.
Qed.

(** A statement that says a command is found. *)
Lemma says_milvusCommand sql cmd : says cmd (runes sql) -> is_Some (milvusCommand sql).
Proof.
  unfold milvusCommand. intros H. repeat (case_match; [done|]). exfalso.
  destruct cmd; cbn [says] in H.
  1-3: eapply lifecycle_found in H as [? ?]; [congruence|unfold verbs; set_solver].
  - apply describe_found in H as [? ?]. congruence.
  - apply createIndex_found in H as [? ?]. congruence.
  - apply dropIndex_found in H as [? ?]. congruence.
  - apply showIndexes_found in H as [? ?]. congruence.
  - eapply partition_found in H as [? ?]; [congruence|unfold partitionVerbs; set_solver].
  - eapply partition_found in H as [? ?]; [congruence|unfold partitionVerbs; set_solver].
  - eapply partition_found in H as [? ?]; [congruence|unfold partitionVerbs; set_solver].
  - eapply partition_found in H as [? ?]; [congruence|unfold partitionVerbs; set_solver].
  - apply showPartitions_found in H as [? ?]. congruence.
Qed.
End calls.

(** ** The property *)

(** C12: A Milvus command makes exactly the call its statement asks for.  Of a statement
    without its blanks and final semicolon, [handleMilvusCommand] does one of three
    things.  UPSERT INTO and its rest go back to [handleQuery] as REPLACE INTO and the
    same rest (nothing but an OK under a describe).  A statement that spells LOAD, RELEASE
    or FLUSH of a collection, DESCRIBE, CREATE or DROP INDEX, SHOW INDEXES, CREATE,
    DROP, LOAD or RELEASE PARTITION or SHOW PARTITIONS makes one call, which is of that
    kind and has the names where the statement has them, an index being the one its
    options describe; an error of Milvus is the answer; under a describe there is no
    call, and a CREATE INDEX whose options describe no index, or a SHOW INDEXES without
    the gRPC client, fails without one.  Every other statement is passed on, with the
    session as it was. *)
Theorem handleMilvusCommand_exact `{U : UnicodeTables} {UL : UnicodeLaws U} `{J : GoJson}
    `{V : Vendor} {Up : @Upstream V} hq sql s :
  let stmt := trimStatement sql in
  let r := handleMilvusCommand hq sql s in
  (exists rest, upsert stmt rest
     /\ r = if c_describe (s_conn s) then (_ ← writeOK None; mret true) s
            else (_ ← hq ("REPLACE INTO" +:+ rest); mret true) s)
  \/ (exists cmd, says cmd (runes stmt) /\ performed cmd s r /\ r.1 <> Ok false)
  \/ ((forall rest, ~ upsert stmt rest) /\ (forall cmd, ~ says cmd (runes stmt))
      /\ r = (Ok false, s)).
Proof.
  cbv zeta. unfold handleMilvusCommand. cbv zeta.
  destruct (matchString upsertRE _) eqn:Hu.
  { left. apply upsert_read in Hu as (rest & Hr & Hn). exists rest. split; [done|].
    rewrite Hn. unfold unlessDescribe. cbv [mbind M_bind gets]. by destruct (c_describe _). }
  right. destruct (milvusCommand _) as [m|] eqn:Hm; [left|right].
  - apply milvusCommand_says in Hm as (cmd & Hs & Hp). exists cmd.
    split; [done|]. split; [by apply performs_then|].
    cbv [mbind M_bind mret M_ret]. by destruct (m s) as [[[]|e|w] s1].
  - split_and!; [|intros cmd H%says_milvusCommand; rewrite Hm in H; by destruct H|done].
    intros rest H%upsert_found. congruence.
Qed.

Lemma handleMilvusCommand_exact_witness :
  says (LoadCollection "docs") (runes "LOAD TABLE docs")
  /\ s_calls (@handleMilvusCommand sampleUnicode sampleJson sampleVendor sampleUpstream
       (fun _ => mret tt) "LOAD TABLE docs;" (mk_session NewSession [])).2
     = [CLoadCollection "docs" false].
Proof.
  destruct (@handleMilvusCommand_exact sampleUnicode sampleUnicode_laws sampleJson sampleVendor
    sampleUpstream (fun _ => mret tt) "LOAD TABLE docs;" (mk_session NewSession []))
    as [(rest & H & _)|[(cmd & Hs & _ & _)|(_ & _ & H)]].
  - apply upsert_found in H. vm_compute in H. discriminate.
  - split; [|vm_compute; reflexivity].
    left. exists (runes "LOAD"), (runes " TABLE docs"). split; [reflexivity|]. split; [vm_compute; auto 10|].
    exists (runes " "), (runes "TABLE docs"). split; [reflexivity|]. split; [vm_compute; auto 10|].
    exists (runes "TABLE"), (runes " docs"). split; [reflexivity|]. split; [vm_compute; auto 10|].
    exists (runes " "), (runes "docs"). split; [reflexivity|]. split; [vm_compute; auto 10|].
    exists (runes "docs"), []. split; [reflexivity|]. split; [|reflexivity]. split; [|reflexivity].
    eexists _, _. split; [reflexivity|]. split; [reflexivity|]. repeat constructor.
  - vm_compute in H. discriminate.
Defined.

(** The Kelvin sign folds to [k], so [(?i)] lets it into an identifier. *)
Definition kelvinSign : string := str1 (chr 226) +:+ str1 (chr 132) +:+ str1 (chr 170).
Lemma ident_accepts_kelvin : matchString describeRE ("DESCRIBE " +:+ kelvinSign) = true.
Proof. vm_compute. reflexivity. Qed.
