(* ===== verification/Query.v ===== *)
(** * Statement dispatch ([conn_query.go], [Execute] and [Describe] of [conn.go])

    [handleQuery] recognises Milvus commands, filters the statement kinds,
    parses and dispatches.  It calls itself through UPSERT, which it rewrites to
    REPLACE: the fuel is the nesting depth, and two levels are enough for every
    statement ([QuerySpec.v]). *)
From S2P Require Export Bind Ddl Commands.
Open Scope Z_scope.
Open Scope go_scope.

(** A name, with or without backticks; no capture group. *)
Definition nameRE : re :=
  alts [identF; seqs [rchar backtick; identF; rchar backtick]].

Definition createTableSQL : re :=
  seqs [litF "CREATE"; plus isReSpace; litF "TABLE"; plus isReSpace; nameRE; spaces;
        rchar "("%char; RMany isAny; rchar ")"%char; REnd].
Definition nameOnlySQL : re :=
  seqs [alts [litF "DROP TABLE"; litF "CREATE DATABASE"; litF "DROP DATABASE"; litF "USE"];
        plus isReSpace; nameRE; REnd].

Section query.
Context `{U : UnicodeTables} `{F : GoFloat} `{J : GoJson} `{P : Sqlparser} `{V : Vendor}.

(** [validateStatementKind] *)
Definition validateStatementKind (q : string) : res unit :=
  let q := trimStatement q in
  let unsupported := Err "unsupported SQL statement or modifiers" in
  match fields q with
  | [] => Err "empty statement"
  | word :: _ =>
      let w := toUpper word in
      if w =?s "CREATE" then
        if matchString createTableSQL q || matchString nameOnlySQL q then Ok tt else unsupported
      else if (w =?s "DROP") || (w =?s "USE") then
        if matchString nameOnlySQL q then Ok tt else unsupported
      else if w =?s "SHOW" then
        if equalFold q "show tables" || equalFold q "show databases" then Ok tt
        else unsupported
      else if (w =?s "SELECT") || (w =?s "INSERT") || (w =?s "REPLACE") || (w =?s "DELETE")
      then Ok tt
      else unsupported
  end.

Context {Up : @Upstream V}.

(** The type of a statement, for [%T]. *)
Definition statementType (stmt : Statement) : string :=
  match stmt with
  | SelectStmt _ => "*sqlparser.Select"
  | InsertStmt _ => "*sqlparser.Insert"
  | DeleteStmt _ => "*sqlparser.Delete"
  | DDLStmt _ => "*sqlparser.DDL"
  | DBDDLStmt _ => "*sqlparser.DBDDL"
  | ShowStmt _ => "*sqlparser.Show"
  | UseStmt _ => "*sqlparser.Use"
  | OtherStatement t => t
  end.

(** The final switch of [handleQuery]. *)
Definition dispatch (stmt : Statement) : M unit :=
  match stmt with
  | ShowStmt typ => handleShow typ
  | DBDDLStmt d => handleDBDDL d
  | DDLStmt d => handleDDL d
  | SelectStmt s => handleSelect s
  | InsertStmt s => handleInsert s
  | DeleteStmt s => handleDelete s
  | UseStmt db => handleUseDB db
  | OtherStatement _ =>
      throw (Errorf ("statement " +:+ statementType stmt +:+ " is not supported"))
  end.

(** Whether a statement is executed, rather than acknowledged, by a describe. *)
Definition describable (stmt : Statement) : bool :=
  match stmt with SelectStmt _ | ShowStmt _ => true | _ => false end.

(** The part of [handleQuery] after the Milvus commands. *)
Definition parseAndDispatch (sql : string) : M unit :=
  _ ← lift (validateStatementKind sql);
  stmt ← lift (of_sum (ParseStrictDDL (normalizeTypes sql)));
  describe ← gets c_describe;
  if (describe : bool) && negb (describable stmt) then writeOK None else dispatch stmt.

(** [handleQuery] *)
Fixpoint handleQuery (fuel : nat) (sql : string) : M unit :=
  match fuel with
  | O => panicM "out of fuel"
  | S fuel =>
      let sql := trimSpace sql in
      _ ← checkM (sql =?s "") (Errorf "empty SQL statement");
      handled ← handleMilvusCommand (handleQuery fuel) sql;
      if (handled : bool) then mret tt else parseAndDispatch sql
  end.

(** Enough for every statement: [handleQuery_fuel] of [QuerySpec.v]. *)
Definition queryFuel : nat := 2.

(** [Execute] *)
Definition Execute (sql : string) : M Result :=
  _ ← modify (set_result None);
  _ ← handleQuery queryFuel sql;
  r ← gets c_result;
  match r with
  | None => _ ← modify (set_result (Some emptyResult)); mret emptyResult
  | Some r => mret r
  end.

(** [Describe]: the deferred reset runs however [Execute] ends. *)
Definition Describe (sql : string) : M Result := fun s =>
  let '(r, s') := Execute sql (mk_session (set_describe true (s_conn s)) (s_calls s)) in
  (r, mk_session (set_describe false (s_conn s')) (s_calls s')).
End query.
