(* ===== verification/QuerySpec.v ===== *)
(** * Properties of statement dispatch and of sessions

    [handleQuery] terminates within its fuel and never panics; a describe neither
    changes anything in Milvus nor outlives itself; and over every history of a
    session the database it reports is the one Milvus was last switched to. *)
From S2P Require Export Query SelectSpec.
Open Scope Z_scope.
Open Scope go_scope.

(** ** Commands *)
Section commandLemmas.
Context `{U : UnicodeTables} `{F : GoFloat} `{J : GoJson} `{P : Sqlparser} `{V : Vendor}.

Lemma indexOption_no_panic params part : is_panic (indexOption params part) = false.
Proof. unfold indexOption. by repeat case_match. Qed.

Lemma indexOptions_no_panic params parts : is_panic (indexOptions params parts) = false.
Proof.
  revert params; induction parts as [|part parts IH]; intros params; [done|].
  apply bind_no_panic; [apply indexOption_no_panic|auto].
Qed.

Lemma indexParams_no_panic typ options : is_panic (indexParams typ options) = false.
Proof.
  unfold indexParams. apply bind_no_panic.
  { destruct (negb _); [apply indexOptions_no_panic|done]. }
  intros params _. apply bind_no_panic; [|done]. unfold indexMetric. by repeat case_match.
Qed.

Lemma buildIndex_no_panic params : is_panic (buildIndex params) = false.
Proof.
  unfold buildIndex. destruct (List.find _ _); [done|].
  repeat case_match; try done; try apply of_sum_no_panic.
  - apply bind_no_panic; [apply atoi_no_panic|]. intros m _.
    apply bind_no_panic; [apply atoi_no_panic|]. intros ef _. apply of_sum_no_panic.
  - apply bind_no_panic; [apply atoi_no_panic|]. intros n _. apply of_sum_no_panic.
Qed.

Lemma commandIndex_no_panic name typ options : is_panic (commandIndex name typ options) = false.
Proof.
  apply bind_no_panic; [apply indexParams_no_panic|]. intros params _.
  apply bind_no_panic; [apply buildIndex_no_panic|done].
Qed.

Context {Up : @Upstream V}.

Section relation.
Context (R : relation session) {HR : SessionRel R}.
Context (Hadm : forall c, isUse c = false -> admits R c).

Lemma unlessDescribe_obeys m : obeys R m -> obeys R (unlessDescribe m).
Proof. intros H. unfold unlessDescribe. walk. Qed.
Lemma lifecycleCommand_obeys a b : obeys R (lifecycleCommand a b).
Proof. unfold lifecycleCommand. walk. Qed.
Lemma describeMetadata_obeys : obeys R describeMetadata.
Proof.
  unfold describeMetadata. destruct (buildResultset _ _ _) as [r| |] eqn:Hr; [|walk..].
  apply buildResultset_shape in Hr as (_ & Hv & _). cbv zeta. walk_one.
  apply obeys_writeResultset; [apply _|]. unfold resultset_wf. cbn. rewrite Hv. constructor.
Qed.
Lemma describeCommand_obeys a : obeys R (describeCommand a).
Proof.
  assert (forall n, obeys R (GetCollectinSchema n)) by (intros; apply GetCollectinSchema_obeys; auto).
  pose proof describeMetadata_obeys. unfold describeCommand. walk.
Qed.
Lemma createIndexCommand_obeys a b c d e : obeys R (createIndexCommand a b c d e).
Proof. unfold createIndexCommand. walk. Qed.
Lemma dropIndexCommand_obeys a b : obeys R (dropIndexCommand a b).
Proof. unfold dropIndexCommand. walk. Qed.
Lemma showIndexesCommand_obeys a : obeys R (showIndexesCommand a).
Proof. pose proof (listIndexes_obeys R Hadm). unfold showIndexesCommand. walk. Qed.
Lemma partitionCommand_obeys a b c : obeys R (partitionCommand a b c).
Proof. unfold partitionCommand. walk. Qed.
Lemma showPartitionsCommand_obeys a : obeys R (showPartitionsCommand a).
Proof. unfold showPartitionsCommand. walk. Qed.

Lemma milvusCommand_obeys sql m : milvusCommand sql = Some m -> obeys R m.
Proof.
  unfold milvusCommand. intros H. repeat case_match; injection H as <- || done.
  - apply unlessDescribe_obeys, lifecycleCommand_obeys.
  - apply describeCommand_obeys.
  - apply unlessDescribe_obeys, createIndexCommand_obeys.
  - apply unlessDescribe_obeys, dropIndexCommand_obeys.
  - apply showIndexesCommand_obeys.
  - apply unlessDescribe_obeys, partitionCommand_obeys.
  - apply showPartitionsCommand_obeys.
Qed.

Lemma handleMilvusCommand_obeys hq sql :
  (forall q, obeys R (hq q)) -> obeys R (handleMilvusCommand hq sql).
Proof.
  intros Hhq. unfold handleMilvusCommand. cbv zeta. destruct (matchString upsertRE _).
  - apply obeys_bind; [apply _|by apply unlessDescribe_obeys|]. walk.
  - destruct (milvusCommand _) as [m|] eqn:E; [|apply obeys_ret, _].
    apply obeys_bind; [apply _|by eapply milvusCommand_obeys|]. walk.
Qed.
End relation.

(** Under a describe. *)
Lemma unlessDescribe_describe m : obeys extends m -> obeys describeSafe (unlessDescribe m).
Proof.
  intros H. apply describeSafe_split; [apply unlessDescribe_obeys; [apply _|done]|].
  intros s Hd. unfold unlessDescribe. rewrite gets_bind, Hd.
  by apply (obeys_writeOK describeSafe).
Qed.

Lemma milvusCommand_describe sql m : milvusCommand sql = Some m -> obeys describeSafe m.
Proof.
  assert (Hadm : forall c, isUse c = false -> admits extends c)
    by (intros; apply extends_admits).
  assert (forall (k : M unit) a (m' : M unit), obeys extends (d ← gets c_describe; if (d : bool) then m' else a) ->
    obeys describeSafe m' -> obeys describeSafe (d ← gets c_describe; if (d : bool) then m' else a)) as Hb.
  { intros _ a m' H1 H2. apply describeSafe_split; [done|].
    intros s Hd. rewrite gets_bind, Hd. apply H2. }
  unfold milvusCommand. intros H. repeat case_match; injection H as <- || done.
  - apply unlessDescribe_describe, lifecycleCommand_obeys; [apply _|done].
  - apply (Hb (mret tt)); [apply (describeCommand_obeys extends Hadm)|].
    apply describeMetadata_obeys, _.
  - apply unlessDescribe_describe, createIndexCommand_obeys; [apply _|done].
  - apply unlessDescribe_describe, dropIndexCommand_obeys; [apply _|done].
  - apply (Hb (mret tt)); [apply (showIndexesCommand_obeys extends Hadm)|]. walk.
  - apply unlessDescribe_describe, partitionCommand_obeys; [apply _|done].
  - apply (Hb (mret tt)); [apply (showPartitionsCommand_obeys extends Hadm)|]. walk.
Qed.

Lemma handleMilvusCommand_describe hq sql :
  (forall q, obeys extends (hq q)) -> obeys describeSafe (handleMilvusCommand hq sql).
Proof.
  intros Hhq. unfold handleMilvusCommand. cbv zeta. destruct (matchString upsertRE _).
  - apply obeys_bind; [apply _|by apply unlessDescribe_describe|]. walk.
  - destruct (milvusCommand _) as [m|] eqn:E; [|apply obeys_ret, _].
    apply obeys_bind; [apply _|by eapply milvusCommand_describe|]. walk.
Qed.

(** Panics. *)
Lemma describeCommand_safe a : safe (describeCommand a).
Proof.
  unfold describeCommand. apply safe_bind; [apply safe_gets|]. intros [].
  - unfold describeMetadata. walk_safe.
  - apply safe_bind; [apply GetCollectinSchema_safe|]. walk_safe.
Qed.
Lemma showIndexesCommand_safe a : safe (showIndexesCommand a).
Proof. pose proof listIndexes_safe. unfold showIndexesCommand. walk_safe. Qed.
Lemma unlessDescribe_safe m : safe m -> safe (unlessDescribe m).
Proof. intros H. unfold unlessDescribe. walk_safe. Qed.

Lemma milvusCommand_safe sql m : milvusCommand sql = Some m -> safe m.
Proof.
  unfold milvusCommand. intros H. repeat case_match; injection H as <- || done.
  - apply unlessDescribe_safe. unfold lifecycleCommand. walk_safe.
  - apply describeCommand_safe.
  - apply unlessDescribe_safe. apply safe_bind_lift; [apply commandIndex_no_panic|]. walk_safe.
  - apply unlessDescribe_safe. unfold dropIndexCommand. walk_safe.
  - apply showIndexesCommand_safe.
  - apply unlessDescribe_safe. unfold partitionCommand. walk_safe.
  - unfold showPartitionsCommand. walk_safe.
Qed.
End commandLemmas.

(** ** UPSERT nests once *)
Section fuel.
Context `{U : UnicodeTables} `{F : GoFloat} `{J : GoJson} `{P : Sqlparser} `{V : Vendor}.

Definition letterR : ascii := "R"%char.

Lemma trimLeftSpace_snoc l x :
  isSpace (rn x) = false -> exists k, trimLeftSpace (l ++ [x]) = k ++ [x].
Proof.
  intros Hx. induction l as [|y l [k IH]]; cbn.
  - rewrite Hx. by exists [].
  - destruct (isSpace (rn y)); [eauto|]. by exists (y :: l).
Qed.

Lemma trimSpace_R t : exists t', trimSpace (String letterR t) = String letterR t'.
Proof.
  unfold trimSpace, trimSpaceRunes. rewrite runes_ascii_cons by done.
  set (x := mk_rune (zc letterR) (str1 letterR)). cbn [trimLeftSpace].
  change (isSpace (rn x)) with false. cbv iota.
  rewrite reverse_cons. destruct (trimLeftSpace_snoc (reverse (runes t)) x eq_refl) as [k ->].
  rewrite reverse_app. exists (bytes_of (reverse k)). done.
Qed.

Lemma trimStatement_R t : exists t', trimStatement (String letterR t) = String letterR t'.
Proof.
  unfold trimStatement. destruct (trimSpace_R t) as [t1 ->].
  change (trimSuffix (String letterR t1) ";") with (String letterR (trimSuffix t1 ";")).
  apply trimSpace_R.
Qed.

Lemma upsertRE_R t : matchString upsertRE (String letterR t) = false.
Proof.
  unfold matchString, re_find, upsertRE. cbn [seqs litF rmatch snd].
  rewrite runes_ascii_cons by done. cbn [rn]. reflexivity.
Qed.

Lemma replaceFirst_upsert sql :
  matchString upsertRE sql = true ->
  exists t, replaceFirst upsertRE sql "REPLACE INTO" = String letterR t.
Proof.
  unfold matchString, replaceFirst. destruct (re_find _ _) as [[cs rest]|]; [|done]. eauto.
Qed.

Context {Up : @Upstream V}.

Lemma handleMilvusCommand_R hq1 hq2 t :
  handleMilvusCommand hq1 (String letterR t) = handleMilvusCommand hq2 (String letterR t).
Proof.
  unfold handleMilvusCommand. destruct (trimStatement_R t) as [t' ->]. cbv zeta.
  by rewrite upsertRE_R.
Qed.

Lemma handleQuery_S n sql :
  handleQuery (S n) sql
  = (_ ← checkM (trimSpace sql =?s "") (Errorf "empty SQL statement");
     handled ← handleMilvusCommand (handleQuery n) (trimSpace sql);
     if (handled : bool) then mret tt else parseAndDispatch (trimSpace sql)).
Proof. done. Qed.

(** A statement that begins with [R] does not reach the recursive call. *)
Lemma handleQuery_R n m t :
  handleQuery (S n) (String letterR t) = handleQuery (S m) (String letterR t).
Proof.
  rewrite !handleQuery_S. destruct (trimSpace_R t) as [t' ->].
  by rewrite (handleMilvusCommand_R (handleQuery n) (handleQuery m)).
Qed.

Lemma handleMilvusCommand_fuel n sql :
  handleMilvusCommand (handleQuery (S n)) sql = handleMilvusCommand (handleQuery 1) sql.
Proof.
  unfold handleMilvusCommand. cbv zeta. destruct (matchString upsertRE _) eqn:E; [|done].
  apply replaceFirst_upsert in E as [t ->]. by rewrite (handleQuery_R n 0).
Qed.

Lemma handleQuery_fuel n sql : handleQuery (S (S n)) sql = handleQuery queryFuel sql.
Proof.
  unfold queryFuel. rewrite (handleQuery_S (S n)), (handleQuery_S 1).
  by rewrite handleMilvusCommand_fuel.
Qed.
End fuel.

(** ** Dispatch *)
Section dispatchLemmas.
Context `{U : UnicodeTables} `{F : GoFloat} `{J : GoJson} `{P : Sqlparser} `{V : Vendor}.
Context {Up : @Upstream V}.

Section relation.
Context (R : relation session) {HR : SessionRel R}.
Context (Hadm : forall c, isUse c = false -> admits R c).
Context (Huse : forall db, obeys R (handleUseDB db)).

Lemma dispatch_obeys stmt : obeys R (dispatch stmt).
Proof.
  unfold dispatch. destruct stmt; auto with session.
  - by apply handleSelect_obeys.
  - by apply handleInsert_obeys.
  - by apply handleDelete_obeys.
  - by apply handleDDL_obeys.
  - by apply handleDBDDL_obeys.
  - by apply handleShow_obeys.
Qed.
Lemma parseAndDispatch_obeys sql : obeys R (parseAndDispatch sql).
Proof. pose proof dispatch_obeys. unfold parseAndDispatch. walk. Qed.
Lemma handleQuery_obeys n sql : obeys R (handleQuery n sql).
Proof.
  pose proof parseAndDispatch_obeys. revert sql; induction n as [|n IH]; intros sql; cbn [handleQuery].
  - apply obeys_panic, _.
  - cbv zeta. walk_one. apply obeys_bind; [apply _|by apply handleMilvusCommand_obeys|]. walk.
Qed.
Lemma Execute_obeys sql : obeys R (Execute sql).
Proof.
  unfold Execute. walk_one. apply obeys_bind; [apply _|apply handleQuery_obeys|]. walk.
Qed.
End relation.

Lemma handleUseDB_extends db : obeys extends (handleUseDB db).
Proof.
  unfold handleUseDB. apply obeys_bind; [apply _| |intros _].
  { apply obeys_invoke'; [apply _|apply extends_admits]. }
  apply obeys_bind; [apply _|by intros s|intros _]. walk.
Qed.

Lemma handleUseDB_keepsSync db : obeys keepsSync (handleUseDB db).
Proof.
  intros s. unfold keepsSync, db_in_sync. intros H.
  cbv [handleUseDB invoke' invoke_ mbind M_bind mret M_ret modify writeOK].
  destruct (respond (s_calls s) (CUsingDatabase db)) eqn:E; cbn;
    rewrite lastDb_snoc; cbn [app]; by rewrite E.
Qed.

Lemma handleUseDB_keepsWf db : obeys keepsWf (handleUseDB db).
Proof.
  unfold handleUseDB. apply obeys_bind; [apply _| |intros _].
  { apply obeys_invoke'; [apply _|apply keepsWf_admits]. }
  apply obeys_bind; [apply _|intros s H; exact H|intros _]. walk.
Qed.

(** The result of a statement is well formed. *)
Lemma Execute_wf sql s r s' : Execute sql s = (Ok r, s') -> result_wf (Some r).
Proof.
  unfold Execute. intros H. apply bindM_Ok in H as ([] & s1 & [= <-] & H).
  apply bindM_Ok in H as ([] & s2 & Hq & H).
  assert (result_wf (c_result (s_conn s2))) as Hwf.
  { pose proof (handleQuery_obeys keepsWf (fun c _ => keepsWf_admits c) handleUseDB_keepsWf
      queryFuel sql (mk_session (set_result None (s_conn s)) (s_calls s))) as Hk.
    rewrite Hq in Hk. by apply Hk. }
  rewrite gets_bind in H. destruct (c_result (s_conn s2)) as [r2|]; by injection H as <- <-.
Qed.
Lemma Describe_wf sql s r s' : Describe sql s = (Ok r, s') -> result_wf (Some r).
Proof.
  unfold Describe. destruct (Execute _ _) as [o s1] eqn:E. intros [= -> _]. by eapply Execute_wf.
Qed.

Lemma handleQuery_extends n sql : obeys extends (handleQuery n sql).
Proof.
  apply handleQuery_obeys; [apply _|intros; apply extends_admits|apply handleUseDB_extends].
Qed.

Lemma parseAndDispatch_describe sql : obeys describeSafe (parseAndDispatch sql).
Proof.
  unfold parseAndDispatch. do 2 walk_one. apply describeSafe_split.
  - assert (forall s, obeys extends (dispatch s)).
    { intros s. apply dispatch_obeys;
        [apply _|intros; apply extends_admits|apply handleUseDB_extends]. }
    walk.
  - intros s Hd. rewrite gets_bind, Hd. destruct a0; cbn [describable negb andb dispatch];
      try by apply (obeys_writeOK describeSafe).
    + apply handleSelect_describe.
    + apply handleShow_describe.
Qed.

Lemma handleQuery_describe n sql : obeys describeSafe (handleQuery n sql).
Proof.
  pose proof parseAndDispatch_describe. destruct n as [|n]; cbn [handleQuery].
  - apply obeys_panic, _.
  - cbv zeta. walk_one.
    apply obeys_bind; [apply _|apply handleMilvusCommand_describe, handleQuery_extends|]. walk.
Qed.

Lemma Execute_describe sql : obeys describeSafe (Execute sql).
Proof.
  unfold Execute. walk_one. apply obeys_bind; [apply _|apply handleQuery_describe|]. walk.
Qed.

#[local] Existing Instance rel_preorder.

(** What a describe does to its session. *)
Definition metadataOnly (s s' : session) : Prop :=
  c_db (s_conn s') = c_db (s_conn s)
  /\ callsIn (fun c => isDescribeCollection c = true) s s'.
#[export] Instance metadataOnly_rel : SessionRel metadataOnly.
Proof.
  split; [split|].
  - intros s. split; [done|reflexivity].
  - intros s t u [? ?] [? ?]. split; [congruence|by etransitivity].
  - intros r s Hr. split; [done|]. by apply (rel_result (R := callsIn _)).
Qed.
Lemma metadataOnly_admits n : admits metadataOnly (CDescribeCollection n).
Proof. intros s. split; [done|]. by apply callsIn_admits. Qed.

Lemma Describe_metadata sql s :
  let s' := (Describe sql s).2 in c_describe (s_conn s') = false /\ metadataOnly s s'.
Proof.
  cbv zeta. unfold Describe.
  destruct (Execute_describe sql (mk_session (set_describe true (s_conn s)) (s_calls s)))
    as [_ H]. specialize (H eq_refl).
  destruct (Execute _ _) as [r s']. cbn in *. by destruct H as [? ?].
Qed.

Lemma Execute_keepsSync sql : obeys keepsSync (Execute sql).
Proof.
  apply Execute_obeys; [apply _|apply keepsSync_admits|apply handleUseDB_keepsSync].
Qed.

Lemma Describe_keepsSync sql : obeys keepsSync (Describe sql).
Proof.
  intros s H. unfold Describe.
  pose proof (Execute_keepsSync sql (mk_session (set_describe true (s_conn s)) (s_calls s)) H) as H'.
  by destruct (Execute _ _).
Qed.

Context `{LU : !UpstreamLaws Up} `{LP : !SqlparserLaws P}.

Lemma dispatch_safe stmt : safe (dispatch stmt).
Proof.
  unfold dispatch. destruct stmt.
  - apply handleSelect_safe.
  - apply handleInsert_safe.
  - apply handleDelete_safe.
  - apply handleDDL_safe.
  - apply handleDBDDL_safe.
  - apply handleShow_safe.
  - unfold handleUseDB. walk_safe.
  - apply safe_throw.
Qed.

Lemma validateStatementKind_no_panic q : is_panic (validateStatementKind q) = false.
Proof. unfold validateStatementKind. by repeat case_match. Qed.

Lemma parseAndDispatch_safe sql : safe (parseAndDispatch sql).
Proof.
  unfold parseAndDispatch. apply safe_bind_lift; [apply validateStatementKind_no_panic|intros _ _].
  apply safe_bind_lift; [apply of_sum_no_panic|]. intros stmt _.
  apply safe_bind; [apply safe_gets|]. intros d. destruct (_ && _); [apply safe_writeOK|].
  apply dispatch_safe.
Qed.

Lemma handleMilvusCommand_safe hq sql :
  (matchString upsertRE (trimStatement sql) = true ->
   safe (hq (replaceFirst upsertRE (trimStatement sql) "REPLACE INTO"))) ->
  safe (handleMilvusCommand hq sql).
Proof.
  intros Hq. unfold handleMilvusCommand. cbv zeta.
  destruct (matchString upsertRE _).
  - apply safe_bind; [apply unlessDescribe_safe; auto|intros; apply safe_ret].
  - destruct (milvusCommand _) as [m|] eqn:E; [|apply safe_ret].
    apply safe_bind; [by eapply milvusCommand_safe|intros; apply safe_ret].
Qed.

Lemma handleQuery_step_safe n sql :
  safe (handleMilvusCommand (handleQuery n) (trimSpace sql)) -> safe (handleQuery (S n) sql).
Proof.
  intros H. cbn [handleQuery]. cbv zeta. apply safe_bind; [apply safe_checkM|intros _].
  apply safe_bind; [done|]. intros []; [apply safe_ret|apply parseAndDispatch_safe].
Qed.

Lemma handleQuery_safe sql : safe (handleQuery queryFuel sql).
Proof.
  apply handleQuery_step_safe, handleMilvusCommand_safe.
  intros [t ->]%replaceFirst_upsert. apply handleQuery_step_safe.
  destruct (trimSpace_R t) as [t' ->]. apply handleMilvusCommand_safe.
  destruct (trimStatement_R t') as [t'' ->]. by rewrite upsertRE_R.
Qed.

Lemma Execute_safe sql : safe (Execute sql).
Proof.
  unfold Execute. apply safe_bind; [apply safe_modify|intros _].
  apply safe_bind; [apply handleQuery_safe|intros _]. walk_safe.
Qed.

Lemma Describe_safe sql : safe (Describe sql).
Proof.
  intros s. unfold Describe. pose proof (Execute_safe sql
    (mk_session (set_describe true (s_conn s)) (s_calls s))) as H.
  by destruct (Execute _ _).
Qed.
End dispatchLemmas.

(** ** The properties of dispatch and sessions *)

(** C9: statements never crash the proxy.  For every statement and session,
    [Execute] and [Describe] end in a result or an error: no index is out of range,
    no type assertion fails and no pointer is nil; and the fuel is no limit, since
    more of it changes nothing: only UPSERT calls back, once. *)
Theorem Execute_total `{U : UnicodeTables} `{F : GoFloat} `{J : GoJson} `{P : Sqlparser}
    `{V : Vendor} {Up : @Upstream V} `{LU : !UpstreamLaws Up} `{LP : !SqlparserLaws P} sql s :
  is_panic (Execute sql s).1 = false
  /\ is_panic (Describe sql s).1 = false
  /\ forall n, handleQuery (S (S n)) sql s = handleQuery queryFuel sql s.
Proof.
  split_and!; [apply Execute_safe| |intros n; by rewrite handleQuery_fuel].
  apply Describe_safe.
Qed.

Lemma Execute_total_witness :
  is_panic (@Execute sampleUnicode sampleFloat sampleJson
    (sampleSqlparser (SelectStmt sampleTitleSelect)) sampleVendor sampleUpstream
    "SELECT id, title FROM docs LIMIT 2, 3" (mk_session NewSession [])).1 = false.
Proof.
  exact (proj1 (@Execute_total sampleUnicode sampleFloat sampleJson
    (sampleSqlparser (SelectStmt sampleTitleSelect)) sampleVendor sampleUpstream _ _
    "SELECT id, title FROM docs LIMIT 2, 3" (mk_session NewSession []))).
Defined.

(** C17: a describe is harmless.  Whatever the statement and however it ends,
    [Describe] makes no call to Milvus but reading the schema of a collection,
    leaves the session's database as it was, and leaves the session out of
    describe mode. *)
Theorem Describe_harmless `{U : UnicodeTables} `{F : GoFloat} `{J : GoJson} `{P : Sqlparser}
    `{V : Vendor} {Up : @Upstream V} sql s :
  let s' := (Describe sql s).2 in
  c_describe (s_conn s') = false
  /\ c_db (s_conn s') = c_db (s_conn s)
  /\ exists new, s_calls s' = s_calls s ++ new
       /\ Forall (fun c => isDescribeCollection c = true) new.
Proof.
  destruct (Describe_metadata sql s) as (H1 & H2 & H3). by split_and!.
Qed.

(** The statements of a session, one after the other. *)
Inductive session_step `{U : UnicodeTables} `{F : GoFloat} `{J : GoJson} `{P : Sqlparser}
    `{V : Vendor} {Up : @Upstream V} : session -> session -> Prop :=
| step_execute sql s : session_step s (Execute sql s).2
| step_describe sql s : session_step s (Describe sql s).2.

(** C10: a session always reports the database Milvus uses.  In every session
    reached from a new one by executing and describing statements, the database is
    the one of the latest USE that Milvus accepted, or [default]; and the session
    is not in describe mode. *)
Theorem session_database_in_sync `{U : UnicodeTables} `{F : GoFloat} `{J : GoJson}
    `{P : Sqlparser} `{V : Vendor} {Up : @Upstream V} s :
  rtc session_step (mk_session NewSession []) s ->
  db_in_sync s /\ c_describe (s_conn s) = false.
Proof.
  intros H. assert (forall s t, session_step s t ->
    db_in_sync s /\ c_describe (s_conn s) = false ->
    db_in_sync t /\ c_describe (s_conn t) = false) as Hstep.
  { intros s1 s2 [sql s0|sql s0] [Hs Hd].
    - split; [by apply Execute_keepsSync|]. by destruct (Execute_describe sql s0) as [[-> _] _].
    - split; [by apply Describe_keepsSync|]. apply Describe_metadata. }
  assert (db_in_sync (mk_session NewSession []) /\ c_describe NewSession = false) as H0 by done.
  revert H0. change (c_describe NewSession)
    with (c_describe (s_conn (mk_session NewSession []))).
  induction H as [|x y z Hxy _ IH]; [done|]. intros Hx. apply IH. by eapply Hstep.
Qed.

Lemma session_database_in_sync_witness :
  db_in_sync (V := sampleVendor) (Up := sampleUpstream)
    (@Execute sampleUnicode sampleFloat sampleJson (sampleSqlparser (UseStmt "books"))
       sampleVendor sampleUpstream "USE books" (mk_session NewSession [])).2
  /\ c_db (s_conn (@Execute sampleUnicode sampleFloat sampleJson (sampleSqlparser (UseStmt "books"))
       sampleVendor sampleUpstream "USE books" (mk_session NewSession [])).2) = "books".
Proof.
  split; [|vm_compute; reflexivity].
  apply (@session_database_in_sync sampleUnicode sampleFloat sampleJson
    (sampleSqlparser (UseStmt "books")) sampleVendor sampleUpstream).
  eapply rtc_l; [|apply rtc_refl].
  exact (@step_execute sampleUnicode sampleFloat sampleJson (sampleSqlparser (UseStmt "books"))
    sampleVendor sampleUpstream "USE books" (mk_session NewSession [])).
Defined.
