(* ===== verification/PgCodec.v ===== *)
(** * The PostgreSQL encoding of values ([postgres.go], lines 334-501)

    Formats, type OIDs, row descriptions, and the text and binary encodings of
    result values ([pgValue]) and parameters ([pgParameter]).  A Go [[]byte] that
    may be nil is an [option string]; OIDs and format codes are integers. *)
From S2P Require Export Select.
Open Scope Z_scope.
Open Scope go_scope.

(** ** [encoding/binary] *)

(** The [n] bytes of an unsigned integer, most significant first. *)
Fixpoint bigEndian (n : nat) (z : Z) : string :=
  match n with
  | O => ""
  | S n => bigEndian n (z / 256) +:+ str1 (chr (z mod 256))
  end.
(** The unsigned integer of big-endian bytes, after [acc]. *)
Fixpoint bigEndianValue (acc : Z) (s : string) : Z :=
  match s with
  | EmptyString => acc
  | String c s' => bigEndianValue (acc * 256 + zc c) s'
  end.
(** [binary.BigEndian.PutUint64(b, uint64(n))] *)
Definition putUint64 (n : Z) : string := bigEndian 8 (n mod 2 ^ 64).
(** [binary.BigEndian.Uint16], [Uint32] and [Uint64]: they read the first [n] bytes
    and panic when there are fewer. *)
Definition uintBE (n : nat) (data : string) : res Z :=
  if (String.length data <? n)%nat then Panic "index out of range"
  else Ok (bigEndianValue 0 (String.substring 0 n data)).
(** The signed integer of a width with these bits: [int64(u)], [int32(u)], [int16(u)]. *)
Definition signed (bits u : Z) : Z := wrap bits u.

(** ** Formats *)

(** [formatAt] *)
Definition formatAt (f : list Z) (i : nat) : Z :=
  match f with
  | [] => 0
  | [x] => x
  | _ => default 0 (f !! i)
  end.

(** [validFormats] *)
Definition validFormats (f : list Z) (n : nat) : bool :=
  if negb (length f =? 0)%nat && negb (length f =? 1)%nat && negb (length f =? n)%nat then false
  else forallb (fun v => (v =? 0) || (v =? 1)) f.

(** [pgOID] *)
Definition pgOID (f : Field) : Z :=
  match f_Type f with
  | MYSQL_TYPE_TINY => 16
  | MYSQL_TYPE_LONGLONG => 20
  | MYSQL_TYPE_DOUBLE => 701
  | _ => 25
  end.

(** [pgproto3.FieldDescription] *)
Record FieldDescription := mk_FieldDescription {
  fd_Name : string;
  fd_DataTypeOID : Z;
  fd_DataTypeSize : Z;
  fd_TypeModifier : Z;
  fd_Format : Z
}.

(** One field of [pgDescription]. *)
Definition describeField (formats : list Z) (i : nat) (f : Field) : FieldDescription :=
  let oid := pgOID f in
  let size := if (oid =? 20) || (oid =? 701) then 8 else if oid =? 16 then 1 else -1 in
  mk_FieldDescription (f_Name f) oid size (-1) (formatAt formats i).

(** [pgDescription], on the fields of the result set *)
Definition pgDescription (fields : list Field) (formats : list Z) : list FieldDescription :=
  imap (describeField formats) fields.

Section values.
Context `{U : UnicodeTables} `{F : GoFloat} `{J : GoJson} `{K : Hack}.

(** [fmt.Sprint] *)
Definition sprint (v : value) : string :=
  match v with
  | VNil => "<nil>"
  | VBool b => formatBool b
  | VInt8 z | VInt16 z | VInt32 z | VInt64 z | VInt z => formatInt z
  | VUint8 z | VUint16 z | VUint32 z | VUint64 z | VUint z => formatInt z
  | VFloat32 b => sprintFloat32 b
  | VFloat64 b => sprintFloat64 b
  | VFloats l => "[" +:+ join (map sprintFloat32 l) " " +:+ "]"
  | VBytes s =>
      "[" +:+ join (map (fun c => formatInt (zc c)) (String.list_ascii_of_string (default "" s))) " "
      +:+ "]"
  | VString s => s
  | VOther t => sprintOther t
  end.

(** [pgValue] *)
Definition pgValue (v : value) (oid format : Z) : res (option string) :=
  match v with
  | VNil => Ok None
  | _ =>
      if format =? 0 then formatValue v
      else if oid =? 16 then
        match v with
        | VBool x => Ok (Some (str1 (chr (if x then 1 else 0))))
        | _ => Err "expected bool"
        end
      else if oid =? 20 then
        n ← parseInt (sprint v) 64; Ok (Some (putUint64 n))
      else if oid =? 701 then
        n ← of_sum (parseFloat (sprint v) 64); Ok (Some (putUint64 n))
      else formatValue v
  end.

(** [pgParameter] *)
Definition pgParameter (data : option string) (oid format : Z) : res value :=
  match data with
  | None => Ok VNil
  | Some data =>
      let n := String.length data in
      let invalid := Err ("unsupported binary parameter OID " +:+ formatInt oid
                          +:+ " or invalid length") in
      if format =? 0 then
        if oid =? 16 then VBool <$> parseBool data
        else if (oid =? 20) || (oid =? 21) || (oid =? 23) then VInt64 <$> parseInt data 64
        else if (oid =? 700) || (oid =? 701) then VFloat64 <$> of_sum (parseFloat data 64)
        else Ok (VString data)
      else if oid =? 16 then
        match data with
        | String c EmptyString => if zc c <=? 1 then Ok (VBool (zc c =? 1)) else invalid
        | _ => invalid
        end
      else if oid =? 20 then
        if (n =? 8)%nat then u ← uintBE 8 data; Ok (VInt64 (signed 64 u)) else invalid
      else if oid =? 23 then
        if (n =? 4)%nat then u ← uintBE 4 data; Ok (VInt32 (signed 32 u)) else invalid
      else if oid =? 21 then
        if (n =? 2)%nat then u ← uintBE 2 data; Ok (VInt16 (signed 16 u)) else invalid
      else if oid =? 701 then
        if (n =? 8)%nat then u ← uintBE 8 data; Ok (VFloat64 u) else invalid
      else if oid =? 700 then
        if (n =? 4)%nat then u ← uintBE 4 data; Ok (VFloat32 u) else invalid
      else if (oid =? 25) || (oid =? 1043) || (oid =? 114) then Ok (VString data)
      else invalid
  end.

(** The rows that [pgRows] has sent when it returns, and its error. *)
Fixpoint encodeRow (fields : list Field) (formats : list Z) (i : nat) (row : list value)
    : res (list (option string)) :=
  match row with
  | [] => Ok []
  | v :: row' =>
      match fields !! i with
      | None => Panic "index out of range"
      | Some f =>
          x ← pgValue v (pgOID f) (formatAt formats i);
          xs ← encodeRow fields formats (S i) row';
          Ok (x :: xs)
      end
  end.

(** [r.Values[start:end]]: it panics when the bounds are not ordered. *)
Definition sliceRows {A} (l : list A) (start end_ : nat) : res (list A) :=
  if ((start <=? end_) && (end_ <=? length l))%nat then Ok (drop start (take end_ l))
  else Panic "slice bounds out of range".

(** [pgTag] *)
Definition pgTag (q : string) (r : Result) : string :=
  match fields q with
  | [] => ""
  | word :: rest =>
      let verb := toUpper word in
      match r_Resultset r with
      | Some rs => "SELECT " +:+ formatInt (Z.of_nat (length (rs_Values rs)))
      | None =>
          if (verb =?s "INSERT") || (verb =?s "UPSERT") || (verb =?s "REPLACE")
          then "INSERT 0 " +:+ formatInt (r_AffectedRows r)
          else if verb =?s "DELETE" then "DELETE " +:+ formatInt (r_AffectedRows r)
          else if (verb =?s "CREATE") || (verb =?s "DROP") then
            match rest with
            | word2 :: _ => verb +:+ " " +:+ toUpper word2
            | [] => verb
            end
          else verb
      end
  end.
End values.
