(* ===== verification/PgCodecSpec.v ===== *)
(** * Properties of the PostgreSQL encoding

    A value encoded for a client and sent back as a parameter, in text or binary,
    is the value it was; a parameter is decoded exactly when its bytes encode a
    value of its type; and rows that agree with their fields encode without a panic. *)
From S2P Require Export PgCodec InsertSpec.
Open Scope Z_scope.
Open Scope go_scope.

(** ** Big-endian integers *)
Lemma bigEndianValue_app acc s t :
  bigEndianValue acc (s +:+ t) = bigEndianValue (bigEndianValue acc s) t.
Proof. revert acc; induction s as [|c s IH]; intros acc; [done|]. cbn. apply IH. Qed.

Lemma bigEndian_length n z : String.length (bigEndian n z) = n.
Proof.
  revert z; induction n as [|n IH]; intros z; [done|]. cbn [bigEndian].
  rewrite string_length_app, IH. cbn. lia.
Qed.

Lemma bigEndianValue_bigEndian n z :
  0 <= z < 256 ^ Z.of_nat n -> bigEndianValue 0 (bigEndian n z) = z.
Proof.
  revert z; induction n as [|n IH]; intros z Hz.
  - change (256 ^ Z.of_nat 0) with 1 in Hz. cbn. lia.
  - cbn [bigEndian]. rewrite bigEndianValue_app.
    rewrite Nat2Z.inj_succ, Z.pow_succ_r in Hz by lia.
    rewrite IH by (split; [apply Z.div_pos; lia|apply Z.div_lt_upper_bound; lia]).
    cbn. rewrite zc_chr by (apply Z.mod_pos_bound; lia).
    pose proof (Z.div_mod z 256). lia.
Qed.

Lemma bigEndianValue_bound s : 0 <= bigEndianValue 0 s < 256 ^ Z.of_nat (String.length s).
Proof.
  assert (forall acc, 0 <= acc ->
    0 <= bigEndianValue acc s < (acc + 1) * 256 ^ Z.of_nat (String.length s)) as H.
  { induction s as [|c s IH]; intros acc Ha; cbn [bigEndianValue String.length].
    - change (256 ^ Z.of_nat 0) with 1. lia.
    - pose proof (zc_range c). rewrite Nat2Z.inj_succ, Z.pow_succ_r by lia.
      specialize (IH (acc * 256 + zc c) ltac:(lia)).
      assert (0 < 256 ^ Z.of_nat (String.length s)) by (apply Z.pow_pos_nonneg; lia). nia. }
  specialize (H 0 ltac:(lia)). lia.
Qed.

(** [n] bytes are the encoding of the number they denote. *)
Lemma bigEndian_app m acc s :
  bigEndian (m + String.length s) (bigEndianValue acc s) = bigEndian m acc +:+ s.
Proof.
  revert m acc; induction s as [|c s IH]; intros m acc.
  - by rewrite Nat.add_0_r, string_app_nil_r.
  - cbn [String.length bigEndianValue]. rewrite Nat.add_succ_r. change (S (m + ?x)) with (S m + x)%nat.
    rewrite IH. cbn [bigEndian]. pose proof (zc_range c).
    rewrite Z.div_add_l, Z.div_small, Z.add_0_r by lia.
    rewrite Z.add_comm, Z_mod_plus_full, Z.mod_small, chr_zc by lia. by rewrite <- string_app_assoc.
Qed.
Lemma bigEndian_bigEndianValue n s :
  String.length s = n -> bigEndian n (bigEndianValue 0 s) = s.
Proof. intros <-. apply (bigEndian_app 0 0 s). Qed.

Lemma substring_full s : String.substring 0 (String.length s) s = s.
Proof. induction s as [|c s IH]; [done|]. cbn. by rewrite IH. Qed.

Lemma uintBE_full n data :
  String.length data = n -> uintBE n data = Ok (bigEndianValue 0 data).
Proof.
  intros <-. unfold uintBE. by rewrite substring_full, Nat.ltb_irrefl.
Qed.
Lemma uintBE_bigEndian n z :
  0 <= z < 256 ^ Z.of_nat n -> uintBE n (bigEndian n z) = Ok z.
Proof.
  intros Hz. rewrite uintBE_full by apply bigEndian_length. by rewrite bigEndianValue_bigEndian.
Qed.

Lemma signed_mod bits u : 0 < bits -> 0 <= u < 2 ^ bits -> signed bits u mod 2 ^ bits = u.
Proof.
  intros Hb Hu. unfold signed, wrap. rewrite Zminus_mod_idemp_l.
  replace (u + 2 ^ (bits - 1) - 2 ^ (bits - 1)) with u by lia. by apply Z.mod_small.
Qed.

Lemma signed_wrap bits z : 0 < bits -> in_range bits z -> signed bits (z mod 2 ^ bits) = z.
Proof.
  intros Hb Hz. unfold signed, wrap.
  rewrite Zplus_mod_idemp_l. by apply wrap_id.
Qed.

Lemma signed_range bits u : 0 < bits -> in_range bits (signed bits u).
Proof.
  intros Hb. unfold signed, wrap, in_range.
  assert (2 ^ bits = 2 * 2 ^ (bits - 1)) as E
    by (rewrite <- Z.pow_succ_r by lia; f_equal; lia).
  pose proof (Z.mod_pos_bound (u + 2 ^ (bits - 1)) (2 ^ bits)).
  assert (0 < 2 ^ (bits - 1)) by (apply Z.pow_pos_nonneg; lia). lia.
Qed.

Lemma putUint64_value z :
  String.length (putUint64 z) = 8%nat /\ bigEndianValue 0 (putUint64 z) = z mod 2 ^ 64.
Proof.
  unfold putUint64. split; [apply bigEndian_length|]. apply bigEndianValue_bigEndian.
  change (256 ^ Z.of_nat 8) with (2 ^ 64). by apply Z.mod_pos_bound.
Qed.

Section codec.
Context `{U : UnicodeTables} `{F : GoFloat} `{J : GoJson} `{K : Hack}.

Lemma formatValue_no_panic v : is_panic (formatValue v) = false.
Proof. destruct v; try done. unfold formatValue. by rewrite fmap_no_panic, of_sum_no_panic. Qed.

Lemma pgValue_no_panic v oid format : is_panic (pgValue v oid format) = false.
Proof.
  assert (is_panic (pgValue v oid format) = false \/ v = VNil) as [H| ->]; [|done|done].
  destruct v; try (by right); left; unfold pgValue;
    repeat case_match; try done; rewrite ?fmap_no_panic, ?formatValue_no_panic; try done;
    apply bind_no_panic; try done; try apply of_sum_no_panic; apply parseInt_no_panic.
Qed.

Lemma encodeRow_no_panic fs formats i row :
  (i + length row <= length fs)%nat -> is_panic (encodeRow fs formats i row) = false.
Proof.
  revert i; induction row as [|v row IH]; intros i Hl; [done|]. cbn in Hl |- *.
  destruct (lookup_lt_is_Some_2 fs i ltac:(lia)) as [f ->].
  apply bind_no_panic; [apply pgValue_no_panic|]. intros x _.
  apply bind_no_panic; [apply IH; lia|done].
Qed.

Lemma encodeRow_length fs formats i row xs :
  encodeRow fs formats i row = Ok xs -> length xs = length row.
Proof.
  revert i xs; induction row as [|v row IH]; intros i xs; cbn; [by intros [= <-]|].
  destruct (fs !! i); [|done]. intros H. apply bind_Ok in H as (x & _ & H).
  apply bind_Ok in H as (ys & Hy & [= <-]). cbn. f_equal. by eapply IH.
Qed.

(** A length check rules out the panic of a read. *)
Lemma sized_no_panic data w (k : Z -> value) (e : string) :
  is_panic (if (String.length data =? w)%nat then u ← uintBE w data; Ok (k u) else Err e) = false.
Proof. destruct (_ =? w)%nat eqn:E; [|done]. apply Nat.eqb_eq in E. by rewrite uintBE_full. Qed.

Lemma pgParameter_no_panic data oid format : is_panic (pgParameter data oid format) = false.
Proof.
  destruct data as [data|]; [|done]. unfold pgParameter. cbv zeta.
  destruct (format =? 0).
  - repeat case_match; try done;
      rewrite ?fmap_no_panic, ?parseBool_no_panic, ?parseInt_no_panic, ?of_sum_no_panic; done.
  - destruct (oid =? 16); [by repeat case_match|].
    repeat (match goal with |- context [if oid =? ?k then _ else _] => destruct (oid =? k) end;
      [apply sized_no_panic|]).
    by case_match.
Qed.

(** The values that have an OID of their own, and the value a client sends back:
    integers and floats come back as 64-bit ones, bytes as text. *)
Definition wireOID (v : value) : option Z :=
  match v with
  | VBool _ => Some 16
  | VInt8 _ | VInt16 _ | VInt32 _ | VInt64 _ | VInt _ => Some 20
  | VUint8 _ | VUint16 _ | VUint32 _ | VUint64 _ | VUint _ => Some 20
  | VFloat32 _ | VFloat64 _ => Some 701
  | VString _ | VBytes (Some _) => Some 25
  | _ => None
  end.
Definition wireValue (v : value) : value :=
  match v with
  | VInt8 z | VInt16 z | VInt32 z | VInt z => VInt64 z
  | VUint8 z | VUint16 z | VUint32 z | VUint64 z | VUint z => VInt64 z
  | VFloat32 b => VFloat64 (f64_of_f32 b)
  | VBytes (Some s) => VString s
  | v => v
  end.
(** The values the wire carries: integers that fit 64 signed bits, floats that are
    numbers, text that is not empty; a float32 in text only. *)
Definition wire_ok (format : Z) (v : value) : Prop :=
  match v with
  | VUint64 z | VUint z => 0 <= z < 2 ^ 63
  | VFloat64 b => 0 <= b < 2 ^ 64 /\ isNaN b = false
  | VFloat32 b => format = 0 /\ 0 <= f64_of_f32 b < 2 ^ 64 /\ isNaN (f64_of_f32 b) = false
  | VString s => s <> ""
  | v => value_wf v
  end.

(** What a parameter of a type is: in binary, the big-endian encoding of a value of
    its width, in two's complement for integers; in text, what [strconv] reads. *)
Inductive binary_param : Z -> string -> value -> Prop :=
| bp_bool (b : bool) : binary_param 16 (str1 (chr (if b then 1 else 0))) (VBool b)
| bp_int8 z : in_range 64 z -> binary_param 20 (bigEndian 8 (z mod 2 ^ 64)) (VInt64 z)
| bp_int4 z : in_range 32 z -> binary_param 23 (bigEndian 4 (z mod 2 ^ 32)) (VInt32 z)
| bp_int2 z : in_range 16 z -> binary_param 21 (bigEndian 2 (z mod 2 ^ 16)) (VInt16 z)
| bp_float8 b : 0 <= b < 2 ^ 64 -> binary_param 701 (bigEndian 8 b) (VFloat64 b)
| bp_float4 b : 0 <= b < 2 ^ 32 -> binary_param 700 (bigEndian 4 b) (VFloat32 b)
| bp_text oid s : oid ∈ [25; 1043; 114] -> binary_param oid s (VString s).

Inductive text_param : Z -> string -> value -> Prop :=
| tp_bool s b : parseBool s = Ok b -> text_param 16 s (VBool b)
| tp_int oid s z : oid ∈ [20; 21; 23] -> parseInt s 64 = Ok z -> text_param oid s (VInt64 z)
| tp_float oid s b : oid ∈ [700; 701] -> parseFloat s 64 = inr b -> text_param oid s (VFloat64 b)
| tp_text oid s : oid ∉ [16; 20; 21; 23; 700; 701] -> text_param oid s (VString s).

(** The binary cases of a width. *)
Lemma sized_Ok {w : nat} (k : Z -> value) data v (e : string) :
  (if (String.length data =? w)%nat then u ← uintBE w data; Ok (k u) else Err e) = Ok v ->
  exists u, 0 <= u < 256 ^ Z.of_nat w /\ data = bigEndian w u /\ v = k u.
Proof.
  destruct (_ =? w)%nat eqn:E; [|done]. apply Nat.eqb_eq in E. rewrite uintBE_full by done.
  intros [= <-]. exists (bigEndianValue 0 data). split; [|split; [by rewrite bigEndian_bigEndianValue|done]].
  rewrite <- E. apply bigEndianValue_bound.
Qed.
Lemma sized_signed data w bits (c : Z -> value) v (e : string) :
  0 < bits -> 256 ^ Z.of_nat w = 2 ^ bits ->
  (if (String.length data =? w)%nat then u ← uintBE w data; Ok (c (signed bits u)) else Err e) = Ok v ->
  exists z, in_range bits z /\ data = bigEndian w (z mod 2 ^ bits) /\ v = c z.
Proof.
  intros Hb Hw (u & Hu & -> & ->)%(sized_Ok (fun u => c (signed bits u))). rewrite Hw in Hu.
  exists (signed bits u). rewrite signed_mod by done. by split; [apply signed_range|].
Qed.
Lemma sized_complete {A} (w : nat) (u : Z) (f : Z -> res A) (e : res A) :
  0 <= u < 256 ^ Z.of_nat w ->
  (if (String.length (bigEndian w u) =? w)%nat then x ← uintBE w (bigEndian w u); f x else e) = f u.
Proof. intros Hu. by rewrite bigEndian_length, Nat.eqb_refl, uintBE_bigEndian. Qed.

Lemma sized_complete_mod {A} (w : nat) (z bits : Z) (f : Z -> res A) (e : res A) :
  0 < bits -> 256 ^ Z.of_nat w = 2 ^ bits ->
  (if (String.length (bigEndian w (z mod 2 ^ bits)) =? w)%nat
   then x ← uintBE w (bigEndian w (z mod 2 ^ bits)); f x else e) = f (z mod 2 ^ bits).
Proof.
  intros Hb Hw. apply sized_complete. rewrite Hw. apply Z.mod_pos_bound, Z.pow_pos_nonneg; lia.
Qed.

Lemma pgParameter_binary data oid format v :
  (format =? 0) = false -> pgParameter (Some data) oid format = Ok v -> binary_param oid data v.
Proof.
  unfold pgParameter. cbv zeta. intros ->.
  destruct (oid =? 16) eqn:E16; bool_to_prop; [subst|].
  { destruct data as [|c [|]]; try done. destruct (zc c <=? 1) eqn:Ec; [|done]. intros [= <-].
    pose proof (zc_range c). bool_to_prop. rewrite <- (chr_zc c) at 1.
    assert (zc c = 0 \/ zc c = 1) as [-> | ->] by lia; [apply (bp_bool false)|apply (bp_bool true)]. }
  destruct (oid =? 20) eqn:E20; bool_to_prop; [subst|].
  { intros (z & ? & -> & ->)%(sized_signed _ _ 64 VInt64); [by constructor|lia|done]. }
  destruct (oid =? 23) eqn:E23; bool_to_prop; [subst|].
  { intros (z & ? & -> & ->)%(sized_signed _ _ 32 VInt32); [by constructor|lia|done]. }
  destruct (oid =? 21) eqn:E21; bool_to_prop; [subst|].
  { intros (z & ? & -> & ->)%(sized_signed _ _ 16 VInt16); [by constructor|lia|done]. }
  destruct (oid =? 701) eqn:E701; bool_to_prop; [subst|].
  { intros (z & ? & -> & ->)%(sized_Ok VFloat64). by constructor. }
  destruct (oid =? 700) eqn:E700; bool_to_prop; [subst|].
  { intros (z & ? & -> & ->)%(sized_Ok VFloat32). by constructor. }
  destruct (_ || _) eqn:Et; [|done]. intros [= <-]. constructor.
  rewrite !orb_true_iff, !Z.eqb_eq in Et. set_solver.
Qed.

Lemma binary_param_pgParameter data oid format v :
  (format =? 0) = false -> binary_param oid data v -> pgParameter (Some data) oid format = Ok v.
Proof.
  intros Hf H. unfold pgParameter. cbv zeta. rewrite Hf.
  destruct H as [b|z Hz|z Hz|z Hz|b Hb|b Hb|oid s Ho].
  - by destruct b.
  - cbn [Z.eqb Pos.eqb]. by rewrite (sized_complete_mod _ _ 64), signed_wrap.
  - cbn [Z.eqb Pos.eqb]. by rewrite (sized_complete_mod _ _ 32), signed_wrap.
  - cbn [Z.eqb Pos.eqb]. by rewrite (sized_complete_mod _ _ 16), signed_wrap.
  - cbn [Z.eqb Pos.eqb]. by rewrite sized_complete.
  - cbn [Z.eqb Pos.eqb]. by rewrite sized_complete.
  - rewrite !elem_of_cons, elem_of_nil in Ho. by destruct Ho as [->|[->|[->|[]]]].
Qed.

Lemma pgParameter_text data oid v :
  pgParameter (Some data) oid 0 = Ok v <-> text_param oid data v.
Proof.
  unfold pgParameter. cbv zeta. cbn [Z.eqb]. split.
  - destruct (oid =? 16) eqn:E16; bool_to_prop; [subst; intros (b & ? & ->)%fmap_Ok; by constructor|].
    destruct (_ || _ || _) eqn:Ei; [rewrite !orb_true_iff, !Z.eqb_eq in Ei|bool_to_prop].
    { intros (z & ? & ->)%fmap_Ok. constructor; [set_solver|done]. }
    destruct (_ || _) eqn:Ef; [rewrite !orb_true_iff, !Z.eqb_eq in Ef|bool_to_prop].
    { intros (z & Hz%of_sum_Ok & ->)%fmap_Ok. constructor; [set_solver|done]. }
    intros [= <-]. constructor. set_solver.
  - intros [s b Hb|o s z Ho Hz|o s b Ho Hb|o s Ho].
    + cbn. by rewrite Hb.
    + rewrite !elem_of_cons, elem_of_nil in Ho. destruct Ho as [->|[->|[->|[]]]]; cbn; by rewrite Hz.
    + rewrite !elem_of_cons, elem_of_nil in Ho. destruct Ho as [->|[->|[]]]; cbn; by rewrite Hb.
    + rewrite !not_elem_of_cons in Ho. destruct Ho as (H1 & H2 & H3 & H4 & H5 & H6 & _).
      apply Z.eqb_neq in H1, H2, H3, H4, H5, H6. by rewrite H1, H2, H3, H4, H5, H6.
Qed.

Lemma in_range_64 bits z : 0 < bits <= 64 -> in_range bits z -> in_range 64 z.
Proof.
  intros Hb [H1 H2]. assert (2 ^ (bits - 1) <= 2 ^ (64 - 1)) by (apply Z.pow_le_mono_r; lia).
  unfold in_range. lia.
Qed.

Lemma integer_roundtrip v z format :
  formatValue v = Ok (Some (formatInt z)) -> sprint v = formatInt z -> v <> VNil ->
  in_range 64 z -> format = 0 \/ format = 1 ->
  exists data, pgValue v 20 format = Ok (Some data)
    /\ pgParameter (Some data) 20 format = Ok (VInt64 z).
Proof.
  intros Hf Hs Hn Hz [-> | ->].
  - exists (formatInt z). split.
    + unfold pgValue. rewrite Hf. by destruct v.
    + cbn. by rewrite parseInt_formatInt.
  - exists (putUint64 z). split.
    + unfold pgValue. cbn. rewrite Hs, parseInt_formatInt by done. by destruct v.
    + unfold putUint64. by apply binary_param_pgParameter; [|constructor].
Qed.
End codec.

(** ** The properties of the encoding *)

(** C29: values survive the wire.  A boolean, a signed integer, an unsigned one below
    [2^63], a float64 that is a number, text that is not empty or bytes, encoded as a
    result of its type in text or binary format and sent back as a parameter with
    the same type and format, is decoded to the same value (integers come back as
    64-bit ones, bytes as text); so is, in text format, a float32 that is a number,
    as the float64 it equals. *)
Theorem pgValue_roundtrip `{U : UnicodeTables} `{F : GoFloat} `{J : GoJson} `{K : Hack}
    `{L : !GoFloatLaws F} `{LK : !HackLaws K} v oid format :
  wireOID v = Some oid -> wire_ok format v -> format = 0 \/ format = 1 ->
  exists data, pgValue v oid format = Ok (Some data)
    /\ pgParameter (Some data) oid format = Ok (wireValue v).
Proof.
  intros Ho Hw Hf. assert (forall z, 0 <= z < 2 ^ 63 -> in_range 64 z) as Hu
    by (intros z Hz; unfold in_range; change (2 ^ (64 - 1)) with (2 ^ 63); lia).
  destruct v as [| | | | | | | | | | |z|b|b| |[s|]|s|]; try done; injection Ho as <-; cbn [wireValue];
    try (apply integer_roundtrip; try done;
         solve [by eapply in_range_64; [|exact Hw]|exact Hw|apply Hu; cbn in Hw; lia]).
  - destruct Hf as [-> | ->]; destruct b; eexists; by split.
  - destruct Hw as (-> & Hb & Hn). exists (formatFloat (f64_of_f32 b)). split; [done|].
    cbn. by rewrite parse_formatFloat.
  - destruct Hw as [Hb Hn]. destruct Hf as [-> | ->].
    + exists (formatFloat b). split; [done|]. cbn. by rewrite parse_formatFloat.
    + exists (putUint64 b). split.
      * unfold pgValue. cbn -[putUint64]. by rewrite parse_sprintFloat64.
      * apply binary_param_pgParameter; [done|]. unfold putUint64. rewrite Z.mod_small by done.
        by constructor.
  - destruct Hf as [-> | ->]; exists s; by split.
  - exists s. pose proof (hackSlice_nonempty s Hw). destruct Hf as [-> | ->]; split; try done;
      unfold pgValue; cbn; congruence.
Qed.

Lemma pgValue_roundtrip_witness :
  exists data,
    @pgValue sampleUnicode sampleFloat sampleJson sampleHack (VInt16 (-2)) 20 1 = Ok (Some data)
    /\ @pgParameter sampleUnicode sampleFloat (Some data) 20 1 = Ok (VInt64 (-2)).
Proof.
  apply (@pgValue_roundtrip sampleUnicode sampleFloat sampleJson sampleHack _ _ (VInt16 (-2)) 20 1).
  - reflexivity.
  - cbn. unfold in_range. cbn. lia.
  - right. reflexivity.
Defined.

(** C30: a parameter is decoded exactly when its bytes encode a value of its type.
    [pgParameter] never panics, whatever the length of the bytes; no bytes are the
    nil value; in binary it accepts exactly the one-byte booleans, the big-endian
    two's complement encodings of 8, 4 and 2 bytes, the bits of floats of 8 and 4
    bytes and any text, and answers the value encoded; in text, what [strconv]
    reads for the type, or the text itself for a type that is not a boolean or a
    number. *)
Theorem pgParameter_exact `{U : UnicodeTables} `{F : GoFloat} data oid format :
  is_panic (pgParameter data oid format) = false
  /\ forall v, pgParameter data oid format = Ok v <->
       match data with
       | None => v = VNil
       | Some bytes =>
           (format = 0 /\ text_param oid bytes v) \/ (format <> 0 /\ binary_param oid bytes v)
       end.
Proof.
  split; [apply pgParameter_no_panic|]. intros v.
  destruct data as [data|]; [|by split; [intros [= <-]|intros ->]].
  destruct (format =? 0) eqn:Ef; bool_to_prop.
  - subst. rewrite pgParameter_text. naive_solver.
  - split; [intros H; right; split; [done|]|intros [[? _]|[_ H]]; [done|]].
    + eapply pgParameter_binary; [|done]. by apply Z.eqb_neq.
    + apply binary_param_pgParameter; [|done]. by apply Z.eqb_neq.
Qed.
