(* ===== verification/Params.v ===== *)
(** * Types of statement parameters ([parameters.go])

    [parameterOIDs] binds a marker string to each parameter, parses the statement,
    and types a parameter from the column it is compared with or inserted into.
    The type slice is updated in place in the source; here it is threaded. *)
From S2P Require Export Query PgCodec.
Open Scope Z_scope.
Open Scope go_scope.

(** [fmt.Sprintf("__milvus_param_%d__", i+1)] *)
Definition markerPrefix : string := "__milvus_param_".
Definition marker (i : nat) : string := markerPrefix +:+ formatInt (Z.of_nat i + 1) +:+ "__".

(** The table of the statement, or the empty string. *)
Definition fromTable (ts : list TableExpr) : string :=
  match ts with
  | [AliasedTableExpr (TableNameExpr t) _ _] => tn_Name t
  | _ => ""
  end.
Definition parameterTable (stmt : Statement) : string :=
  match stmt with
  | SelectStmt s => fromTable (sel_From s)
  | InsertStmt s => tn_Name (ins_Table s)
  | DeleteStmt s => fromTable (del_TableExprs s)
  | _ => ""
  end.

(** The loop that turns the types still unknown into text. *)
Definition defaultOIDs (oids : list Z) : list Z := map (fun o => if o =? 0 then 25 else o) oids.

(** The closure [set]. *)
Definition setOID (e : Expr) (oid : Z) (oids : list Z) : list Z :=
  match e with
  | SQLVal _ text =>
      if negb (hasPrefix text markerPrefix) || negb (hasSuffix text "__") then oids
      else
        match parseIntE (trimSuffix (trimPrefix text markerPrefix) "__") 64 with
        | inl _ => oids
        | inr n =>
            if (n >? 0) && (n <=? Z.of_nat (length oids)) then
              if default 0 (oids !! Z.to_nat (n - 1)) =? 0
              then <[Z.to_nat (n - 1) := oid]> oids
              else oids
            else oids
        end
  | _ => oids
  end.

(** The closure [fieldOID]. *)
Definition fieldOID (f : option SField) : Z :=
  match f with
  | None => 25
  | Some f => pgOID (resultField (sf_Name f) (sf_DataType f))
  end.

(** The visitor: one node. *)
Definition visitNode (fields : gmap string SField) (node : SQLNode) (oids : list Z) : list Z :=
  match node with
  | NComparison (Some (l, r)) =>
      let oids :=
        match l with
        | ColName n _ =>
            let oid := fieldOID (fields !! n) in
            let oids := setOID r oid oids in
            match r with
            | ValTuple es => fold_left (fun o e => setOID e oid o) es oids
            | _ => oids
            end
        | _ => oids
        end in
      match r with
      | ColName n _ => setOID l (fieldOID (fields !! n)) oids
      | _ => oids
      end
  | NLimit (Some l) =>
      let oids := setOID (lim_Rowcount l) 20 oids in
      match lim_Offset l with Some o => setOID o 20 oids | None => oids end
  | _ => oids
  end.

(** The values of one row: [names] are those of the remaining columns. *)
Fixpoint visitRow (fields : gmap string SField) (names : list string) (row : list Expr)
    (oids : list Z) : list Z :=
  match row, names with
  | e :: row', n :: names' =>
      visitRow fields names' row' (setOID e (fieldOID (fields !! n)) oids)
  | _, _ => oids
  end.

(** The part for an INSERT. *)
Definition visitInsert (fields : gmap string SField) (schema : Schema) (s : Sqlparser.Insert)
    (oids : list Z) : list Z :=
  match ins_Rows s with
  | Values rows => fold_left (fun o row => visitRow fields (insertNames schema s) row o) rows oids
  | _ => oids
  end.

Section params.
Context `{U : UnicodeTables} `{F : GoFloat} `{J : GoJson} `{P : Sqlparser} `{V : Vendor}.
Context {Up : @Upstream V}.

(** The typing of the parameters of a parsed statement; the schema is nil when
    the statement has no table. *)
Definition typeParameters (stmt : Statement) (schema : option Schema) (oids : list Z)
    : list Z :=
  let fields := match schema with Some s => schemaFields (sc_Fields s) | None => ∅ end in
  let oids := fold_left (fun o node => visitNode fields node o) (WalkNodes stmt) oids in
  let oids :=
    match stmt, schema with
    | InsertStmt s, Some sc => visitInsert fields sc s oids
    | _, _ => oids
    end in
  defaultOIDs oids.

(** [parameterOIDs] *)
Definition parameterOIDs (q : string) (oids : list Z) : M (list Z) :=
  match oids with
  | [] => mret []
  | _ =>
      '(normalized, _) ← lift (bindSQL q "postgres"
                                 (map (fun i => VString (marker i)) (seq 0 (length oids))) false);
      match Parse (replaceFirst upsertRE normalized "REPLACE INTO") with
      | inl _ => mret (defaultOIDs oids)
      | inr stmt =>
          let table := parameterTable stmt in
          if negb (table =?s "") && negb (table =?s "dual") then
            schema ← GetCollectinSchema table;
            mret (typeParameters stmt (Some schema) oids)
          else mret (typeParameters stmt None oids)
      end
  end.
End params.
