(* ===== verification/ParamsSpec.v ===== *)
(** * Properties of parameter typing

    [parameterOIDs] only fills in types the client left out: it keeps the given
    ones, never leaves one unknown, and reads at most one schema. *)
From S2P Require Export Params BindSpec QuerySpec.
Open Scope Z_scope.
Open Scope go_scope.

(** [o'] has the length of [o] and every type that is known in [o]. *)
Definition fills (o o' : list Z) : Prop :=
  length o' = length o /\ forall i x, o !! i = Some x -> x <> 0 -> o' !! i = Some x.

#[export] Instance fills_preorder : PreOrder fills.
Proof.
  split; [by intros o|]. intros o1 o2 o3 [L1 H1] [L2 H2]. split; [congruence|]. auto.
Qed.

(** The types the typing can give. *)
Definition knownOID (x : Z) : Prop := x = 16 \/ x = 20 \/ x = 701 \/ x = 25.

(** Every element of [o'] is in [o] or known. *)
Definition known_from (o o' : list Z) : Prop := forall x, x ∈ o' -> x ∈ o \/ knownOID x.
#[export] Instance known_from_preorder : PreOrder known_from.
Proof.
  split; [intros o x; auto|]. intros o1 o2 o3 H1 H2 x Hx.
  destruct (H2 x Hx) as [Hx2|]; [apply H1, Hx2|auto].
Qed.

Definition types (o o' : list Z) : Prop := fills o o' /\ known_from o o'.
#[export] Instance types_preorder : PreOrder types.
Proof.
  split; [intros o; split; reflexivity|].
  intros o1 o2 o3 [H1 H2] [H3 H4]. split; by etransitivity.
Qed.

Section typing.
Lemma fieldOID_known f : knownOID (fieldOID f).
Proof.
  unfold knownOID. destruct f as [f|]; cbn; [|tauto].
  unfold pgOID, resultField. destruct (sf_DataType f); cbn; tauto.
Qed.

Lemma setOID_types e x o : knownOID x -> types o (setOID e x o).
Proof.
  intros Hx. unfold setOID. destruct e; try reflexivity. destruct (_ || _); [reflexivity|].
  destruct (parseIntE _ 64) as [|n]; [reflexivity|].
  destruct (_ && _) eqn:E; [|reflexivity]. bool_to_prop.
  destruct (default 0 _ =? 0) eqn:E0; [|reflexivity]. bool_to_prop.
  split; [split|].
  - apply length_insert.
  - intros i y Hi Hy. destruct (decide (i = Z.to_nat (n - 1))) as [->|Hne].
    + rewrite Hi in E0. cbn in E0. done.
    + by rewrite list_lookup_insert_ne.
  - intros y Hy. apply list_elem_of_lookup in Hy as [i Hi].
    apply list_lookup_insert_Some in Hi as [(<- & <- & _)|[_ Hi]]; [auto|].
    left. by eapply list_elem_of_lookup_2.
Qed.

Lemma fold_types {A} (f : list Z -> A -> list Z) l o :
  (forall o x, types o (f o x)) -> types o (fold_left f l o).
Proof.
  intros Hf. revert o; induction l as [|x l IH]; intros o; [reflexivity|]. cbn.
  etransitivity; [apply Hf|apply IH].
Qed.

Lemma visitNode_types fields node o : types o (visitNode fields node o).
Proof.
  destruct node as [[[l r]|]|[l|]|]; try reflexivity; cbn [visitNode].
  - set (o1 := match l with ColName _ _ => _ | _ => _ end).
    assert (types o o1) as H1.
    { subst o1. destruct l; try reflexivity. cbv zeta.
      assert (types o (setOID r (fieldOID (fields !! Name)) o)) as H
        by apply setOID_types, fieldOID_known.
      destruct r; try exact H. etransitivity; [exact H|]. apply fold_types.
      intros. apply setOID_types, fieldOID_known. }
    destruct r; try exact H1. etransitivity; [exact H1|]. apply setOID_types, fieldOID_known.
  - assert (knownOID 20) as H20 by (unfold knownOID; tauto).
    assert (types o (setOID (lim_Rowcount l) 20 o)) as H by by apply setOID_types.
    destruct (lim_Offset l); [|exact H]. etransitivity; [exact H|]. by apply setOID_types.
Qed.

Lemma visitRow_types fields names row o : types o (visitRow fields names row o).
Proof.
  revert names o; induction row as [|e row IH]; intros [|n names] o; try reflexivity. cbn.
  etransitivity; [apply setOID_types, fieldOID_known|apply IH].
Qed.

Lemma visitInsert_types fields schema s o : types o (visitInsert fields schema s o).
Proof.
  unfold visitInsert. destruct (ins_Rows s); [|reflexivity].
  apply fold_types. intros. apply visitRow_types.
Qed.

Lemma defaultOIDs_types o : types o (defaultOIDs o) /\ 0 ∉ defaultOIDs o.
Proof.
  unfold defaultOIDs. split; [split; [split|]|].
  - apply length_map.
  - intros i x Hi Hx. rewrite list_lookup_fmap, Hi. cbn. by destruct (x =? 0) eqn:E; bool_to_prop.
  - intros x Hx. apply list_elem_of_fmap in Hx as (y & -> & Hy).
    destruct (y =? 0); [unfold knownOID; tauto|auto].
  - intros Hx. apply list_elem_of_fmap in Hx as (y & H & Hy).
    destruct (y =? 0) eqn:E; bool_to_prop; [done|congruence].
Qed.

Context `{U : UnicodeTables} `{F : GoFloat} `{J : GoJson} `{P : Sqlparser} `{V : Vendor}.

Lemma typeParameters_types stmt schema o :
  types o (typeParameters stmt schema o) /\ 0 ∉ typeParameters stmt schema o.
Proof.
  unfold typeParameters. cbv zeta.
  set (fields := match schema with Some _ => _ | None => _ end).
  set (o1 := fold_left _ _ o). assert (types o o1) as H1
    by (apply fold_types; intros; apply visitNode_types).
  set (o2 := match stmt with InsertStmt _ => _ | _ => _ end). assert (types o o2) as H2.
  { subst o2. destruct stmt; try exact H1. destruct schema; [|exact H1].
    etransitivity; [exact H1|apply visitInsert_types]. }
  destruct (defaultOIDs_types o2) as [H3 H4]. split; [by etransitivity|done].
Qed.

Context {Up : @Upstream V}.

Lemma parameterOIDs_obeys (R : relation session) {HR : SessionRel R} q oids :
  (forall n, admits R (CDescribeCollection n)) -> obeys R (parameterOIDs q oids).
Proof.
  intros Hadm.
  assert (forall n, obeys R (GetCollectinSchema n)) by (intros; apply GetCollectinSchema_obeys; auto).
  unfold parameterOIDs. walk.
Qed.

Lemma parameterOIDs_safe q oids : safe (parameterOIDs q oids).
Proof.
  pose proof GetCollectinSchema_safe. unfold parameterOIDs. destruct oids as [|o oids]; [walk_safe|].
  apply safe_bind_lift; [apply bindSQL_no_panic|]. walk_safe.
Qed.

Lemma parameterOIDs_types q oids s out s' :
  parameterOIDs q oids s = (Ok out, s') -> types oids out /\ 0 ∉ out.
Proof.
  unfold parameterOIDs. destruct oids as [|o oids].
  { intros [= <- _]. split; [reflexivity|set_solver]. }
  intros H. apply bindM_Ok in H as ([norm c] & s1 & Hb & H). apply lift_inv in Hb as [_ ->].
  destruct (Parse _) as [e|stmt].
  { injection H as <- _. apply defaultOIDs_types. }
  cbv zeta in H. destruct (_ && _).
  - apply bindM_Ok in H as (schema & s1 & _ & [= <- _]). apply typeParameters_types.
  - injection H as <- _. apply typeParameters_types.
Qed.
End typing.

(** ** The property of parameter typing *)

(** C31: the types of a prepared statement's parameters.  When [parameterOIDs]
    succeeds there is one type per parameter; those the client gave are kept, and
    every other one is boolean, 64-bit integer, double or text, never unknown. *)
Theorem parameterOIDs_sound `{F : GoFloat} `{P : Sqlparser} `{V : Vendor}
    {Up : @Upstream V} q oids s out s' :
  parameterOIDs q oids s = (Ok out, s') ->
  length out = length oids
  /\ (forall i x, oids !! i = Some x -> x <> 0 -> out !! i = Some x)
  /\ (forall x, x ∈ out -> x <> 0 /\ (x ∈ oids \/ knownOID x)).
Proof.
  intros [[[Hl Hk] Hf] H0]%parameterOIDs_types. split_and!; [done..|].
  intros x Hx. split; [by intros ->|by apply Hf].
Qed.

(** The parse of [SELECT id FROM docs WHERE id = $1], with the marker in place. *)
Definition sampleParamSelect : Statement :=
  SelectStmt (mk_Select "" [AliasedExpr (ColName "id" true) true]
    [AliasedTableExpr (TableNameExpr (mk_TableName "docs" true)) true true]
    (Some (ComparisonExpr "=" (ColName "id" true) (SQLVal StrVal (marker 0)) None))
    [] None [] None "").
Definition sampleParamRun :=
  @parameterOIDs sampleFloat (sampleSqlparser sampleParamSelect) sampleVendor
    sampleUpstream "SELECT id FROM docs WHERE id = $1" [0] (mk_session NewSession []).

Lemma sampleParamRun_ok : sampleParamRun = (Ok [20], sampleParamRun.2).
Proof. vm_compute. reflexivity. Qed.

Lemma parameterOIDs_sound_witness : length [20] = 1%nat.
Proof.
  exact (proj1 (@parameterOIDs_sound sampleFloat
    (sampleSqlparser sampleParamSelect) sampleVendor sampleUpstream
    "SELECT id FROM docs WHERE id = $1" [0] (mk_session NewSession []) [20] sampleParamRun.2
    sampleParamRun_ok)).
Defined.
