(* ===== verification/Postgres.v ===== *)
(** * The PostgreSQL protocol ([postgres.go], lines 19-333)

    A connection is a state machine over the messages of the client: each case of
    the message loop is a definition in a monad, [W], of the connection's state,
    the messages sent and the error [opErr].  Messages are those of [pgproto3],
    after decoding; writing to the socket and deadlines are left out, and a failed
    read or flush is the end of the message list.  A statement's timeout is
    part of the answers of the Milvus oracle. *)
From S2P Require Export Params.
Open Scope Z_scope.
Open Scope go_scope.

(** ** Messages *)
Inductive FrontendMessage :=
| FTerminate
| FQuery (q : string)
| FParse (Name Query : string) (ParameterOIDs : list Z)
| FDescribe (ObjectType : ascii) (Name : string)
| FBind (DestinationPortal PreparedStatement : string) (ParameterFormatCodes : list Z)
    (Parameters : list (option string)) (ResultFormatCodes : list Z)
| FExecute (Portal : string) (MaxRows : Z)
| FClose (ObjectType : ascii) (Name : string)
| FSync
| FFlush
| FPassword (Password : string)
| FOther (typ : string).

Inductive BackendMessage :=
| ErrorResponse (Severity Code Message : string)
| EmptyQueryResponse
| RowDescription (Fields : list FieldDescription)
| DataRow (Values : list (option string))
| CommandComplete (CommandTag : string)
| ReadyForQuery (TxStatus : ascii)
| ParseComplete
| BindComplete
| CloseComplete
| ParameterDescription (ParameterOIDs : list Z)
| NoData
| PortalSuspended
| AuthenticationCleartextPassword
| AuthenticationOk
| ParameterStatus (Name Value : string)
| SSLResponse (byte : string).       (* the raw answer to an SSL request *)

(** ** State *)
Record pgStatement := mk_pgStatement { ps_query : string; ps_oids : list Z }.
Record pgPortal := mk_pgPortal {
  pp_query : string;
  pp_formats : list Z;
  pp_result : option Result;
  pp_pos : nat;
  pp_completed : bool
}.
Definition set_pp_result (r : Result) (p : pgPortal) : pgPortal :=
  mk_pgPortal (pp_query p) (pp_formats p) (Some r) (pp_pos p) (pp_completed p).
Definition set_pp_pos (n : nat) (p : pgPortal) : pgPortal :=
  mk_pgPortal (pp_query p) (pp_formats p) (pp_result p) n (pp_completed p).
Definition set_pp_completed (p : pgPortal) : pgPortal :=
  mk_pgPortal (pp_query p) (pp_formats p) (pp_result p) (pp_pos p) true.

Section postgres.
Context `{U : UnicodeTables} `{F : GoFloat} `{J : GoJson} `{K : Hack} `{P : Sqlparser} `{V : Vendor}.

Record pgState := mk_pgState {
  pg_session : session;
  pg_statements : gmap string pgStatement;
  pg_portals : gmap string pgPortal;
  pg_failed : bool
}.
Definition set_session (s : session) (st : pgState) : pgState :=
  mk_pgState s (pg_statements st) (pg_portals st) (pg_failed st).
Definition set_statements (m : gmap string pgStatement) (st : pgState) : pgState :=
  mk_pgState (pg_session st) m (pg_portals st) (pg_failed st).
Definition set_portals (m : gmap string pgPortal) (st : pgState) : pgState :=
  mk_pgState (pg_session st) (pg_statements st) m (pg_failed st).
Definition set_failed (b : bool) (st : pgState) : pgState :=
  mk_pgState (pg_session st) (pg_statements st) (pg_portals st) b.

(** ** The monad of a message handler *)
Definition W (A : Type) : Type := pgState -> outcome error A * pgState * list BackendMessage.
#[export] Instance W_ret : MRet W := fun A a st => (Ok a, st, []).
#[export] Instance W_bind : MBind W := fun A B f m st =>
  match m st with
  | (Ok a, st1, out1) => let '(r, st2, out2) := f a st1 in (r, st2, out1 ++ out2)
  | (Err e, st1, out1) => (Err e, st1, out1)
  | (Panic w, st1, out1) => (Panic w, st1, out1)
  end.
Definition send (m : BackendMessage) : W unit := fun st => (Ok tt, st, [m]).
Definition failW {A} (msg : string) : W A := fun st => (Err (Errorf msg), st, []).
Definition liftW {A} (c : res A) : W A := fun st => (map_err Errorf c, st, []).
Definition getW {A} (f : pgState -> A) : W A := fun st => (Ok (f st), st, []).
Definition modifyW (f : pgState -> pgState) : W unit := fun st => (Ok tt, f st, []).
(** [if c { opErr = e; break }] *)
Definition guardW (c : bool) (msg : string) : W unit := if c then failW msg else mret tt.
(** A computation of the session. *)
Definition sessionW {A} (m : M A) : W A := fun st =>
  let '(r, s') := m (pg_session st) in (r, set_session s' st, []).
(** [m], then [f] on the state however [m] ends. *)
Definition finallyW {A} (m : W A) (f : pgState -> pgState) : W A := fun st =>
  let '(r, st', out) := m st in (r, f st', out).

Context {Up : @Upstream V}.

(** The closure [execute]. *)
Definition executeW (q : string) (describe : bool) : W Result :=
  sessionW (if describe then Describe q else Execute q).

(** [pgRows] *)
Fixpoint sendRows (fields : list Field) (formats : list Z) (rs : list (list value)) : W unit :=
  match rs with
  | [] => mret tt
  | row :: rs' =>
      xs ← liftW (encodeRow fields formats 0 row);
      _ ← send (DataRow xs);
      sendRows fields formats rs'
  end.
Definition pgRows (r : Resultset) (start end_ : nat) (formats : list Z) : W unit :=
  rs ← liftW (sliceRows (rs_Values r) start end_);
  sendRows (rs_Fields r) formats rs.

Context `{T : SqlErrorText}.

(** The closure [fail]. *)
Definition failMessage (e : error) : BackendMessage := ErrorResponse "ERROR" "0A000" (errorText e).

Definition idle : BackendMessage := ReadyForQuery "I"%char.

(** ** The cases of the message loop *)

(** The statement of a [Query] message that is not empty. *)
Definition simpleQuery (text : string) : W unit :=
  '(q, _) ← liftW (bindSQL text "postgres" [] false);
  r ← executeW q false;
  _ ← match r_Resultset r with
      | Some rs =>
          _ ← send (RowDescription (pgDescription (rs_Fields rs) []));
          pgRows rs 0 (length (rs_Values rs)) []
      | None => mret tt
      end;
  send (CommandComplete (pgTag q r)).

(** [if opErr != nil { fail(opErr); opErr = nil }] *)
Definition reportW (m : W unit) : W unit := fun st =>
  match m st with
  | (Err e, st', out) => (Ok tt, st', out ++ [failMessage e])
  | r => r
  end.

(** [*pgproto3.Query] *)
Definition handlePgQuery (text : string) : W unit :=
  _ ← (if trimSpace text =?s "" then send EmptyQueryResponse else reportW (simpleQuery text));
  send idle.

(** [*pgproto3.Parse] *)
Definition handleParse (name query : string) (given : list Z) : W unit :=
  statements ← getW pg_statements;
  _ ← guardW ((1024 <=? size statements)%nat && negb (name =?s "")) "too many prepared statements";
  '(_, n) ← liftW (bindSQL query "postgres" [] true);
  _ ← guardW (Z.of_nat (length given) >? n) "too many parameter types";
  oids ← sessionW (parameterOIDs query (given ++ replicate (Z.to_nat n - length given) 0));
  _ ← guardW (isSome (statements !! name) && negb (name =?s "")) "prepared statement already exists";
  _ ← modifyW (fun st => set_statements (<[name := mk_pgStatement query oids]> (pg_statements st)) st);
  send ParseComplete.

(** The tail of [*pgproto3.Describe]: the columns of a statement. *)
Definition describeColumns (q : string) (formats : list Z) : W unit :=
  r ← executeW q true;
  match r_Resultset r with
  | None => send NoData
  | Some rs => send (RowDescription (pgDescription (rs_Fields rs) formats))
  end.

(** [*pgproto3.Describe] *)
Definition handleDescribe (typ : ascii) (name : string) : W unit :=
  if typ =?c "S"%char then
    statements ← getW pg_statements;
    match statements !! name with
    | None => failW "unknown prepared statement"
    | Some st =>
        _ ← send (ParameterDescription (ps_oids st));
        '(q, _) ← liftW (bindSQL (ps_query st) "postgres" [] true);
        describeColumns q []
    end
  else if typ =?c "P"%char then
    portals ← getW pg_portals;
    match portals !! name with
    | None => failW "unknown portal"
    | Some p => describeColumns (pp_query p) (pp_formats p)
    end
  else failW "invalid describe target".

(** The loop over the parameters of a [Bind]. *)
Fixpoint bindArguments (oids formats : list Z) (i : nat) (params : list (option string))
    : res (list value) :=
  match params with
  | [] => Ok []
  | data :: params' =>
      match oids !! i with
      | None => Panic "index out of range"
      | Some oid =>
          v ← pgParameter data oid (formatAt formats i);
          vs ← bindArguments oids formats (S i) params';
          Ok (v :: vs)
      end
  end.

(** [*pgproto3.Bind] *)
Definition handleBind (portal statement : string) (pformats : list Z)
    (params : list (option string)) (rformats : list Z) : W unit :=
  statements ← getW pg_statements;
  match statements !! statement with
  | None => failW "unknown prepared statement"
  | Some st =>
      _ ← guardW (negb (length params =? length (ps_oids st))%nat) "parameter count mismatch";
      _ ← guardW (negb (validFormats pformats (length params))) "invalid parameter formats";
      args ← liftW (bindArguments (ps_oids st) pformats 0 params);
      '(q, _) ← liftW (bindSQL (ps_query st) "postgres" args false);
      r ← executeW q true;
      let cols := match r_Resultset r with Some rs => length (rs_Fields rs) | None => 0%nat end in
      _ ← guardW (negb (validFormats rformats cols)) "invalid result formats";
      portals ← getW pg_portals;
      _ ← guardW ((1024 <=? size portals)%nat && negb (portal =?s "")) "too many portals";
      _ ← guardW (isSome (portals !! portal) && negb (portal =?s "")) "portal already exists";
      _ ← modifyW (fun st =>
            set_portals (<[portal := mk_pgPortal q rformats None 0 false]> (pg_portals st)) st);
      send BindComplete
  end.

(** A change to the portal [p] points to. *)
Definition updatePortal (name : string) (f : pgPortal -> pgPortal) (st : pgState) : pgState :=
  set_portals (alter f name (pg_portals st)) st.

(** [if p.result == nil { ... }]: the result of the portal. *)
Definition portalResult (name : string) (p : pgPortal) : W Result :=
  match pp_result p with
  | Some r => mret r
  | None =>
      r ← executeW (pp_query p) false;
      _ ← modifyW (updatePortal name (set_pp_result r));
      mret r
  end.

(** [p.completed = true] and the tag. *)
Definition completePortal (name : string) (p : pgPortal) (r : Result) : W unit :=
  _ ← modifyW (updatePortal name set_pp_completed);
  send (CommandComplete (pgTag (pp_query p) r)).

(** The end of the page that starts at [pos], of [n] rows. *)
Definition pageEnd (maxRows : Z) (pos n : nat) : nat :=
  if (maxRows >? 0) && (maxRows <? Z.of_nat n - Z.of_nat pos)
  then (pos + Z.to_nat maxRows)%nat else n.

(** [*pgproto3.Execute] *)
Definition handleExecute (name : string) (maxRows : Z) : W unit :=
  portals ← getW pg_portals;
  match portals !! name with
  | None => failW "unknown portal"
  | Some p =>
      r ← portalResult name p;
      match r_Resultset r with
      | Some rs =>
          if pp_completed p then completePortal name p r
          else
            let n := length (rs_Values rs) in
            let end_ := pageEnd maxRows (pp_pos p) n in
            _ ← finallyW (pgRows rs (pp_pos p) end_ (pp_formats p))
                  (updatePortal name (set_pp_pos end_));
            if (end_ <? n)%nat then send PortalSuspended else completePortal name p r
      | None => completePortal name p r
      end
  end.

(** [*pgproto3.Close] *)
Definition handleClose (typ : ascii) (name : string) : W unit :=
  _ ← (if typ =?c "S"%char
       then modifyW (fun st => set_statements (delete name (pg_statements st)) st)
       else if typ =?c "P"%char
       then modifyW (fun st => set_portals (delete name (pg_portals st)) st)
       else failW "invalid close target");
  send CloseComplete.

(** [*pgproto3.Sync] *)
Definition handleSync : W unit :=
  _ ← modifyW (fun st => set_portals ∅ (set_failed false st));
  send idle.

(** The type of a message without a case, for [%T]. *)
Definition messageType (m : FrontendMessage) : string :=
  match m with
  | FPassword _ => "*pgproto3.PasswordMessage"
  | FOther t => t
  | _ => ""
  end.

(** The switch of the message loop. *)
Definition handleMessage (m : FrontendMessage) : W unit :=
  match m with
  | FQuery q => handlePgQuery q
  | FParse name query oids => handleParse name query oids
  | FDescribe typ name => handleDescribe typ name
  | FBind portal statement pf params rf => handleBind portal statement pf params rf
  | FExecute portal maxRows => handleExecute portal maxRows
  | FClose typ name => handleClose typ name
  | FSync => handleSync
  | FFlush => mret tt
  | m => failW ("unsupported PostgreSQL message " +:+ messageType m)
  end.

(** ** The message loop *)

(** How a connection stands: open, returned from its loop, or panicked. *)
Inductive pgStatus := Open | Closed | Crashed (why : string).

(** One iteration on message [m]. *)
Definition pgStep (m : FrontendMessage) (st : pgState)
    : pgStatus * pgState * list BackendMessage :=
  match m with
  | FTerminate => (Closed, st, [])
  | _ =>
      if pg_failed st && negb (match m with FSync => true | _ => false end)
      then (Open, st, [])
      else
        match handleMessage m st with
        | (Ok _, st', out) => (Open, st', out)
        | (Err e, st', out) => (Open, set_failed true st', out ++ [failMessage e])
        | (Panic w, st', out) => (Crashed w, st', out)
        end
  end.

(** The loop over the messages received; the end of the list is a failed read. *)
Fixpoint pgServe (ms : list FrontendMessage) (st : pgState)
    : pgStatus * pgState * list BackendMessage :=
  match ms with
  | [] => (Closed, st, [])
  | m :: ms' =>
      match pgStep m st with
      | (Open, st', out) => let '(x, st'', out') := pgServe ms' st' in (x, st'', out ++ out')
      | r => r
      end
  end.

(** ** Startup and authentication (lines 31-110) *)
Inductive StartupMessage :=
| SSLRequest
| Startup (Parameters : gmap string string)
| OtherStartup.

(** What startup leaves: the session, if one was made, the state of the message
    loop, if it is reached, and the messages sent. *)
Record startupResult := mk_startupResult {
  su_session : option session;
  su_state : option pgState;
  su_out : list BackendMessage
}.
Definition stopped (out : list BackendMessage) : startupResult := mk_startupResult None None out.

Definition serverParameters : list (string * string) :=
  [("server_version", "14.0"); ("client_encoding", "UTF8");
   ("standard_conforming_strings", "on"); ("DateStyle", "ISO, MDY"); ("TimeZone", "UTC")].

(** After authentication: [newSession] is the client's session or its error. *)
Definition openSession (params : gmap string string) (newSession : string + session)
    (out : list BackendMessage) : startupResult :=
  match newSession with
  | inl e => stopped (out ++ [failMessage (Errorf e)])
  | inr s =>
      let db := default "" (params !! "database") in
      let db := if db =?s "" then "default" else db in
      match handleUseDB db s with
      | (Ok _, s') =>
          mk_startupResult (Some s') (Some (mk_pgState s' ∅ ∅ false))
            (out ++ AuthenticationOk
                 :: map (fun p => ParameterStatus p.1 p.2) serverParameters ++ [idle])
      | (Err e, s') => mk_startupResult (Some s') None (out ++ [failMessage e])
      | (Panic _, s') => mk_startupResult (Some s') None out
      end
  end.

(** The startup message and the password; [auth] is [None] when no message came. *)
Definition authenticate (user password : string) (startup : StartupMessage)
    (auth : option FrontendMessage) (newSession : string + session)
    (out : list BackendMessage) : startupResult :=
  match startup with
  | Startup params =>
      let out := out ++ [AuthenticationCleartextPassword] in
      let refused := stopped (out ++ [ErrorResponse "FATAL" "28P01" "authentication failed"]) in
      match auth with
      | None => stopped out
      | Some (FPassword pw) =>
          if negb (default "" (params !! "user") =?s user) || negb (pw =?s password)
          then refused
          else openSession params newSession out
      | Some _ => refused
      end
  | _ => stopped out
  end.

(** [servePostgres] up to its message loop.  [tls] is [None] without a TLS
    configuration, and otherwise whether the handshake succeeds; [startups] are the
    startup messages received. *)
Definition pgStartup (user password : string) (tls : option bool)
    (startups : list StartupMessage) (auth : option FrontendMessage)
    (newSession : string + session) : startupResult :=
  match startups with
  | [] => stopped []
  | SSLRequest :: rest =>
      match tls, rest with
      | Some false, _ => stopped [SSLResponse "S"]
      | None, [] => stopped [SSLResponse "N"]
      | Some true, [] => stopped [SSLResponse "S"]
      | None, m :: _ => authenticate user password m auth newSession [SSLResponse "N"]
      | Some true, m :: _ => authenticate user password m auth newSession [SSLResponse "S"]
      end
  | m :: _ => authenticate user password m auth newSession []
  end.
End postgres.
Arguments W {V} A.
