(* ===== verification/PostgresSpec.v ===== *)
(** * Properties of the PostgreSQL protocol

    [pg_inv] is the invariant of a connection.  [goodW m st Q] is a triple for the
    handlers of the extended protocol: from [st], [m] does not panic, sends
    neither an error nor [ReadyForQuery], leaves the failed flag, and ends in [Q]
    or in an error with the invariant.  [obeysW] carries relations on the session
    through the handlers, as [obeys] does for statements. *)
From S2P Require Export Postgres ParamsSpec PgCodecSpec.
Open Scope Z_scope.
Open Scope go_scope.

(** ** Relations on the session *)
Section relations.
Context `{V : Vendor}.

Definition obeysW {A} (R : relation session) (m : W A) : Prop :=
  forall st, R (pg_session st) (pg_session (m st).1.2).

Section obeysW.
Context (R : relation session) {HR : PreOrder R}.

Lemma obeysW_bind {A B} (m : W A) (f : A -> W B) :
  obeysW R m -> (forall a, obeysW R (f a)) -> obeysW R (m ≫= f).
Proof.
  intros Hm Hf st. specialize (Hm st). cbv [mbind W_bind].
  destruct (m st) as [[[a|e|w] st1] out1]; cbn in *; [|done..].
  specialize (Hf a st1). destruct (f a st1) as [[r st2] out2]. cbn in *. by etransitivity.
Qed.
Lemma obeysW_id {A} (m : W A) :
  (forall st, pg_session (m st).1.2 = pg_session st) -> obeysW R m.
Proof. intros H st. by rewrite H. Qed.
Lemma obeysW_ret {A} (a : A) : obeysW R (mret a).
Proof. by apply obeysW_id. Qed.
Lemma obeysW_send m : obeysW R (send m).
Proof. by apply obeysW_id. Qed.
Lemma obeysW_fail {A} msg : obeysW R (failW msg : W A).
Proof. by apply obeysW_id. Qed.
Lemma obeysW_get {A} (f : pgState -> A) : obeysW R (getW f).
Proof. by apply obeysW_id. Qed.
Lemma obeysW_lift {A} (c : res A) : obeysW R (liftW c).
Proof. by apply obeysW_id. Qed.
Lemma obeysW_guard c msg : obeysW R (guardW c msg).
Proof. apply obeysW_id. by destruct c. Qed.
Lemma obeysW_modify f :
  (forall st, pg_session (f st) = pg_session st) -> obeysW R (modifyW f).
Proof. intros H. apply obeysW_id. apply H. Qed.
Lemma obeysW_session {A} (m : M A) : obeys R m -> obeysW R (sessionW m).
Proof.
  intros H st. specialize (H (pg_session st)). unfold sessionW.
  by destruct (m (pg_session st)).
Qed.
End obeysW.
End relations.

Create HintDb pg discriminated.
#[export] Hint Resolve obeysW_ret obeysW_send obeysW_fail obeysW_get obeysW_lift obeysW_guard
  obeysW_session : pg.
#[export] Hint Extern 1 (PreOrder _) => apply _ : pg.
#[export] Hint Extern 1 (obeysW _ (modifyW _)) => apply obeysW_modify; [apply _|done] : pg.

Ltac walkW :=
  repeat (intros; cbv zeta; first
    [ solve [auto with pg]
    | apply obeysW_bind
    | match goal with
      | |- PreOrder _ => apply _
      | |- obeysW _ (match ?x with _ => _ end) => destruct x
      end ]).

(** ** The invariant of a connection *)
Section invariant.
Context `{F : GoFloat} `{V : Vendor}.

(** A portal's result is well formed and its position within the rows; before it
    has run, it is at the start. *)
Definition portal_ok (p : pgPortal) : Prop :=
  match pp_result p with
  | None => pp_pos p = 0%nat /\ pp_completed p = false
  | Some r =>
      result_wf (Some r)
      /\ match r_Resultset r with
         | Some rs => (pp_pos p <= length (rs_Values rs))%nat
         | None => True
         end
  end.

(** The names a client may use are bounded. *)
Definition named_bound {A} (m : gmap string A) : Prop := (size (delete "" m) <= 1024)%nat.

(** A prepared statement has as many parameter types as parameters, none unknown. *)
Definition statement_ok (s : pgStatement) : Prop :=
  (exists q, bindSQL (ps_query s) "postgres" [] true = Ok (q, Z.of_nat (length (ps_oids s))))
  /\ 0 ∉ ps_oids s.

Record pg_inv (st : pgState) : Prop := {
  inv_prepared : map_Forall (fun _ s => statement_ok s) (pg_statements st);
  inv_portals : map_Forall (fun _ p => portal_ok p) (pg_portals st);
  inv_statements : named_bound (pg_statements st);
  inv_named_portals : named_bound (pg_portals st)
}.

Lemma named_bound_insert {A} (m : gmap string A) name x :
  named_bound m -> name = "" \/ (size m < 1024)%nat \/ is_Some (m !! name) ->
  named_bound (<[name := x]> m).
Proof.
  unfold named_bound. intros Hb [->|[H|[y Hy]]].
  - by rewrite delete_insert_eq.
  - destruct (decide (name = "")) as [->|Hn]; [by rewrite delete_insert_eq|].
    rewrite delete_insert_ne by done.
    assert (size (delete "" m) <= size m)%nat.
    { rewrite map_size_delete. destruct (m !! ""); unfold id; lia. }
    rewrite map_size_insert. destruct (_ !! name); unfold id; lia.
  - destruct (decide (name = "")) as [->|Hn]; [by rewrite delete_insert_eq|].
    rewrite delete_insert_ne by done. rewrite map_size_insert_Some; [done|].
    exists y. by rewrite lookup_delete_ne.
Qed.

Lemma named_bound_delete {A} (m : gmap string A) name :
  named_bound m -> named_bound (delete name m).
Proof.
  unfold named_bound. intros H. rewrite delete_delete, map_size_delete.
  destruct (delete "" m !! name); unfold id; lia.
Qed.

Lemma named_bound_alter {A} (m : gmap string A) f name :
  named_bound m -> named_bound (alter f name m).
Proof.
  intros H. destruct (m !! name) as [x|] eqn:E.
  - replace (alter f name m) with (<[name := f x]> m).
    + apply named_bound_insert; [done|]. right. right. by exists x.
    + apply map_eq. intros i. destruct (decide (name = i)) as [<-|Hn].
      * by rewrite lookup_insert_eq, lookup_alter_eq, E.
      * by rewrite lookup_insert_ne, lookup_alter_ne.
  - rewrite alter_id; [done|]. intros x Hx. congruence.
Qed.
End invariant.

(** ** Handlers of the extended protocol *)
Section goodW.
Context `{F : GoFloat} `{V : Vendor}.

(** Neither an error nor the end of a cycle. *)
Definition quiet (m : BackendMessage) : bool :=
  match m with ReadyForQuery _ | ErrorResponse _ _ _ => false | _ => true end.

Definition goodW {A} (m : W A) (st : pgState) (Q : A -> pgState -> Prop) : Prop :=
  let '(r, st', out) := m st in
  Forall (fun b => quiet b = true) out
  /\ pg_failed st' = pg_failed st
  /\ match r with Ok a => Q a st' | Err _ => pg_inv st' | Panic _ => False end.

Lemma goodW_bind {A B} (m : W A) (f : A -> W B) st Q :
  goodW m st (fun a st' => goodW (f a) st' Q) -> goodW (m ≫= f) st Q.
Proof.
  unfold goodW. cbv [mbind W_bind].
  destruct (m st) as [[[a|e|w] st1] out1]; [|done..].
  destruct (f a st1) as [[r st2] out2].
  intros (H1 & H2 & H3 & H4 & H5). split_and!; [by apply Forall_app|congruence|done].
Qed.
Lemma goodW_mono {A} (m : W A) st (Q Q' : A -> pgState -> Prop) :
  goodW m st Q -> (forall a st', Q a st' -> Q' a st') -> goodW m st Q'.
Proof. unfold goodW. destruct (m st) as [[[a|e|w] st'] out]; naive_solver. Qed.
Lemma goodW_ret {A} (a : A) st (Q : A -> pgState -> Prop) : Q a st -> goodW (mret a) st Q.
Proof. done. Qed.
Lemma goodW_send m st (Q : unit -> pgState -> Prop) :
  quiet m = true -> Q tt st -> goodW (send m) st Q.
Proof. intros. split_and!; [by constructor|done|done]. Qed.
Lemma goodW_fail {A} msg st (Q : A -> pgState -> Prop) : pg_inv st -> goodW (failW msg) st Q.
Proof. done. Qed.
Lemma goodW_get {A} (f : pgState -> A) st (Q : A -> pgState -> Prop) :
  Q (f st) st -> goodW (getW f) st Q.
Proof. done. Qed.
Lemma goodW_modify f st (Q : unit -> pgState -> Prop) :
  pg_failed (f st) = pg_failed st -> Q tt (f st) -> goodW (modifyW f) st Q.
Proof. done. Qed.
Lemma goodW_lift {A} (c : res A) st (Q : A -> pgState -> Prop) :
  pg_inv st -> is_panic c = false -> (forall a, c = Ok a -> Q a st) -> goodW (liftW c) st Q.
Proof. intros Hi Hp HQ. split_and!; [done..|]. destruct c; cbn; auto; done. Qed.
Lemma goodW_guard c msg st (Q : unit -> pgState -> Prop) :
  pg_inv st -> (c = false -> Q tt st) -> goodW (guardW c msg) st Q.
Proof. destruct c; intros; split_and!; cbn; auto. Qed.

Lemma pg_inv_session s st : pg_inv st -> pg_inv (set_session s st).
Proof. by intros []. Qed.

Lemma goodW_session {A} (m : M A) st (Q : A -> pgState -> Prop) :
  pg_inv st -> safe m ->
  (forall a s', m (pg_session st) = (Ok a, s') -> Q a (set_session s' st)) ->
  goodW (sessionW m) st Q.
Proof.
  intros Hi Hs HQ. specialize (Hs (pg_session st)). unfold goodW, sessionW.
  destruct (m (pg_session st)) as [[a|e|w] s'] eqn:E; cbn in *; [|by eauto using pg_inv_session|done].
  split_and!; auto.
Qed.
(** [m] leaves the state, so [f] runs on the one it started from. *)
Lemma goodW_finally {A} (m : W A) f st (Q : A -> pgState -> Prop) :
  (m st).1.2 = st -> pg_failed (f st) = pg_failed st -> pg_inv (f st) ->
  goodW m st (fun a _ => Q a (f st)) -> goodW (finallyW m f) st Q.
Proof.
  intros Hst Hf Hi. unfold goodW, finallyW. destruct (m st) as [[[a|e|w] st'] out];
    cbn in Hst; subst; by intros (H1 & H2 & H3).
Qed.
End goodW.

#[export] Hint Resolve goodW_ret goodW_fail : pg.

(** Step through a handler whose primitives keep the invariant. *)
Ltac stepW :=
  match goal with
  | |- goodW (_ ≫= _) _ _ => apply goodW_bind
  | |- goodW (mret _) _ _ => apply goodW_ret
  | |- goodW (send _) _ _ => apply goodW_send; [reflexivity|]
  | |- goodW (failW _) _ _ => apply goodW_fail
  | |- goodW (getW _) _ _ => apply goodW_get
  | |- goodW (modifyW _) _ _ => apply goodW_modify; [reflexivity|]
  | |- goodW (guardW _ _) _ _ => apply goodW_guard; [|intros ?]
  | |- goodW (let '(_, _) := ?p in _) _ _ => destruct p
  end.

Section handlers.
Context `{U : UnicodeTables} `{F : GoFloat} `{J : GoJson} `{K : Hack} `{P : Sqlparser} `{V : Vendor}.

Lemma sliceRows_no_panic {A} (l : list A) a b :
  (a <= b <= length l)%nat -> is_panic (sliceRows l a b) = false.
Proof.
  intros [H1 H2]. unfold sliceRows.
  by rewrite (proj2 (Nat.leb_le _ _) H1), (proj2 (Nat.leb_le _ _) H2).
Qed.
Lemma sliceRows_inv {A} (l : list A) a b k :
  sliceRows l a b = Ok k -> (a <= b <= length l)%nat /\ k = drop a (take b l).
Proof.
  unfold sliceRows. destruct (_ && _)%nat eqn:E; [|done]. bool_to_prop. by intros [= <-].
Qed.

Lemma sendRows_good fields formats rs st (Q : unit -> pgState -> Prop) :
  pg_inv st -> Forall (fun row => length row = length fields) rs -> Q tt st ->
  goodW (sendRows fields formats rs) st Q.
Proof.
  intros Hi Hrs HQ. induction Hrs as [|row rs Hrow _ IH]; cbn [sendRows]; repeat stepW; [done|].
  apply goodW_lift; [done|apply encodeRow_no_panic; lia|]. intros xs _. by repeat stepW.
Qed.

Lemma pgRows_good r a b formats st (Q : unit -> pgState -> Prop) :
  pg_inv st -> resultset_wf r -> (a <= b <= length (rs_Values r))%nat -> Q tt st ->
  goodW (pgRows r a b formats) st Q.
Proof.
  intros Hi Hr Hab HQ. unfold pgRows. stepW.
  apply goodW_lift; [done|by apply sliceRows_no_panic|]. intros rs [_ ->]%sliceRows_inv.
  apply sendRows_good; [done| |done]. by apply Forall_drop, Forall_take.
Qed.

Lemma sendRows_state fields formats rs st : (sendRows fields formats rs st).1.2 = st.
Proof.
  induction rs as [|row rs IH]; [done|]. cbn [sendRows]. cbv [mbind W_bind liftW send].
  destruct (map_err _ _); [|done..].
  destruct (sendRows fields formats rs st) as [[r st'] out]. exact IH.
Qed.
Lemma pgRows_state r a b formats st : (pgRows r a b formats st).1.2 = st.
Proof.
  unfold pgRows. cbv [mbind W_bind liftW]. destruct (map_err _ _) as [l|e|w]; [|done..].
  pose proof (sendRows_state (rs_Fields r) formats l st) as H.
  by destruct (sendRows _ _ _ _) as [[x st'] out].
Qed.

Lemma pageEnd_bounds maxRows a n : (a <= n)%nat -> (a <= pageEnd maxRows a n <= n)%nat.
Proof. intros H. unfold pageEnd. destruct (_ && _) eqn:E; [|lia]. bool_to_prop. lia. Qed.

Lemma pg_inv_statement name s st :
  pg_inv st -> statement_ok s ->
  name = "" \/ (size (pg_statements st) < 1024)%nat ->
  pg_inv (set_statements (<[name := s]> (pg_statements st)) st).
Proof.
  intros [H1 H2 H3 H4] Hs Hn. split; cbn; [by apply map_Forall_insert_2|done| |done].
  apply named_bound_insert; [done|]. tauto.
Qed.
Lemma pg_inv_portal name p st :
  pg_inv st -> portal_ok p -> name = "" \/ (size (pg_portals st) < 1024)%nat ->
  pg_inv (set_portals (<[name := p]> (pg_portals st)) st).
Proof.
  intros [H1 H2 H3 H4] Hp Hn. split; cbn; [done|by apply map_Forall_insert_2|done|].
  apply named_bound_insert; [done|]. tauto.
Qed.
Lemma pg_inv_update name f st :
  pg_inv st -> (forall p, pg_portals st !! name = Some p -> portal_ok (f p)) ->
  pg_inv (updatePortal name f st).
Proof.
  intros [H1 H2 H3 H4] Hf. split; cbn; [done| |done|by apply named_bound_alter].
  apply map_Forall_lookup. intros i p.
  destruct (decide (name = i)) as [<-|Hne].
  - rewrite lookup_alter_eq. destruct (pg_portals st !! name) as [q|] eqn:E; cbn; intros H;
      [|done]. injection H as <-. by apply Hf.
  - rewrite lookup_alter_ne by done. apply H2.
Qed.
Lemma pg_inv_delete_statement name st :
  pg_inv st -> pg_inv (set_statements (delete name (pg_statements st)) st).
Proof.
  intros [H1 H2 H3 H4]. split; cbn; [by apply map_Forall_delete|done| |done].
  by apply named_bound_delete.
Qed.
Lemma pg_inv_delete_portal name st :
  pg_inv st -> pg_inv (set_portals (delete name (pg_portals st)) st).
Proof.
  intros [H1 H2 H3 H4]. split; cbn; [done|by apply map_Forall_delete|done|].
  by apply named_bound_delete.
Qed.

Lemma bindArguments_no_panic oids formats i params :
  (i + length params <= length oids)%nat -> is_panic (bindArguments oids formats i params) = false.
Proof.
  revert i; induction params as [|d params IH]; intros i Hl; [done|]. cbn in Hl |- *.
  destruct (lookup_lt_is_Some_2 oids i ltac:(lia)) as [oid ->].
  apply bind_no_panic; [apply pgParameter_no_panic|intros v _].
  apply bind_no_panic; [apply IH; lia|done].
Qed.

(** A guard on the number of named entries, read off. *)
Lemma named_guard {A} (m : gmap string A) name :
  ((1024 <=? size m)%nat && negb (name =?s "")) = false -> name = "" \/ (size m < 1024)%nat.
Proof. rewrite andb_false_iff, negb_false_iff, Nat.leb_gt, String.eqb_eq. tauto. Qed.

Context {Up : @Upstream V} `{LU : !UpstreamLaws Up} `{LP : !SqlparserLaws P}.

Lemma executeW_good q d st (Q : Result -> pgState -> Prop) :
  pg_inv st ->
  (forall r s', result_wf (Some r) -> Q r (set_session s' st)) ->
  goodW (executeW q d) st Q.
Proof.
  intros Hi HQ. apply goodW_session; [done|destruct d; [apply Describe_safe|apply Execute_safe]|].
  intros r s' H. apply HQ. destruct d; [by eapply Describe_wf|by eapply Execute_wf].
Qed.

Lemma handleParse_good name query given st :
  pg_inv st -> goodW (handleParse name query given) st (fun _ => pg_inv).
Proof.
  intros Hi. unfold handleParse. do 2 stepW. stepW. stepW; [done|]. stepW.
  apply goodW_lift; [done|apply bindSQL_no_panic|]. intros [q n] Hb. stepW. stepW; [done|].
  bool_to_prop. stepW. apply goodW_session; [done|apply parameterOIDs_safe|].
  intros oids s' [[[Hlen _] _] Hzero]%parameterOIDs_types. pose proof (pg_inv_session s' st Hi) as Hi'.
  do 2 stepW; [done|]. do 3 stepW.
  apply pg_inv_statement; [done| |by apply named_guard].
  split; [|done]. exists q. cbn [ps_query ps_oids]. rewrite Hb. do 2 f_equal.
  rewrite length_app, length_replicate in Hlen. cbn. lia.
Qed.

Lemma describeColumns_good q formats st :
  pg_inv st -> goodW (describeColumns q formats) st (fun _ => pg_inv).
Proof.
  intros Hi. unfold describeColumns. stepW. apply executeW_good; [done|].
  intros r s' _. destruct (r_Resultset r); stepW; by apply pg_inv_session.
Qed.

Lemma handleDescribe_good typ name st :
  pg_inv st -> goodW (handleDescribe typ name) st (fun _ => pg_inv).
Proof.
  intros Hi. unfold handleDescribe. destruct (typ =? "S")%char; [|destruct (typ =? "P")%char].
  - do 2 stepW. destruct (_ !! _) as [s|]; [|by stepW]. do 3 stepW.
    apply goodW_lift; [done|apply bindSQL_no_panic|]. intros [q n] _. by apply describeColumns_good.
  - do 2 stepW. destruct (_ !! _) as [p|]; [by apply describeColumns_good|by stepW].
  - by stepW.
Qed.

Lemma handleBind_good portal statement pf params rf st :
  pg_inv st -> goodW (handleBind portal statement pf params rf) st (fun _ => pg_inv).
Proof.
  intros Hi. unfold handleBind. do 2 stepW. destruct (_ !! _) as [s|]; [|by stepW].
  do 2 stepW; [done|]. do 2 stepW; [done|]. bool_to_prop. stepW.
  apply goodW_lift; [done|apply bindArguments_no_panic; lia|]. intros args _. stepW.
  apply goodW_lift; [done|apply bindSQL_no_panic|]. intros [q n] _. stepW.
  apply executeW_good; [done|]. intros r s' _. pose proof (pg_inv_session s' st Hi) as Hi'.
  cbv zeta. do 2 stepW; [done|]. do 2 stepW. do 2 stepW; [done|]. do 2 stepW; [done|]. do 3 stepW.
  apply pg_inv_portal; [done|done|by apply named_guard].
Qed.

Lemma completePortal_good name p r st :
  pg_inv st -> (forall q, pg_portals st !! name = Some q -> portal_ok (set_pp_completed q)) ->
  goodW (completePortal name p r) st (fun _ => pg_inv).
Proof. intros Hi Hp. unfold completePortal. do 3 stepW. by apply pg_inv_update. Qed.

Lemma portalResult_good name p st (Q : Result -> pgState -> Prop) :
  pg_inv st -> pg_portals st !! name = Some p ->
  (forall r st', pg_inv st' -> pg_portals st' !! name = Some (set_pp_result r p) ->
     portal_ok (set_pp_result r p) -> Q r st') ->
  goodW (portalResult name p) st Q.
Proof.
  intros Hi Hp HQ. unfold portalResult. pose proof (inv_portals st Hi name p Hp) as Hok.
  destruct (pp_result p) as [r|] eqn:Er.
  - stepW. apply HQ; [done| |]; replace (set_pp_result r p) with p; try done;
      destruct p; cbn in Er; by subst.
  - stepW. apply executeW_good; [done|]. intros r s' Hr. do 3 stepW.
    assert (portal_ok (set_pp_result r p)) as Hok'.
    { unfold portal_ok in *. cbn. rewrite Er in Hok. destruct Hok as [-> _].
      split; [done|]. destruct (r_Resultset r); [cbn; lia|done]. }
    apply HQ; [| |done].
    + apply pg_inv_update; [by apply pg_inv_session|]. cbn. intros q. rewrite Hp. by intros [= <-].
    + cbn. by rewrite lookup_alter_eq, Hp.
Qed.

Lemma handleExecute_good name maxRows st :
  pg_inv st -> goodW (handleExecute name maxRows) st (fun _ => pg_inv).
Proof.
  intros Hi. unfold handleExecute. do 2 stepW.
  destruct (_ !! _) as [p|] eqn:Hp; [|by stepW]. stepW. apply portalResult_good; [done|done|].
  intros r st' Hi' Hp' [Hwf Hpos].
  assert (forall st2, pg_inv st2 -> pg_portals st2 !! name = Some (set_pp_result r p) ->
    goodW (completePortal name p r) st2 (fun _ => pg_inv)) as Hdone.
  { intros st2 Hi2 H2. apply completePortal_good; [done|]. rewrite H2. by intros ? [= <-]. }
  destruct (r_Resultset r) as [rs|] eqn:Ers; [|by apply Hdone].
  destruct (pp_completed p); [by apply Hdone|]. cbv zeta. cbn in Hpos.
  pose proof (pageEnd_bounds maxRows (pp_pos p) (length (rs_Values rs)) Hpos) as Hend.
  set (e := pageEnd _ _ _) in *.
  assert (pg_inv (updatePortal name (set_pp_pos e) st')) as Hi2.
  { apply pg_inv_update; [done|]. rewrite Hp'. intros q [= <-]. split; [done|]. cbn. rewrite Ers. lia. }
  assert (resultset_wf rs) as Hrs by (unfold result_wf in Hwf; cbn in Hwf; by rewrite Ers in Hwf).
  stepW. apply goodW_finally; [apply pgRows_state|done|done|].
  apply pgRows_good; [done..|]. destruct (_ <? _)%nat; [by stepW|].
  apply completePortal_good; [done|]. cbn. rewrite lookup_alter_eq, Hp'. intros q [= <-].
  split; [done|]. cbn. rewrite Ers. lia.
Qed.

Lemma handleClose_good typ name st :
  pg_inv st -> goodW (handleClose typ name) st (fun _ => pg_inv).
Proof.
  intros Hi. unfold handleClose. stepW. destruct (typ =? "S")%char; [|destruct (typ =? "P")%char].
  - do 2 stepW. by apply pg_inv_delete_statement.
  - do 2 stepW. by apply pg_inv_delete_portal.
  - by stepW.
Qed.

(** The messages of the extended protocol, but for [Sync]. *)
Definition extendedMessage (m : FrontendMessage) : bool :=
  match m with FTerminate | FQuery _ | FSync => false | _ => true end.

Lemma handleMessage_good `{T : SqlErrorText} m st :
  extendedMessage m = true -> pg_inv st -> goodW (handleMessage m) st (fun _ => pg_inv).
Proof.
  intros Hm Hi. destruct m; try discriminate Hm; cbn [handleMessage].
  - by apply handleParse_good.
  - by apply handleDescribe_good.
  - by apply handleBind_good.
  - by apply handleExecute_good.
  - by apply handleClose_good.
  - by apply goodW_ret.
  - by apply goodW_fail.
  - by apply goodW_fail.
Qed.

Lemma simpleQuery_good text st :
  pg_inv st -> goodW (simpleQuery text) st (fun _ => pg_inv).
Proof.
  intros Hi. unfold simpleQuery. stepW. apply goodW_lift; [done|apply bindSQL_no_panic|].
  intros [q n] _. stepW. apply executeW_good; [done|]. intros r s' Hwf.
  pose proof (pg_inv_session s' st Hi) as Hi'. stepW.
  unfold result_wf in Hwf; cbn in Hwf. destruct (r_Resultset r) as [rs|]; repeat stepW; [|done].
  apply pgRows_good; [done|done|lia|]. by stepW.
Qed.
End handlers.

(** ** The message loop *)
Section loop.
Context `{U : UnicodeTables} `{F : GoFloat} `{J : GoJson} `{K : Hack} `{P : Sqlparser} `{V : Vendor}.
Context {Up : @Upstream V} `{T : SqlErrorText}.

(** The answers [out] to one cycle: nothing but data, or ended by one error. *)
Definition one_error (out : list BackendMessage) : Prop :=
  Forall (fun b => quiet b = true) out
  \/ exists body e, out = body ++ [failMessage e] /\ Forall (fun b => quiet b = true) body.

(** The handlers related by a session relation. *)
Section relation.
Context (R : relation session) {HR : SessionRel R}.
#[local] Existing Instance rel_preorder.

Lemma sendRows_obeys fields formats rs : obeysW R (sendRows fields formats rs).
Proof. induction rs; cbn [sendRows]; walkW. Qed.
Lemma pgRows_obeys r a b formats : obeysW R (pgRows r a b formats).
Proof. pose proof sendRows_obeys. unfold pgRows. walkW. Qed.
Lemma executeW_obeys q (d : bool) :
  obeys R (if d then Describe q else Execute q) -> obeysW R (executeW q d).
Proof. apply obeysW_session. Qed.

Lemma simpleQuery_obeys text : (forall q, obeys R (Execute q)) -> obeysW R (simpleQuery text).
Proof.
  intros H. pose proof pgRows_obeys. unfold simpleQuery.
  assert (forall q, obeysW R (executeW q false)) by (intros; by apply executeW_obeys). walkW.
Qed.
Lemma handlePgQuery_obeys text : (forall q, obeys R (Execute q)) -> obeysW R (handlePgQuery text).
Proof.
  intros H. unfold handlePgQuery.
  assert (obeysW R (reportW (simpleQuery text))).
  { intros st. pose proof (simpleQuery_obeys text H st) as Hs. unfold reportW.
    by destruct (simpleQuery text st) as [[[a|e|w] st'] out]. }
  walkW.
Qed.
Lemma handleParse_obeys name query given :
  (forall n, admits R (CDescribeCollection n)) -> obeysW R (handleParse name query given).
Proof.
  intros H. unfold handleParse.
  assert (forall oids, obeysW R (sessionW (parameterOIDs query oids))).
  { intros. apply obeysW_session. by apply parameterOIDs_obeys. }
  walkW.
Qed.
Lemma describeColumns_obeys q formats :
  (forall q, obeys R (Describe q)) -> obeysW R (describeColumns q formats).
Proof.
  intros H. assert (obeysW R (executeW q true)) by (by apply executeW_obeys).
  unfold describeColumns. walkW.
Qed.
Lemma handleDescribe_obeys typ name :
  (forall q, obeys R (Describe q)) -> obeysW R (handleDescribe typ name).
Proof.
  intros H. assert (forall q f, obeysW R (describeColumns q f)) by (intros; by apply describeColumns_obeys).
  unfold handleDescribe. walkW.
Qed.
Lemma handleBind_obeys a b c d e : (forall q, obeys R (Describe q)) -> obeysW R (handleBind a b c d e).
Proof.
  intros H. assert (forall q, obeysW R (executeW q true)) by (intros; by apply executeW_obeys).
  unfold handleBind. walkW.
Qed.
Lemma finallyW_obeys {A} (m : W A) f :
  (forall st, pg_session (f st) = pg_session st) -> obeysW R m -> obeysW R (finallyW m f).
Proof.
  intros Hf H st. specialize (H st). unfold finallyW. destruct (m st) as [[r st'] out].
  cbn in *. by rewrite Hf.
Qed.
Lemma handleExecute_obeys name n : (forall q, obeys R (Execute q)) -> obeysW R (handleExecute name n).
Proof.
  intros H. assert (forall q, obeysW R (executeW q false)) by (intros; by apply executeW_obeys).
  assert (forall p r, obeysW R (completePortal name p r)) by (intros; unfold completePortal; walkW).
  assert (forall rs a b f e, obeysW R (finallyW (pgRows rs a b f) (updatePortal name (set_pp_pos e)))).
  { intros. apply finallyW_obeys; [done|apply pgRows_obeys]. }
  unfold handleExecute, portalResult. walkW.
Qed.
Lemma handleClose_obeys typ name : obeysW R (handleClose typ name).
Proof. unfold handleClose. walkW. Qed.
Lemma handleSync_obeys : obeysW R handleSync.
Proof. unfold handleSync. walkW. Qed.

(** A step that runs no statement. *)
Definition runsNothing (m : FrontendMessage) : bool :=
  match m with FQuery _ | FExecute _ _ => false | _ => true end.

Lemma pgStep_obeys m st :
  (forall n, admits R (CDescribeCollection n)) -> (forall q, obeys R (Describe q)) ->
  (runsNothing m = false -> forall q, obeys R (Execute q)) ->
  R (pg_session st) (pg_session (pgStep m st).1.2).
Proof.
  intros Hadm Hd He.
  assert (m = FTerminate \/ obeysW R (handleMessage m)) as [->|H].
  { destruct m; [by left|right; cbn [handleMessage]..].
    - by apply handlePgQuery_obeys, He.
    - by apply handleParse_obeys.
    - by apply handleDescribe_obeys.
    - by apply handleBind_obeys.
    - by apply handleExecute_obeys, He.
    - apply handleClose_obeys.
    - apply handleSync_obeys.
    - walkW.
    - walkW.
    - walkW. }
  { cbn. reflexivity. }
  specialize (H st). destruct m; cbn [pgStep]; try reflexivity;
    (destruct (_ && _); [reflexivity|]);
    destruct (handleMessage _ st) as [[[a|e|w] st'] out]; exact H.
Qed.
End relation.

Context `{LU : !UpstreamLaws Up} `{LP : !SqlparserLaws P}.

Lemma reportW_good m st :
  goodW m st (fun _ => pg_inv) ->
  exists st' out, reportW m st = (Ok tt, st', out) /\ one_error out /\ pg_inv st'
    /\ pg_failed st' = pg_failed st.
Proof.
  unfold goodW, reportW. destruct (m st) as [[[[]|e|w] st'] out]; intros (H1 & H2 & H3); [| |done].
  - exists st', out. split_and!; [done|by left|done..].
  - exists st', (out ++ [failMessage e]). split_and!; [done|right; eauto|done..].
Qed.

Lemma handlePgQuery_good text st :
  pg_inv st ->
  exists st' out, handlePgQuery text st = (Ok tt, st', out ++ [idle]) /\ one_error out
    /\ pg_inv st' /\ pg_failed st' = pg_failed st.
Proof.
  intros Hi. unfold handlePgQuery. destruct (trimSpace text =? "")%string.
  - exists st, [EmptyQueryResponse]. split_and!; [done| |done..]. left. by repeat constructor.
  - destruct (reportW_good (simpleQuery text) st (simpleQuery_good text st Hi))
      as (st' & out & H & Hout & Hi' & Hf).
    exists st', out. cbv [mbind W_bind]. by rewrite H.
Qed.

Lemma pg_inv_sync st : pg_inv st -> pg_inv (set_portals ∅ (set_failed false st)).
Proof.
  intros [H1 H2 H3 H4]. split; cbn; [done|apply map_Forall_empty|done|].
  unfold named_bound. rewrite delete_empty, map_size_empty. lia.
Qed.
Lemma pg_inv_failed b st : pg_inv st -> pg_inv (set_failed b st).
Proof. by intros []. Qed.

Lemma pgStep_extended m st :
  extendedMessage m = true -> pg_failed st = false ->
  pgStep m st = match handleMessage m st with
                | (Ok _, st', out) => (Open, st', out)
                | (Err e, st', out) => (Open, set_failed true st', out ++ [failMessage e])
                | (Panic w, st', out) => (Crashed w, st', out)
                end.
Proof. intros Hm Hf. unfold pgStep. rewrite Hf. by destruct m. Qed.

(** The answer to a message of the extended protocol outside failed mode. *)
Lemma pgStep_extended_good m st :
  extendedMessage m = true -> pg_failed st = false -> pg_inv st ->
  exists st' out, pgStep m st = (Open, st', out) /\ pg_inv st'
    /\ ((pg_failed st' = false /\ Forall (fun b => quiet b = true) out)
        \/ (pg_failed st' = true /\ exists body e, out = body ++ [failMessage e]
             /\ Forall (fun b => quiet b = true) body)).
Proof.
  intros Hm Hf Hi. rewrite pgStep_extended by done.
  pose proof (handleMessage_good m st Hm Hi) as H. unfold goodW in H.
  destruct (handleMessage m st) as [[[a|e|w] st'] out]; destruct H as (H1 & H2 & H3); [| |done].
  - exists st', out. split_and!; [done..|]. left. by rewrite H2.
  - exists (set_failed true st'), (out ++ [failMessage e]).
    split_and!; [done|by apply pg_inv_failed|]. right. eauto 6.
Qed.

(** In failed mode a message is dropped, [Sync] and [Terminate] apart. *)
Lemma pgStep_failed m st :
  pg_failed st = true -> m <> FSync -> m <> FTerminate -> pgStep m st = (Open, st, []).
Proof. intros Hf H1 H2. unfold pgStep. rewrite Hf. by destruct m. Qed.

Lemma pgStep_good m st :
  pg_inv st ->
  exists x st' out, pgStep m st = (x, st', out) /\ pg_inv st'
    /\ x = (match m with FTerminate => Closed | _ => Open end).
Proof.
  intros Hi. destruct (extendedMessage m) eqn:Hm; [destruct (pg_failed st) eqn:Hf|].
  - rewrite pgStep_failed by (done || by destruct m). exists Open, st, []. by destruct m.
  - destruct (pgStep_extended_good m st Hm Hf Hi) as (st' & out & -> & Hi' & _).
    exists Open, st', out. by destruct m.
  - destruct m as [|q| | | | | | | | |]; try discriminate Hm.
    + by exists Closed, st, [].
    + cbn [pgStep]. rewrite andb_true_r. destruct (pg_failed st); [by exists Open, st, []|].
      destruct (handlePgQuery_good q st Hi) as (st' & out & H & _ & Hi' & _).
      exists Open, st', (out ++ [idle]). cbn [handleMessage]. by rewrite H.
    + cbn. rewrite andb_false_r. eexists _, _, _. split_and!; [done|by apply pg_inv_sync|done].
Qed.
End loop.

(** ** The properties of the protocol *)

(** C6: a client cannot crash the proxy, nor make it keep more than its bounds.
    Whatever messages a connection receives, its loop ends by closing: no index,
    slice or nil error occurs in any handler.  All along, every prepared statement
    has one known type for each of its parameters, every portal's position lies
    within its rows, at most 1,024 names of statements and of portals are in use,
    and the session's database is the one Milvus was switched to. *)
Theorem pgServe_total `{U : UnicodeTables} `{F : GoFloat} `{J : GoJson} `{K : Hack} `{P : Sqlparser}
    `{V : Vendor} {Up : @Upstream V} `{T : SqlErrorText} `{LU : !UpstreamLaws Up}
    `{LP : !SqlparserLaws P} ms st :
  pg_inv st -> db_in_sync (pg_session st) ->
  exists st' out, pgServe ms st = (Closed, st', out) /\ pg_inv st' /\ db_in_sync (pg_session st').
Proof.
  revert st; induction ms as [|m ms IH]; intros st Hi Hdb; [by exists st, []|]. cbn [pgServe].
  destruct (pgStep_good m st Hi) as (x & st1 & out & E & Hi1 & Hx).
  assert (db_in_sync (pg_session st1)) as Hdb1.
  { pose proof (pgStep_obeys keepsSync m st) as H. rewrite E in H. cbn in H. apply H; try done.
    - intros n. by apply keepsSync_admits.
    - intros q. apply Describe_keepsSync.
    - intros _ q. apply Execute_keepsSync. }
  rewrite E. destruct x.
  - destruct (IH st1 Hi1 Hdb1) as (st' & out' & -> & H). by exists st', (out ++ out').
  - by exists st1, out.
  - by destruct m.
Qed.

(** A new connection satisfies the invariant. *)
Lemma pg_inv_new `{F : GoFloat} `{V : Vendor} s : pg_inv (mk_pgState s ∅ ∅ false).
Proof.
  assert (forall A, @named_bound A ∅).
  { intros A. unfold named_bound. rewrite delete_empty, map_size_empty. lia. }
  split; cbn; [apply map_Forall_empty|apply map_Forall_empty|done..].
Qed.

(** ** Batches *)
Section batches.
Context `{U : UnicodeTables} `{F : GoFloat} `{J : GoJson} `{K : Hack} `{P : Sqlparser} `{V : Vendor}.
Context {Up : @Upstream V} `{T : SqlErrorText}.

Lemma pgServe_skip ms rest st :
  Forall (fun m => extendedMessage m = true) ms -> pg_failed st = true ->
  pgServe (ms ++ FSync :: rest) st = pgServe (FSync :: rest) st.
Proof.
  intros Hms Hf. induction Hms as [|m ms Hm _ IH]; [done|]. rewrite <- app_comm_cons.
  change (pgServe (m :: ms ++ FSync :: rest) st)
    with (match pgStep m st with
          | (Open, st', out) =>
              let '(x, st'', out') := pgServe (ms ++ FSync :: rest) st' in (x, st'', out ++ out')
          | r => r
          end).
  rewrite pgStep_failed by (done || by destruct m). rewrite IH.
  by destruct (pgServe (FSync :: rest) st) as [[x st''] out].
Qed.

Lemma pgServe_sync rest st :
  pgServe (FSync :: rest) st
  = let st' := set_portals ∅ (set_failed false st) in
    let '(x, st2, out) := pgServe rest st' in (x, st2, idle :: out).
Proof.
  assert (pgStep FSync st = (Open, set_portals ∅ (set_failed false st), [idle])) as H.
  { unfold pgStep. by rewrite andb_false_r. }
  cbn [pgServe]. by rewrite H.
Qed.

Lemma one_error_app out1 out2 :
  Forall (fun b => quiet b = true) out1 -> one_error out2 -> one_error (out1 ++ out2).
Proof.
  intros H1 [H2|(body & e & -> & H2)].
  - left. by apply Forall_app.
  - right. exists (out1 ++ body), e. rewrite app_assoc. split; [done|]. by apply Forall_app.
Qed.
End batches.

(** C7: one answer to each batch.  A client that sends any messages of the extended
    protocol and then [Sync] gets, whatever they are and however they fail, at most
    one [ErrorResponse], after which nothing until the one [ReadyForQuery], which
    ends the answer; the connection is then out of failed mode, without portals,
    and serves what follows. *)
Theorem pgServe_batch `{U : UnicodeTables} `{F : GoFloat} `{J : GoJson} `{K : Hack} `{P : Sqlparser}
    `{V : Vendor} {Up : @Upstream V} `{T : SqlErrorText} `{LU : !UpstreamLaws Up}
    `{LP : !SqlparserLaws P} ms rest st :
  Forall (fun m => extendedMessage m = true) ms -> pg_failed st = false -> pg_inv st ->
  exists body st', one_error body /\ pg_inv st' /\ pg_failed st' = false /\ pg_portals st' = ∅
    /\ pgServe (ms ++ FSync :: rest) st
       = let '(x, st2, out) := pgServe rest st' in (x, st2, body ++ idle :: out).
Proof.
  intros Hms. revert st; induction Hms as [|m ms Hm Hms IH]; intros st Hf Hi.
  - exists [], (set_portals ∅ (set_failed false st)). rewrite app_nil_l, pgServe_sync.
    split_and!; [left; constructor|by apply pg_inv_sync|done..].
  - destruct (pgStep_extended_good m st Hm Hf Hi) as (st1 & out1 & E & Hi1 & Hout).
    rewrite <- app_comm_cons. cbn [pgServe]. rewrite E. clear E.
    destruct Hout as [[Hf1 Hq]|(Hf1 & body & e & -> & Hq)].
    + destruct (IH st1 Hf1 Hi1) as (body & st' & Hb & Hi' & Hf' & Hp' & E).
      exists (out1 ++ body), st'. split_and!; [by apply one_error_app|done..|]. rewrite E.
      destruct (pgServe rest st') as [[x st2] out]. by rewrite <- app_assoc.
    + exists (body ++ [failMessage e]), (set_portals ∅ (set_failed false st1)).
      split_and!; [right; eauto|by apply pg_inv_sync|done|done|].
      rewrite pgServe_skip, pgServe_sync by done. cbv zeta.
      by destruct (pgServe rest _) as [[x st2] out].
Qed.

(** C18: only [Query] and [Execute] run statements.  Every other message, whatever
    the statement it carries and however it ends, makes no call to Milvus but
    reading collection schemas, and leaves the session's database. *)
Theorem pgStep_metadata `{U : UnicodeTables} `{F : GoFloat} `{J : GoJson} `{K : Hack} `{P : Sqlparser}
    `{V : Vendor} {Up : @Upstream V} `{T : SqlErrorText} m st :
  runsNothing m = true ->
  let s' := pg_session (pgStep m st).1.2 in
  c_db (s_conn s') = c_db (s_conn (pg_session st))
  /\ exists new, s_calls s' = s_calls (pg_session st) ++ new
       /\ Forall (fun c => isDescribeCollection c = true) new.
Proof.
  intros Hm. apply (pgStep_obeys metadataOnly); [apply metadataOnly_admits| |by rewrite Hm].
  intros q s. apply Describe_metadata.
Qed.

(** ** Startup *)
Section startup.
Context `{F : GoFloat} `{V : Vendor} {Up : @Upstream V} `{T : SqlErrorText}.

(** What startup promises of the session [s0] opened for a startup message with
    [params], and of the state of the message loop. *)
Definition opened (params : gmap string string) (s0 : session) (r : startupResult) : Prop :=
  (db_in_sync s0 -> exists s, su_session r = Some s /\ db_in_sync s)
  /\ forall st, su_state r = Some st ->
       pg_inv st /\ pg_failed st = false /\ pg_statements st = ∅ /\ pg_portals st = ∅
       /\ su_session r = Some (pg_session st)
       /\ c_db (s_conn (pg_session st))
          = (let db := default "" (params !! "database") in if (db =? "")%string then "default" else db)
       /\ exists body, su_out r = body ++ [idle].

Lemma handleUseDB_Ok db s s' : handleUseDB db s = (Ok tt, s') -> c_db (s_conn s') = db.
Proof.
  intros H. apply bindM_Ok in H as ([] & s1 & _ & H).
  apply bindM_Ok in H as ([] & s2 & [= <-] & [= <-]). done.
Qed.

Lemma openSession_opened params s0 out : opened params s0 (openSession params (inr s0) out).
Proof.
  unfold openSession. cbv zeta. set (db := if (_ =? _)%string then _ else _).
  pose proof (handleUseDB_keepsSync db s0) as Hs.
  destruct (handleUseDB db s0) as [[[]|e|w] s'] eqn:E; split; try done; try (by exists s'; auto).
  apply handleUseDB_Ok in E. cbn. intros st [= <-]. split_and!; try done.
  - apply pg_inv_new.
  - exists (out ++ AuthenticationOk :: map (fun p => ParameterStatus p.1 p.2) serverParameters).
    by rewrite <- app_assoc.
Qed.

(** A startup that went past the password. *)
Definition past_password (r : startupResult) : Prop :=
  su_session r <> None \/ su_state r <> None \/ AuthenticationOk ∈ su_out r.

Lemma stopped_refused out : AuthenticationOk ∉ out -> ~ past_password (stopped out).
Proof. intros H [?|[?|?]]; done. Qed.

End startup.

(** A hypothesis that a refused startup went past the password. *)
Ltac refused Hr := exfalso; revert Hr; apply stopped_refused; try done; set_solver.

Section authentication.
Context `{F : GoFloat} `{V : Vendor} {Up : @Upstream V} `{T : SqlErrorText}.

Lemma authenticate_past user password m auth newSession out :
  AuthenticationOk ∉ out ->
  let r := authenticate user password m auth newSession out in
  past_password r ->
  exists params s0, m = Startup params /\ default "" (params !! "user") = user
    /\ auth = Some (FPassword password) /\ newSession = inr s0 /\ opened params s0 r.
Proof.
  intros Hout r Hr. subst r. unfold authenticate in *.
  destruct m as [|params|]; [refused Hr| |refused Hr].
  assert (forall l, AuthenticationOk ∉ l -> AuthenticationOk ∉ out ++ l) as Happ.
  { intros l Hl. rewrite elem_of_app. tauto. }
  destruct auth as [a|]; [|refused Hr].
  destruct a; try (solve [refused Hr]).
  destruct (_ || _) eqn:E; [refused Hr|]. bool_to_prop.
  destruct newSession as [e|s0]; [refused Hr|].
  exists params, s0. subst. split_and!; [done..|]. apply openSession_opened.
Qed.
End authentication.

(** C16: no session without the password.  Whatever a client sends, a session is
    opened, and [AuthenticationOk] sent, only after a startup message whose user
    is the configured one and a password message with the configured password.  A
    connection that reaches the message loop has no statement nor portal, satisfies
    the invariant, and its session uses the database it asked for, or [default],
    with Milvus in agreement; the last message it was sent is [ReadyForQuery]. *)
Theorem pgStartup_authenticates `{F : GoFloat} `{V : Vendor} {Up : @Upstream V}
    `{T : SqlErrorText} user password tls startups auth newSession :
  let r := pgStartup user password tls startups auth newSession in
  su_session r <> None \/ su_state r <> None \/ AuthenticationOk ∈ su_out r ->
  exists params s0, Startup params ∈ startups /\ default "" (params !! "user") = user
    /\ auth = Some (FPassword password) /\ newSession = inr s0 /\ opened params s0 r.
Proof.
  intros r Hr. subst r. unfold pgStartup in *.
  assert (forall m out, m ∈ startups -> AuthenticationOk ∉ out ->
    past_password (authenticate user password m auth newSession out) ->
    exists params s0, Startup params ∈ startups /\ default "" (params !! "user") = user
      /\ auth = Some (FPassword password) /\ newSession = inr s0
      /\ opened params s0 (authenticate user password m auth newSession out)) as H.
  { intros m out Hm Hout (params & s0 & -> & H)%authenticate_past; [|done]. eauto 10. }
  destruct startups as [|[| |] rest]; [refused Hr| |by apply H; set_solver..].
  destruct tls as [[]|], rest; try (solve [refused Hr]);
    apply H; set_solver.
Qed.

(** ** Witnesses of the properties *)
Definition sampleErrorText : SqlErrorText := {| sqlErrorText _ msg := msg |}.
Definition sampleSelectParser : Sqlparser := sampleSqlparser (SelectStmt sampleTitleSelect).
Definition sampleQueryText : string := "SELECT id, title FROM docs LIMIT 2, 3".
Definition sampleConnection : @pgState sampleVendor :=
  mk_pgState (mk_session NewSession []) ∅ ∅ false.
Definition sampleServe := @pgServe sampleUnicode sampleFloat sampleJson sampleHack sampleSelectParser
  sampleVendor sampleUpstream sampleErrorText.
Definition sampleBatch : list FrontendMessage :=
  [FParse "s" sampleQueryText []; FBind "" "s" [] [] []; FDescribe "P" ""; FExecute "" 1].

Lemma sampleConnection_inv :
  @pg_inv sampleFloat sampleVendor sampleConnection
  /\ @db_in_sync sampleVendor sampleUpstream (pg_session sampleConnection).
Proof. split; [apply pg_inv_new|reflexivity]. Qed.

Lemma pgServe_total_witness :
  exists st' out, sampleServe [FQuery sampleQueryText; FTerminate] sampleConnection = (Closed, st', out).
Proof.
  destruct (@pgServe_total sampleUnicode sampleFloat sampleJson sampleHack sampleSelectParser
    sampleVendor sampleUpstream sampleErrorText _ _ [FQuery sampleQueryText; FTerminate]
    sampleConnection (proj1 sampleConnection_inv) (proj2 sampleConnection_inv)) as (st' & out & H & _).
  exists st', out. exact H.
Defined.

Lemma pgServe_batch_witness :
  exists body st', @one_error sampleErrorText body
    /\ sampleServe (sampleBatch ++ [FSync]) sampleConnection = (Closed, st', body ++ [idle]).
Proof.
  destruct (@pgServe_batch sampleUnicode sampleFloat sampleJson sampleHack sampleSelectParser
    sampleVendor sampleUpstream sampleErrorText _ _ sampleBatch [] sampleConnection)
    as (body & st' & H & _ & _ & _ & E);
    [repeat constructor|reflexivity|exact (proj1 sampleConnection_inv)|].
  exists body, st'. split; [exact H|exact E].
Defined.

Lemma pgStep_metadata_witness :
  runsNothing (FParse "s" sampleQueryText []) = true
  /\ c_db (s_conn (pg_session (@pgStep sampleUnicode sampleFloat sampleJson sampleHack sampleSelectParser
         sampleVendor sampleUpstream sampleErrorText (FParse "s" sampleQueryText [])
         sampleConnection).1.2)) = "default".
Proof.
  split; [reflexivity|].
  exact (proj1 (@pgStep_metadata sampleUnicode sampleFloat sampleJson sampleHack sampleSelectParser
    sampleVendor sampleUpstream sampleErrorText (FParse "s" sampleQueryText []) sampleConnection
    eq_refl)).
Defined.

Definition sampleStartup := @pgStartup sampleVendor sampleUpstream sampleErrorText
  "root" "pw" None [SSLRequest; Startup {[ "user" := "root" ]}] (Some (FPassword "pw"))
  (inr (mk_session NewSession [])).

Lemma pgStartup_authenticates_witness :
  AuthenticationOk ∈ su_out sampleStartup /\ su_session sampleStartup <> None
  /\ exists params : gmap string string, default "" (params !! "user") = "root".
Proof.
  assert (su_session sampleStartup <> None) as H by (vm_compute; discriminate).
  split; [|split; [exact H|]].
  - apply list_elem_of_lookup. exists 2%nat. vm_compute. reflexivity.
  - destruct (@pgStartup_authenticates sampleFloat sampleVendor sampleUpstream
      sampleErrorText "root" "pw" None [SSLRequest; Startup {[ "user" := "root" ]}]
      (Some (FPassword "pw")) (inr (mk_session NewSession [])) (or_introl H))
      as (params & s0 & _ & Hu & _).
    exists params. exact Hu.
Defined.
