(* ===== verification/PortalSpec.v ===== *)
(** * Paging through a portal

    A client may fetch the rows of a portal with several [Execute] messages, each
    with its own limit.  Whatever the limits, the statement is executed once and
    its rows are sent once each, in order. *)
From S2P Require Export PostgresSpec.
Open Scope Z_scope.
Open Scope go_scope.

(** The rows among the messages sent. *)
Definition dataRow (b : BackendMessage) : option (list (option string)) :=
  match b with DataRow v => Some v | _ => None end.
Definition dataRows (out : list BackendMessage) : list (list (option string)) :=
  omap dataRow out.
Definition isComplete (b : BackendMessage) : bool :=
  match b with CommandComplete _ => true | _ => false end.

Lemma dataRows_app out1 out2 : dataRows (out1 ++ out2) = dataRows out1 ++ dataRows out2.
Proof. apply omap_app. Qed.
Lemma dataRows_map l : dataRows (map DataRow l) = l.
Proof. unfold dataRows. induction l as [|x l IH]; [done|]. cbn. by f_equal. Qed.

Lemma drop_take_app {A} (l : list A) a b c :
  (a <= b <= c)%nat -> drop a (take b l) ++ drop b (take c l) = drop a (take c l).
Proof.
  intros H. replace (take b l) with (take b (take c l)) by (rewrite take_take; f_equal; lia).
  generalize (take c l). clear l. intros l. rewrite <- (take_drop b l) at 3.
  destruct (decide (b <= length l)%nat).
  - rewrite drop_app_le; [done|]. rewrite length_take. lia.
  - rewrite (drop_ge l b) by lia. by rewrite !app_nil_r.
Qed.

(** Where the pages of these limits end, from [pos]. *)
Fixpoint pagesEnd (ns : list Z) (pos n : nat) : nat :=
  match ns with
  | [] => pos
  | m :: ns' => pagesEnd ns' (pageEnd m pos n) n
  end.

Lemma pagesEnd_spec ns pos n :
  (pos <= n)%nat ->
  pagesEnd ns pos n
  = if existsb (fun m => m <=? 0) ns then n
    else Nat.min n (pos + Z.to_nat (foldr Z.add 0 ns)).
Proof.
  revert pos; induction ns as [|m ns IH]; intros pos Hp; cbn [pagesEnd existsb foldr]; [lia|].
  rewrite IH by (pose proof (pageEnd_bounds m pos n Hp); lia). unfold pageEnd.
  assert (existsb (fun m => m <=? 0) ns = false -> 0 <= foldr Z.add 0 ns) as Hpos.
  { clear. induction ns as [|m ns IH]; cbn; [lia|]. intros [H1 H2]%orb_false_iff.
    apply IH in H2. bool_to_prop. lia. }
  destruct (m <=? 0) eqn:E1, (existsb _ ns); cbn [orb]; try done;
    destruct (_ && _) eqn:E2; bool_to_prop; try rewrite andb_false_iff in E2;
    try specialize (Hpos eq_refl); try lia.
Qed.

Section portal.
Context `{U : UnicodeTables} `{F : GoFloat} `{J : GoJson} `{K : Hack} `{P : Sqlparser} `{V : Vendor}.

Lemma sendRows_run fields formats rs encs st :
  mapM (encodeRow fields formats 0) rs = Ok encs ->
  sendRows fields formats rs st = (Ok tt, st, map DataRow encs).
Proof.
  revert encs; induction rs as [|row rs IH]; intros encs H; cbn [sendRows mapM] in *.
  - by injection H as <-.
  - apply bind_Ok in H as (x & Hx & H). apply bind_Ok in H as (xs & Hxs & [= <-]).
    cbv [mbind W_bind liftW send]. rewrite Hx. cbn. by rewrite (IH xs).
Qed.

Lemma mapM_take_drop {A B} (f : A -> res B) l k a b :
  mapM f l = Ok k -> mapM f (drop a (take b l)) = Ok (drop a (take b k)).
Proof.
  rewrite !mapM_Ok. intros H. by apply Forall2_drop, Forall2_take.
Qed.

Lemma pgRows_run rs formats encs a b st :
  mapM (encodeRow (rs_Fields rs) formats 0) (rs_Values rs) = Ok encs ->
  (a <= b <= length (rs_Values rs))%nat ->
  pgRows rs a b formats st = (Ok tt, st, map DataRow (drop a (take b encs))).
Proof.
  intros H [Ha Hb]. unfold pgRows. cbv [mbind W_bind liftW]. unfold sliceRows.
  rewrite (proj2 (Nat.leb_le _ _) Ha), (proj2 (Nat.leb_le _ _) Hb). cbn [andb map_err].
  by rewrite (sendRows_run _ _ _ (drop a (take b encs))) by by apply mapM_take_drop.
Qed.

Context {Up : @Upstream V} `{T : SqlErrorText}.

(** A portal that holds its result, [pos] rows of which were sent. *)
Section paging.
Context (name q : string) (formats : list Z) (r : Result) (rs : Resultset)
  (encs : list (list (option string))).
Context (Hrs : r_Resultset r = Some rs)
  (Hencs : mapM (encodeRow (rs_Fields rs) formats 0) (rs_Values rs) = Ok encs).

Definition portalAt (s : session) (pos : nat) (st : pgState) : Prop :=
  pg_session st = s /\ pg_failed st = false
  /\ exists p, pg_portals st !! name = Some p /\ pp_query p = q /\ pp_formats p = formats
       /\ pp_result p = Some r /\ pp_pos p = pos
       /\ (pp_completed p = true -> pos = length encs).

Lemma encs_length : length (rs_Values rs) = length encs.
Proof. apply mapM_Ok in Hencs. by eapply Forall2_length. Qed.

(** One page. *)
Lemma execute_page n s pos st :
  portalAt s pos st -> (pos <= length encs)%nat ->
  let e := pageEnd n pos (length encs) in
  exists st' out, pgStep (FExecute name n) st = (Open, st', out)
    /\ portalAt s e st' /\ dataRows out = drop pos (take e encs)
    /\ existsb isComplete out = (e =? length encs)%nat.
Proof.
  intros (Hs & Hf & p & Hp & Hq & Hfm & Hr & Hpos & Hc) Hle e.
  pose proof (pageEnd_bounds n pos (length encs) Hle) as He. fold e in He.
  rewrite pgStep_extended by done. cbn [handleMessage]. unfold handleExecute.
  cbv [mbind W_bind getW mret W_ret]. rewrite Hp. unfold portalResult. rewrite Hr.
  cbv [mret W_ret]. rewrite Hrs.
  destruct (pp_completed p) eqn:Ec.
  - specialize (Hc eq_refl). assert (e = length encs) as Ee by lia.
    cbv [completePortal mbind W_bind modifyW send]. eexists _, _. split; [reflexivity|].
    split_and!.
    + split; [done|]. split; [done|]. exists (set_pp_completed p). cbn.
      rewrite lookup_alter_eq, Hp. split_and!; try done. congruence.
    + rewrite drop_ge; [done|]. rewrite length_take. lia.
    + cbn. rewrite Ee. symmetry. apply Nat.eqb_refl.
  - cbv zeta. rewrite encs_length, Hpos. fold e. unfold finallyW.
    rewrite (pgRows_run rs (pp_formats p) encs pos e st) by (rewrite ?encs_length; subst; done || lia).
    cbv beta iota. destruct (e <? length encs)%nat eqn:El.
    + apply Nat.ltb_lt in El. eexists _, _. split; [reflexivity|]. split_and!.
      * split; [done|]. split; [done|]. exists (set_pp_pos e p). cbn.
        rewrite lookup_alter_eq, Hp. split_and!; try done. by rewrite Ec.
      * rewrite !dataRows_app, dataRows_map. cbn. by rewrite app_nil_r.
      * cbn [app]. rewrite existsb_app. cbn. rewrite orb_false_r. transitivity false.
        -- clear. induction (drop pos (take e encs)); cbn; auto.
        -- symmetry. apply Nat.eqb_neq. lia.
    + apply Nat.ltb_ge in El. assert (e = length encs) as Ee by lia.
      cbv [completePortal mbind W_bind modifyW send]. eexists _, _. split; [reflexivity|].
      split_and!.
      * split; [done|]. split; [done|]. exists (set_pp_completed (set_pp_pos e p)). cbn.
        rewrite !lookup_alter_eq, Hp. split_and!; done.
      * rewrite !dataRows_app, dataRows_map. cbn. by rewrite app_nil_r.
      * cbn [app]. rewrite existsb_app. cbn. rewrite orb_true_r, Ee. symmetry. apply Nat.eqb_refl.
Qed.

(** Successive pages. *)
Lemma execute_pages ns s pos st :
  portalAt s pos st -> (pos <= length encs)%nat ->
  let e := pagesEnd ns pos (length encs) in
  exists st' out, pgServe (map (FExecute name) ns) st = (Closed, st', out)
    /\ portalAt s e st' /\ dataRows out = drop pos (take e encs)
    /\ (ns <> [] -> existsb isComplete out = (e =? length encs)%nat).
Proof.
  revert pos st; induction ns as [|n ns IH]; intros pos st Hst Hle e; subst e; cbn [pagesEnd map pgServe].
  - exists st, []. split_and!; try done. rewrite drop_ge; [done|]. rewrite length_take. lia.
  - destruct (execute_page n s pos st Hst Hle) as (st1 & out1 & E1 & H1 & D1 & C1).
    pose proof (pageEnd_bounds n pos (length encs) Hle) as He. set (e1 := pageEnd _ _ _) in *. clearbody e1.
    destruct (IH e1 st1 H1 ltac:(lia)) as (st2 & out2 & E2 & H2 & D2 & C2).
    rewrite E1, E2. exists st2, (out1 ++ out2).
    assert (e1 <= pagesEnd ns e1 (length encs) <= length encs)%nat as He2.
    { rewrite pagesEnd_spec by lia. clear - He. destruct (existsb _ _); lia. }
    set (e2 := pagesEnd _ _ _) in *. split_and!; try done.
    + rewrite dataRows_app, D1, D2. apply drop_take_app.
      by split; [apply He|apply He2].
    + intros _. rewrite existsb_app, C1. destruct ns as [|n' ns].
      * subst e2. cbn [pagesEnd map pgServe] in *. injection E2 as <- <-. cbn. by rewrite orb_false_r.
      * rewrite C2 by done. destruct (e1 =? length encs)%nat eqn:Ee; [|done]. bool_to_prop.
        symmetry. apply Nat.eqb_eq. lia.
Qed.
End paging.

(** A portal that has not run, and the same with the result of its statement. *)
Lemma execute_first name n st p r s' :
  pg_failed st = false -> pg_portals st !! name = Some p -> pp_result p = None ->
  Execute (pp_query p) (pg_session st) = (Ok r, s') ->
  pgStep (FExecute name n) st
  = pgStep (FExecute name n) (updatePortal name (set_pp_result r) (set_session s' st)).
Proof.
  intros Hf Hp Hr He. rewrite !pgStep_extended by done. cbn [handleMessage].
  unfold handleExecute. cbv [mbind W_bind getW mret W_ret]. cbn [pg_portals updatePortal set_portals].
  rewrite lookup_alter_eq. cbn [pg_portals set_session]. rewrite Hp. cbn [fmap option_fmap option_map].
  unfold portalResult at 1. rewrite Hr. cbv [executeW sessionW mbind W_bind modifyW mret W_ret].
  rewrite He. cbn -[pgRows pageEnd completePortal].
  destruct (r_Resultset r) as [rs|]; [|done]. by destruct (pp_completed p).
Qed.

Lemma pgServe_step m ms st st1 :
  pgStep m st = pgStep m st1 -> pgServe (m :: ms) st = pgServe (m :: ms) st1.
Proof. intros H. cbn [pgServe]. by rewrite H. Qed.
End portal.

(** C8: paging sends every row once.  Take a portal that has not run and whose
    statement answers rows that all have an encoding.  Whatever the limits of the
    [Execute] messages that follow (0 or less for no limit), the statement is
    executed once, by the first; the rows sent, over all the answers and in order,
    are the first [MaxRows + ...] rows, or all of them once a message has no limit;
    and a [CommandComplete] is sent exactly when the last row has been sent. *)
Theorem portal_pages `{U : UnicodeTables} `{F : GoFloat} `{J : GoJson} `{K : Hack} `{P : Sqlparser}
    `{V : Vendor} {Up : @Upstream V} `{T : SqlErrorText} name st p r s' rs encs ns :
  pg_inv st -> pg_failed st = false ->
  pg_portals st !! name = Some p -> pp_result p = None ->
  Execute (pp_query p) (pg_session st) = (Ok r, s') -> r_Resultset r = Some rs ->
  mapM (encodeRow (rs_Fields rs) (pp_formats p) 0) (rs_Values rs) = Ok encs -> ns <> [] ->
  exists st' out, pgServe (map (FExecute name) ns) st = (Closed, st', out)
    /\ pg_session st' = s'
    /\ dataRows out = (if existsb (fun n => n <=? 0) ns then encs
                       else take (Z.to_nat (foldr Z.add 0 ns)) encs)
    /\ (existsb isComplete out = true <-> dataRows out = encs).
Proof.
  intros Hi Hf Hp Hr He Hrs Hencs Hns. destruct ns as [|n ns]; [done|].
  cbn [map]. rewrite (pgServe_step _ _ _ _ (execute_first name n st p r s' Hf Hp Hr He)).
  change (FExecute name n :: map (FExecute name) ns) with (map (FExecute name) (n :: ns)).
  pose proof (inv_portals st Hi name p Hp) as Hok. unfold portal_ok in Hok. rewrite Hr in Hok.
  destruct Hok as [Hpos Hc].
  destruct (execute_pages name (pp_query p) (pp_formats p) r rs encs Hrs Hencs (n :: ns) s' 0
    (updatePortal name (set_pp_result r) (set_session s' st))) as (st' & out & E & (Hs & _) & Hd & Hcc).
  { split; [done|]. split; [done|]. exists (set_pp_result r p). cbn. rewrite lookup_alter_eq, Hp.
    split_and!; try done. congruence. }
  { lia. }
  set (e := pagesEnd _ _ _) in *. specialize (Hcc ltac:(done)).
  assert (e = if existsb (fun n => n <=? 0) (n :: ns) then length encs
    else Nat.min (length encs) (Z.to_nat (foldr Z.add 0 (n :: ns)))) as Ee.
  { subst e. rewrite pagesEnd_spec by lia. done. }
  clearbody e. rewrite drop_0 in Hd. exists st', out. split_and!; [done|done| |].
  - rewrite Hd, Ee. destruct (existsb _ (n :: ns)); [by rewrite take_ge|].
    generalize (Z.to_nat (foldr Z.add 0 (n :: ns))). intros k. clear.
    destruct (decide (k <= length encs)%nat); [f_equal; lia|]. by rewrite !take_ge by lia.
  - rewrite Hcc, Hd, Nat.eqb_eq. split; [intros ->; by rewrite take_ge|].
    intros H. apply (f_equal length) in H. rewrite length_take in H.
    assert (e <= length encs)%nat by (rewrite Ee; destruct (existsb _ (n :: ns)); lia). lia.
Qed.

Definition isRowDescription (b : BackendMessage) : bool :=
  match b with RowDescription _ => true | _ => false end.
Notation noDescription := (Forall (fun b => isRowDescription b = false)).

(** Sending rows neither reads nor changes the state, and sends nothing else. *)
Lemma sendRows_pure `{U : UnicodeTables} `{F : GoFloat} `{J : GoJson} `{K : Hack} `{V : Vendor} fields formats rs :
  exists o out, noDescription out /\ forall st, sendRows fields formats rs st = (o, st, out).
Proof.
  induction rs as [|row rs (o & out & Hn & IH)]; [by exists (Ok tt), []|]. cbn [sendRows].
  destruct (encodeRow fields formats 0 row) as [xs|e|w].
  - exists o, (DataRow xs :: out). split; [by constructor|]. intros st.
    cbv [mbind W_bind liftW send]. cbn. by rewrite IH.
  - by exists (Err (Errorf e)), [].
  - by exists (Panic w), [].
Qed.
Lemma pgRows_pure `{U : UnicodeTables} `{F : GoFloat} `{J : GoJson} `{K : Hack} `{V : Vendor} r a b formats :
  exists o out, noDescription out /\ forall st, pgRows r a b formats st = (o, st, out).
Proof.
  unfold pgRows. destruct (sliceRows (rs_Values r) a b) as [l|e|w].
  - destruct (sendRows_pure (rs_Fields r) formats l) as (o & out & Hn & H). exists o, out.
    split; [done|]. intros st. cbv [mbind W_bind liftW]. cbn. by rewrite H.
  - by exists (Err (Errorf e)), [].
  - by exists (Panic w), [].
Qed.

Lemma pageEnd_unlimited maxRows pos n : maxRows <= 0 -> pageEnd maxRows pos n = n.
Proof.
  intros H. unfold pageEnd. destruct (maxRows >? 0) eqn:E; [bool_to_prop; lia|done].
Qed.
Lemma filter_noDescription out :
  noDescription out -> filter (fun b => isRowDescription b = false) out = out.
Proof. intros H. induction H as [|b out Hb _ IH]; [done|]. by rewrite filter_cons_True, IH. Qed.

(** A description, rows and a last message. *)
Lemma filter_description d out b :
  noDescription out -> isRowDescription b = false ->
  filter (fun b => isRowDescription b = false) (RowDescription d :: out ++ [b]) = out ++ [b].
Proof.
  intros Hn Hb. rewrite filter_cons_False by done. apply filter_noDescription.
  apply Forall_app. by split; [|constructor].
Qed.

(** C11: the two query protocols agree.  Executing without a row limit a portal that
    has not run, bound with no formats to the statement of a [Query] message, sends
    what that message would, but for the row description and the final
    [ReadyForQuery]: the same rows, tag and errors; and it leaves the same session. *)
Theorem execute_equals_query `{U : UnicodeTables} `{F : GoFloat} `{J : GoJson} `{K : Hack} `{P : Sqlparser}
    `{V : Vendor} {Up : @Upstream V} `{T : SqlErrorText} `{LU : !UpstreamLaws Up}
    `{LP : !SqlparserLaws P} text q k name maxRows st :
  pg_inv st -> pg_failed st = false -> trimSpace text <> "" ->
  bindSQL text "postgres" [] false = Ok (q, k) ->
  pg_portals st !! name = Some (mk_pgPortal q [] None 0 false) -> maxRows <= 0 ->
  exists body stq ste,
    pgStep (FQuery text) st = (Open, stq, body ++ [idle])
    /\ pgStep (FExecute name maxRows) st
       = (Open, ste, filter (fun b => isRowDescription b = false) body)
    /\ pg_session stq = pg_session ste.
Proof.
  intros Hi Hf Ht Hb Hp Hm.
  destruct (handlePgQuery_good text st Hi) as (stq0 & outq0 & Eq & _ & _ & Hfq).
  destruct (pgStep_good (FExecute name maxRows) st Hi) as (x & ste0 & oute0 & Ee & _ & ->).
  revert Eq Ee. rewrite pgStep_extended by done. cbn [pgStep handleMessage].
  rewrite Hf. cbn [andb negb]. unfold handlePgQuery, handleExecute.
  rewrite (proj2 (String.eqb_neq _ _) Ht).
  cbv [mbind W_bind getW mret W_ret]. rewrite Hp. unfold portalResult, reportW, simpleQuery.
  cbv [mbind W_bind liftW executeW sessionW modifyW mret W_ret send]. rewrite Hb. cbn [map_err pp_result pp_query].
  destruct (Execute q (pg_session st)) as [[r|e|w] s'] eqn:E.
  - destruct (r_Resultset r) as [rs|] eqn:Er.
    + destruct (pgRows_pure rs 0 (length (rs_Values rs)) []) as (o & out & Hn & Hrows).
      cbn [pp_completed pp_pos pp_formats]. rewrite pageEnd_unlimited by done.
      rewrite Nat.ltb_irrefl. unfold finallyW, completePortal.
      cbv [mbind W_bind modifyW send]. rewrite !Hrows.
      destruct o as [[]|e|w]; cbn; intros Eq Ee; [| |discriminate Eq].
      * eexists (RowDescription _ :: out ++ [CommandComplete _]), _, _.
        rewrite filter_description by done. split_and!; reflexivity.
      * eexists (RowDescription _ :: out ++ [failMessage e]), _, _.
        rewrite filter_description by done. split_and!; reflexivity.
    + intros _ _. eexists [CommandComplete _], _, _. split_and!; reflexivity.
  - intros _ _. eexists [failMessage e], _, _. split_and!; reflexivity.
  - discriminate.
Qed.

Definition samplePortal : pgPortal := mk_pgPortal sampleQueryText [] None 0 false.
Definition sampleWith (name : string) : @pgState sampleVendor :=
  mk_pgState (mk_session NewSession []) ∅ {[ name := samplePortal ]} false.
Lemma sampleWith_inv name : @pg_inv sampleFloat sampleVendor (sampleWith name).
Proof.
  apply (pg_inv_portal name samplePortal (mk_pgState (mk_session NewSession []) ∅ ∅ false));
    [apply pg_inv_new|done|right]. cbn. rewrite map_size_empty. lia.
Qed.
Definition sampleExecution :=
  @Execute sampleUnicode sampleFloat sampleJson sampleSelectParser sampleVendor sampleUpstream
    sampleQueryText (mk_session NewSession []).
Definition sampleResult : Result :=
  match sampleExecution.1 with Ok r => r | _ => emptyResult end.
Definition sampleRows : Resultset := default (mk_Resultset [] ∅ []) (r_Resultset sampleResult).

Lemma portal_pages_witness :
  exists st' out, sampleServe [FExecute "p" 1; FExecute "p" 5] (sampleWith "p") = (Closed, st', out)
    /\ dataRows out = [[Some "7"; Some "a"]; [Some "8"; Some "b"]].
Proof.
  destruct (@portal_pages sampleUnicode sampleFloat sampleJson sampleHack sampleSelectParser
    sampleVendor sampleUpstream sampleErrorText "p" (sampleWith "p") samplePortal sampleResult
    sampleExecution.2 sampleRows [[Some "7"; Some "a"]; [Some "8"; Some "b"]] [1; 5])
    as (st' & out & H & _ & Hd & _);
    [exact (sampleWith_inv "p")|reflexivity|vm_compute; reflexivity|reflexivity|
     vm_compute; reflexivity|vm_compute; reflexivity|vm_compute; reflexivity|discriminate|].
  exists st', out. split; [exact H|exact Hd].
Defined.

Lemma execute_equals_query_witness :
  exists body stq ste,
    @pgStep sampleUnicode sampleFloat sampleJson sampleHack sampleSelectParser sampleVendor sampleUpstream
      sampleErrorText (FQuery sampleQueryText) (sampleWith "") = (Open, stq, body ++ [idle])
    /\ @pgStep sampleUnicode sampleFloat sampleJson sampleHack sampleSelectParser sampleVendor sampleUpstream
         sampleErrorText (FExecute "" 0) (sampleWith "")
       = (Open, ste, filter (fun b => isRowDescription b = false) body).
Proof.
  destruct (@execute_equals_query sampleUnicode sampleFloat sampleJson sampleHack sampleSelectParser
    sampleVendor sampleUpstream sampleErrorText _ _ sampleQueryText sampleQueryText 0 "" 0 (sampleWith ""))
    as (body & stq & ste & H1 & H2 & _);
    [exact (sampleWith_inv "")|reflexivity|vm_compute; discriminate|vm_compute; reflexivity|
     reflexivity|lia|].
  exists body, stq, ste. split; [exact H1|exact H2].
Defined.
