(* ===== verification/Mysql.v ===== *)
(** * The MySQL protocol ([mysql.go])

    The go-mysql server reads the commands of a connection and calls the methods of
    [mysqlHandler]; each method is a definition over the session.  Building the
    rows of an answer is the library's; its documented behaviour is a law.
    Contexts and deadlines are left out. *)
From S2P Require Export Query.
Open Scope Z_scope.
Open Scope go_scope.

(** ** [mysql.Result] of go-mysql *)
Record MyField := mk_MyField { mf_Name : string; mf_Type : MysqlType; mf_Charset : Z }.
Record MyResultset := mk_MyResultset {
  mr_Fields : list MyField;
  mr_FieldNames : gmap string nat;
  mr_RowDatas : list string
}.
Record MyResult := mk_MyResult {
  my_Status : ServerStatus;
  my_InsertId : Z;
  my_AffectedRows : Z;
  my_Resultset : option MyResultset
}.

Class SimpleResultset := {
  (** [mysql.BuildSimpleResultset(names, values, binary)] *)
  BuildSimpleResultset : list string -> list (list value) -> bool -> string + MyResultset
}.
(** There is a field for every name. *)
Class SimpleResultsetLaws (B : SimpleResultset) : Prop := {
  BuildSimpleResultset_fields names values binary r :
    BuildSimpleResultset names values binary = inr r -> length (mr_Fields r) = length names
}.

Section mysql.
Context `{U : UnicodeTables} `{F : GoFloat} `{J : GoJson} `{P : Sqlparser} `{V : Vendor}.
Context `{B : SimpleResultset}.

(** ** [mysqlResult] *)

(** One value: booleans become integers and vectors JSON, whose error is ignored. *)
Definition mysqlCell (v : value) : value :=
  match v with
  | VBool x => VInt64 (if x then 1 else 0)
  | VFloats l => VString (match jsonMarshalFloats l with inr b => b | inl _ => "" end)
  | v => v
  end.

(** The loop that preserves field metadata, run when there are no rows. *)
Fixpoint mysqlFields (i : nat) (fs : list Field) (rs : MyResultset) : res MyResultset :=
  match fs with
  | [] => Ok rs
  | f :: fs' =>
      if (i <? length (mr_Fields rs))%nat then
        mysqlFields (S i) fs'
          (mk_MyResultset (<[i := mk_MyField (f_Name f) (f_Type f) (f_Charset f)]> (mr_Fields rs))
             (<[f_Name f := i]> (mr_FieldNames rs)) (mr_RowDatas rs))
      else Panic "index out of range"
  end.

(** [mysqlResult] *)
Definition mysqlResult (r : Result) (binary : bool) : res MyResult :=
  let out := mk_MyResult SERVER_STATUS_AUTOCOMMIT (r_InsertId r) (r_AffectedRows r) in
  match r_Resultset r with
  | None => Ok (out None)
  | Some r =>
      let values := map (map mysqlCell) (rs_Values r) in
      rs ← of_sum (BuildSimpleResultset (map f_Name (rs_Fields r)) values binary);
      rs ← (if (length values =? 0)%nat then mysqlFields 0 (rs_Fields r) rs else Ok rs);
      Ok (out (Some rs))
  end.

Context {Up : @Upstream V}.

(** ** The methods of [mysqlHandler] *)

(** [run] *)
Definition run (q : string) (binary : bool) : M MyResult :=
  r ← Execute q;
  lift (mysqlResult r binary).

(** [UseDB] *)
Definition UseDB (db : string) : M unit := handleUseDB db.
(** [HandleQuery] *)
Definition HandleQuery (q : string) : M MyResult := run q false.
(** [HandleFieldList] *)
Definition HandleFieldList : M MyResult :=
  throw (Errorf "COM_FIELD_LIST is not supported; use DESCRIBE table").

(** [HandleStmtPrepare]: the numbers of parameters and of columns *)
Definition HandleStmtPrepare (q : string) : M (Z * nat) :=
  '(normalized, n) ← lift (bindSQL q "mysql" [] true);
  r ← Describe normalized;
  mret (n, match r_Resultset r with Some rs => length (rs_Fields rs) | None => 0%nat end).

(** [HandleStmtExecute] *)
Definition HandleStmtExecute (q : string) (args : list value) : M MyResult :=
  '(q, _) ← lift (bindSQL q "mysql" args false);
  run q true.

(** [HandleStmtClose] *)
Definition HandleStmtClose : M unit := mret tt.
(** [HandleOtherCommand] *)
Definition HandleOtherCommand : M unit := throw (Errorf "unsupported MySQL command").

(** ** Commands *)
Inductive mysqlCommand :=
| ComInitDB (db : string)
| ComQuery (q : string)
| ComFieldList
| ComStmtPrepare (q : string)
| ComStmtExecute (q : string) (args : list value)
| ComStmtClose
| ComOther.

(** The method the library calls for a command, its answer dropped. *)
Definition mysqlCommandM (c : mysqlCommand) : M unit :=
  match c with
  | ComInitDB db => UseDB db
  | ComQuery q => _ ← HandleQuery q; mret tt
  | ComFieldList => _ ← HandleFieldList; mret tt
  | ComStmtPrepare q => _ ← HandleStmtPrepare q; mret tt
  | ComStmtExecute q args => _ ← HandleStmtExecute q args; mret tt
  | ComStmtClose => HandleStmtClose
  | ComOther => HandleOtherCommand
  end.
End mysql.
