(* ===== verification/MysqlSpec.v ===== *)
(** * Properties of the MySQL protocol

    [mysqlResult] is the result of the session, re-encoded; no command crashes a
    connection; and what a prepared statement announces is what it accepts. *)
From S2P Require Export Mysql QuerySpec BindSpec SampleMilvus.
Open Scope Z_scope.
Open Scope go_scope.

Section results.
Context `{F : GoFloat} `{J : GoJson} `{B : SimpleResultset} `{BL : !SimpleResultsetLaws B}.

(** The metadata of a field. *)
Definition fieldMeta (f : Field) : MyField := mk_MyField (f_Name f) (f_Type f) (f_Charset f).

Lemma mysqlFields_spec i fs rs :
  (i + length fs <= length (mr_Fields rs))%nat ->
  exists rs', mysqlFields i fs rs = Ok rs'
    /\ mr_Fields rs' = take i (mr_Fields rs) ++ map fieldMeta fs
                       ++ drop (i + length fs) (mr_Fields rs)
    /\ mr_RowDatas rs' = mr_RowDatas rs
    /\ (forall n, n ∉ map f_Name fs -> mr_FieldNames rs' !! n = mr_FieldNames rs !! n)
    /\ (NoDup (map f_Name fs) -> forall j f, fs !! j = Some f ->
         mr_FieldNames rs' !! f_Name f = Some (i + j)%nat).
Proof.
  revert i rs; induction fs as [|f fs IH]; intros i rs Hl; cbn [mysqlFields length map] in *.
  - exists rs. split_and!; [done| |done..]. rewrite Nat.add_0_r. cbn. by rewrite take_drop.
  - destruct (i <? _)%nat eqn:E; [|apply Nat.ltb_ge in E; lia]. clear E.
    edestruct (IH (S i)) as (rs' & -> & Hf & Hd & Ho & Hn); [cbn; rewrite length_insert; lia|].
    exists rs'. split_and!; [done| |done| |].
    + rewrite Hf. cbn [mr_Fields]. fold (fieldMeta f).
      erewrite take_S_r by (apply list_lookup_insert_eq; lia).
      rewrite take_insert_ge, drop_insert_lt by lia.
      rewrite <- app_assoc. cbn. do 3 f_equal. f_equal. lia.
    + intros n [Hn1 Hn2]%not_elem_of_cons. rewrite Ho by done. cbn. by rewrite lookup_insert_ne.
    + intros [Hn1 Hn2]%NoDup_cons [|j] g Hg; cbn in Hg.
      * injection Hg as <-. rewrite Ho by done. cbn. rewrite lookup_insert_eq. f_equal. lia.
      * rewrite (Hn Hn2 j g Hg). f_equal. lia.
Qed.

(** What [mysqlResult] answers. *)
Definition mysqlResult_spec (r : Result) (binary : bool) (out : MyResult) : Prop :=
  my_AffectedRows out = r_AffectedRows r /\ my_InsertId out = r_InsertId r
  /\ my_Status out = SERVER_STATUS_AUTOCOMMIT
  /\ match r_Resultset r with
     | None => my_Resultset out = None
     | Some rs =>
         exists built m,
           BuildSimpleResultset (map f_Name (rs_Fields rs)) (map (map mysqlCell) (rs_Values rs))
             binary = inr built
           /\ my_Resultset out = Some m
           /\ match rs_Values rs with
              | _ :: _ => m = built
              | [] =>
                  mr_Fields m = map fieldMeta (rs_Fields rs) /\ mr_RowDatas m = mr_RowDatas built
                  /\ (NoDup (map f_Name (rs_Fields rs)) ->
                      forall j f, rs_Fields rs !! j = Some f -> mr_FieldNames m !! f_Name f = Some j)
              end
     end.

Lemma mysqlResult_run r binary :
  match mysqlResult r binary with
  | Ok out => mysqlResult_spec r binary out
  | Err e => exists rs, r_Resultset r = Some rs
      /\ BuildSimpleResultset (map f_Name (rs_Fields rs)) (map (map mysqlCell) (rs_Values rs))
           binary = inl e
  | Panic _ => False
  end.
Proof.
  unfold mysqlResult, mysqlResult_spec. destruct (r_Resultset r) as [rs|] eqn:Er; [|done].
  cbv zeta. destruct (BuildSimpleResultset _ _ _) as [e|built] eqn:Eb; cbn [of_sum mbind outcome_bind].
  { by exists rs. }
  apply BuildSimpleResultset_fields in Eb as Hl. rewrite length_map in Hl. rewrite length_map.
  destruct (rs_Values rs) as [|row rows]; cbn [length Nat.eqb mbind outcome_bind].
  - destruct (mysqlFields_spec 0 (rs_Fields rs) built) as (m & -> & Hf & Hd & _ & Hn); [lia|].
    split_and!; try done. exists built, m. split_and!; try done.
    rewrite Hf, take_0, drop_ge by lia. by rewrite app_nil_r.
  - split_and!; try done. by exists built, built.
Qed.
End results.

Section commands.
Context `{U : UnicodeTables} `{F : GoFloat} `{J : GoJson} `{P : Sqlparser} `{V : Vendor}.
Context `{B : SimpleResultset} {Up : @Upstream V}.

Section relation.
Context (R : relation session) {HR : SessionRel R}.

Lemma mysqlCommandM_obeys c :
  (forall db, obeys R (handleUseDB db)) -> (forall q, obeys R (Execute q)) ->
  (forall q, obeys R (Describe q)) -> obeys R (mysqlCommandM c).
Proof.
  intros Hu He Hd. destruct c; cbn [mysqlCommandM];
    unfold UseDB, HandleQuery, HandleStmtPrepare, HandleStmtExecute, run, HandleFieldList,
      HandleStmtClose, HandleOtherCommand; walk.
Qed.
End relation.

Context `{LU : !UpstreamLaws Up} `{LP : !SqlparserLaws P} `{BL : !SimpleResultsetLaws B}.

Lemma run_safe q binary : safe (run q binary).
Proof.
  unfold run. apply safe_bind; [apply Execute_safe|intros r]. apply safe_lift.
  pose proof (mysqlResult_run r binary) as H. by destruct (mysqlResult r binary).
Qed.
Lemma HandleStmtPrepare_safe q : safe (HandleStmtPrepare q).
Proof.
  unfold HandleStmtPrepare. apply safe_bind_lift; [apply bindSQL_no_panic|]. intros [q' n] _.
  apply safe_bind; [apply Describe_safe|intros]. apply safe_ret.
Qed.
Lemma HandleStmtExecute_safe q args : safe (HandleStmtExecute q args).
Proof.
  unfold HandleStmtExecute. apply safe_bind_lift; [apply bindSQL_no_panic|]. intros [q' n] _.
  apply run_safe.
Qed.
Lemma handleUseDB_safe db : safe (handleUseDB db).
Proof. unfold handleUseDB. walk_safe. Qed.

Lemma mysqlCommandM_safe c : safe (mysqlCommandM c).
Proof.
  pose proof run_safe. pose proof HandleStmtPrepare_safe. pose proof HandleStmtExecute_safe.
  destruct c; cbn [mysqlCommandM]; [apply handleUseDB_safe|..|apply safe_ret|apply safe_throw];
    (apply safe_bind; [|intros; apply safe_ret]); unfold HandleQuery, HandleFieldList;
    auto using safe_throw.
Qed.
End commands.

(** ** The properties of the MySQL protocol *)

(** The commands of a connection, one after the other. *)
Definition mysql_step `{U : UnicodeTables} `{F : GoFloat} `{J : GoJson} `{P : Sqlparser}
    `{V : Vendor} `{B : SimpleResultset} {Up : @Upstream V} (s s' : session) : Prop :=
  exists c, s' = (mysqlCommandM c s).2.

(** C33: a MySQL connection never crashes nor loses track of its database.  In every
    session reached by commands, any further command ends in an answer or an error;
    and the session's database is the one Milvus was last switched to. *)
Theorem mysql_session_sound `{U : UnicodeTables} `{F : GoFloat} `{J : GoJson} `{P : Sqlparser}
    `{V : Vendor} `{B : SimpleResultset} {Up : @Upstream V} `{LU : !UpstreamLaws Up}
    `{LP : !SqlparserLaws P} `{BL : !SimpleResultsetLaws B} s :
  rtc mysql_step (mk_session NewSession []) s ->
  db_in_sync s /\ forall c, is_panic (mysqlCommandM c s).1 = false.
Proof.
  intros H. split; [|intros c; apply mysqlCommandM_safe].
  assert (forall s t, mysql_step s t -> db_in_sync s -> db_in_sync t) as Hstep.
  { intros x y [c ->]. apply (mysqlCommandM_obeys keepsSync); clear;
      [apply handleUseDB_keepsSync|apply Execute_keepsSync|apply Describe_keepsSync]. }
  assert (db_in_sync (mk_session NewSession [])) as H0 by done. revert H0.
  induction H as [|x y z Hxy _ IH]; [done|]. intros Hx. by eapply IH, Hstep.
Qed.

(** What a MySQL client reads is the session's result.  [mysqlResult] keeps the
    row count and the insert ID; its rows are built from the names and the rows of
    the result, with booleans as 0 and 1 and vectors as JSON; an empty result keeps
    the name, type and character set of every column; and it fails only when the
    rows cannot be built. *)
Theorem mysqlResult_faithful `{J : GoJson} `{B : SimpleResultset}
    `{BL : !SimpleResultsetLaws B} r binary :
  match mysqlResult r binary with
  | Ok out => mysqlResult_spec r binary out
  | Err e => exists rs, r_Resultset r = Some rs
      /\ BuildSimpleResultset (map f_Name (rs_Fields rs)) (map (map mysqlCell) (rs_Values rs))
           binary = inl e
  | Panic _ => False
  end.
Proof. apply mysqlResult_run. Qed.

(** C32: a prepared statement is executed with the parameters it announced, or not
    at all.  Preparing a statement makes no call to Milvus but reading schemas and
    keeps the database.  If it announces [n] parameters, then executing it in any
    session with another number of arguments is an error that leaves the session
    untouched; and whenever it runs, its arguments were [n]. *)
Theorem prepare_announces `{U : UnicodeTables} `{F : GoFloat} `{J : GoJson} `{P : Sqlparser}
    `{V : Vendor} `{B : SimpleResultset} {Up : @Upstream V} q s n cols s' :
  HandleStmtPrepare q s = (Ok (n, cols), s') ->
  metadataOnly s s'
  /\ forall args t,
       Z.of_nat (length args) <> n ->
       exists e, HandleStmtExecute q args t = (Err e, t).
Proof.
  intros H. apply bindM_Ok in H as ([q' k] & s1 & Hb & H). apply lift_inv in Hb as [Hb ->].
  apply bindM_Ok in H as (r & s2 & Hd & [= -> _ <-]). split.
  - pose proof (Describe_metadata q' s) as Hm. rewrite Hd in Hm. apply Hm.
  - intros args t Hn. unfold HandleStmtExecute. cbv [mbind M_bind lift].
    pose proof (bindSQL_no_panic q "mysql" args false) as Hp.
    destruct (bindSQL q "mysql" args false) as [[out k]|e|w] eqn:E; [|by eexists|done].
    exfalso. apply Hn. rewrite <- (bindSQL_count _ _ _ _ _ E). symmetry.
    exact (bindSQL_counts_agree _ _ _ _ _ _ _ _ _ _ Hb E).
Qed.

(** ** Witnesses *)
Definition sampleResultset : SimpleResultset := {|
  BuildSimpleResultset names values _ :=
    inr (mk_MyResultset (map (fun n => mk_MyField n MYSQL_TYPE_NULL 33) names) ∅
           (map (fun _ => "row") values))
|}.
#[export] Instance sampleResultset_laws : SimpleResultsetLaws sampleResultset.
Proof. split. intros n v b r [= <-]. apply length_map. Qed.

Definition sampleUseParser : Sqlparser := sampleSqlparser (UseStmt "books").
Definition sampleUseStep := @mysqlCommandM sampleUnicode sampleFloat sampleJson sampleUseParser
  sampleVendor sampleResultset sampleUpstream (ComQuery "USE books") (mk_session NewSession []).

Lemma mysql_session_sound_witness :
  db_in_sync (V := sampleVendor) (Up := sampleUpstream) sampleUseStep.2
  /\ c_db (s_conn sampleUseStep.2) = "books".
Proof.
  split; [|vm_compute; reflexivity].
  apply (@mysql_session_sound sampleUnicode sampleFloat sampleJson sampleUseParser sampleVendor
    sampleResultset sampleUpstream _ _ _).
  eapply rtc_l; [|apply rtc_refl]. exists (ComQuery "USE books"). reflexivity.
Defined.

Definition samplePrepare := @HandleStmtPrepare sampleUnicode sampleFloat sampleJson sampleUseParser
  sampleVendor sampleUpstream "DELETE FROM t WHERE id = ? AND n = '?'" (mk_session NewSession []).

Lemma prepare_announces_witness :
  samplePrepare.1 = Ok (1, 0%nat)
  /\ exists e t, @HandleStmtExecute sampleUnicode sampleFloat sampleJson sampleUseParser
       sampleVendor sampleResultset sampleUpstream "DELETE FROM t WHERE id = ? AND n = '?'"
       [VInt64 1; VInt64 2] (mk_session NewSession []) = (Err e, t).
Proof.
  split; [vm_compute; reflexivity|].
  destruct (@prepare_announces sampleUnicode sampleFloat sampleJson sampleUseParser sampleVendor
    sampleResultset sampleUpstream "DELETE FROM t WHERE id = ? AND n = '?'" (mk_session NewSession [])
    1 0%nat samplePrepare.2) as [_ H]; [vm_compute; reflexivity|].
  destruct (H [VInt64 1; VInt64 2] (mk_session NewSession [])) as [e He]; [discriminate|].
  exists e, (mk_session NewSession []). exact He.
Defined.

Lemma mysqlResult_faithful_witness :
  exists out, @mysqlResult sampleJson sampleResultset
      (mk_Result SERVER_STATUS_NONE 0 2 (Some (mk_Resultset
        [mk_Field "id" 63 MYSQL_TYPE_LONGLONG []; mk_Field "ok" 63 MYSQL_TYPE_TINY []] ∅ []))) true
    = Ok out
  /\ my_AffectedRows out = 2
  /\ option_map mr_Fields (my_Resultset out)
     = Some [mk_MyField "id" MYSQL_TYPE_LONGLONG 63; mk_MyField "ok" MYSQL_TYPE_TINY 63].
Proof.
  eexists. split; [vm_compute; reflexivity|]. split; [|reflexivity].
  exact (proj1 (@mysqlResult_faithful sampleJson sampleResultset _
    (mk_Result SERVER_STATUS_NONE 0 2 (Some (mk_Resultset
        [mk_Field "id" 63 MYSQL_TYPE_LONGLONG []; mk_Field "ok" 63 MYSQL_TYPE_TINY []] ∅ []))) true)).
Defined.
