(* ===== verification/Config.v ===== *)
(** * Configuration ([config.go])

    [defaults] updates the configuration in place and may stop half way with an
    error, so it is a state and error computation on the record.  Decoding YAML is
    a parameter, and so is reading the file. *)
From S2P Require Export Prelude GoText.
Open Scope Z_scope.
Open Scope go_scope.

Record MilvusConfig := mk_MilvusConfig {
  mc_Address : string;
  mc_Username : string;
  mc_Password : string;
  mc_EnableTLSAuth : bool;
  mc_APIKey : string
}.
Record Config := mk_Config {
  cfg_Mode : string;
  cfg_PostgresAddr : string;
  cfg_User : string;
  cfg_Password : string;
  cfg_TLSCert : string;
  cfg_TLSKey : string;
  cfg_QueryTimeoutSeconds : Z;
  cfg_Addr : string;
  cfg_Milvus : MilvusConfig;
  cfg_LogLevel : string;
  cfg_LogPath : string
}.

(** [if x == "" { x = d }] *)
Definition orElse (x d : string) : string := if x =?s "" then d else x.

Definition set_Mode (x : string) (c : Config) : Config :=
  mk_Config x (cfg_PostgresAddr c) (cfg_User c) (cfg_Password c) (cfg_TLSCert c) (cfg_TLSKey c)
    (cfg_QueryTimeoutSeconds c) (cfg_Addr c) (cfg_Milvus c) (cfg_LogLevel c) (cfg_LogPath c).
(** The defaults of the addresses, the user and the timeout. *)
Definition set_defaults (c : Config) : Config :=
  mk_Config (cfg_Mode c) (orElse (cfg_PostgresAddr c) "127.0.0.1:5432")
    (orElse (cfg_User c) "root") (cfg_Password c) (cfg_TLSCert c) (cfg_TLSKey c)
    (if cfg_QueryTimeoutSeconds c =? 0 then 30 else cfg_QueryTimeoutSeconds c)
    (orElse (cfg_Addr c) "127.0.0.1:3306") (cfg_Milvus c) (cfg_LogLevel c) (cfg_LogPath c).

(** [defaults]: its error, if any, and the configuration it leaves. *)
Definition defaults (c : Config) : option string * Config :=
  let c := set_Mode (orElse (cfg_Mode c) "mysql") c in
  if negb (cfg_Mode c =?s "mysql") && negb (cfg_Mode c =?s "postgres") && negb (cfg_Mode c =?s "both")
  then (Some "mode must be mysql, postgres or both", c)
  else
    let c := set_defaults c in
    if cfg_QueryTimeoutSeconds c <? 0 then (Some "queryTimeoutSeconds must be positive", c)
    else if negb (Bool.eqb (cfg_TLSCert c =?s "") (cfg_TLSKey c =?s ""))
    then (Some "tlsCert and tlsKey must both be provided", c)
    else (None, c).

Section parse.
(** [yaml.Unmarshal] into a zero configuration, and [ioutil.ReadFile] *)
Context (yamlUnmarshal : string -> string + Config) (readFile : string -> string + string).

(** [ParseConfigData] *)
Definition ParseConfigData (data : string) : res Config :=
  cfg ← of_sum (yamlUnmarshal data);
  match defaults cfg with
  | (Some e, _) => Err e
  | (None, cfg) => Ok cfg
  end.

(** [ParseConfigFile] *)
Definition ParseConfigFile (fileName : string) : res Config :=
  data ← of_sum (readFile fileName);
  ParseConfigData data.
End parse.
