(* ===== verification/Server.v ===== *)
(** * The server ([server.go])

    A running server is a set of goroutines: one [serve] loop per listener, one per
    connection, and [Run], which collects the loops.  [server] is the state they
    share, with the phase of each goroutine, and [step] is their interleaving: every
    step is one action between two points where others may run (a lock is held
    within one step).  [own_step] is what the server's goroutines do by themselves;
    [outer_step] needs a client, Milvus or another goroutine of the process.  Of the
    protocol of a connection only what it waits for is kept: its client, or the
    calls of a statement.  Logging and deadlines are left out.  [NewServer], at the
    end, binds the listeners of the configured modes. *)
From S2P Require Export Config.
Open Scope Z_scope.
Open Scope go_scope.

(** ** The running server *)

(** A [serve] loop: waiting in [Accept], holding a connection it has accepted, or
    returned. *)
Inductive servePhase := Accepting | Accepted (co : nat) | Returned.
#[export] Instance servePhase_eq_dec : EqDecision servePhase.
Proof. solve_decision. Defined.

(** What the protocol of a connection is waiting for: the next message of its
    client, or the calls it makes to Milvus with the connection's context. *)
Inductive waiting := OnClient | OnMilvus.

(** A connection's goroutine: in [servePostgres] or [serveMySQL], with [pending]
    messages received and not read yet; past the protocol, its context cancelled;
    off the table of connections.  It is forgotten when it is done. *)
Inductive connPhase :=
| Serving (pending : nat) (w : waiting)
| Cancelled
| Removed.

Record server := mk_server {
  sv_closed : bool;                      (* s.closed *)
  sv_open : list bool;                   (* which listeners are open *)
  sv_serves : list servePhase;           (* the loops, by listener *)
  sv_errs : list (option string);        (* the channel errs of Run *)
  sv_table : gset nat;                   (* s.conns *)
  sv_gor : gmap nat connPhase;           (* the goroutines of connections *)
  sv_wg : nat;                           (* s.wg *)
  sv_next : nat;                         (* connections accepted so far *)
  sv_shut : gset nat;                    (* connections closed *)
  sv_cancelled : gset nat;               (* contexts cancelled *)
  sv_collected : nat;                    (* errors Run has received *)
  sv_first : option string;              (* first, in Run *)
  sv_done : bool                         (* Run has returned *)
}.

(** A server of [n] listeners as [Run] starts it. *)
Definition running (n : nat) : server :=
  mk_server false (replicate n true) (replicate n Accepting) [] ∅ ∅ 0 0 ∅ ∅ 0 None false.

(** [Close] *)
Definition Close (s : server) : server :=
  if sv_closed s then s
  else
    mk_server true (map (fun _ => false) (sv_open s)) (sv_serves s) (sv_errs s) (sv_table s)
      (sv_gor s) (sv_wg s) (sv_next s) (sv_table s ∪ sv_shut s) (sv_table s ∪ sv_cancelled s)
      (sv_collected s) (sv_first s) (sv_done s).

(** A loop returns; its result goes to the channel, which has room for all. *)
Definition returnServe (i : nat) (err : option string) (s : server) : server :=
  mk_server (sv_closed s) (sv_open s) (<[i := Returned]> (sv_serves s)) (sv_errs s ++ [err])
    (sv_table s) (sv_gor s) (sv_wg s) (sv_next s) (sv_shut s) (sv_cancelled s) (sv_collected s)
    (sv_first s) (sv_done s).

(** [l.Accept()] returns a new connection. *)
Definition acceptConn (i : nat) (s : server) : server :=
  mk_server (sv_closed s) (sv_open s) (<[i := Accepted (sv_next s)]> (sv_serves s)) (sv_errs s)
    (sv_table s) (sv_gor s) (sv_wg s) (S (sv_next s)) (sv_shut s) (sv_cancelled s)
    (sv_collected s) (sv_first s) (sv_done s).

(** [co.Close()] *)
Definition shutConn (co : nat) (s : server) : server :=
  mk_server (sv_closed s) (sv_open s) (sv_serves s) (sv_errs s) (sv_table s) (sv_gor s) (sv_wg s)
    (sv_next s) ({[co]} ∪ sv_shut s) (sv_cancelled s) (sv_collected s) (sv_first s) (sv_done s).

(** The phase of a connection's goroutine changes. *)
Definition setPhase (co : nat) (p : connPhase) (s : server) : server :=
  mk_server (sv_closed s) (sv_open s) (sv_serves s) (sv_errs s) (sv_table s)
    (<[co := p]> (sv_gor s)) (sv_wg s) (sv_next s) (sv_shut s) (sv_cancelled s)
    (sv_collected s) (sv_first s) (sv_done s).

(** The part of [serve] under the lock: a server already closed drops the
    connection, otherwise it is registered and its goroutine started; [w] is what
    its protocol does first (MySQL opens a session, PostgreSQL reads). *)
Definition registerConn (i co : nat) (w : waiting) (s : server) : server :=
  if sv_closed s then returnServe i None (shutConn co s)
  else
    mk_server (sv_closed s) (sv_open s) (<[i := Accepting]> (sv_serves s)) (sv_errs s)
      ({[co]} ∪ sv_table s) (<[co := Serving 0 w]> (sv_gor s)) (S (sv_wg s)) (sv_next s) (sv_shut s)
      (sv_cancelled s) (sv_collected s) (sv_first s) (sv_done s).

(** The deferred calls of a connection's goroutine, last to first: [cancel]
    (and [recover]), [delete], then [co.Close] and [wg.Done]. *)
Definition cancelConn (co : nat) (s : server) : server :=
  mk_server (sv_closed s) (sv_open s) (sv_serves s) (sv_errs s) (sv_table s)
    (<[co := Cancelled]> (sv_gor s)) (sv_wg s) (sv_next s) (sv_shut s) ({[co]} ∪ sv_cancelled s)
    (sv_collected s) (sv_first s) (sv_done s).
Definition removeConn (co : nat) (s : server) : server :=
  mk_server (sv_closed s) (sv_open s) (sv_serves s) (sv_errs s) (sv_table s ∖ {[co]})
    (<[co := Removed]> (sv_gor s)) (sv_wg s) (sv_next s) (sv_shut s) (sv_cancelled s)
    (sv_collected s) (sv_first s) (sv_done s).
Definition finishConn (co : nat) (s : server) : server :=
  let s := shutConn co s in
  mk_server (sv_closed s) (sv_open s) (sv_serves s) (sv_errs s) (sv_table s)
    (delete co (sv_gor s)) (pred (sv_wg s)) (sv_next s) (sv_shut s) (sv_cancelled s)
    (sv_collected s) (sv_first s) (sv_done s).

(** [Run] receives [err], and [errs] remain: the first error closes the server. *)
Definition collect (err : option string) (errs : list (option string)) (s : server) : server :=
  let received first :=
    mk_server (sv_closed s) (sv_open s) (sv_serves s) errs (sv_table s) (sv_gor s) (sv_wg s)
      (sv_next s) (sv_shut s) (sv_cancelled s) (S (sv_collected s)) first (sv_done s) in
  match err, sv_first s with
  | Some e, None => Close (received (Some e))
  | _, first => received first
  end.
(** [Run] returns [first], after [wg.Wait()]. *)
Definition runReturn (s : server) : server :=
  mk_server (sv_closed s) (sv_open s) (sv_serves s) (sv_errs s) (sv_table s) (sv_gor s) (sv_wg s)
    (sv_next s) (sv_shut s) (sv_cancelled s) (sv_collected s) (sv_first s) true.

(** What the goroutines of the server do by themselves.  A read of a closed socket
    and a call whose context is cancelled return an error: the statement ends, or
    the protocol returns. *)
Inductive own_step : server -> server -> Prop :=
| step_accept_closed s i :         (* net.ErrClosed *)
    sv_serves s !! i = Some Accepting -> sv_open s !! i = Some false ->
    own_step s (returnServe i None s)
| step_register s i co w :
    sv_serves s !! i = Some (Accepted co) -> own_step s (registerConn i co w s)
| step_read s co n w :             (* the next message, and its statement if it runs one *)
    sv_gor s !! co = Some (Serving (S n) OnClient) -> own_step s (setPhase co (Serving n w) s)
| step_hangup s co :               (* net.ErrClosed *)
    sv_gor s !! co = Some (Serving 0 OnClient) -> co ∈ sv_shut s -> own_step s (cancelConn co s)
| step_abandon s co n :            (* context.Canceled *)
    sv_gor s !! co = Some (Serving n OnMilvus) -> co ∈ sv_cancelled s ->
    own_step s (setPhase co (Serving n OnClient) s)
| step_remove s co : sv_gor s !! co = Some Cancelled -> own_step s (removeConn co s)
| step_finish s co : sv_gor s !! co = Some Removed -> own_step s (finishConn co s)
| step_collect s err errs : sv_errs s = err :: errs -> own_step s (collect err errs s)
| step_return s :
    sv_done s = false -> sv_collected s = length (sv_serves s) -> sv_wg s = 0%nat ->
    own_step s (runReturn s).

(** What clients, Milvus and the rest of the process do. *)
Inductive outer_step : server -> server -> Prop :=
| step_accept s i :
    sv_serves s !! i = Some Accepting -> sv_open s !! i = Some true ->
    outer_step s (acceptConn i s)
| step_accept_error s i e :        (* an error but net.ErrClosed *)
    sv_serves s !! i = Some Accepting -> sv_open s !! i = Some true ->
    outer_step s (returnServe i (Some e) s)
| step_receive s co n w :          (* a message of the client arrives *)
    sv_gor s !! co = Some (Serving n w) -> co ∉ sv_shut s ->
    outer_step s (setPhase co (Serving (S n) w) s)
| step_answer s co n :             (* Milvus has answered the calls of the statement *)
    sv_gor s !! co = Some (Serving n OnMilvus) ->
    outer_step s (setPhase co (Serving n OnClient) s)
| step_leave s co n w :            (* the protocol ends: the client quits, breaks it, a panic *)
    sv_gor s !! co = Some (Serving n w) -> outer_step s (cancelConn co s)
| step_close s : sv_closed s = false -> outer_step s (Close s).   (* another goroutine *)

(** One action of some goroutine. *)
Definition step (s s' : server) : Prop := own_step s s' \/ outer_step s s'.

(** ** [NewServer] *)

(** A server without listeners. *)
Definition fresh : server := mk_server false [] [] [] ∅ ∅ 0 0 ∅ ∅ 0 None false.

(** The fields that [NewServer] fills: the address of each listener and its mode;
    in [bt_server] the listeners are the flags [sv_open]. *)
Record built := mk_built {
  bt_addrs : list string;
  bt_modes : list string;
  bt_server : server
}.

(** The server it returns, with its configuration and whether it speaks TLS, or its
    error and the server it drops. *)
Inductive newServerResult :=
| Started (cfg : Config) (b : built) (tls : bool)
| Failed (err : string) (dropped : server).

Section newServer.
(** [tls.LoadX509KeyPair] and [net.Listen("tcp", addr)], after the addresses bound
    so far: an error, or none. *)
Context (loadKeyPair : string -> string -> option string).
Context (listen : list string -> string -> option string).

(** [s.listeners = append(s.listeners, l)] *)
Definition addListener (s : server) : server :=
  mk_server (sv_closed s) (sv_open s ++ [true]) (sv_serves s) (sv_errs s) (sv_table s) (sv_gor s)
    (sv_wg s) (sv_next s) (sv_shut s) (sv_cancelled s) (sv_collected s) (sv_first s) (sv_done s).

(** [bind] *)
Definition bind (mode addr : string) (b : built) : string + built :=
  match listen (bt_addrs b) addr with
  | Some e => inl e
  | None => inr (mk_built (bt_addrs b ++ [addr]) (bt_modes b ++ [mode])
                   (addListener (bt_server b)))
  end.

(** The two calls of [bind], each with its [s.Close()]. *)
Definition bindModes (cfg : Config) (tls : bool) (b : built) : newServerResult :=
  match (if (cfg_Mode cfg =?s "mysql") || (cfg_Mode cfg =?s "both")
         then bind "mysql" (cfg_Addr cfg) b else inr b) with
  | inl e => Failed e (Close (bt_server b))
  | inr b =>
      match (if (cfg_Mode cfg =?s "postgres") || (cfg_Mode cfg =?s "both")
             then bind "postgres" (cfg_PostgresAddr cfg) b else inr b) with
      | inl e => Failed e (Close (bt_server b))
      | inr b => Started cfg b tls
      end
  end.

(** [NewServer] *)
Definition NewServer (cfg : Config) : newServerResult :=
  match defaults cfg with
  | (Some e, _) => Failed e fresh
  | (None, cfg) =>
      let tls := negb (cfg_TLSCert cfg =?s "") in
      match (if tls then loadKeyPair (cfg_TLSCert cfg) (cfg_TLSKey cfg) else None) with
      | Some e => Failed e fresh
      | None => bindModes cfg tls (mk_built [] [] fresh)
      end
  end.
End newServer.

(** The loops that [Run] starts, one per listener. *)
Definition startLoops (s : server) : server :=
  mk_server (sv_closed s) (sv_open s) (map (fun _ => Accepting) (sv_open s)) (sv_errs s)
    (sv_table s) (sv_gor s) (sv_wg s) (sv_next s) (sv_shut s) (sv_cancelled s) (sv_collected s)
    (sv_first s) (sv_done s).
