(* ===== verification/ServerSpec.v ===== *)
(** * Properties of the configuration and of the server

    A loaded configuration is complete and the listeners are those of its mode.
    [server_inv] is the invariant of the running server, over every interleaving of
    its goroutines; from it, [Close] reaches every connection, [Run] returns only
    when nothing is left running, and a closed server always winds down. *)
From S2P Require Export Server.
Open Scope Z_scope.
Open Scope go_scope.

(** ** Sums *)
Lemma sum_list_insert {A} (f : A -> nat) l i x y :
  l !! i = Some y ->
  (sum_list_with f (<[i := x]> l) + f y = sum_list_with f l + f x)%nat.
Proof.
  revert i; induction l as [|z l IH]; intros [|i] H; try done; simpl in *.
  - injection H as ->. lia.
  - specialize (IH i H). lia.
Qed.

Definition phaseWeight (p : connPhase) : nat :=
  match p with
  | Serving n w => 3 + 2 * n + match w with OnMilvus => 1 | OnClient => 0 end
  | Cancelled => 2
  | Removed => 1
  end.
Definition weight (g : gmap nat connPhase) : nat :=
  map_fold (fun _ p n => (phaseWeight p + n)%nat) 0%nat g.

Lemma weight_delete co p g :
  g !! co = Some p -> weight g = (phaseWeight p + weight (delete co g))%nat.
Proof.
  apply (map_fold_delete_L (fun _ p n => (phaseWeight p + n)%nat)). intros. lia.
Qed.
Lemma weight_insert co p g :
  weight (<[co := p]> g) = (phaseWeight p + weight (delete co g))%nat.
Proof.
  rewrite (weight_delete co p) by apply lookup_insert_eq. by rewrite delete_insert_eq.
Qed.

(** ** The invariant *)
Definition returnedWeight (p : servePhase) : nat := match p with Returned => 1 | _ => 0 end.
Definition registered (p : connPhase) : Prop := p <> Removed.
Definition serving (p : connPhase) : bool := match p with Serving _ _ => true | _ => false end.

(** A connection is somewhere: closed, in its goroutine or held by a loop. *)
Definition accounted (s : server) (co : nat) : Prop :=
  co ∈ sv_shut s \/ is_Some (sv_gor s !! co) \/ exists i, sv_serves s !! i = Some (Accepted co).

Record server_inv (n : nat) (s : server) : Prop := {
  inv_serves : length (sv_serves s) = n;
  inv_open : sv_open s = replicate n (negb (sv_closed s));
  inv_wg : sv_wg s = size (sv_gor s);
  inv_table : forall co, co ∈ sv_table s <-> exists p, sv_gor s !! co = Some p /\ registered p;
  inv_cancelled : forall co p, sv_gor s !! co = Some p -> serving p = false -> co ∈ sv_cancelled s;
  inv_closed : sv_closed s = true -> sv_table s ⊆ sv_cancelled s /\ sv_table s ⊆ sv_shut s;
  inv_gor_old : forall co, is_Some (sv_gor s !! co) -> (co < sv_next s)%nat;
  inv_held : forall i co, sv_serves s !! i = Some (Accepted co) ->
    (co < sv_next s)%nat /\ sv_gor s !! co = None
    /\ forall j, sv_serves s !! j = Some (Accepted co) -> j = i;
  inv_accounted : forall co, (co < sv_next s)%nat -> accounted s co;
  inv_count : (sv_collected s + length (sv_errs s)
               = sum_list_with returnedWeight (sv_serves s))%nat;
  inv_first : sv_first s <> None -> sv_closed s = true;
  inv_returned : Returned ∈ sv_serves s -> sv_closed s = true \/ exists e, Some e ∈ sv_errs s;
  inv_done : sv_done s = true -> sv_collected s = length (sv_serves s) /\ sv_gor s = ∅
}.

Lemma inv_running n : server_inv n (running n).
Proof.
  split; cbn; try done.
  - apply length_replicate.
  - intros co. split; [set_solver|]. by intros (p & Hp & _).
  - intros co [? H]. done.
  - intros i co [H _]%lookup_replicate. done.
  - intros co H. lia.
  - induction n; cbn; auto.
  - intros H. apply list_elem_of_lookup in H as [i [H _]%lookup_replicate]. done.
Qed.

(** ** Preservation *)

(** The loops that hold connections, after loop [i] changes. *)
Lemma held_insert (l : list servePhase) i p j co :
  <[i := p]> l !! j = Some (Accepted co) -> p <> Accepted co -> l !! j = Some (Accepted co) /\ i <> j.
Proof.
  intros H Hp. destruct (decide (i = j)) as [<-|Hne].
  - destruct (decide (i < length l)%nat).
    + rewrite list_lookup_insert_eq in H by done. congruence.
    + rewrite list_insert_ge in H by lia. apply lookup_lt_Some in H. lia.
  - by rewrite list_lookup_insert_ne in H.
Qed.
Lemma accounted_other (l : list servePhase) i p j co :
  l !! j = Some (Accepted co) -> i <> j -> <[i := p]> l !! j = Some (Accepted co).
Proof. intros. by rewrite list_lookup_insert_ne. Qed.

Section preservation.
Context (n : nat) (s : server) (Hs : server_inv n s).

(** A loop returns, and the connection it held, if any, is closed. *)
Lemma inv_returnServe i err y :
  sv_serves s !! i = Some y -> y <> Returned ->
  (forall co, y = Accepted co -> co ∈ sv_shut s) ->
  (err = None -> sv_closed s = true) -> server_inv n (returnServe i err s).
Proof.
  intros Hi Hy Hshut Herr. pose proof (lookup_lt_Some _ _ _ Hi) as Hlt. destruct Hs.
  split; cbn; try done.
  - by rewrite length_insert.
  - intros j co [Hj Hne]%held_insert; [|done]. destruct (inv_held0 j co Hj) as (H1 & H2 & H3).
    split_and!; try done. intros k [Hk _]%held_insert; [auto|done].
  - intros co Hco. destruct (inv_accounted0 co Hco) as [H|[H|[j Hj]]]; [by left|right; by left|].
    destruct (decide (i = j)) as [<-|Hne].
    + left. apply Hshut. congruence.
    + right. right. exists j. by apply accounted_other.
  - pose proof (sum_list_insert returnedWeight (sv_serves s) i Returned y Hi) as E.
    assert (returnedWeight y = 0%nat) as Ey by (by destruct y). cbn [returnedWeight] in E.
    rewrite length_app. cbn. lia.
  - intros _. destruct err as [e|]; [right; exists e; set_solver|left; auto].
  - intros Hd. destruct (inv_done0 Hd) as [Hc Hg]. by rewrite length_insert.
Qed.

Lemma returned_insert (l : list servePhase) i p : p <> Returned -> Returned ∈ <[i := p]> l -> Returned ∈ l.
Proof.
  intros Hp [j Hj]%list_elem_of_lookup. apply list_elem_of_lookup. exists j.
  destruct (decide (i = j)) as [<-|Hne]; [|by rewrite list_lookup_insert_ne in Hj].
  destruct (decide (i < length l)%nat); [rewrite list_lookup_insert_eq in Hj by done; congruence|].
  rewrite list_insert_ge in Hj by lia. done.
Qed.

(** The new connection is held by loop [i]. *)
Lemma inv_acceptConn i : sv_serves s !! i = Some Accepting -> server_inv n (acceptConn i s).
Proof.
  intros Hi. pose proof (lookup_lt_Some _ _ _ Hi) as Hlt. destruct Hs. split; cbn; try done.
  - by rewrite length_insert.
  - intros co Hco. specialize (inv_gor_old0 co Hco). lia.
  - intros j co Hj.
    destruct (decide (co = sv_next s)) as [->|Hn].
    + assert (forall k, sv_serves s !! k <> Some (Accepted (sv_next s))) as Hnew.
      { intros k Hk. destruct (inv_held0 k _ Hk) as [? _]. lia. }
      assert (forall k, <[i := Accepted (sv_next s)]> (sv_serves s) !! k = Some (Accepted (sv_next s)) ->
        k = i) as Hk.
      { intros k Hk. destruct (decide (i = k)) as [|Hne]; [done|].
        rewrite list_lookup_insert_ne in Hk by done. by destruct (Hnew k). }
      split_and!; [lia| |intros k H; rewrite (Hk k H); by rewrite (Hk j Hj)].
      apply eq_None_not_Some. intros H%inv_gor_old0. lia.
    + apply held_insert in Hj as [Hj _]; [|congruence].
      destruct (inv_held0 j co Hj) as (H1 & H2 & H3). split_and!; [lia|done|].
      intros k [Hk _]%held_insert; [auto|congruence].
  - intros co Hco. destruct (decide (co = sv_next s)) as [->|Hn].
    + right. right. exists i. by apply list_lookup_insert_eq.
    + destruct (inv_accounted0 co ltac:(lia)) as [H|[H|[j Hj]]]; [by left|right; by left|].
      right. right. exists j. apply accounted_other; [done|]. intros <-. congruence.
  - pose proof (sum_list_insert returnedWeight _ i (Accepted (sv_next s)) _ Hi). cbn in *. lia.
  - intros H%returned_insert; [auto|done].
  - intros Hd. destruct (inv_done0 Hd) as [Hc Hg]. by rewrite length_insert.
Qed.

(** Closing a connection's socket changes nothing else. *)
Lemma inv_shutConn co : server_inv n (shutConn co s).
Proof.
  destruct Hs. split; cbn; try done.
  - intros H. destruct (inv_closed0 H). set_solver.
  - intros k Hk. destruct (inv_accounted0 k Hk) as [H|[H|H]];
      [left; cbn; set_solver|right; by left|right; by right].
Qed.

Lemma inv_Close : server_inv n (Close s).
Proof.
  unfold Close. destruct (sv_closed s) eqn:E; [done|]. destruct Hs. split; cbn; try done.
  - rewrite inv_open0. by rewrite fmap_replicate.
  - intros co p H1 H2. specialize (inv_cancelled0 co p H1 H2). set_solver.
  - intros _. set_solver.
  - intros k Hk. destruct (inv_accounted0 k Hk) as [H|[H|H]];
      [left; cbn; set_solver|right; by left|right; by right].
  - intros _. by left.
Qed.
End preservation.

(** Every loop but the returned ones counts for one. *)
Lemma returned_count (l : list servePhase) :
  (sum_list_with returnedWeight l <= length l)%nat
  /\ (sum_list_with returnedWeight l = length l -> forall i p, l !! i = Some p -> p = Returned).
Proof.
  induction l as [|q l [IH1 IH2]]; [done|]. simpl. split; [destruct q; simpl; lia|].
  intros H. assert (q = Returned) as -> by (destruct q; simpl in H; done || lia).
  simpl in H. intros [|i] p Hp; [by injection Hp|]. apply (IH2 ltac:(lia) i p Hp).
Qed.

Section goroutines.
Context (n : nat) (s : server) (Hs : server_inv n s).

(** Once [Run] has returned, no loop is left. *)
Lemma done_returned i p : sv_done s = true -> sv_serves s !! i = Some p -> p = Returned.
Proof.
  intros Hd Hi. destruct (inv_done _ _ Hs Hd) as [Hc _].
  pose proof (inv_count _ _ Hs) as Hn. destruct (returned_count (sv_serves s)) as [H1 H2].
  apply (H2 ltac:(lia) i p Hi).
Qed.

Lemma inv_registerConn i co w :
  sv_serves s !! i = Some (Accepted co) -> server_inv n (registerConn i co w s).
Proof.
  intros Hi. unfold registerConn. destruct (sv_closed s) eqn:Ec.
  { apply (inv_returnServe n _ (inv_shutConn n s Hs co) i None (Accepted co)); try done.
    intros k [= <-]. cbn. set_solver. }
  assert (sv_done s = false) as Hd.
  { destruct (sv_done s) eqn:E; [|done]. by pose proof (done_returned i _ E Hi). }
  pose proof (lookup_lt_Some _ _ _ Hi) as Hlt. destruct Hs.
  destruct (inv_held0 i co Hi) as (Hold & Hnone & Honly).
  split; cbn; try done.
  - by rewrite length_insert.
  - by rewrite inv_open0, Ec.
  - rewrite map_size_insert_None by done. by rewrite inv_wg0.
  - intros k. rewrite elem_of_union, elem_of_singleton, inv_table0. unfold registered.
    destruct (decide (co = k)) as [->|Hne].
    + rewrite lookup_insert_eq. split; [eauto|by left].
    + rewrite lookup_insert_ne by done. split; [intros [?|?]; [by subst|done]|by right].
  - intros k p. destruct (decide (co = k)) as [->|Hne].
    + rewrite lookup_insert_eq. by intros [= <-].
    + rewrite lookup_insert_ne by done. apply inv_cancelled0.
  - intros k. destruct (decide (co = k)) as [->|Hne]; [done|].
    rewrite lookup_insert_ne by done. apply inv_gor_old0.
  - intros j k [Hj Hne]%held_insert; [|done]. destruct (inv_held0 j k Hj) as (H1 & H2 & H3).
    assert (co <> k) as Hck.
    { intros ->. apply Hne. symmetry. by apply Honly. }
    split_and!; [done|by rewrite lookup_insert_ne|]. intros m [Hm _]%held_insert; [auto|done].
  - intros k Hk. destruct (decide (co = k)) as [->|Hne].
    { right. left. cbn. rewrite lookup_insert_eq. eauto. }
    destruct (inv_accounted0 k Hk) as [H|[H|[j Hj]]]; [by left| |].
    + right. left. cbn. by rewrite lookup_insert_ne.
    + right. right. exists j. apply accounted_other; [done|]. intros <-. congruence.
  - pose proof (sum_list_insert returnedWeight _ i Accepting _ Hi). cbn in *. lia.
  - intros H. specialize (inv_first0 H). congruence.
  - intros H%returned_insert; [|done]. rewrite <- Ec. auto.
  - congruence.
Qed.

(** A goroutine of a connection moves to another phase. *)
Lemma gor_phase co p q table cancelled :
  sv_gor s !! co = Some p ->
  (forall k, k ∈ table <-> exists r, <[co := q]> (sv_gor s) !! k = Some r /\ registered r) ->
  sv_cancelled s ⊆ cancelled -> (serving q = false -> co ∈ cancelled) -> table ⊆ sv_table s ->
  server_inv n (mk_server (sv_closed s) (sv_open s) (sv_serves s) (sv_errs s) table
    (<[co := q]> (sv_gor s)) (sv_wg s) (sv_next s) (sv_shut s) cancelled (sv_collected s)
    (sv_first s) (sv_done s)).
Proof.
  intros Hp Htable Hsub Hco Hst. destruct Hs. split; cbn; try done.
  - by rewrite map_size_insert_Some.
  - intros k r. destruct (decide (co = k)) as [->|Hne].
    + rewrite lookup_insert_eq. intros [= <-]. exact Hco.
    + rewrite lookup_insert_ne by done. intros H1 H2. apply Hsub. by eapply inv_cancelled0.
  - intros H. destruct (inv_closed0 H). split; set_solver.
  - intros k. destruct (decide (co = k)) as [->|Hne]; [intros _; apply inv_gor_old0; eauto|].
    rewrite lookup_insert_ne by done. apply inv_gor_old0.
  - intros i k Hi. destruct (inv_held0 i k Hi) as (H1 & H2 & H3). split_and!; try done.
    rewrite lookup_insert_ne; [done|]. intros ->. congruence.
  - intros k Hk. destruct (inv_accounted0 k Hk) as [H|[H|H]]; [by left| |right; by right].
    right. left. cbn. by apply lookup_insert_is_Some'; right.
  - intros H. destruct (inv_done0 H) as [_ E]. rewrite E in Hp. done.
Qed.

(** A phase that keeps the connection registered keeps the table. *)
Lemma table_phase co p q k :
  sv_gor s !! co = Some p -> registered p -> registered q ->
  k ∈ sv_table s <-> exists r, <[co := q]> (sv_gor s) !! k = Some r /\ registered r.
Proof.
  intros Hp Hr Hq. rewrite (inv_table _ _ Hs). destruct (decide (co = k)) as [->|Hne].
  - rewrite lookup_insert_eq, Hp. split; eauto.
  - by rewrite lookup_insert_ne.
Qed.
Lemma inv_setPhase co m w m' w' :
  sv_gor s !! co = Some (Serving m w) -> server_inv n (setPhase co (Serving m' w') s).
Proof.
  intros Hp. apply (gor_phase co (Serving m w)); try done.
  intros k. by apply (table_phase co (Serving m w)).
Qed.
Lemma inv_cancelConn co m w :
  sv_gor s !! co = Some (Serving m w) -> server_inv n (cancelConn co s).
Proof.
  intros Hp. apply (gor_phase co (Serving m w) Cancelled); try done; try set_solver.
  intros k. by apply (table_phase co (Serving m w)).
Qed.
Lemma inv_removeConn co : sv_gor s !! co = Some Cancelled -> server_inv n (removeConn co s).
Proof.
  intros Hp. apply (gor_phase co Cancelled Removed); try done; try set_solver.
  - intros k. rewrite elem_of_difference, elem_of_singleton, (inv_table _ _ Hs).
    destruct (decide (co = k)) as [->|Hne].
    + rewrite lookup_insert_eq. unfold registered. split; [by intros [_ ?]|].
      intros (r & [= <-] & ?). done.
    + rewrite lookup_insert_ne by done. split; [by intros [? _]|by split].
  - intros _. by apply (inv_cancelled _ _ Hs co Cancelled).
Qed.

Lemma inv_finishConn co : sv_gor s !! co = Some Removed -> server_inv n (finishConn co s).
Proof.
  intros Hp. destruct Hs. split; cbn; try done.
  - rewrite map_size_delete_Some by eauto. by rewrite inv_wg0.
  - intros k. rewrite inv_table0. unfold registered. destruct (decide (co = k)) as [->|Hne].
    + rewrite lookup_delete_eq, Hp. split; intros (r & Hr & ?); [|done]. by injection Hr as <-.
    + by rewrite lookup_delete_ne.
  - intros k p [_ H]%lookup_delete_Some. by apply inv_cancelled0.
  - intros H. destruct (inv_closed0 H). set_solver.
  - intros k [p [_ H]%lookup_delete_Some]. apply inv_gor_old0. eauto.
  - intros i k Hi. destruct (inv_held0 i k Hi) as (H1 & H2 & H3). split_and!; try done.
    by rewrite lookup_delete_None; right.
  - intros k Hk. destruct (decide (co = k)) as [->|Hne]; [left; cbn; set_solver|].
    destruct (inv_accounted0 k Hk) as [H|[H|H]]; [left; cbn; set_solver| |right; by right].
    right. left. cbn. by rewrite lookup_delete_ne.
  - intros H. destruct (inv_done0 H) as [_ E]. rewrite E in Hp. done.
Qed.

End goroutines.

(** [Run] has received an error, before it acts on it. *)
Definition received (errs : list (option string)) (first : option string) (s : server) : server :=
  mk_server (sv_closed s) (sv_open s) (sv_serves s) errs (sv_table s) (sv_gor s) (sv_wg s)
    (sv_next s) (sv_shut s) (sv_cancelled s) (S (sv_collected s)) first (sv_done s).

Lemma inv_received n s err errs first :
  server_inv n s -> sv_errs s = err :: errs ->
  (first <> None -> sv_closed s = true) -> (err <> None -> sv_closed s = true) ->
  server_inv n (received errs first s).
Proof.
  intros Hs He Hf Hclosed. destruct Hs. split; cbn; try done.
  - rewrite He in inv_count0. cbn in inv_count0. lia.
  - intros H. destruct (inv_returned0 H) as [|[e Hin]]; [by left|]. rewrite He in Hin.
    apply elem_of_cons in Hin as [Hin|Hin]; [left; apply Hclosed; congruence|right; eauto].
  - intros H. destruct (inv_done0 H) as [Hc _]. rewrite He in inv_count0. cbn in inv_count0.
    destruct (returned_count (sv_serves s)). lia.
Qed.

Lemma Close_closed s : sv_closed (Close s) = true.
Proof. unfold Close. by destruct (sv_closed s) eqn:E. Qed.

Lemma inv_collect n s err errs :
  server_inv n s -> sv_errs s = err :: errs -> server_inv n (collect err errs s).
Proof.
  intros Hs He. pose proof (inv_first _ _ Hs) as Hf.
  destruct err as [e|]; unfold collect; [destruct (sv_first s) as [e'|] eqn:E|].
  - apply (inv_received n s (Some e)); auto.
  - replace (Close _) with (received errs (Some e) (Close s)).
    + apply (inv_received n (Close s) (Some e)); [by apply inv_Close| |intros _; apply Close_closed..].
      unfold Close. by destruct (sv_closed s).
    + unfold received, Close. cbn. destruct (sv_closed s) eqn:Ec; cbn; by rewrite ?Ec.
  - apply (inv_received n s None); auto.
Qed.

Lemma inv_runReturn n s :
  server_inv n s -> sv_collected s = length (sv_serves s) -> sv_wg s = 0%nat ->
  server_inv n (runReturn s).
Proof.
  intros Hs Hc Hw. destruct Hs. split; cbn; try done. intros _. split; [done|].
  rewrite Hw in inv_wg0. by apply map_size_empty_inv.
Qed.

Lemma inv_step n s s' : server_inv n s -> step s s' -> server_inv n s'.
Proof.
  intros Hs [H|H]; destruct H.
  - apply (inv_returnServe n s Hs i None Accepting); try done. intros _.
    pose proof (inv_open _ _ Hs) as Ho. rewrite Ho in H0.
    apply lookup_replicate in H0 as [H0 _]. by destruct (sv_closed s).
  - by apply inv_registerConn.
  - by eapply inv_setPhase.
  - by eapply inv_cancelConn.
  - by eapply inv_setPhase.
  - by apply inv_removeConn.
  - by apply inv_finishConn.
  - by apply inv_collect.
  - by apply inv_runReturn.
  - by apply inv_acceptConn.
  - by apply (inv_returnServe n s Hs i (Some e) Accepting).
  - by eapply inv_setPhase.
  - by eapply inv_setPhase.
  - by eapply inv_cancelConn.
  - by apply inv_Close.
Qed.

Lemma inv_reachable n s : rtc step (running n) s -> server_inv n s.
Proof.
  intros H. assert (server_inv n (running n)) as H0 by apply inv_running. revert H0.
  induction H as [|x y z Hxy _ IH]; [done|]. intros Hx. by apply IH, (inv_step n x).
Qed.

(** ** A closed server *)

Definition loopWeight (p : servePhase) : nat := match p with Returned => 0 | _ => 2 end.
(** The steps a closed server can still make. *)
Definition remaining (s : server) : nat :=
  sum_list_with loopWeight (sv_serves s) + length (sv_errs s) + weight (sv_gor s)
  + (if sv_done s then 0 else 1).

Lemma closed_listener n s i b :
  server_inv n s -> sv_closed s = true -> sv_open s !! i = Some b -> b = false.
Proof. intros Hs Hc. rewrite (inv_open _ _ Hs), Hc. by intros [-> _]%lookup_replicate. Qed.

(** Every connection still served by a closed server is cancelled and shut. *)
Lemma closed_serving n s co m w :
  server_inv n s -> sv_closed s = true -> sv_gor s !! co = Some (Serving m w) ->
  co ∈ sv_cancelled s /\ co ∈ sv_shut s.
Proof.
  intros Hs Hc Hp. destruct (inv_closed _ _ Hs Hc) as [H1 H2].
  assert (co ∈ sv_table s) by (apply (inv_table _ _ Hs); by exists (Serving m w)).
  split; [by apply H1|by apply H2].
Qed.

(** A goroutine that moves to a lighter phase. *)
Lemma weight_phase co p q (g : gmap nat connPhase) :
  g !! co = Some p -> (phaseWeight q < phaseWeight p)%nat ->
  dom (<[co := q]> g) ⊆ dom g /\ (weight (<[co := q]> g) < weight g)%nat.
Proof.
  intros Hp Hw. rewrite dom_insert_lookup_L by eauto. split; [done|].
  rewrite weight_insert, (weight_delete co p g) by done. lia.
Qed.

(** What a step of a closed server does to its progress. *)
Definition winds (s s' : server) : Prop :=
  sv_closed s' = true /\ sv_next s' = sv_next s /\ dom (sv_gor s') ⊆ dom (sv_gor s)
  /\ (remaining s' < remaining s)%nat.

Lemma winds_phase s co p q :
  sv_closed s = true -> sv_gor s !! co = Some p -> (phaseWeight q < phaseWeight p)%nat ->
  forall s', sv_closed s' = sv_closed s -> sv_next s' = sv_next s ->
    sv_gor s' = <[co := q]> (sv_gor s) -> sv_serves s' = sv_serves s ->
    sv_errs s' = sv_errs s -> sv_done s' = sv_done s -> winds s s'.
Proof.
  intros Hc Hp Hw s' E1 E2 E3 E4 E5 E6. destruct (weight_phase co p q _ Hp Hw).
  unfold winds, remaining. rewrite E1, E2, E3, E4, E5, E6. split_and!; [done..|lia].
Qed.

Lemma winds_return s i p err :
  sv_closed s = true -> sv_serves s !! i = Some p -> p <> Returned ->
  winds s (returnServe i err s).
Proof.
  intros Hc Hi Hp. pose proof (sum_list_insert loopWeight _ i Returned p Hi) as E.
  assert (loopWeight p = 2%nat) as Ep by (by destruct p). rewrite Ep in E. cbn [loopWeight] in E.
  unfold winds, remaining. cbn. rewrite length_app. cbn. split_and!; [done..|lia].
Qed.

Lemma step_closed n s s' : server_inv n s -> sv_closed s = true -> step s s' -> winds s s'.
Proof.
  intros Hs Hc [H|H]; destruct H.
  - by eapply winds_return.
  - unfold registerConn. rewrite Hc. by apply (winds_return (shutConn co s) i (Accepted co)).
  - eapply (winds_phase s co _ (Serving n0 w)); try done. destruct w; cbn; lia.
  - eapply (winds_phase s co _ Cancelled); try done. cbn; lia.
  - eapply (winds_phase s co _ (Serving n0 OnClient)); try done. cbn; lia.
  - eapply (winds_phase s co _ Removed); try done. cbn; lia.
  - unfold winds, remaining. cbn. rewrite (weight_delete co Removed (sv_gor s)) by done.
    rewrite dom_delete_L. cbn. split_and!; [done..|set_solver|lia].
  - unfold winds, remaining, collect, Close. cbn. rewrite H, Hc.
    destruct err, (sv_first s); cbn; split_and!; done || lia.
  - unfold winds, remaining. cbn. rewrite H. split_and!; [done..|lia].
  - by apply (closed_listener n) in H0.
  - by apply (closed_listener n) in H0.
  - by destruct (closed_serving n s co _ _ Hs Hc H).
  - eapply (winds_phase s co _ (Serving n0 OnClient)); try done. cbn; lia.
  - eapply (winds_phase s co _ Cancelled); try done. destruct w; cbn; lia.
  - congruence.
Qed.

(** A goroutine of a closed server has a step of its own: what it waits for was
    closed or cancelled. *)
Lemma closed_goroutine n s co p :
  server_inv n s -> sv_closed s = true -> sv_gor s !! co = Some p -> exists s', own_step s s'.
Proof.
  intros Hs Hc Hp. destruct p as [m w| |]; [|by eexists; eapply step_remove|].
  - destruct (closed_serving n s co m w Hs Hc Hp). destruct w; [destruct m|].
    + eexists. by eapply step_hangup.
    + eexists. by eapply (step_read s co m OnClient).
    + eexists. by eapply step_abandon.
  - eexists. by eapply step_finish.
Qed.

(** A closed server that [Run] has not left can make a step of its own. *)
Lemma closed_progress n s :
  server_inv n s -> sv_closed s = true -> sv_done s = false -> exists s', own_step s s'.
Proof.
  intros Hs Hc Hd. destruct (decide (Forall (fun p => p = Returned) (sv_serves s))) as [Hall|Hall].
  - destruct (sv_errs s) as [|err errs] eqn:He; [|by eexists; eapply step_collect].
    destruct (map_choose_or_empty (sv_gor s)) as [(co & p & Hp)|Hg].
    + by eapply closed_goroutine.
    + eexists. apply step_return; [done| |rewrite (inv_wg _ _ Hs), Hg; apply map_size_empty].
      pose proof (inv_count _ _ Hs) as Hn. rewrite He in Hn. cbn in Hn.
      assert (sum_list_with returnedWeight (sv_serves s) = length (sv_serves s)); [|lia].
      clear -Hall. induction Hall as [|? ? -> _ IH]; cbn; lia.
  - apply not_Forall_Exists in Hall; [|intros p; apply _].
    apply Exists_exists in Hall as (p & [i Hi]%list_elem_of_lookup & Hp).
    destruct p as [|co|]; [|by eexists; eapply (step_register _ _ _ OnClient)|by destruct (Hp eq_refl)].
    destruct (sv_open s !! i) as [b|] eqn:Eo.
    + pose proof (closed_listener n s i b Hs Hc Eo) as ->. by eexists; eapply step_accept_closed.
    + apply lookup_ge_None in Eo. apply lookup_lt_Some in Hi.
      rewrite (inv_open _ _ Hs), length_replicate in Eo. rewrite (inv_serves _ _ Hs) in Hi. lia.
Qed.

Lemma closed_steps n k s s' :
  server_inv n s -> sv_closed s = true -> nsteps step k s s' ->
  sv_closed s' = true /\ sv_next s' = sv_next s /\ dom (sv_gor s') ⊆ dom (sv_gor s)
  /\ (k + remaining s' <= remaining s)%nat.
Proof.
  intros Hs Hc H. induction H as [s|k s s1 s' H _ IH]; [split_and!; done || lia|].
  destruct (step_closed n s s1 Hs Hc H) as (H1 & H2 & H3 & H4).
  destruct (IH (inv_step n s s1 Hs H) H1) as (H5 & H6 & H7 & H8).
  split_and!; [done|congruence|set_solver|lia].
Qed.

Lemma inv_rtc n s s' : server_inv n s -> rtc step s s' -> server_inv n s'.
Proof. intros Hs H. induction H; [done|]. by eapply IHrtc, inv_step. Qed.

(** ** Configuration *)
Section config.

(** The configurations [defaults] accepts. *)
Definition acceptable (c : Config) : Prop :=
  cfg_Mode c ∈ [""; "mysql"; "postgres"; "both"]
  /\ 0 <= cfg_QueryTimeoutSeconds c
  /\ (cfg_TLSCert c = "" <-> cfg_TLSKey c = "").

(** A configuration a server can start from. *)
Definition complete (c : Config) : Prop :=
  cfg_Mode c ∈ ["mysql"; "postgres"; "both"]
  /\ cfg_Addr c <> "" /\ cfg_PostgresAddr c <> "" /\ cfg_User c <> ""
  /\ 0 < cfg_QueryTimeoutSeconds c
  /\ (cfg_TLSCert c = "" <-> cfg_TLSKey c = "").

Lemma orElse_nonempty x d : d <> "" -> orElse x d <> "".
Proof. intros Hd. unfold orElse. destruct (x =? "")%string eqn:E; bool_to_prop; done. Qed.
Lemma orElse_id x d : x <> "" -> orElse x d = x.
Proof. intros Hx. unfold orElse. by rewrite (proj2 (String.eqb_neq _ _) Hx). Qed.

Definition modeChecked (m : string) : bool :=
  negb (m =? "mysql")%string && negb (m =? "postgres")%string && negb (m =? "both")%string.
Lemma modeChecked_spec m : modeChecked m = false <-> m ∈ ["mysql"; "postgres"; "both"].
Proof.
  unfold modeChecked. rewrite !andb_false_iff, !negb_false_iff, !String.eqb_eq.
  rewrite !elem_of_cons, elem_of_nil. tauto.
Qed.
Lemma modeChecked_orElse m :
  modeChecked (orElse m "mysql") = false <-> m ∈ [""; "mysql"; "postgres"; "both"].
Proof.
  rewrite modeChecked_spec, (elem_of_cons _ m ""). unfold orElse.
  destruct (m =? "")%string eqn:E; bool_to_prop; [|naive_solver].
  split; [by left|]. intros _. set_solver.
Qed.

Lemma eqb_empty_iff a b : Bool.eqb (a =? "")%string (b =? "")%string = true <-> (a = "" <-> b = "").
Proof. rewrite Bool.eqb_true_iff, <- !String.eqb_eq. destruct (a =? "")%string, (b =? "")%string; naive_solver. Qed.

(** The configuration an accepted one becomes. *)
Definition filled (c : Config) : Config := set_defaults (set_Mode (orElse (cfg_Mode c) "mysql") c).

Lemma defaults_acceptable c : acceptable c -> defaults c = (None, filled c).
Proof.
  intros (Hm%modeChecked_orElse & Ht & Htls). unfold defaults. cbv zeta.
  change (_ && _) with (modeChecked (orElse (cfg_Mode c) "mysql")). rewrite Hm.
  fold (filled c). cbn [filled set_defaults set_Mode cfg_QueryTimeoutSeconds cfg_TLSCert cfg_TLSKey].
  assert ((if cfg_QueryTimeoutSeconds c =? 0 then 30 else cfg_QueryTimeoutSeconds c) <? 0 = false) as ->.
  { apply Z.ltb_ge. destruct (_ =? _); lia. }
  by rewrite (proj2 (eqb_empty_iff _ _) Htls).
Qed.
Lemma defaults_accepts c : (defaults c).1 = None -> acceptable c.
Proof.
  unfold defaults. cbv zeta.
  change (_ && _) with (modeChecked (orElse (cfg_Mode c) "mysql")).
  destruct (modeChecked _) eqn:Em; [done|].
  cbn [set_defaults set_Mode cfg_QueryTimeoutSeconds cfg_TLSCert cfg_TLSKey].
  destruct (_ <? 0) eqn:Et; [done|]. destruct (Bool.eqb _ _) eqn:Etls; [|done]. intros _.
  apply modeChecked_orElse in Em. apply eqb_empty_iff in Etls. bool_to_prop. split_and!; [done| |done].
  destruct (cfg_QueryTimeoutSeconds c =? 0) eqn:E; bool_to_prop; lia.
Qed.
Lemma filled_complete c : acceptable c -> complete (filled c).
Proof.
  intros (Hm%modeChecked_orElse%modeChecked_spec & Ht & Htls). unfold complete. cbn.
  split_and!; try done; try by apply orElse_nonempty.
  destruct (cfg_QueryTimeoutSeconds c =? 0) eqn:E; bool_to_prop; lia.
Qed.
Lemma filled_id c : complete c -> filled c = c.
Proof.
  intros (Hm & Ha & Hp & Hu & Ht & _). assert (cfg_Mode c <> "") as Hm'.
  { intros E. rewrite E in Hm. set_solver. }
  destruct c. unfold filled, set_defaults, set_Mode. cbn in *. rewrite !orElse_id by done.
  destruct (_ =? 0) eqn:E; [bool_to_prop; lia|done].
Qed.
Lemma complete_acceptable c : complete c -> acceptable c.
Proof. intros (Hm & _ & _ & _ & Ht & Htls). split_and!; [set_solver|lia|done]. Qed.

(** A field the user set is kept. *)
Definition kept (x x' : string) : Prop := x <> "" -> x' = x.
End config.

(** ** Starting *)

(** What a configuration asks for: a mode and its address, in order. *)
Definition services (c : Config) : list (string * string) :=
  match decide (cfg_Mode c = "both"), decide (cfg_Mode c = "mysql") with
  | left _, _ => [("mysql", cfg_Addr c); ("postgres", cfg_PostgresAddr c)]
  | _, left _ => [("mysql", cfg_Addr c)]
  | _, _ => [("postgres", cfg_PostgresAddr c)]
  end.

Definition binds_mysql (m : string) : bool := (m =? "mysql")%string || (m =? "both")%string.
Definition binds_postgres (m : string) : bool := (m =? "postgres")%string || (m =? "both")%string.

Lemma services_modes c :
  cfg_Mode c ∈ ["mysql"; "postgres"; "both"] ->
  services c = (if binds_mysql (cfg_Mode c) then [("mysql", cfg_Addr c)] else [])
    ++ (if binds_postgres (cfg_Mode c) then [("postgres", cfg_PostgresAddr c)] else []).
Proof.
  rewrite !elem_of_cons, elem_of_nil. unfold services. by intros [->|[->|[->|[]]]].
Qed.

Section starting.
Context (listen : list string -> string -> option string).

(** [b] has bound [svs], one after the other, and its listeners are open. *)
Record bound (svs : list (string * string)) (b : built) : Prop := {
  bound_modes : bt_modes b = map fst svs;
  bound_addrs : bt_addrs b = map snd svs;
  bound_server : startLoops (bt_server b) = running (length svs);
  bound_free : forall i sv, svs !! i = Some sv -> listen (map snd (take i svs)) sv.2 = None
}.

Lemma bound_nil : bound [] (mk_built [] [] fresh).
Proof. by split. Qed.

Lemma bind_spec svs b mode addr :
  bound svs b ->
  match bind listen mode addr b with
  | inl e => listen (map snd svs) addr = Some e
  | inr b' => bound (svs ++ [(mode, addr)]) b'
  end.
Proof.
  intros [Hm Ha Hs Hf]. unfold bind. rewrite Ha. destruct (listen _ addr) as [e|] eqn:E; [done|].
  split; cbn.
  - by rewrite Hm, map_app.
  - by rewrite map_app.
  - rewrite length_app. cbn. destruct b as [? ? s]. destruct s. unfold startLoops, running in *. cbn in *.
    injection Hs as -> -> _ -> -> -> -> -> -> -> -> -> ->.
    rewrite map_app. change (map (fun _ : bool => Accepting)) with (fmap (M:=list) (fun _ : bool => Accepting)). rewrite fmap_replicate. cbn.
    change [true] with (replicate 1 true). change [Accepting] with (replicate 1 Accepting).
    by rewrite <- !replicate_add.
  - intros i sv [Hi|[Hlen Hi]]%lookup_app_Some.
    + rewrite take_app_le by (apply lookup_lt_Some in Hi; lia). by apply Hf.
    + apply list_lookup_singleton_Some in Hi as [Hi <-].
      replace i with (length svs) by lia. by rewrite take_app_length.
Qed.

(** Closing the server closes every listener it bound. *)
Lemma bound_Close svs b :
  bound svs b -> sv_open (Close (bt_server b)) = replicate (length svs) false
    /\ sv_closed (Close (bt_server b)) = true.
Proof.
  intros [_ _ Hs _]. destruct (bt_server b). unfold startLoops, running in Hs. cbn in Hs.
  injection Hs as -> -> _ -> -> -> -> -> -> -> -> -> ->. cbn.
  by rewrite fmap_replicate.
Qed.

(** A failed start: the listeners of the services before the one that cannot be
    bound are closed. *)
Definition failed_bind (svs : list (string * string)) (e : string) (s : server) : Prop :=
  exists before sv after, svs = before ++ sv :: after
    /\ listen (map snd before) sv.2 = Some e
    /\ sv_open s = replicate (length before) false /\ sv_closed s = true.

Lemma bindModes_spec c tls :
  cfg_Mode c ∈ ["mysql"; "postgres"; "both"] ->
  match bindModes listen c tls (mk_built [] [] fresh) with
  | Started c' b tls' => c' = c /\ tls' = tls /\ bound (services c) b
  | Failed e s => failed_bind (services c) e s
  end.
Proof.
  intros Hm. rewrite services_modes by done. unfold bindModes.
  change (_ || (_ =? "both")%string) with (binds_mysql (cfg_Mode c)) at 1.
  assert (forall svs rest b e mode addr, bound svs b -> bind listen mode addr b = inl e ->
    failed_bind (svs ++ (mode, addr) :: rest) e (Close (bt_server b))) as Hfail.
  { intros svs rest b e mode addr Hb He. pose proof (bind_spec svs b mode addr Hb) as H.
    rewrite He in H. destruct (bound_Close svs b Hb). by exists svs, (mode, addr), rest. }
  assert (match (if binds_mysql (cfg_Mode c) then bind listen "mysql" (cfg_Addr c) (mk_built [] [] fresh)
                 else inr (mk_built [] [] fresh)) with
    | inl e => forall rest, failed_bind
        ((if binds_mysql (cfg_Mode c) then [("mysql", cfg_Addr c)] else []) ++ rest) e (Close fresh)
    | inr b => bound (if binds_mysql (cfg_Mode c) then [("mysql", cfg_Addr c)] else []) b
    end) as H1.
  { destruct (binds_mysql _); [|apply bound_nil].
    pose proof (bind_spec [] _ "mysql" (cfg_Addr c) bound_nil) as H.
    destruct (bind _ _ _ _) as [e|b] eqn:E; [|exact H]. intros rest.
    exact (Hfail [] rest _ e _ _ bound_nil E). }
  destruct (if binds_mysql _ then _ else _) as [e|b]; [apply H1|].
  change (_ || (_ =? "both")%string) with (binds_postgres (cfg_Mode c)).
  destruct (binds_postgres _); [|by rewrite app_nil_r].
  pose proof (bind_spec _ b "postgres" (cfg_PostgresAddr c) H1) as H.
  destruct (bind _ _ _ _) as [e|b'] eqn:E; [|done]. by apply (Hfail _ []).
Qed.
End starting.

(** ** The properties of the configuration and of the server *)

(** C37: a configuration is loaded exactly when it makes sense, and is then complete.
    [defaults] accepts the configurations whose mode is empty or known, whose
    timeout is not negative and that have both a certificate and a key or none; it
    leaves one with a known mode, addresses, a user and a positive timeout; it
    keeps every field that was set; and doing it again, as [NewServer] does,
    changes nothing. *)
Theorem defaults_complete c :
  ((defaults c).1 = None <-> acceptable c)
  /\ ((defaults c).1 = None ->
      let c' := (defaults c).2 in
      complete c' /\ kept (cfg_Mode c) (cfg_Mode c') /\ kept (cfg_Addr c) (cfg_Addr c')
      /\ kept (cfg_PostgresAddr c) (cfg_PostgresAddr c') /\ kept (cfg_User c) (cfg_User c')
      /\ (cfg_QueryTimeoutSeconds c <> 0 ->
          cfg_QueryTimeoutSeconds c' = cfg_QueryTimeoutSeconds c)
      /\ cfg_Password c' = cfg_Password c /\ cfg_Milvus c' = cfg_Milvus c
      /\ defaults c' = (None, c')).
Proof.
  split; [split; [apply defaults_accepts|intros H; by rewrite defaults_acceptable]|].
  intros H%defaults_accepts. rewrite defaults_acceptable by done. cbn [snd].
  pose proof (filled_complete c H) as Hc. split_and!; try done; try (intros ?; by apply orElse_id).
  - intros Ht. cbn. by rewrite (proj2 (Z.eqb_neq _ _) Ht).
  - rewrite defaults_acceptable by by apply complete_acceptable. by rewrite filled_id.
Qed.

Lemma defaults_complete_witness :
  complete (defaults (mk_Config "both" "" "" "s3cret" "" "" 0 "" (mk_MilvusConfig "" "" "" false "")
    "" "")).2.
Proof.
  refine (proj1 (proj2 (defaults_complete (mk_Config "both" "" "" "s3cret" "" "" 0 ""
    (mk_MilvusConfig "" "" "" false "") "" "")) _)). reflexivity.
Defined.

(** C38: a server starts with the listeners of its mode, or keeps none.  When
    [NewServer] succeeds, the modes and addresses of its listeners are, in order,
    those of the configured mode ([mysql] on the MySQL address, [postgres] on the
    PostgreSQL one, both for [both]), each address was free when it was bound, all
    of them are open, so that [Run] starts a loop per listener, and it speaks TLS
    exactly when there is a certificate.  When it fails, either the configuration
    or the certificate is refused before anything is bound, or an address is; in
    every case all the listeners that were opened have been closed. *)
Theorem NewServer_listens load listen cfg :
  match NewServer load listen cfg with
  | Started c b tls =>
      defaults cfg = (None, c)
      /\ zip (bt_modes b) (bt_addrs b)
         = (if decide (cfg_Mode c = "both")
            then [("mysql", cfg_Addr c); ("postgres", cfg_PostgresAddr c)]
            else if decide (cfg_Mode c = "mysql") then [("mysql", cfg_Addr c)]
            else [("postgres", cfg_PostgresAddr c)])
      /\ length (bt_modes b) = length (bt_addrs b)
      /\ (forall i addr, bt_addrs b !! i = Some addr -> listen (take i (bt_addrs b)) addr = None)
      /\ startLoops (bt_server b) = running (length (bt_addrs b))
      /\ (tls = true <-> cfg_TLSCert c <> "")
  | Failed e s =>
      (forall i open, sv_open s !! i = Some open -> open = false)
      /\ ((sv_open s = [] /\ ((defaults cfg).1 = Some e \/
              load (cfg_TLSCert (defaults cfg).2) (cfg_TLSKey (defaults cfg).2) = Some e))
          \/ failed_bind listen (services (defaults cfg).2) e s)
  end.
Proof.
  unfold NewServer. destruct (defaults cfg) as [[e|] c] eqn:E; cbn [fst snd].
  { split; [by intros []|]. left. auto. }
  cbv zeta. destruct (if negb _ then _ else _) as [e|] eqn:El.
  { split; [by intros []|]. left. split; [done|]. right. by destruct (negb _). }
  assert (acceptable cfg) as Ha by (apply defaults_accepts; by rewrite E).
  rewrite defaults_acceptable in E by done. injection E as <-.
  destruct (filled_complete cfg Ha) as [Hm _].
  pose proof (bindModes_spec listen _ (negb (cfg_TLSCert (filled cfg) =? "")%string) Hm) as H.
  destruct (bindModes _ _ _ _) as [c b tls|e s].
  - destruct H as (-> & -> & [Hmo Had Hs Hf]). rewrite Hmo, Had, !length_map.
    rewrite zip_fst_snd. split_and!; [done| |done| |done|rewrite negb_true_iff; apply String.eqb_neq].
    + unfold services. by repeat case_match.
    + intros i addr. rewrite list_lookup_fmap, fmap_Some. intros (sv & Hsv & ->).
      rewrite <- fmap_take. by apply Hf.
  - split; [|by right]. intros i o Ho. destruct H as (before & sv & after & _ & _ & Hopen & _).
    rewrite Hopen in Ho. by apply lookup_replicate in Ho as [-> _].
Qed.

(** C13: a closed server serves nothing more.  At any time after [Close], whatever
    goroutines were doing when it ran: every connection that still has a goroutine
    has had its context cancelled; those on the table are closed; no listener is
    open; and nothing that happens later accepts a connection or starts a
    goroutine, not even for a connection accepted just before. *)
Theorem Close_reaches_all n s :
  rtc step (running n) s -> sv_closed s = true ->
  (forall co p, sv_gor s !! co = Some p -> co ∈ sv_cancelled s)
  /\ sv_table s ⊆ sv_shut s
  /\ (forall i b, sv_open s !! i = Some b -> b = false)
  /\ forall s', rtc step s s' -> sv_next s' = sv_next s /\ dom (sv_gor s') ⊆ dom (sv_gor s).
Proof.
  intros Hr Hc. pose proof (inv_reachable n s Hr) as Hs.
  destruct (inv_closed _ _ Hs Hc) as [H1 H2]. split_and!; [|done| |].
  - intros co p Hp. destruct (serving p) eqn:E; [|by eapply inv_cancelled].
    apply H1, (inv_table _ _ Hs). exists p. by destruct p.
  - intros i b. by apply (closed_listener n).
  - intros s' [k Hk]%rtc_nsteps. by destruct (closed_steps n k s s' Hs Hc Hk) as (_ & ? & ? & _).
Qed.

Definition sampleAccepted : server := acceptConn 0 (running 1).
Definition sampleClosed : server := Close sampleAccepted.
Lemma sampleClosed_reachable : rtc step (running 1) sampleClosed.
Proof.
  eapply rtc_l; [right; by apply (step_accept _ 0)|].
  eapply rtc_l; [right; by apply step_close|]. apply rtc_refl.
Qed.
Lemma Close_reaches_all_witness :
  sv_next (registerConn 0 0 OnMilvus sampleClosed) = 1%nat /\ sv_gor (registerConn 0 0 OnMilvus sampleClosed) = ∅.
Proof.
  destruct (Close_reaches_all 1 sampleClosed sampleClosed_reachable eq_refl) as (_ & _ & _ & H).
  destruct (H (registerConn 0 0 OnMilvus sampleClosed)) as [H1 H2].
  { apply rtc_once. left. by apply (step_register sampleClosed 0 0). }
  split; [exact H1|]. apply dom_empty_inv_L. apply set_eq_subseteq. split; [exact H2|apply empty_subseteq].
Defined.

(** C15: [Run] returns only when nothing is left.  When [Run] has returned, every
    loop has returned, no goroutine of a connection is running and the table is
    empty, every connection ever accepted has been closed, and the server, if it
    had a listener, is closed. *)
Theorem Run_leaves_nothing n s :
  rtc step (running n) s -> sv_done s = true ->
  (forall i p, sv_serves s !! i = Some p -> p = Returned)
  /\ sv_gor s = ∅ /\ sv_table s = ∅ /\ sv_wg s = 0%nat
  /\ (forall co, (co < sv_next s)%nat -> co ∈ sv_shut s)
  /\ (n <> 0%nat -> sv_closed s = true).
Proof.
  intros Hr Hd. pose proof (inv_reachable n s Hr) as Hs.
  destruct (inv_done _ _ Hs Hd) as [Hc Hg].
  assert (forall i p, sv_serves s !! i = Some p -> p = Returned) as Hret
    by (intros i p; by apply (done_returned n s Hs)).
  split_and!; try done.
  - apply set_eq. intros co. rewrite (inv_table _ _ Hs), Hg. set_solver.
  - by rewrite (inv_wg _ _ Hs), Hg.
  - intros co Hco. destruct (inv_accounted _ _ Hs co Hco) as [H|[H|[i Hi]]]; [done| |].
    + rewrite Hg in H. by destruct H.
    + by apply Hret in Hi.
  - intros Hn. destruct (sv_serves s) as [|p l] eqn:El.
    { pose proof (inv_serves _ _ Hs) as H. rewrite El in H. by destruct Hn. }
    destruct (inv_returned _ _ Hs) as [|[e He]]; [|done|].
    { rewrite El. rewrite (Hret 0%nat p eq_refl). set_solver. }
    pose proof (inv_count _ _ Hs) as Hcount. destruct (returned_count (sv_serves s)) as [Hle _].
    rewrite El in *. assert (length (sv_errs s) = 0%nat) as H0 by lia.
    apply nil_length_inv in H0. rewrite H0 in He. set_solver.
Qed.

(** A server of one listener, closed and wound down. *)
Definition sampleDone : server := runReturn (collect None [] (returnServe 0 None (Close (running 1)))).
Lemma sampleDone_reachable : rtc step (running 1) sampleDone.
Proof.
  eapply rtc_l; [right; by apply step_close|]. eapply rtc_l; [left; by apply (step_accept_closed _ 0)|].
  eapply rtc_l; [left; by apply step_collect|]. apply rtc_once. left. by apply step_return.
Qed.
Lemma Run_leaves_nothing_witness : sv_closed sampleDone = true.
Proof.
  destruct (Run_leaves_nothing 1 sampleDone sampleDone_reachable eq_refl) as (_ & _ & _ & _ & _ & H).
  apply H. discriminate.
Defined.

(** C14: a closed server winds down by itself.  From any state a closed server can
    be in, every execution is finite, with a bound computed from the state; and one
    in which the server's own goroutines can do nothing more is one where [Run] has
    returned.  No client has to leave and no call has to be answered for that: as
    [Close] closed every socket and cancelled every context, the connections that
    wait for either go on. *)
Theorem closed_winds_down n s :
  rtc step (running n) s -> sv_closed s = true ->
  (forall k s', nsteps step k s s' -> (k <= remaining s)%nat)
  /\ forall s', rtc step s s' -> (forall s'', ~ own_step s' s'') -> sv_done s' = true.
Proof.
  intros Hr Hc. pose proof (inv_reachable n s Hr) as Hs. split.
  - intros k s' H. destruct (closed_steps n k s s' Hs Hc H) as (_ & _ & _ & ?). lia.
  - intros s' H Hstuck. pose proof (inv_rtc n s s' Hs H) as Hs'.
    apply rtc_nsteps in H as [k H]. destruct (closed_steps n k s s' Hs Hc H) as (Hc' & _).
    destruct (sv_done s') eqn:E; [done|].
    destruct (closed_progress n s' Hs' Hc' E) as [s'' H'']. by destruct (Hstuck s'').
Qed.

(** A server closed while the protocol of a connection waits for Milvus. *)
Definition sampleBusy : server :=
  Close (setPhase 0 (Serving 0 OnMilvus) (setPhase 0 (Serving 1 OnClient)
    (registerConn 0 0 OnClient sampleAccepted))).
Lemma sampleBusy_reachable : rtc step (running 1) sampleBusy.
Proof.
  eapply rtc_l; [right; by apply (step_accept _ 0)|].
  eapply rtc_l; [left; by apply (step_register _ 0 0 OnClient)|].
  eapply rtc_l; [right; apply (step_receive _ 0 0 OnClient); [done|set_solver]|].
  eapply rtc_l; [left; by apply (step_read _ 0 0 OnMilvus)|].
  apply rtc_once. right. by apply step_close.
Qed.
Lemma closed_winds_down_witness :
  remaining sampleBusy = 7%nat
  /\ forall k s', nsteps step k sampleBusy s' -> (k <= 7)%nat.
Proof.
  split; [reflexivity|].
  exact (proj1 (closed_winds_down 1 sampleBusy sampleBusy_reachable eq_refl)).
Defined.
