(* ===== verification/Cmd.v ===== *)
(** * The command ([cmd/milvus-sql.go])

    [run]: flags (the loop of the [flag] package, for the three flags the command
    defines), the configuration, the level of the process's logger and its file,
    and the server.  The logger is state: it is replaced while a log file is in use
    and restored by a deferred call.  Opening the log file ([golog]) and how long
    [Run] serves are parameters; the goroutine that closes the server on a signal
    is a [step_close] of [Server.v].  The usage text is left out. *)
From S2P Require Export Strconv Server.
Open Scope Z_scope.
Open Scope go_scope.

(** ** Flags *)
Record flagValues := mk_flagValues { fl_config : string; fl_logLevel : string; fl_version : bool }.
Definition defaultFlags : flagValues := mk_flagValues "./config.yaml" "" false.

Definition dashByte : ascii := "-"%char.
Definition equalByte : ascii := "="%char.

(** [name], and the value after the first [=] that does not come first. *)
Fixpoint splitEqual (s : string) : string * option string :=
  match s with
  | EmptyString => ("", None)
  | String c s' =>
      if c =?c equalByte then ("", Some s')
      else let '(n, v) := splitEqual s' in (String c n, v)
  end.
Definition splitFlag (name : string) : string * option string :=
  match name with
  | EmptyString => ("", None)
  | String c s => let '(n, v) := splitEqual s in (String c n, v)
  end.

Section cmd.
Context `{U : UnicodeTables}.

(** The value of a string flag: given, or the next argument. *)
Definition stringFlag (name : string) (given : option string) (args : list string)
    : res (string * list string) :=
  match given, args with
  | Some v, _ => Ok (v, args)
  | None, v :: args' => Ok (v, args')
  | None, [] => Err ("flag needs an argument: -" +:+ name)
  end.

(** The value of the flag [-v]. *)
Definition boolFlag (name : string) (given : option string) : res bool :=
  match given with
  | None => Ok true
  | Some v =>
      match parseBool v with
      | Ok b => Ok b
      | _ => Err ("invalid boolean value " +:+ quote v +:+ " for -" +:+ name +:+ ": parse error")
      end
  end.

(** The flag at the head of the arguments, set; [None] at the end of the flags. *)
Definition parseOne (fl : flagValues) (args : list string)
    : res (option (flagValues * list string)) :=
  match args with
  | String d s as arg :: rest =>
      if negb (d =?c dashByte) || (s =?s "") then Ok None
      else
        let name := match s with
                    | String d' s' => if d' =?c dashByte then s' else s
                    | EmptyString => s
                    end in
        if arg =?s "--" then Ok None
        else if hasPrefix name "-" || hasPrefix name "=" || (name =?s "")
        then Err ("bad flag syntax: " +:+ arg)
        else
          let '(name, given) := splitFlag name in
          if name =?s "config" then
            '(v, rest) ← stringFlag name given rest;
            Ok (Some (mk_flagValues v (fl_logLevel fl) (fl_version fl), rest))
          else if name =?s "log-level" then
            '(v, rest) ← stringFlag name given rest;
            Ok (Some (mk_flagValues (fl_config fl) v (fl_version fl), rest))
          else if name =?s "v" then
            b ← boolFlag name given;
            Ok (Some (mk_flagValues (fl_config fl) (fl_logLevel fl) b, rest))
          else if (name =?s "help") || (name =?s "h") then Err "flag: help requested"
          else Err ("flag provided but not defined: -" +:+ name)
  | _ => Ok None
  end.

(** [flags.Parse]: every flag takes an argument away, so their number is enough fuel. *)
Fixpoint parseFlags (fuel : nat) (fl : flagValues) (args : list string) : res flagValues :=
  match fuel with
  | O => match args with [] => Ok fl | _ => Panic "out of fuel" end
  | S fuel =>
      r ← parseOne fl args;
      match r with
      | None => Ok fl
      | Some (fl', args') => parseFlags fuel fl' args'
      end
  end.

(** ** Logging *)
Inductive Level := LevelDebug | LevelInfo | LevelWarn | LevelError.

(** A logger of golog: its file, if any, and its level. *)
Record Logger := mk_Logger { lg_file : option string; lg_level : Level }.

(** [setLogLevel], on the global logger *)
Definition setLogLevel (level : string) (l : Logger) : Logger :=
  let w := toLower level in
  mk_Logger (lg_file l)
    (if w =?s "debug" then LevelDebug else if w =?s "warn" then LevelWarn
     else if w =?s "error" then LevelError else LevelInfo).

(** ** [run] *)
Section run.
(** The version text; YAML and files; the log file of a directory; and the server:
    certificates, listeners, and the result of serving with a logger. *)
Context (versionText : string).
Context (yamlUnmarshal : string -> string + Config) (readFile : string -> string + string).
Context (openLog : string -> option string).
Context (loadKeyPair : string -> string -> option string)
  (listen : list string -> string -> option string)
  (serve : Config -> built -> Logger -> option string).

(** What [run] leaves: its error, the global logger, the text it wrote and the log
    files it closed. *)
Record runResult := mk_runResult {
  rr_err : option string;
  rr_logger : Logger;
  rr_out : list string;
  rr_closedLogs : list (option string)
}.

(** From [NewServer] on. *)
Definition startServer (cfg : Config) (l : Logger) : option string :=
  match NewServer loadKeyPair listen cfg with
  | Failed e _ => Some e
  | Started cfg b _ => serve cfg b l
  end.

Definition run (args : list string) (l : Logger) : runResult :=
  match parseFlags (length args) defaultFlags args with
  | Err e => mk_runResult (Some e) l [] []
  | Panic w => mk_runResult (Some w) l [] []
  | Ok fl =>
      if fl_version fl then mk_runResult None l [versionText] []
      else
        match ParseConfigFile yamlUnmarshal readFile (fl_config fl) with
        | Err e => mk_runResult (Some ("configuration: " +:+ e)) l [] []
        | Panic w => mk_runResult (Some w) l [] []
        | Ok cfg =>
            let level := if negb (fl_logLevel fl =?s "") then fl_logLevel fl else cfg_LogLevel cfg in
            let old := setLogLevel level l in
            if negb (cfg_LogPath cfg =?s "") then
              match openLog (cfg_LogPath cfg) with
              | Some e => mk_runResult (Some e) old [] []
              | None =>
                  let new := setLogLevel level (mk_Logger (Some (cfg_LogPath cfg)) LevelInfo) in
                  (* deferred: close the logger in use, then restore the old one *)
                  mk_runResult (startServer cfg new) old [] [lg_file new]
              end
            else mk_runResult (startServer cfg old) old [] []
        end
  end.
End run.
End cmd.
