(* ===== verification/CmdSpec.v ===== *)
(** * Properties of the command

    Parsing the flags never runs out of fuel, and [run] leaves the process's logger
    in place whatever happens. *)
From S2P Require Export Cmd ServerSpec.
Open Scope Z_scope.
Open Scope go_scope.

Section flags.
Context `{U : UnicodeTables}.

Lemma stringFlag_rest name given args v rest :
  stringFlag name given args = Ok (v, rest) -> (length rest <= length args)%nat.
Proof. destruct given, args; cbn; intros H; inversion H; subst; cbn; lia. Qed.

Lemma stringFlag_no_panic name given args : is_panic (stringFlag name given args) = false.
Proof. by destruct given, args. Qed.
Lemma boolFlag_no_panic name given : is_panic (boolFlag name given) = false.
Proof. destruct given as [v|]; [|done]. cbn. by destruct (parseBool v). Qed.

Lemma parseOne_rest fl args fl' args' :
  parseOne fl args = Ok (Some (fl', args')) -> (length args' < length args)%nat.
Proof.
  unfold parseOne. destruct args as [|[|d s] rest]; try done.
  destruct (_ || _); [done|]. cbv zeta. destruct (_ =? "--")%string; [done|].
  destruct (_ || _); [done|]. destruct (splitFlag _) as [name given]. cbn [length].
  repeat destruct (_ =? _)%string; cbn [orb]; try done; intros H;
    apply bind_Ok in H as (x & Hx & H); try destruct x as [v r]; injection H as <- <-;
    try apply stringFlag_rest in Hx; lia.
Qed.
Lemma parseOne_no_panic fl args : is_panic (parseOne fl args) = false.
Proof.
  unfold parseOne. destruct args as [|[|d s] rest]; try done.
  destruct (_ || _); [done|]. cbv zeta. destruct (_ =? "--")%string; [done|].
  destruct (_ || _); [done|]. destruct (splitFlag _) as [name given].
  repeat destruct (_ =? _)%string; try done;
    (apply bind_no_panic; [apply stringFlag_no_panic || apply boolFlag_no_panic|]);
    intros x _; by try destruct x.
Qed.

(** The number of arguments is enough fuel, and more changes nothing. *)
Lemma parseFlags_fuel fuel fl args :
  (length args <= fuel)%nat ->
  is_panic (parseFlags fuel fl args) = false
  /\ parseFlags fuel fl args = parseFlags (length args) fl args.
Proof.
  revert fl args. induction fuel as [fuel IH] using lt_wf_ind. intros fl args Hl.
  destruct fuel as [|fuel]; [destruct args; [done|cbn in Hl; lia]|].
  destruct args as [|arg rest]; [done|]. cbn [length parseFlags] in *.
  pose proof (parseOne_no_panic fl (arg :: rest)) as Hp.
  destruct (parseOne fl (arg :: rest)) as [[[fl' args']|]|e|w] eqn:E; try done.
  cbn [mbind outcome_bind]. apply parseOne_rest in E. cbn [length] in E.
  destruct (IH fuel ltac:(lia) fl' args' ltac:(lia)) as [H1 ->].
  destruct (IH (length rest) ltac:(lia) fl' args' ltac:(lia)) as [H2 ->].
  split; [|done]. by destruct (IH (length args') ltac:(lia) fl' args' ltac:(lia)).
Qed.
End flags.

Section logger.
Context `{U : UnicodeTables} (versionText : string).
Context (yamlUnmarshal : string -> string + Config) (readFile : string -> string + string).
Context (openLog : string -> option string) (loadKeyPair : string -> string -> option string)
  (listen : list string -> string -> option string)
  (serve : Config -> built -> Logger -> option string).

Lemma ParseConfigFile_Ok name cfg :
  ParseConfigFile yamlUnmarshal readFile name = Ok cfg -> complete cfg.
Proof.
  unfold ParseConfigFile, ParseConfigData. intros H.
  apply bind_Ok in H as (data & _ & H). apply bind_Ok in H as (c & _ & H).
  destruct (defaults c) as [[e|] c'] eqn:E; [done|]. injection H as <-.
  assert (acceptable c) as Ha by (apply defaults_accepts; by rewrite E).
  rewrite defaults_acceptable in E by done. injection E as <-. by apply filled_complete.
Qed.

(** Whatever [run] meets, the logger in place when it returns is the one it found,
    its level apart, and a log file it opened is closed. *)
Lemma run_keeps_logger args l :
  let r := run versionText yamlUnmarshal readFile openLog loadKeyPair listen serve args l in
  lg_file (rr_logger r) = lg_file l
  /\ (rr_closedLogs r = [] \/ exists dir, dir <> "" /\ openLog dir = None
      /\ rr_closedLogs r = [Some dir]).
Proof.
  cbv zeta. unfold run. destruct (parseFlags _ _ _) as [fl|e|w]; [|by split; [|left]..].
  destruct (fl_version fl); [by split; [|left]|].
  destruct (ParseConfigFile _ _ _) as [cfg|e|w]; [|by split; [|left]..].
  cbv zeta. destruct (negb (cfg_LogPath cfg =? "")%string) eqn:Ed; [|by split; [|left]].
  destruct (openLog (cfg_LogPath cfg)) eqn:Eo; [by split; [|left]|].
  split; [done|]. right. exists (cfg_LogPath cfg). bool_to_prop. by split_and!.
Qed.
End logger.
